(* ===== verification/_CoqProject ===== *)
-Q . S2P
Prelude.v
Text.v
External.v
Errors.v
Types.v
Csn.v
Cookie.v
Nonce.v
Crypto.v
Tasks.v
Msgpack.v
Messages.v
Serde.v
ReferenceCodec.v
Boxes.v
Context.v
Signaling.v
SignalingSpec.v
SignalingSafe.v
Runs.v
Initiator.v
InitiatorSafe.v
Responder.v
ResponderSafe.v
Channel.v
Handshake.v
InitiatorProps.v
ResponderProps.v
HandshakeRuns.v
PeerSession.v
Protocol.v
Actions.v
Typing.v
Sealing.v
SendAll.v
Client.v
ClientProps.v
Transport.v
Pipe.v
TaskLoop.v
TaskLoopProps.v
Network.v
EndToEnd.v
ChatTask.v
Chat.v
ChatProps.v
ChatMain.v
Bindings.v
DataProps.v
Testing.v
UnitTests.v
ProtocolTests.v
