(* ===== verification/Prelude.v ===== *)
(** * saltyrtc-client: a verification development

    The library models the Rust crate saltyrtc-client (src/), a client for the
    SaltyRTC signaling protocol, and proves it correct.  A client connects to a
    server, authenticates it (server handshake), authenticates one peer through
    it (peer handshake), and then exchanges end-to-end encrypted task messages
    with that peer (task phase).  One side of a connection is the initiator, the
    other the responder.  The development also covers the C bindings
    (ffi/src/lib.rs) and the chat program (examples/chat/).

    ** Conventions

    A Rust function that returns [Result<A, E>] or may panic is a function to
    [outcome E A] ([Ok], [Err], [Panic]); a method on [&mut self] that also uses
    randomness or a hash order is a computation of the monad [M W S E A], which
    passes on the state [S] of the object and the state [W] of the outside world.
    Both are executable.  [wp m s Q] says that every run of [m] from [s] ends in
    an outcome and a state that satisfy [Q].  Integers of a fixed width are
    numbers of type [Z] with their range and wrap-around written out; bytes are
    numbers from 0 to 255; hash maps are finite maps, and the order in which a
    hash map is visited is chosen by the outside world.

    Code of other crates is a parameter: a class of operations, and a class of
    laws that states the documented behaviour the client relies on.  These are
    [ByteOrder], [Sodium] (boxes and keys), [Env] (randomness, hash order),
    [HexCodec], [Rmp] and [Rmps] (the MessagePack bytes of a value, and the codec
    of messages over them), [Sink] and [Stream] (futures),
    [WsClient] and [WsSink] (the WebSocket connection), [Mpsc] and
    [EventChannel] (channels), [Connection], [IterOk] and [WebSocketBuilder] (the
    connection seen from below, and how it is made), [Reactor] and [Allocator]
    (the C bindings), [ValueDebug], [ChatEnv], [Clap] (the command line parser) and
    [ChatHost] (logging, reactor, files and TLS; the chat).  External.v and
    ReferenceCodec.v contain executable instances that satisfy the laws, and the
    modules of witnesses those of the classes a file declares itself, so the
    hypotheses of every theorem can be met.  The laws do not promise that
    libsodium can be initialised: [sodium_init] may fail, [Initialised] is the
    assumption that it does not, and without it the theorems name the panic
    [init_failed].

    Futures that run concurrently are turn functions, one item of their stream
    per turn, over a shared state; a step relation lets any of them that still
    runs take the next turn.  The reactor runs one future at a time, and locks
    are not held across turns.

    ** Files

    Data model.
    - Prelude.v: outcomes, the monad, its [wp] rules and tactics, machine
      integers, generic lemmas.
    - Text.v: strings as UTF-8 bytes.
    - External.v: the parameters, their laws, the reference instances.
    - Errors.v, Types.v, Csn.v, Cookie.v, Nonce.v, Crypto.v, Tasks.v,
      Messages.v, Boxes.v: close_code.rs and errors.rs; types.rs and state.rs;
      csn.rs and helpers.rs; cookie.rs; nonce.rs and send_error.rs;
      crypto_types.rs; tasks.rs; messages.rs; boxes.rs.
    - Serde.v: the codec serde derives for the messages, between a message and
      a MessagePack value, with its round trip and its types.
    - Msgpack.v, ReferenceCodec.v: an executable MessagePack encoder and decoder
      with its laws, the instance of [Rmp] and so of [Rmps].
    - DataProps.v: the properties of the data model.

    The protocol.
    - Context.v: context.rs, the state kept about each peer.
    - Signaling.v: the trait [Signaling] of protocol/mod.rs, its default
      methods: nonce validation, dispatch, server handshake, task messages.
    - Initiator.v and Responder.v: [InitiatorSignaling] and
      [ResponderSignaling] of protocol/mod.rs.
    - SignalingSpec.v, SignalingSafe.v: the invariant of the common state, the
      interface [SignalingSafe] a role has to implement, and what the default
      methods then guarantee.  InitiatorSafe.v and ResponderSafe.v implement it.
    - Runs.v: the step relation of a client and what holds along every run.
    - Actions.v: the interface [SignalingActions] and the actions a message can
      cause in each phase.
    - Typing.v: the types of the program: the interfaces [BaseTyped] and
      [SignalingTyped], a calculus for computations that keep a state well typed,
      and both roles as instances.
    - Sealing.v: the messages each role sends, with their keys ([to_server],
      [initiator_sends], [responder_sends]), and the interface [SignalingSealed],
      which both roles implement.
    - Channel.v: the end of a session in the task phase, and that a message
      sealed at one end is accepted and decoded at the other.
    - Handshake.v: a complete handshake executed on the reference instances.
    - HandshakeRuns.v, PeerSession.v: the run of each handler of the peer
      handshake on the message it waits for, and their composition: two clients
      whose draws of keys, cookies and sequence numbers meet stated conditions
      ([offered], [awaits], [distinct_secrets]) complete the handshake and are
      joined by a channel.
    - InitiatorProps.v, ResponderProps.v, Protocol.v: the properties.

    The client.
    - SendAll.v: send_all.rs, the future that moves a stream into a sink.
    - Client.v, ClientProps.v: lib.rs up to the handshake: builder, client
      methods, WebSocket messages, the loop of [do_handshake] and the timer
      around it.
    - Transport.v: [connect] of lib.rs; and [SendAll] over the sink of a
      connection as an implementation of the interface [WsClient].
    - TaskLoop.v, TaskLoopProps.v: [task_loop] of lib.rs, its reader, transformer
      and writer over their channels.
    - Pipe.v, Network.v: an abstract pipe, and two task loops joined by a server
      that relays, which implement a pipe in each direction.
    - EndToEnd.v: the peer handshake followed by the task loops.

    The programs around the client.
    - ChatTask.v, Chat.v, ChatProps.v: chat_task.rs and main.rs of the example:
      the chat task, the setup of the client, the three loops beside the task
      loop and the main future.
    - ChatMain.v: the rest of main.rs: command line, logging and TLS, what is
      printed, the connection and the handshakes, up to the start of the loops.
    - Bindings.v: ffi/src/lib.rs over a heap of boxed objects.

    The tests of the code.
    - Testing.v: test_helpers.rs and the assertions of a test.
    - UnitTests.v, ProtocolTests.v: the tests inside the source files and those
      of protocol/tests/, 111 in all, as executable definitions; they pass on the
      model from several states of the random source.

    ** What the theorems show

    - Safety of the roles: every state a client reaches from its constructor by
      arbitrary received bytes and calls of the user satisfies the invariant of
      its role, and no input makes it panic except in places the code contains
      on purpose: the assertions on the random source, the unimplemented
      drop-responder branch and, where libsodium cannot be initialised, the
      initialisation.
    - Protection: every box a client sends is one of the messages of the
      protocol, for the right receiver and under the right keys, and what the
      task sends is sealed as it is.  (Typing.v adds that the fields of a client
      stay within their Rust types, and that what it sends parses.)
    - Sessions: keys, cookies, identity and phase never move back; the server's
      sequence numbers are accepted in strictly increasing order, a replayed
      message is ignored, outgoing nonces are distinct, and a server-auth message
      is accepted only with the repeated cookie and, where the key is known, the
      signed keys.
    - Handlers: the outcome of each handshake message on every branch, path
      cleaning, the choice of the task, and a complete handshake executed.
    - Composition: two honest clients that share a task complete the peer
      handshake if their random draws differ and their sequence numbers have
      room (a first number that carries into the overflow number is refused, see
      [first_message_refused]); their task loops then refine a pipe in each
      direction, so that task messages arrive in order, unchanged and at most
      once in every interleaving, and can all arrive.  This is for tasks that send
      what the peer's task supports ([sendable]); the receiver drops a value of
      another type.
    - The task loop: in which states and how it can fail, and that a disconnect
      ends it in a bounded number of turns with a sealed close message and a
      WebSocket Close that carry the reason asked for.
    - The transport: the URL both clients of a session ask for, when a connection
      is used, and that [SendAll] implements what the loops rely on.
    - The chat: nicknames are exchanged; the command an initiator prints, read by
      a shell and parsed, starts a responder that fits it; the ways [main] can end
      before its loops start; from then on, in every interleaving, nothing is lost
      between task loop and interface until a disconnection ends the receive
      loop, and nothing is made up.  The C bindings: a caller that keeps to
      the pointers it owns, and only such a caller, is free of undefined
      behaviour and of leaks.
    - Codecs: messages, nonces, boxes, identifiers and sealed messages survive
      the wire, with the exact domain on which parsing succeeds.
    - The driver: the handshake loop terminates, sends the answers in order and
      succeeds only in the task phase or on a Close message, also when the timer
      cuts it off it leaves a good state; [SendAll] loses and reorders nothing.
    - Behaviours that differ from the comments or the documentation are theorems
      of their own.

    ** Fuel

    Two loops of the code are not structural and take fuel: [do_handshake] (one
    unit per incoming message and one more, [handshake_driver_outcome];
    [chat_main] hands it on, [chat_main_outcome]) and
    [poll_loop] of SendAll.v (one unit per item left and one more,
    [send_poll_exact]); the theorems show that this much is enough.  [drive] of
    SendAll.v bounds the number of polls by one more than the times the sink is
    still busy ([send_all_completes]).  The task loop and the network have no
    fuel: they are step relations, and [disconnect_completes] bounds their runs.

    ** Not modelled

    - Log output and the texts of third-party errors, which nothing depends on.
    - Lock poisoning: it needs a panic in another thread while a lock is held.
    - The TLS and WebSocket handshake inside [connect], the command line parser,
      the log and TLS libraries: other crates, which are parameters.
    - The downcasts of task objects, and [UnboundedChannel], which is its two
      ends: a channel of the model is shared by both.
    - The width of the encoding of an integer inside a MessagePack value: a value
      holds the integer only (see Serde.v).
    - The widgets and the layout of the terminal interface of the chat; what the
      user types enters as a step, what is shown is a list of lines.
    - Of the tests: those that compare with output of libsodium computed
      elsewhere, the one on freed memory and an empty one. *)

From stdpp Require Export base gmap list strings fin_maps option pretty sorting.
From Stdlib Require Export ZArith Lia.
#[global] Open Scope Z_scope.
#[global] Set Default Goal Selector "!".

(** ** Results, errors and panics

    A Rust computation of type [Result<A, E>] returns [Ok] or [Err], or
    unwinds with a panic ([unwrap] on [None], a failed [assert!],
    [unimplemented!]). *)

Inductive outcome (E A : Type) : Type :=
  | Ok (a : A)
  | Err (e : E)
  | Panic (msg : string).
Arguments Ok {E A} a.
Arguments Err {E A} e.
Arguments Panic {E A} msg.

#[global] Instance outcome_ret E : MRet (outcome E) := λ A a, Ok a.
#[global] Instance outcome_bind E : MBind (outcome E) := λ A B f o,
  match o with Ok a => f a | Err e => Err e | Panic m => Panic m end.
#[global] Instance outcome_fmap E : FMap (outcome E) := λ A B f o,
  match o with Ok a => Ok (f a) | Err e => Err e | Panic m => Panic m end.

(** [Option::ok_or_else]. *)
Definition ok_or {E A} (o : option A) (e : E) : outcome E A :=
  match o with Some a => Ok a | None => Err e end.

(** [Result::map_err]. *)
Definition map_err {E E' A} (f : E → E') (o : outcome E A) : outcome E' A :=
  match o with Ok a => Ok a | Err e => Err (f e) | Panic m => Panic m end.

(** [Option::unwrap] and [Option::expect]. *)
Definition expect {E A} (o : option A) (msg : string) : outcome E A :=
  match o with Some a => Ok a | None => Panic msg end.

Definition is_ok {E A} (o : outcome E A) : bool :=
  match o with Ok _ => true | _ => false end.
Definition is_panic {E A} (o : outcome E A) : bool :=
  match o with Panic _ => true | _ => false end.

(** ** The effect monad

    A method with receiver [&mut self] is a function of the object's state
    [S] and of the state [W] of the outside world (entropy source, iteration
    order of the hash tables).  The state reached is kept when the method
    returns an error: Rust does not roll back. *)

Definition M (W S E A : Type) : Type := S → W → outcome E A * S * W.

Section monad.
Context {W S E : Type}.

#[global] Instance M_ret : MRet (M W S E) := λ A a s w, (Ok a, s, w).
#[global] Instance M_bind : MBind (M W S E) := λ A B f m s w,
  match m s w with
  | (Ok a, s', w') => f a s' w'
  | (Err e, s', w') => (Err e, s', w')
  | (Panic msg, s', w') => (Panic msg, s', w')
  end.

Definition mget : M W S E S := λ s w, (Ok s, s, w).
Definition mput (s' : S) : M W S E unit := λ _ w, (Ok tt, s', w).
Definition mmodify (f : S → S) : M W S E unit := λ s w, (Ok tt, f s, w).
Definition throw {A} (e : E) : M W S E A := λ s w, (Err e, s, w).
Definition panic {A} (msg : string) : M W S E A := λ s w, (Panic msg, s, w).
Definition mlift {A} (o : outcome E A) : M W S E A := λ s w, (o, s, w).
Definition mworld {A} (f : W → A * W) : M W S E A :=
  λ s w, let '(a, w') := f w in (Ok a, s, w').
End monad.

(** [match f(..) { Ok(..) => .., Err(..) => .. }]: the error becomes a value. *)
Definition mtry {W S E E' A} (m : M W S E A) : M W S E' (A + E) := λ s w,
  match m s w with
  | (Ok a, s', w') => (Ok (inl a), s', w')
  | (Err e, s', w') => (Ok (inr e), s', w')
  | (Panic msg, s', w') => (Panic msg, s', w')
  end.

(** [Result::map_err] on an effectful computation. *)
Definition mmap_err {W S E E' A} (f : E → E') (m : M W S E A) : M W S E' A :=
  λ s w, let '(o, s', w') := m s w in (map_err f o, s', w').

(** A [for] loop over a list, threading an accumulator. *)
Fixpoint mfor {W S E A B} (f : B → A → M W S E B) (acc : B) (l : list A) : M W S E B :=
  match l with
  | [] => mret acc
  | a :: l' => acc' ← f acc a; mfor f acc' l'
  end.

(** The three components of a run. *)
Definition out {W S E A} (r : outcome E A * S * W) : outcome E A := r.1.1.
Definition post {W S E A} (r : outcome E A * S * W) : S := r.1.2.
Definition world_of {W S E A} (r : outcome E A * S * W) : W := r.2.

(** ** Program logic

    [wp m s Q]: the run of [m] from state [s], in any world, ends in an outcome
    and a state satisfying [Q], whether it succeeds, fails or panics. *)

Definition wp {W S E A} (m : M W S E A) (s : S) (Q : outcome E A → S → Prop) : Prop :=
  ∀ w, Q (out (m s w)) (post (m s w)).

(** [preserves I m]: [m] keeps the invariant [I] on every path. *)
Definition preserves {W S E A} (I : S → Prop) (m : M W S E A) : Prop :=
  ∀ s, I s → wp m s (λ _, I).

Section wp.
Context {W S E : Type}.
Implicit Types s : S.

Lemma wp_mono {A} (m : M W S E A) s (Q Q' : outcome E A → S → Prop) :
  wp m s Q → (∀ o s', Q o s' → Q' o s') → wp m s Q'.
Proof. intros Hm HQ w. apply HQ, Hm. Qed.

Lemma wp_and {A} (m : M W S E A) s (Q Q' : outcome E A → S → Prop) :
  wp m s Q → wp m s Q' → wp m s (λ o s', Q o s' ∧ Q' o s').
Proof. intros HQ HQ' w. split; [apply HQ|apply HQ']. Qed.

Lemma wp_ret {A} (a : A) s (Q : outcome E A → S → Prop) :
  Q (Ok a) s → wp (mret a : M W S E A) s Q.
Proof. intros HQ w. exact HQ. Qed.
Lemma wp_throw {A} e s (Q : outcome E A → S → Prop) :
  Q (Err e) s → wp (throw e : M W S E A) s Q.
Proof. intros HQ w. exact HQ. Qed.
Lemma wp_panic {A} msg s (Q : outcome E A → S → Prop) :
  Q (Panic msg) s → wp (panic msg : M W S E A) s Q.
Proof. intros HQ w. exact HQ. Qed.
Lemma wp_lift {A} o s (Q : outcome E A → S → Prop) :
  Q o s → wp (mlift o : M W S E A) s Q.
Proof. intros HQ w. exact HQ. Qed.
Lemma wp_get s (Q : outcome E S → S → Prop) :
  Q (Ok s) s → wp (mget : M W S E S) s Q.
Proof. intros HQ w. exact HQ. Qed.
Lemma wp_put s' s (Q : outcome E unit → S → Prop) :
  Q (Ok tt) s' → wp (mput s' : M W S E unit) s Q.
Proof. intros HQ w. exact HQ. Qed.
Lemma wp_modify f s (Q : outcome E unit → S → Prop) :
  Q (Ok tt) (f s) → wp (mmodify f : M W S E unit) s Q.
Proof. intros HQ w. exact HQ. Qed.
Lemma wp_world {A} (f : W → A * W) s (Q : outcome E A → S → Prop) :
  (∀ w, Q (Ok (f w).1) s) → wp (mworld f : M W S E A) s Q.
Proof. intros HQ w. specialize (HQ w). unfold mworld, out, post. by destruct (f w). Qed.

(** The continuation of a sequence runs only after a success. *)
Definition wp_then {A B} (k : A → M W S E B) (Q : outcome E B → S → Prop)
    (o : outcome E A) (s : S) : Prop :=
  match o with
  | Ok a => wp (k a) s Q
  | Err e => Q (Err e) s
  | Panic msg => Q (Panic msg) s
  end.

Lemma wp_bind {A B} (m : M W S E A) (k : A → M W S E B) s Q :
  wp m s (wp_then k Q) → wp (x ← m; k x) s Q.
Proof.
  intros Hm w. specialize (Hm w). unfold mbind, M_bind, out, post in *.
  destruct (m s w) as [[[a|e|msg] s'] w']; simpl in *; auto. apply (Hm w').
Qed.

Lemma wp_try {E' A} (m : M W S E' A) s (Q : outcome E (A + E') → S → Prop) :
  wp m s (λ o s', match o with
                  | Ok a => Q (Ok (inl a)) s'
                  | Err e => Q (Ok (inr e)) s'
                  | Panic msg => Q (Panic msg) s'
                  end) →
  wp (mtry m) s Q.
Proof.
  intros Hm w. specialize (Hm w). unfold mtry, out, post in *.
  by destruct (m s w) as [[[a|e|msg] s'] w'].
Qed.

(** A loop keeps an invariant on the state and the accumulator that each
    iteration keeps; a failing iteration ends the loop. *)
Lemma wp_for {A B} (f : B → A → M W S E B) (I : B → S → Prop) (Q : outcome E B → S → Prop) l :
  (∀ b s a, a ∈ l → I b s → wp (f b a) s (λ o s', match o with Ok b' => I b' s' | _ => True end ∧
    match o with Err e => Q (Err e) s' | Panic m => Q (Panic m) s' | Ok _ => True end)) →
  (∀ b s, I b s → Q (Ok b) s) →
  ∀ acc s, I acc s → wp (mfor f acc l) s Q.
Proof.
  intros Hf HQ. induction l as [|a l IH]; intros acc s Hs; simpl.
  - apply wp_ret, HQ, Hs.
  - apply wp_bind. eapply wp_mono; [apply Hf; [by left|exact Hs]|].
    intros [b|e|msg] s' [HI Hb]; simpl in *; auto.
    apply IH; [|done]. intros b0 s0 a0 Ha0. apply Hf. by right.
Qed.

(** Facts of the state after a successful sequence. *)
Lemma bind_Ok {A B} (m : M W S E A) (k : A → M W S E B) s w b s2 w2 :
  (x ← m; k x) s w = (Ok b, s2, w2) →
  ∃ a s1 w1, m s w = (Ok a, s1, w1) ∧ k a s1 w1 = (Ok b, s2, w2).
Proof.
  unfold mbind, M_bind. destruct (m s w) as [[[a|e|msg] s1] w1]; [|done..].
  intros H. by exists a, s1, w1.
Qed.
Lemma bind_run {A B} (m : M W S E A) (k : A → M W S E B) s w a s1 w1 :
  m s w = (Ok a, s1, w1) → (x ← m; k x) s w = k a s1 w1.
Proof. unfold mbind, M_bind. by intros ->. Qed.

Lemma wp_bind_assoc {A B C} (m : M W S E A) (k : A → M W S E B) (h : B → M W S E C) s Q :
  wp (y ← (x ← m; k x); h y) s Q → wp (x ← m; y ← k x; h y) s Q.
Proof.
  intros Hw w. specialize (Hw w). unfold mbind, M_bind in *.
  by destruct (m s w) as [[[a|e|msg] s'] w'].
Qed.
End wp.

(** One step of symbolic execution. *)
Ltac wp_step :=
  lazymatch goal with
  | |- wp (mbind _ _) _ _ => apply wp_bind
  | |- wp (mret _) _ _ => apply wp_ret
  | |- wp (throw _) _ _ => apply wp_throw
  | |- wp (panic _) _ _ => apply wp_panic
  | |- wp (mlift _) _ _ => apply wp_lift
  | |- wp mget _ _ => apply wp_get
  | |- wp (mput _) _ _ => apply wp_put
  | |- wp (mmodify _) _ _ => apply wp_modify
  | |- wp (mworld _) _ _ => apply wp_world; intros ?
  | |- wp (mtry _) _ _ => apply wp_try
  | |- wp (if ?b then _ else _) _ _ => let H := fresh "Hb" in destruct b eqn:H
  | |- wp_then _ _ (Ok _) _ => cbn [wp_then]
  | |- wp_then _ _ (Err _) _ => cbn [wp_then]
  | |- wp_then _ _ (Panic _) _ => cbn [wp_then]
  | |- wp_then _ _ (ok_or ?o _) _ =>
      let H := fresh "Ho" in destruct o eqn:H; cbn [ok_or wp_then]
  | |- wp_then _ _ (expect ?o _) _ =>
      let H := fresh "Ho" in destruct o eqn:H; cbn [expect wp_then]
  end.

Create HintDb salty discriminated.

(** ** Machine integers

    A [u8], [u16], [u32] or [u64] is a [Z] in range. *)

Definition in_width (bits : Z) (z : Z) : Prop := 0 ≤ z < 2 ^ bits.
Abbreviation u8 := (in_width 8).
Abbreviation u16 := (in_width 16).
Abbreviation u32 := (in_width 32).
Abbreviation u64 := (in_width 64).

#[global] Instance in_width_dec bits z : Decision (in_width bits z).
Proof. unfold in_width. apply _. Defined.

(** Wrap-around of a [bits]-wide unsigned integer. *)
Definition wrap (bits z : Z) : Z := z mod 2 ^ bits.

(** [u{bits}::checked_add]. *)
Definition checked_add (bits a b : Z) : option Z :=
  if bool_decide (a + b < 2 ^ bits) then Some (a + b) else None.

Lemma wrap_id bits z : in_width bits z → wrap bits z = z.
Proof. apply Z.mod_small. Qed.

Lemma checked_add_Some bits a b c :
  checked_add bits a b = Some c ↔ c = a + b ∧ a + b < 2 ^ bits.
Proof. unfold checked_add. case_bool_decide; split; [intros [= <-]|intros [-> ?]|..]; (done || lia). Qed.
Lemma checked_add_None bits a b :
  checked_add bits a b = None ↔ 2 ^ bits ≤ a + b.
Proof. unfold checked_add. case_bool_decide; split; (done || lia). Qed.

(** [in_width] at a concrete width is a pair of linear bounds. *)
Lemma u8_iff z : u8 z ↔ 0 ≤ z < 256.
Proof. done. Qed.
Lemma u16_iff z : u16 z ↔ 0 ≤ z < 65536.
Proof. done. Qed.
Lemma u32_iff z : u32 z ↔ 0 ≤ z < 4294967296.
Proof. done. Qed.
Lemma u64_iff z : u64 z ↔ 0 ≤ z < 18446744073709551616.
Proof. done. Qed.

Ltac unwidth := rewrite ?u8_iff, ?u16_iff, ?u32_iff, ?u64_iff in *.

(** ** Byte strings *)

Abbreviation bytes := (list Z).

Definition wf_bytes (bs : bytes) : Prop := Forall (λ b, u8 b) bs.
(** An array [[u8; n]]. *)
Definition wf_array (n : nat) (bs : bytes) : Prop := length bs = n ∧ wf_bytes bs.

#[global] Instance wf_bytes_dec bs : Decision (wf_bytes bs).
Proof. unfold wf_bytes. apply _. Defined.
#[global] Instance wf_array_dec n bs : Decision (wf_array n bs).
Proof. unfold wf_array. apply _. Defined.

(** The slice [&bytes[a..b]]. *)
Definition slice (a b : nat) (bs : bytes) : bytes := take (b - a) (drop a bs).

Lemma length_slice a b bs : (b ≤ length bs)%nat → length (slice a b bs) = (b - a)%nat.
Proof. intros. unfold slice. rewrite length_take, length_drop. lia. Qed.
Lemma wf_slice a b bs : wf_bytes bs → wf_bytes (slice a b bs).
Proof. intros. by apply Forall_take, Forall_drop. Qed.
Lemma wf_array_slice a b n bs :
  wf_array n bs → (b ≤ n)%nat → wf_array (b - a) (slice a b bs).
Proof. intros [<- H] Hb. split; [by apply length_slice|by apply wf_slice]. Qed.
Lemma wf_bytes_app bs1 bs2 : wf_bytes (bs1 ++ bs2) ↔ wf_bytes bs1 ∧ wf_bytes bs2.
Proof. apply Forall_app. Qed.

#[export] Hint Resolve wf_slice : salty.

(** An explicit byte list is well formed when its elements are. *)
Ltac byte_list :=
  unfold wf_bytes; repeat apply Forall_cons_2; try first [apply Forall_nil_2 | done].

(** The bounds of the elements of an explicit byte list. *)
Ltac inv_bytes H :=
  unfold wf_bytes in H; rewrite ?Forall_cons in H; decompose [and] H; clear H.

(** ** Finite maps *)

Lemma map_size_1_singleton `{Countable K} {A} (m : gmap K A) i x :
  m !! i = Some x → (size m ≤ 1)%nat → m = {[i := x]}.
Proof.
  intros Hi Hs. assert (delete i m = ∅) as He.
  { apply map_size_empty_inv. rewrite map_size_delete_Some by eauto. lia. }
  by rewrite <- (insert_delete_id m i x Hi), He.
Qed.

Lemma map_size_delete_le `{Countable K} {A} (m : gmap K A) k :
  (size (delete k m) ≤ size m)%nat.
Proof.
  destruct (m !! k) eqn:Hk; [rewrite map_size_delete_Some by eauto; lia|].
  by rewrite delete_id.
Qed.

(** ** Formatting *)

Definition hex_digit (n : Z) : string :=
  match n with
  | 0 => "0" | 1 => "1" | 2 => "2" | 3 => "3" | 4 => "4" | 5 => "5" | 6 => "6" | 7 => "7"
  | 8 => "8" | 9 => "9" | 10 => "a" | 11 => "b" | 12 => "c" | 13 => "d" | 14 => "e"
  | _ => "f"
  end.

(** [format!("{:#04x}", b)] of a [u8]. *)
Definition fmt_hex04 (b : Z) : string :=
  "0x" +:+ hex_digit (b / 16) +:+ hex_digit (b mod 16).

(** [format!("{}", n)] of an unsigned integer. *)
Definition fmt_dec (n : Z) : string := pretty n.

(** The double quote character, for the messages that contain it. *)
Definition dquote : string := String (Ascii.ascii_of_nat 34) EmptyString.

(** ** Proof automation *)

(** Case analysis on every [match] and [if] of the goal or of the hypotheses,
    with the impossible branches closed. *)
Ltac crush_match := repeat (case_match; simplify_eq/=; try done).

(** A decidable proposition on closed terms, by evaluation. *)
Ltac by_compute := refine (bool_decide_unpack _ _); vm_compute; exact I.

(** Evaluate a monadic run down to the outcome, state and world. *)
Ltac mred :=
  unfold mbind, mret, M_bind, M_ret, mget, mput, mmodify, throw, panic, mlift,
    mworld, mtry, mmap_err, out, post, world_of in *; simpl in *.
