(* ===== verification/Text.v ===== *)
(** * Strings

    A Rust [String] is the list of its bytes, which are valid UTF-8.  The file has
    the conversions between strings and bytes, the UTF-8 check and the strings
    that can be written with a length of 32 bits. *)

From Stdlib Require Import Ascii.
From S2P Require Import Prelude.

Definition char_code (c : ascii) : Z := Z.of_N (N_of_ascii c).
Definition char_of_code (b : Z) : ascii := ascii_of_N (Z.to_N b).
Fixpoint string_bytes (s : string) : bytes :=
  match s with EmptyString => [] | String c s' => char_code c :: string_bytes s' end.
Fixpoint bytes_string (bs : bytes) : string :=
  match bs with [] => EmptyString | b :: bs' => String (char_of_code b) (bytes_string bs') end.

(** UTF-8, as [str::from_utf8] checks it: no surrogates, no overlong forms and
    nothing above U+10FFFF. *)
Definition between (lo hi b : Z) : bool := (lo <=? b) && (b <=? hi).
Fixpoint utf8_valid (bs : bytes) : bool :=
  match bs with
  | [] => true
  | b1 :: bs1 =>
      if between 0 127 b1 then utf8_valid bs1
      else match bs1 with
      | [] => false
      | b2 :: bs2 =>
          if between 194 223 b1 then between 128 191 b2 && utf8_valid bs2
          else match bs2 with
          | [] => false
          | b3 :: bs3 =>
              if between 224 239 b1 then
                between (if b1 =? 224 then 160 else 128) (if b1 =? 237 then 159 else 191) b2
                && between 128 191 b3 && utf8_valid bs3
              else match bs3 with
              | [] => false
              | b4 :: bs4 =>
                  between 240 244 b1
                  && between (if b1 =? 240 then 144 else 128) (if b1 =? 244 then 143 else 191) b2
                  && between 128 191 b3 && between 128 191 b4 && utf8_valid bs4
              end
          end
      end
  end.

Lemma char_code_range c : 0 ≤ char_code c < 256.
Proof. unfold char_code. pose proof (N_ascii_bounded c). lia. Qed.
Lemma char_of_char_code c : char_of_code (char_code c) = c.
Proof. unfold char_of_code, char_code. by rewrite N2Z.id, ascii_N_embedding. Qed.
Lemma char_code_of_code b : 0 ≤ b < 256 → char_code (char_of_code b) = b.
Proof. intros Hb. unfold char_of_code, char_code. rewrite N_ascii_embedding by lia. lia. Qed.
Lemma bytes_string_bytes s : bytes_string (string_bytes s) = s.
Proof. induction s as [|c s IH]; simpl; [done|]. by rewrite char_of_char_code, IH. Qed.
Lemma string_bytes_string bs : wf_bytes bs → string_bytes (bytes_string bs) = bs.
Proof.
  induction 1 as [|b bs Hb _ IH]; simpl; [done|]. unwidth. by rewrite char_code_of_code, IH.
Qed.
Lemma wf_string_bytes s : wf_bytes (string_bytes s).
Proof. induction s as [|c s IH]; simpl; constructor; [|done]. unwidth. apply char_code_range. Qed.

(** What the type [String] guarantees, with a length that can be written. *)
Definition short {A} (l : list A) : Prop := Z.of_nat (length l) < 2 ^ 32.
Definition wf_string (s : string) : Prop := utf8_valid (string_bytes s) = true ∧ short (string_bytes s).
#[export] Instance short_dec {A} (l : list A) : Decision (short l).
Proof. unfold short. apply _. Defined.
#[export] Instance wf_string_dec s : Decision (wf_string s).
Proof. unfold wf_string. apply _. Defined.
