(* ===== verification/External.v ===== *)
(** * The code the client calls but does not contain

    Third-party crates are parameters of the model: a class of operations, and
    a class of laws that states the documented behaviour the client relies on.
    [ByteOrder] is the [byteorder] crate's [BigEndian], [Sodium] the
    [rust_sodium] boxes, [Env] the state of the outside world (entropy, key
    generation, iteration order of the standard library's hash tables),
    [HexCodec] the [data_encoding] crate.  The module [Reference] instantiates
    all of them with executable functions, so that the laws are satisfiable and
    the definitions can be run. *)

From Stdlib Require Import Ascii.
From S2P Require Import Prelude Text.

(** ** byteorder::BigEndian *)

Class ByteOrder := {
  read_u16 : bytes → Z;
  read_u32 : bytes → Z;
  write_u16 : Z → bytes;
  write_u32 : Z → bytes;
}.

Class ByteOrderLaws `{!ByteOrder} : Prop := {
  read_u16_be a b : u8 a → u8 b → read_u16 [a; b] = a * 256 + b;
  read_u32_be a b c d : u8 a → u8 b → u8 c → u8 d →
    read_u32 [a; b; c; d] = ((a * 256 + b) * 256 + c) * 256 + d;
  write_u16_be n : u16 n → write_u16 n = [n / 256; n mod 256];
  write_u32_be n : u32 n →
    write_u32 n = [n / 16777216; n / 65536 mod 256; n / 256 mod 256; n mod 256];
}.

(** ** rust_sodium: crypto_box and crypto_secretbox *)

Definition NONCEBYTES : nat := 24.
Definition PUBLICKEYBYTES : nat := 32.
Definition SECRETKEYBYTES : nat := 32.
Definition MACBYTES : nat := 16.

(** Argument order as in the crate: message, nonce, the other party's public
    key, our secret key. *)
Class Sodium := {
  box_seal : bytes → bytes → bytes → bytes → bytes;
  box_open : bytes → bytes → bytes → bytes → option bytes;
  secretbox_seal : bytes → bytes → bytes → bytes;
  secretbox_open : bytes → bytes → bytes → option bytes;
  scalarmult_base : bytes → bytes;
  (** [PublicKey::from_slice], [Nonce::from_slice], ...: the first argument is
      the number of bytes of the type. *)
  key_from_slice : nat → bytes → option bytes;
}.

Class SodiumLaws `{!Sodium} : Prop := {
  box_open_seal m n skA skB :
    box_open (box_seal m n (scalarmult_base skB) skA) n (scalarmult_base skA) skB = Some m;
  box_open_length c n pk sk m :
    box_open c n pk sk = Some m → length c = (length m + MACBYTES)%nat;
  box_seal_length m n pk sk : length (box_seal m n pk sk) = (length m + MACBYTES)%nat;
  secretbox_open_seal m n k : secretbox_open (secretbox_seal m n k) n k = Some m;
  secretbox_seal_length m n k : length (secretbox_seal m n k) = (length m + MACBYTES)%nat;
  scalarmult_base_wf sk : wf_array SECRETKEYBYTES sk → wf_array PUBLICKEYBYTES (scalarmult_base sk);
  (** What is sealed and opened are bytes. *)
  box_seal_wf m n pk sk : wf_bytes m → wf_bytes (box_seal m n pk sk);
  box_open_wf c n pk sk m : wf_bytes c → box_open c n pk sk = Some m → wf_bytes m;
  secretbox_seal_wf m n k : wf_bytes m → wf_bytes (secretbox_seal m n k);
  secretbox_open_wf c n k m : wf_bytes c → secretbox_open c n k = Some m → wf_bytes m;
  key_from_slice_spec n bs :
    key_from_slice n bs = if decide (length bs = n) then Some bs else None;
}.

(** ** The outside world *)

Class Env := {
  env : Type;
  (** [rust_sodium::init], which may fail. *)
  sodium_init : env → bool * env;
  randombytes : nat → env → bytes * env;
  (** [box_::gen_keypair]: public key, secret key. *)
  gen_keypair : env → (bytes * bytes) * env;
  secretbox_gen_key : env → bytes * env;
  (** The order in which a [HashSet] or the keys of a [HashMap] are visited. *)
  hash_order : ∀ {K : Type} `{Countable K}, gset K → env → list K * env;
}.

Class EnvLaws `{!Env, !Sodium} : Prop := {
  randombytes_wf n e : wf_array n (randombytes n e).1;
  gen_keypair_wf e :
    wf_array SECRETKEYBYTES (gen_keypair e).1.2 ∧
    (gen_keypair e).1.1 = scalarmult_base (gen_keypair e).1.2;
  secretbox_gen_key_wf e : wf_array 32 (secretbox_gen_key e).1;
  hash_order_perm {K} `{Countable K} (X : gset K) e : (hash_order X e).1 ≡ₚ elements X;
}.

(** [rust_sodium::init] may fail.  Once libsodium is initialised a further call
    does nothing and succeeds; [Initialised] says that this is the case in every
    state of the world considered. *)
Class Initialised `{!Env} : Prop := sodium_init_ok e : (sodium_init e).1 = true.

(** ** data_encoding: HEXLOWER and HEXLOWER_PERMISSIVE *)

Class HexCodec := {
  hex_encode : bytes → string;
  hex_decode_permissive : string → bytes + string;
}.

(** A string of lowercase hexadecimal digits. *)
Definition hex_digit_lower (c : ascii) : bool :=
  (48 <=? char_code c) && (char_code c <=? 57) || (97 <=? char_code c) && (char_code c <=? 102).
Fixpoint hex_lower (s : string) : bool :=
  match s with
  | EmptyString => true
  | String c s' => hex_digit_lower c && hex_lower s'
  end.

Class HexCodecLaws `{!HexCodec} : Prop := {
  hex_decode_encode bs : wf_bytes bs → hex_decode_permissive (hex_encode bs) = inl bs;
  hex_encode_lower bs : wf_bytes bs → hex_lower (hex_encode bs) = true;
  (** Two digits for each byte. *)
  hex_encode_length bs : String.length (hex_encode bs) = (2 * length bs)%nat;
}.

(** Lemmas on the big-endian codec shared by the nonce and the send-error id. *)
Section byte_order.
Context `{!ByteOrder, !ByteOrderLaws}.

Lemma length_write_u16 n : u16 n → length (write_u16 n) = 2%nat.
Proof. intros. by rewrite write_u16_be. Qed.
Lemma length_write_u32 n : u32 n → length (write_u32 n) = 4%nat.
Proof. intros. by rewrite write_u32_be. Qed.
Lemma wf_write_u16 n : u16 n → wf_array 2 (write_u16 n).
Proof.
  intros Hn. rewrite write_u16_be by done. unwidth. split; [done|].
  byte_list; unwidth; Z.to_euclidean_division_equations; lia.
Qed.
Lemma wf_write_u32 n : u32 n → wf_array 4 (write_u32 n).
Proof.
  intros Hn. rewrite write_u32_be by done. unwidth. split; [done|].
  byte_list; unwidth; Z.to_euclidean_division_equations; lia.
Qed.

Lemma read_write_u16 n : u16 n → read_u16 (write_u16 n) = n.
Proof.
  intros Hn. destruct (wf_write_u16 n Hn) as [_ Hw].
  rewrite write_u16_be in * by done.
  inv_bytes Hw.
  rewrite read_u16_be by done. unwidth. Z.to_euclidean_division_equations; lia.
Qed.
Lemma read_write_u32 n : u32 n → read_u32 (write_u32 n) = n.
Proof.
  intros Hn. destruct (wf_write_u32 n Hn) as [_ Hw].
  rewrite write_u32_be in * by done.
  inv_bytes Hw.
  rewrite read_u32_be by done. unwidth. Z.to_euclidean_division_equations; lia.
Qed.

Lemma read_u16_wf bs : wf_array 2 bs → u16 (read_u16 bs).
Proof.
  intros [Hl Hw]. destruct bs as [|a [|b [|??]]]; try done.
  inv_bytes Hw.
  rewrite read_u16_be by done. unwidth. lia.
Qed.
Lemma read_u32_wf bs : wf_array 4 bs → u32 (read_u32 bs).
Proof.
  intros [Hl Hw]. destruct bs as [|a [|b [|c [|d [|??]]]]]; try done.
  inv_bytes Hw.
  rewrite read_u32_be by done. unwidth. lia.
Qed.
Lemma write_read_u16 bs : wf_array 2 bs → write_u16 (read_u16 bs) = bs.
Proof.
  intros Hbs. pose proof (read_u16_wf bs Hbs) as Hr. destruct Hbs as [Hl Hw].
  destruct bs as [|a [|b [|??]]]; try done.
  inv_bytes Hw.
  rewrite write_u16_be, read_u16_be by done. unwidth.
  repeat f_equal; Z.to_euclidean_division_equations; lia.
Qed.
Lemma write_read_u32 bs : wf_array 4 bs → write_u32 (read_u32 bs) = bs.
Proof.
  intros Hbs. pose proof (read_u32_wf bs Hbs) as Hr. destruct Hbs as [Hl Hw].
  destruct bs as [|a [|b [|c [|d [|??]]]]]; try done.
  inv_bytes Hw.
  rewrite write_u32_be, read_u32_be by done. unwidth.
  repeat f_equal; Z.to_euclidean_division_equations; lia.
Qed.
End byte_order.

#[export] Hint Resolve wf_write_u16 wf_write_u32 read_u16_wf read_u32_wf : salty.

(** ** An executable instance of every parameter *)

Module Reference.
#[export] Instance byte_order : ByteOrder := {|
  read_u16 bs := default 0 (bs !! 0%nat) * 256 + default 0 (bs !! 1%nat);
  read_u32 bs := ((default 0 (bs !! 0%nat) * 256 + default 0 (bs !! 1%nat)) * 256
    + default 0 (bs !! 2%nat)) * 256 + default 0 (bs !! 3%nat);
  write_u16 n := [n / 256; n mod 256];
  write_u32 n := [n / 16777216; n / 65536 mod 256; n / 256 mod 256; n mod 256];
|}.
#[export] Instance byte_order_laws : ByteOrderLaws.
Proof. by constructor. Qed.

(** A toy box: the authenticator is fourteen zero bytes, the sum of the nonce
    and the sum of the first bytes of the two keys; a public key equals its
    secret key. *)
Definition tag (n a b : bytes) : bytes :=
  replicate 14 0 ++ [foldr Z.add 0 n mod 256; (default 0 (head a) + default 0 (head b)) mod 256].
Definition toy_open (t c : bytes) : option bytes :=
  if decide (take 16 c = t) then Some (drop 16 c) else None.


#[export] Instance sodium : Sodium := {|
  box_seal m n pk sk := tag n pk sk ++ m;
  box_open c n pk sk := toy_open (tag n pk sk) c;
  secretbox_seal m n k := tag n k k ++ m;
  secretbox_open c n k := toy_open (tag n k k) c;
  scalarmult_base sk := sk;
  key_from_slice n bs := if decide (length bs = n) then Some bs else None;
|}.

Lemma toy_open_tag n a b m : toy_open (tag n a b) (tag n a b ++ m) = Some m.
Proof.
  unfold toy_open. rewrite take_app_length', drop_app_length' by done.
  by rewrite decide_True.
Qed.
Lemma tag_wf n a b : wf_bytes (tag n a b).
Proof.
  apply Forall_app. split; [by apply Forall_replicate|]. repeat constructor; apply Z.mod_pos_bound; lia.
Qed.
Lemma toy_open_wf t c m : wf_bytes c → toy_open t c = Some m → wf_bytes m.
Proof. unfold toy_open. intros Hc. case_decide; [|done]. intros [= <-]. by apply Forall_drop. Qed.
Lemma tag_comm n a b : tag n a b = tag n b a.
Proof. unfold tag. by rewrite Z.add_comm. Qed.
#[export] Instance sodium_laws : SodiumLaws.
Proof.
  constructor; intros;
    cbv [box_open box_seal secretbox_open secretbox_seal scalarmult_base
    key_from_slice sodium] in *.
  - rewrite (tag_comm n skA skB). apply toy_open_tag.
  - unfold toy_open in *. case_decide as Ht; [|done]. simplify_eq.
    apply (f_equal length) in Ht. rewrite length_take in Ht.
    rewrite length_drop. unfold MACBYTES. change (length (tag n pk sk)) with 16%nat in Ht. lia.
  - rewrite length_app. change (length (tag n pk sk)) with 16%nat. unfold MACBYTES. lia.
  - apply toy_open_tag.
  - rewrite length_app. change (length (tag n k k)) with 16%nat. unfold MACBYTES. lia.
  - done.
  - apply Forall_app. split; [apply tag_wf|done].
  - by eapply toy_open_wf.
  - apply Forall_app. split; [apply tag_wf|done].
  - by eapply toy_open_wf.
  - done.
Qed.

(** The entropy source is a counter; every draw is constant and non-zero. *)
#[export] Instance environment : Env := {|
  env := Z;
  sodium_init e := (true, e);
  randombytes n e := (replicate n (e mod 255 + 1), e + 1);
  gen_keypair e := ((replicate 32 (e mod 255 + 1), replicate 32 (e mod 255 + 1)), e + 1);
  secretbox_gen_key e := (replicate 32 (e mod 255 + 1), e + 1);
  hash_order K _ _ X e := (elements X, e);
|}.
#[export] Instance environment_laws : EnvLaws.
Proof.
  assert (∀ n e, wf_array n (replicate n (e mod 255 + 1))) as Hwf.
  { intros n e. split; [by rewrite length_replicate|].
    apply Forall_replicate. unwidth. pose proof (Z.mod_pos_bound e 255). lia. }
  constructor; simpl; try done; intros e; [split; [|done]|]; apply (Hwf 32%nat).
Qed.

(** Hexadecimal digits, and pairs of them. *)
Definition hex_char (n : Z) : ascii := ascii_of_N (Z.to_N (if n <? 10 then 48 + n else 87 + n)).
Definition hex_value (c : ascii) : option Z :=
  let n := char_code c in
  if (48 <=? n) && (n <=? 57) then Some (n - 48)
  else if (97 <=? n) && (n <=? 102) then Some (n - 87)
  else if (65 <=? n) && (n <=? 70) then Some (n - 55)
  else None.
Fixpoint encode_hex (bs : bytes) : string :=
  match bs with
  | [] => EmptyString
  | b :: bs' => String (hex_char (b / 16)) (String (hex_char (b mod 16)) (encode_hex bs'))
  end.
Fixpoint decode_hex (pos : Z) (s : string) : bytes + string :=
  match s with
  | EmptyString => inl []
  | String a (String b s') =>
      match hex_value a, hex_value b, decode_hex (pos + 2) s' with
      | None, _, _ => inr ("invalid symbol at " +:+ fmt_dec pos)
      | _, None, _ => inr ("invalid symbol at " +:+ fmt_dec (pos + 1))
      | _, _, inr e => inr e
      | Some x, Some y, inl bs => inl (x * 16 + y :: bs)
      end
  | String _ EmptyString => inr ("invalid length at " +:+ fmt_dec pos)
  end.
#[export] Instance hex_codec : HexCodec := {|
  hex_encode := encode_hex;
  hex_decode_permissive := decode_hex 0;
|}.
Lemma hex_char_value n : 0 ≤ n < 16 → hex_value (hex_char n) = Some n ∧ hex_digit_lower (hex_char n) = true.
Proof.
  intros Hn. assert (forallb (λ n, bool_decide (hex_value (hex_char n) = Some n)
    && hex_digit_lower (hex_char n)) (seqZ 0 16) = true) as Hall by (vm_compute; reflexivity).
  rewrite forallb_forall in Hall. specialize (Hall n). rewrite <- list_elem_of_In, elem_of_seqZ in Hall.
  apply andb_true_iff in Hall as [Hv%bool_decide_eq_true Hd]; [done|lia].
Qed.
#[export] Instance hex_codec_laws : HexCodecLaws.
Proof.
  assert (∀ b, u8 b → 0 ≤ b / 16 < 16 ∧ 0 ≤ b mod 16 < 16) as Hb.
  { intros b. unwidth. Z.to_euclidean_division_equations. lia. }
  split; [intros bs Hbs; simpl..|].
  - generalize 0 as pos. induction Hbs as [|b bs Hw _ IH]; intros pos; simpl; [done|].
    destruct (Hb b Hw) as [H1 H2].
    rewrite (proj1 (hex_char_value _ H1)), (proj1 (hex_char_value _ H2)), IH.
    do 2 f_equal. Z.to_euclidean_division_equations. lia.
  - induction Hbs as [|b bs Hw _ IH]; simpl; [done|]. destruct (Hb b Hw) as [H1 H2].
    by rewrite (proj2 (hex_char_value _ H1)), (proj2 (hex_char_value _ H2)).
  - intros bs. induction bs as [|b bs IH]; [done|]. simpl in *. lia.
Qed.
End Reference.
