(* ===== verification/Errors.v ===== *)
(** * Errors and close codes

    [src/errors.rs] and [src/close_code.rs]: the public and the internal error
    types with their [Display] text and conversions, and the numeric close
    codes. *)

From S2P Require Import Prelude.

(** ** Close codes *)

Module CloseCode.
Inductive CloseCode :=
  | WsClosingNormal
  | WsGoingAway
  | WsProtocolError
  | PathFull
  | ProtocolError
  | InternalError
  | Handover
  | DroppedByInitiator
  | InitiatorCouldNotDecrypt
  | NoSharedTask
  | InvalidKey
  | Timeout
  | Other (code : Z).

#[global] Instance CloseCode_eq_dec : EqDecision CloseCode.
Proof. solve_decision. Defined.

Definition as_number (c : CloseCode) : Z :=
  match c with
  | WsClosingNormal => 1000
  | WsGoingAway => 1001
  | WsProtocolError => 1002
  | PathFull => 3000
  | ProtocolError => 3001
  | InternalError => 3002
  | Handover => 3003
  | DroppedByInitiator => 3004
  | InitiatorCouldNotDecrypt => 3005
  | NoSharedTask => 3006
  | InvalidKey => 3007
  | Timeout => 3008
  | Other code => code
  end.

Definition from_number (code : Z) : CloseCode :=
  match code with
  | 1000 => WsClosingNormal
  | 1001 => WsGoingAway
  | 1002 => WsProtocolError
  | 3000 => PathFull
  | 3001 => ProtocolError
  | 3002 => InternalError
  | 3003 => Handover
  | 3004 => DroppedByInitiator
  | 3005 => InitiatorCouldNotDecrypt
  | 3006 => NoSharedTask
  | 3007 => InvalidKey
  | 3008 => Timeout
  | code => Other code
  end.

(** The derived [Debug] text. *)
Definition debug (c : CloseCode) : string :=
  match c with
  | WsClosingNormal => "WsClosingNormal"
  | WsGoingAway => "WsGoingAway"
  | WsProtocolError => "WsProtocolError"
  | PathFull => "PathFull"
  | ProtocolError => "ProtocolError"
  | InternalError => "InternalError"
  | Handover => "Handover"
  | DroppedByInitiator => "DroppedByInitiator"
  | InitiatorCouldNotDecrypt => "InitiatorCouldNotDecrypt"
  | NoSharedTask => "NoSharedTask"
  | InvalidKey => "InvalidKey"
  | Timeout => "Timeout"
  | Other code => "Other(" +:+ fmt_dec code +:+ ")"
  end.

(** [impl Display for CloseCode]. *)
Definition to_string (c : CloseCode) : string :=
  debug c +:+ " (" +:+ fmt_dec (as_number c) +:+ ")".

(** The codes that have a variant of their own. *)
Definition known (code : Z) : bool :=
  existsb (Z.eqb code)
    [1000; 1001; 1002; 3000; 3001; 3002; 3003; 3004; 3005; 3006; 3007; 3008].

(** [Other] is meant for the codes without a variant. *)
Definition canonical (c : CloseCode) : bool :=
  match c with Other code => negb (known code) | _ => true end.

Definition wf (c : CloseCode) : Prop :=
  match c with Other code => u16 code | _ => True end.

Lemma as_number_u16 c : wf c → u16 (as_number c).
Proof. destruct c; simpl; [by intros; apply u16_iff; lia..|done]. Qed.

(** Case analysis on the literals of [from_number]. *)
Local Ltac split_code :=
  repeat match goal with
  | |- context [match ?p with _ => _ end] => is_var p; destruct p
  end.

Lemma as_number_from_number code : as_number (from_number code) = code.
Proof. unfold from_number. split_code; reflexivity. Qed.

Lemma known_from_number code :
  known code = match from_number code with Other _ => false | _ => true end.
Proof. unfold from_number. split_code; reflexivity. Qed.

Lemma from_number_canonical code : canonical (from_number code) = true.
Proof.
  pose proof (known_from_number code) as Hk. pose proof (as_number_from_number code) as Hn.
  destruct (from_number code); simpl in *; subst; [done..|]. by rewrite Hk.
Qed.

Lemma from_number_as_number c : from_number (as_number c) = c ↔ canonical c = true.
Proof.
  split; [intros <-; apply from_number_canonical|].
  destruct c as [| | | | | | | | | | | |code]; try done. simpl. intros Hk.
  rewrite known_from_number in Hk. pose proof (as_number_from_number code).
  destruct (from_number code); simpl in *; congruence.
Qed.
End CloseCode.
Abbreviation CloseCode := CloseCode.CloseCode.

(** ** Internal errors *)

Module SignalingError.
Inductive SignalingError :=
  | Decode (msg : string)
  | InvalidNonce (msg : string)
  | Crypto (msg : string)
  | CsnOverflow
  | InvalidStateTransition (msg : string)
  | InvalidMessage (msg : string)
  | Protocol (msg : string)
  | SendError
  | NoSharedTask
  | NoPeer
  | TaskInitialization (msg : string)
  | InitiatorCouldNotDecrypt
  | Crash (msg : string).

#[global] Instance SignalingError_eq_dec : EqDecision SignalingError.
Proof. solve_decision. Defined.

(** The [#[fail(display = ..)]] texts. *)
Definition signaling_error_to_string (e : SignalingError) : string :=
  match e with
  | Decode msg => "Decoding error: " +:+ msg
  | InvalidNonce msg => "Invalid nonce: " +:+ msg
  | Crypto msg => "Crypto error: " +:+ msg
  | CsnOverflow => "CSN overflow"
  | InvalidStateTransition msg => "Invalid state transition: " +:+ msg
  | InvalidMessage msg => "Invalid message: " +:+ msg
  | Protocol msg => "A protocol error occurred: " +:+ msg
  | SendError => "Server could not relay message"
  | NoSharedTask => "No shared task found"
  | NoPeer => "Peer has not (yet) been determined"
  | TaskInitialization msg => "Task initialization failed: " +:+ msg
  | InitiatorCouldNotDecrypt => "Initiator could not decrypt key message"
  | Crash msg => "An unexpected error occurred: " +:+ msg
      +:+ ". This indicates a bug and should be reported!"
  end.

(** [impl From<SerdeDecodeError> for SignalingError]. *)
Definition from_serde (e : string) : SignalingError := Decode ("Could not decode msgpack data: " +:+ e).
End SignalingError.
Abbreviation SignalingError := SignalingError.SignalingError.

(** ** Public errors *)

Module SaltyError.
Inductive SaltyError :=
  | Crypto (msg : string)
  | Decode (msg : string)
  | Network (msg : string)
  | Protocol (msg : string)
  | NoSharedTask
  | NoPeer
  | Task (msg : string)
  | Crash (msg : string)
  | Timeout.

#[global] Instance SaltyError_eq_dec : EqDecision SaltyError.
Proof. solve_decision. Defined.

(** The [#[fail(display = ..)]] texts. *)
Definition salty_error_to_string (e : SaltyError) : string :=
  match e with
  | Crypto msg => "Crypto error: " +:+ msg
  | Decode msg => "Decoding error: " +:+ msg
  | Network msg => "Network error: " +:+ msg
  | Protocol msg => "Protocol error: " +:+ msg
  | NoSharedTask => "No shared task found"
  | NoPeer => "Peer has not (yet) been determined"
  | Task msg => "Task error: " +:+ msg
  | Crash msg => "An unexpected error occurred: " +:+ msg
      +:+ ". This indicates a bug and should be reported!"
  | Timeout => "Future timed out"
  end.

(** [impl From<TimeoutError> for SaltyError]. *)
Definition from_timeout : SaltyError := Timeout.

(** [impl From<SignalingError> for SaltyError]. *)
Definition from_signaling (e : SignalingError) : SaltyError :=
  match e with
  | SignalingError.Crash msg => Crash ("Signaling error: " +:+ msg)
  | SignalingError.Crypto msg => Crypto msg
  | SignalingError.CsnOverflow => Crypto (SignalingError.signaling_error_to_string e)
  | SignalingError.Decode msg => Decode msg
  | SignalingError.InitiatorCouldNotDecrypt =>
      Crypto (SignalingError.signaling_error_to_string e)
  | SignalingError.InvalidMessage _ => Protocol (SignalingError.signaling_error_to_string e)
  | SignalingError.InvalidNonce _ => Protocol (SignalingError.signaling_error_to_string e)
  | SignalingError.InvalidStateTransition _ =>
      Crash (SignalingError.signaling_error_to_string e)
  | SignalingError.NoSharedTask => NoSharedTask
  | SignalingError.NoPeer => NoPeer
  | SignalingError.Protocol msg => Protocol msg
  | SignalingError.SendError => Network (SignalingError.signaling_error_to_string e)
  | SignalingError.TaskInitialization _ => Task (SignalingError.signaling_error_to_string e)
  end.
End SaltyError.
Abbreviation SaltyError := SaltyError.SaltyError.

(** ** Nonce validation and builder errors *)

Module ValidationError.
Inductive ValidationError :=
  | DropMsg (msg : string)
  | Fail (msg : string)
  | Crash (msg : string).
End ValidationError.
Abbreviation ValidationError := ValidationError.ValidationError.

Inductive BuilderError := MissingTask.
