(* ===== verification/Types.v ===== *)
(** * Roles, identities, addresses and handshake states

    [src/protocol/types.rs] (all but [HandleAction], which needs the byte
    boxes) and [src/protocol/state.rs]. *)

From S2P Require Import Prelude.

(** ** Role *)

Module Role.
Inductive Role := Initiator | Responder.

#[global] Instance Role_eq_dec : EqDecision Role.
Proof. solve_decision. Defined.

Definition is_initiator (r : Role) : bool := bool_decide (r = Initiator).
Definition is_responder (r : Role) : bool := bool_decide (r = Responder).

Definition role_to_string (r : Role) : string :=
  match r with Initiator => "Initiator" | Responder => "Responder" end.
End Role.
Abbreviation Role := Role.Role.

(** ** Address *)

Record Address := mkAddress { addr : Z }.

#[global] Instance Address_eq_dec : EqDecision Address.
Proof. solve_decision. Defined.
#[global] Instance Address_countable : Countable Address.
Proof. by refine (inj_countable' addr mkAddress _); intros []. Defined.

Definition wf_address (a : Address) : Prop := u8 (addr a).

#[global] Instance wf_address_dec a : Decision (wf_address a).
Proof. unfold wf_address. apply _. Defined.

Module Address.
Definition is_server (a : Address) : bool := bool_decide (addr a = 0).
Definition is_unknown (a : Address) : bool := bool_decide (addr a = 0).
Definition is_initiator (a : Address) : bool := bool_decide (addr a = 1).
Definition is_responder (a : Address) : bool := bool_decide (2 ≤ addr a).

(** [impl Display for Address]. *)
Definition address_to_string (a : Address) : string := fmt_hex04 (addr a).
(** [impl Debug for Address]. *)
Definition address_debug (a : Address) : string := "Address(" +:+ fmt_hex04 (addr a) +:+ ")".
(** [impl From<u8> for Address]. *)
Definition address_from_u8 (val : Z) : Address := mkAddress val.
(** [Serialize for Address]: the byte handed to [serialize_u8]; and
    [AddressVisitor::visit_u8], the only form of a number it reads. *)
Definition address_serialize (a : Address) : Z := addr a.
Definition address_visit_u8 (v : Z) : Address := mkAddress v.
End Address.

(** ** Identity *)

Module Identity.
Inductive Identity :=
  | Server
  | Initiator
  | Responder (id : Z).

#[global] Instance Identity_eq_dec : EqDecision Identity.
Proof. solve_decision. Defined.

(** [impl From<Address> for Identity]. *)
Definition identity_from_address (a : Address) : Identity :=
  match addr a with
  | 0 => Server
  | 1 => Initiator
  | a => Responder a
  end.

(** [impl From<Identity> for Address]: panics on an out-of-range responder. *)
Definition address_from_identity {E} (i : Identity) : outcome E Address :=
  match i with
  | Server => Ok (mkAddress 0)
  | Initiator => Ok (mkAddress 1)
  | Responder address =>
      if bool_decide (1 < address) then Ok (mkAddress address) else Panic "address <= 0x01"
  end.

(** [impl Display for Identity]. *)
Definition identity_to_string (i : Identity) : string :=
  match i with
  | Initiator => "initiator"
  | Responder id => "responder " +:+ fmt_hex04 id
  | Server => "server"
  end.
End Identity.
Abbreviation Identity := Identity.Identity.

(** ** ClientIdentity *)

Module ClientIdentity.
Inductive ClientIdentity :=
  | Unknown
  | Initiator
  | Responder (id : Z).

#[global] Instance ClientIdentity_eq_dec : EqDecision ClientIdentity.
Proof. solve_decision. Defined.

(** [impl From<ClientIdentity> for Address]. *)
Definition address_from_client_identity {E} (i : ClientIdentity) : outcome E Address :=
  match i with
  | Unknown => Ok (mkAddress 0)
  | Initiator => Ok (mkAddress 1)
  | Responder address =>
      if bool_decide (1 < address) then Ok (mkAddress address) else Panic "address <= 0x01"
  end.

(** [impl Display for ClientIdentity]. *)
Definition client_identity_to_string (i : ClientIdentity) : string :=
  match i with
  | Unknown => "unknown"
  | Initiator => "initiator"
  | Responder val => "responder " +:+ fmt_hex04 val
  end.

(** The range the doc comments give: a responder is in [0x02..0xff]. *)
Definition wf_client_identity (i : ClientIdentity) : Prop :=
  match i with Responder id => 2 ≤ id < 256 | _ => True end.
End ClientIdentity.
Abbreviation ClientIdentity := ClientIdentity.ClientIdentity.

(** An address classifies as exactly one of server, initiator and responder,
    and the classification agrees with the identity. *)
Lemma identity_roundtrip {E} a : wf_address a →
  Identity.address_from_identity (E := E) (Identity.identity_from_address a) = Ok a.
Proof.
  destruct a as [z]. unfold wf_address, Identity.identity_from_address; simpl.
  intros Hz. unwidth. destruct z as [|[p|p|]|]; try lia; try done;
    simpl; rewrite bool_decide_eq_true_2; done || lia.
Qed.

Lemma identity_from_responder a : 2 ≤ addr a →
  Identity.identity_from_address a = Identity.Responder (addr a).
Proof.
  destruct a as [z]. unfold Identity.identity_from_address; simpl. intros Hz.
  by destruct z as [|[p|p|]|]; try lia.
Qed.

Lemma client_identity_address_ok {E} i : ClientIdentity.wf_client_identity i →
  ∃ a, ClientIdentity.address_from_client_identity (E := E) i = Ok a ∧ wf_address a.
Proof.
  unfold wf_address. destruct i as [| |id]; simpl; intros Hi.
  1,2: eexists; split; [done|]; simpl; unwidth; lia.
  rewrite bool_decide_eq_true_2 by lia. eexists; split; [done|]. simpl. unwidth. lia.
Qed.

(** ** Signaling and handshake states *)

Module SignalingState.
Inductive SignalingState := ServerHandshake | PeerHandshake | Task.

#[global] Instance SignalingState_eq_dec : EqDecision SignalingState.
Proof. solve_decision. Defined.

Definition may_transition_to (self new_state : SignalingState) : bool :=
  match self, new_state with
  | ServerHandshake, PeerHandshake => true
  | PeerHandshake, Task => true
  | _, _ => false
  end.

Definition signaling_state_debug (s : SignalingState) : string :=
  match s with
  | ServerHandshake => "ServerHandshake" | PeerHandshake => "PeerHandshake" | Task => "Task"
  end.

(** The stages in order, for monotonicity statements. *)
Definition stage (s : SignalingState) : Z :=
  match s with ServerHandshake => 0 | PeerHandshake => 1 | Task => 2 end.
End SignalingState.
Abbreviation SignalingState := SignalingState.SignalingState.

Module ServerHandshakeState.
Inductive ServerHandshakeState := New | ClientInfoSent | Done.

#[global] Instance ServerHandshakeState_eq_dec : EqDecision ServerHandshakeState.
Proof. solve_decision. Defined.

Definition server_handshake_state_debug (s : ServerHandshakeState) : string :=
  match s with New => "New" | ClientInfoSent => "ClientInfoSent" | Done => "Done" end.
End ServerHandshakeState.
Abbreviation ServerHandshakeState := ServerHandshakeState.ServerHandshakeState.

Module InitiatorHandshakeState.
Inductive InitiatorHandshakeState := New | KeySent | KeyReceived | AuthSent | AuthReceived.

#[global] Instance InitiatorHandshakeState_eq_dec : EqDecision InitiatorHandshakeState.
Proof. solve_decision. Defined.

Definition initiator_handshake_state_debug (s : InitiatorHandshakeState) : string :=
  match s with
  | New => "New" | KeySent => "KeySent" | KeyReceived => "KeyReceived"
  | AuthSent => "AuthSent" | AuthReceived => "AuthReceived"
  end.
End InitiatorHandshakeState.
Abbreviation InitiatorHandshakeState := InitiatorHandshakeState.InitiatorHandshakeState.

Module ResponderHandshakeState.
Inductive ResponderHandshakeState :=
  New | TokenReceived | KeyReceived | KeySent | AuthReceived | AuthSent.

#[global] Instance ResponderHandshakeState_eq_dec : EqDecision ResponderHandshakeState.
Proof. solve_decision. Defined.

Definition responder_handshake_state_debug (s : ResponderHandshakeState) : string :=
  match s with
  | New => "New" | TokenReceived => "TokenReceived" | KeyReceived => "KeyReceived"
  | KeySent => "KeySent" | AuthReceived => "AuthReceived" | AuthSent => "AuthSent"
  end.
End ResponderHandshakeState.
Abbreviation ResponderHandshakeState := ResponderHandshakeState.ResponderHandshakeState.
