(* ===== verification/Csn.v ===== *)
(** * Combined sequence numbers

    [src/protocol/csn.rs]: the 48 bit combined sequence number of a nonce, made
    of a 16 bit overflow number and a 32 bit sequence number.  The abstract
    counterpart of a [CombinedSequence] is the single counter [csn_number]
    below [2 ^ 48]; [increment] refines "add one, fail at the end". *)

From S2P Require Import Prelude Text External Errors.

(** ** Data *)

Record CombinedSequence := mkCombinedSequence {
  cs_overflow : Z;
  cs_sequence : Z;
}.

Record CombinedSequenceSnapshot := mkCombinedSequenceSnapshot {
  overflow_number : Z;
  sequence_number : Z;
}.

Record CombinedSequencePair := mkCombinedSequencePair {
  csn_ours : CombinedSequence;
  csn_theirs : option CombinedSequenceSnapshot;
}.

Record PeerSequenceNumbers := mkPeerSequenceNumbers {
  incoming : Z;
  outgoing : Z;
}.

#[export] Instance CombinedSequence_eq_dec : EqDecision CombinedSequence.
Proof. solve_decision. Defined.
#[export] Instance CombinedSequenceSnapshot_eq_dec : EqDecision CombinedSequenceSnapshot.
Proof. solve_decision. Defined.

Definition wf_csn (c : CombinedSequence) : Prop := u16 (cs_overflow c) ∧ u32 (cs_sequence c).
Definition wf_snapshot (c : CombinedSequenceSnapshot) : Prop :=
  u16 (overflow_number c) ∧ u32 (sequence_number c).
Definition wf_csn_pair (p : CombinedSequencePair) : Prop :=
  wf_csn (csn_ours p) ∧ from_option wf_snapshot True (csn_theirs p).

#[export] Instance wf_csn_dec c : Decision (wf_csn c).
Proof. unfold wf_csn. apply _. Defined.
#[export] Instance wf_snapshot_dec c : Decision (wf_snapshot c).
Proof. unfold wf_snapshot. apply _. Defined.

(** ** Operations *)

(** [CombinedSequence::new] and [CombinedSequenceSnapshot::new]. *)
Definition csn_new (overflow sequence : Z) : CombinedSequence := mkCombinedSequence overflow sequence.
Definition snapshot_new (overflow sequence : Z) : CombinedSequenceSnapshot :=
  mkCombinedSequenceSnapshot overflow sequence.

(** [CombinedSequence::combined_sequence_number]: a [u64] shift and sum. *)
Definition csn_number (c : CombinedSequence) : Z :=
  wrap 64 (wrap 64 (Z.shiftl (cs_overflow c) 32) + cs_sequence c).

(** [CombinedSequenceSnapshot::combined_sequence_number]. *)
Definition combined_sequence_number (c : CombinedSequenceSnapshot) : Z :=
  wrap 64 (wrap 64 (Z.shiftl (overflow_number c) 32) + sequence_number c).

(** [impl From<&CombinedSequence> for CombinedSequenceSnapshot]. *)
Definition snapshot_of (c : CombinedSequence) : CombinedSequenceSnapshot :=
  mkCombinedSequenceSnapshot (cs_overflow c) (cs_sequence c).

(** [impl From<&CombinedSequenceSnapshot> for CombinedSequence]. *)
Definition csn_of_snapshot (c : CombinedSequenceSnapshot) : CombinedSequence :=
  mkCombinedSequence (overflow_number c) (sequence_number c).

(** [CombinedSequence::increment]: the result and the object's new value. *)
Definition increment (c : CombinedSequence)
    : outcome SignalingError CombinedSequenceSnapshot * CombinedSequence :=
  match checked_add 32 (cs_sequence c) 1 with
  | Some incremented =>
      let next := mkCombinedSequence (cs_overflow c) incremented in
      (Ok (snapshot_of next), next)
  | None =>
      match checked_add 16 (cs_overflow c) 1 with
      | Some incremented =>
          let next := mkCombinedSequence incremented 0 in
          (Ok (snapshot_of next), next)
      | None => (Err SignalingError.CsnOverflow, c)
      end
  end.

(** [Ord for CombinedSequenceSnapshot] and the comparison operators. *)
Definition snapshot_cmp (a b : CombinedSequenceSnapshot) : comparison :=
  combined_sequence_number a ?= combined_sequence_number b.
Definition snapshot_lt (a b : CombinedSequenceSnapshot) : bool :=
  match snapshot_cmp a b with Lt => true | _ => false end.

(** The comparisons between a sequence and a snapshot. *)
Definition csn_eq_snapshot (a : CombinedSequence) (b : CombinedSequenceSnapshot) : bool :=
  csn_number a =? combined_sequence_number b.
Definition csn_cmp_snapshot (a : CombinedSequence) (b : CombinedSequenceSnapshot) : comparison :=
  csn_number a ?= combined_sequence_number b.

(** And between a snapshot and a sequence. *)
Definition snapshot_eq_csn (a : CombinedSequenceSnapshot) (b : CombinedSequence) : bool :=
  combined_sequence_number a =? csn_number b.
Definition snapshot_cmp_csn (a : CombinedSequenceSnapshot) (b : CombinedSequence) : comparison :=
  combined_sequence_number a ?= csn_number b.

Section random.
Context `{!Env} {S E : Type}.

(** [libsodium_init_or_panic] of [src/helpers.rs]. *)
Definition init_failed : string := "Could not initialize libsodium: ()".
Definition libsodium_init_or_panic : M env S E unit :=
  ok ← mworld sodium_init;
  if (ok : bool) then mret tt else panic init_failed.

(** [CombinedSequence::random]. *)
Definition csn_random : M env S E CombinedSequence :=
  _ ← libsodium_init_or_panic;
  rand ← mworld (randombytes 4);
  match rand with
  | r0 :: r1 :: r2 :: r3 :: _ =>
      let sequence := wrap 32 (wrap 32 (wrap 32 (wrap 32 (Z.shiftl r0 24)
        + wrap 32 (Z.shiftl r1 16)) + wrap 32 (Z.shiftl r2 8)) + r3) in
      mret (mkCombinedSequence 0 sequence)
  | _ => panic "index out of bounds"
  end.

(** [CombinedSequenceSnapshot::random], used in tests. *)
Definition snapshot_random : M env S E CombinedSequenceSnapshot :=
  cs ← csn_random;
  mret (mkCombinedSequenceSnapshot (cs_overflow cs) (cs_sequence cs)).

(** [CombinedSequencePair::new]. *)
Definition csn_pair_new : M env S E CombinedSequencePair :=
  ours ← csn_random;
  mret (mkCombinedSequencePair ours None).
End random.

(** ** The abstract counter *)

Definition CSN_LIMIT : Z := 2 ^ 48.

Lemma csn_number_eq c : wf_csn c →
  csn_number c = cs_overflow c * 2 ^ 32 + cs_sequence c.
Proof.
  intros [Ho Hs]. unfold csn_number. rewrite Z.shiftl_mul_pow2 by lia. unwidth.
  rewrite (wrap_id 64 (_ * _)) by (unwidth; lia). apply wrap_id. unwidth. lia.
Qed.
Lemma snapshot_number_eq c : wf_snapshot c →
  combined_sequence_number c = overflow_number c * 2 ^ 32 + sequence_number c.
Proof. intros Hc. exact (csn_number_eq (csn_of_snapshot c) Hc). Qed.

Lemma csn_number_bound c : wf_csn c → 0 ≤ csn_number c < CSN_LIMIT.
Proof.
  intros Hc. rewrite (csn_number_eq c Hc). destruct Hc. unfold CSN_LIMIT. unwidth. lia.
Qed.
Lemma snapshot_number_inj a b : wf_snapshot a → wf_snapshot b →
  combined_sequence_number a = combined_sequence_number b → a = b.
Proof.
  intros Ha Hb. rewrite (snapshot_number_eq a Ha), (snapshot_number_eq b Hb).
  destruct a as [ao sa], b as [bo sb], Ha, Hb; simpl in *. unwidth.
  intros. assert (ao = bo) by lia. subst. f_equal. lia.
Qed.
Lemma snapshot_of_number c : combined_sequence_number (snapshot_of c) = csn_number c.
Proof. done. Qed.
Lemma snapshot_of_wf c : wf_csn c → wf_snapshot (snapshot_of c).
Proof. done. Qed.

(** [increment] adds one to the counter and returns a snapshot of it, and fails
    only at the end of the range, leaving the counter as it was. *)
Lemma increment_spec c : wf_csn c →
  if bool_decide (csn_number c + 1 < CSN_LIMIT)
  then ∃ c', increment c = (Ok (snapshot_of c'), c') ∧ wf_csn c' ∧ csn_number c' = csn_number c + 1
  else increment c = (Err SignalingError.CsnOverflow, c).
Proof.
  intros Hc. pose proof (csn_number_eq c Hc) as Hn. destruct Hc as [Ho Hs].
  unfold increment, CSN_LIMIT. unwidth.
  destruct (checked_add 32 _ 1) as [i|] eqn:H1; [apply checked_add_Some in H1 as [-> H1]|
    apply checked_add_None in H1; destruct (checked_add 16 _ 1) as [i|] eqn:H2;
    [apply checked_add_Some in H2 as [-> H2]|apply checked_add_None in H2]].
  1,2: rewrite bool_decide_eq_true_2 by lia; eexists; split; [done|];
    match goal with |- wf_csn ?c' ∧ _ => assert (wf_csn c') as Hc'
      by (split; simpl; unwidth; lia) end;
    split; [done|]; rewrite csn_number_eq by done; simpl; lia.
  by rewrite bool_decide_eq_false_2 by lia.
Qed.

Lemma increment_Ok c snap c' : wf_csn c → increment c = (Ok snap, c') →
  snap = snapshot_of c' ∧ wf_csn c' ∧ csn_number c' = csn_number c + 1.
Proof.
  intros Hc Hi. pose proof (increment_spec c Hc) as Hsp. rewrite Hi in Hsp.
  case_bool_decide; [|done]. destruct Hsp as (c'' & [= -> <-] & ? & ?). done.
Qed.
Lemma increment_wf c : wf_csn c → wf_csn (increment c).2.
Proof.
  intros Hc. pose proof (increment_spec c Hc) as Hsp.
  case_bool_decide; [destruct Hsp as (? & -> & ? & ?)|rewrite Hsp]; done.
Qed.
Lemma increment_not_panic c msg : (increment c).1 ≠ Panic msg.
Proof. unfold increment. by repeat case_match. Qed.

#[export] Hint Resolve increment_wf snapshot_of_wf : salty.

(** ** Sequences of increments *)

(** The snapshots handed out by [n] successive calls of [increment]. *)
Fixpoint increments (n : nat) (c : CombinedSequence)
    : outcome SignalingError (list CombinedSequenceSnapshot) * CombinedSequence :=
  match n with
  | O => (Ok [], c)
  | S n' =>
      match increment c with
      | (Ok snap, c') =>
          match increments n' c' with
          | (Ok snaps, c'') => (Ok (snap :: snaps), c'')
          | r => r
          end
      | (Err e, c') => (Err e, c')
      | (Panic m, c') => (Panic m, c')
      end
  end.

Lemma increments_numbers n : ∀ c snaps c', wf_csn c → increments n c = (Ok snaps, c') →
  map combined_sequence_number snaps = map (λ k, csn_number c + 1 + Z.of_nat k) (seq 0 n)
  ∧ Forall wf_snapshot snaps.
Proof.
  induction n as [|n IH]; intros c snaps c' Hc; simpl; [by intros [= <- <-]|].
  destruct (increment c) as [[snap|e|m] c1] eqn:Hi; [|done..].
  destruct (increment_Ok _ _ _ Hc Hi) as (-> & Hc1 & Hn).
  destruct (increments n c1) as [[snaps1|e|m] c2] eqn:Hr; [|done..].
  intros [= <- <-]. destruct (IH _ _ _ Hc1 Hr) as [Hm Hf]. split; [|by constructor].
  simpl. rewrite Hm, snapshot_of_number, Hn, <- seq_shift, map_map. f_equal; [lia|].
  apply map_ext. intros k. lia.
Qed.

Lemma increments_succeed n : ∀ c, wf_csn c → csn_number c + Z.of_nat n < CSN_LIMIT →
  ∃ snaps c', increments n c = (Ok snaps, c').
Proof.
  induction n as [|n IH]; intros c Hc Hb; simpl; [eauto|].
  pose proof (increment_spec c Hc) as Hsp. rewrite bool_decide_eq_true_2 in Hsp by lia.
  destruct Hsp as (c1 & -> & Hc1 & Hn). destruct (IH c1 Hc1) as (snaps & c' & ->); [lia|]. eauto.
Qed.

(** ** Properties *)

(** A sequence of draws that does not fit below the limit fails. *)
Lemma increments_overflow n : ∀ c, wf_csn c → CSN_LIMIT ≤ csn_number c + Z.of_nat n →
  (increments n c).1 = Err SignalingError.CsnOverflow.
Proof.
  induction n as [|n IH]; intros c Hc Hb; simpl.
  { pose proof (csn_number_bound c Hc). lia. }
  pose proof (increment_spec c Hc) as Hsp. case_bool_decide.
  - destruct Hsp as (c' & -> & Hc' & Hn). specialize (IH c' Hc' ltac:(lia)).
    destruct (increments n c') as [[?|?|?] ?]; simpl in *; congruence.
  - by rewrite Hsp.
Qed.
