(* ===== verification/Cookie.v ===== *)
(** * Cookies

    [src/protocol/cookie.rs]: the 16 byte cookie, its (de)serialization with
    serde's byte visitor, and the cookie pair of a peer context. *)

From S2P Require Import Prelude Text External Errors Csn.

Definition COOKIE_BYTES : nat := 16.

Record Cookie := mkCookie { cookie_bytes : bytes }.

Record CookiePair := mkCookiePair {
  cookie_ours : Cookie;
  cookie_theirs : option Cookie;
}.

#[export] Instance Cookie_eq_dec : EqDecision Cookie.
Proof. solve_decision. Defined.
#[export] Instance CookiePair_eq_dec : EqDecision CookiePair.
Proof. solve_decision. Defined.

Definition wf_cookie (c : Cookie) : Prop := wf_array COOKIE_BYTES (cookie_bytes c).
Definition wf_cookie_pair (p : CookiePair) : Prop :=
  wf_cookie (cookie_ours p) ∧ from_option wf_cookie True (cookie_theirs p).

#[export] Instance wf_cookie_dec c : Decision (wf_cookie c).
Proof. unfold wf_cookie. apply _. Defined.

(** [Cookie::new] and [Cookie::as_bytes]. *)
Definition cookie_new (bs : bytes) : Cookie := mkCookie bs.
Definition cookie_as_bytes (c : Cookie) : bytes := cookie_bytes c.

(** The errors a serde visitor raises: [invalid_length] and [invalid_value]. *)
Inductive SerdeError :=
  | InvalidLength (len : Z) (expected : string)
  | InvalidValue (unexpected expected : string).

(** [Serialize for Cookie]: the payload handed to [serialize_bytes]. *)
Definition cookie_serialize (c : Cookie) : bytes := cookie_bytes c.

(** [CookieVisitor::visit_bytes] (and [visit_byte_buf], which calls it). *)
Definition cookie_visit_bytes (v : bytes) : outcome SerdeError Cookie :=
  if bool_decide (length v ≠ 16%nat)
  then Err (InvalidLength (Z.of_nat (length v)) "16 bytes of binary data")
  else Ok (mkCookie (slice 0 16 v)).

Section random.
Context `{!Env} {S E : Type}.

(** [Cookie::random]: asserts that the entropy source wrote something. *)
Definition cookie_random : M env S E Cookie :=
  _ ← libsodium_init_or_panic;
  rand ← mworld (randombytes 16);
  if forallb (λ x, x =? 0) rand
  then panic "assertion failed: !rand.iter().all(|&x| x == 0)"
  else mret (mkCookie rand).

(** [CookiePair::new]. *)
Definition cookie_pair_new : M env S E CookiePair :=
  ours ← cookie_random;
  mret (mkCookiePair ours None).
End random.

Lemma cookie_roundtrip c : wf_cookie c → cookie_visit_bytes (cookie_serialize c) = Ok c.
Proof.
  destruct c as [bs]. intros [Hl _]. unfold cookie_visit_bytes, cookie_serialize; simpl in *.
  rewrite bool_decide_eq_false_2 by (rewrite Hl; auto). unfold slice. simpl.
  rewrite drop_0, take_ge; [done|]. rewrite Hl. done.
Qed.

Lemma cookie_visit_bytes_Ok v c : wf_bytes v →
  cookie_visit_bytes v = Ok c ↔ length v = COOKIE_BYTES ∧ c = mkCookie v.
Proof.
  intros Hv. unfold cookie_visit_bytes, COOKIE_BYTES. case_bool_decide as Hl.
  - split; [done|]. by intros [? _].
  - unfold slice. rewrite drop_0, take_ge by lia.
    split; [by intros [= <-]|by intros [_ ->]].
Qed.
