(* ===== verification/Nonce.v ===== *)
(** * Nonces and send-error ids

    [src/protocol/nonce.rs] and [src/protocol/send_error.rs]: the 24 byte nonce
    (cookie, source, destination, combined sequence number) and the 8 byte id
    of a message the server could not relay, with their big-endian encodings. *)

From S2P Require Import Prelude Text External Errors Types Csn Cookie.

Record Nonce := mkNonce {
  nonce_cookie : Cookie;
  nonce_source : Address;
  nonce_destination : Address;
  nonce_csn : CombinedSequenceSnapshot;
}.

Record SendErrorId := mkSendErrorId {
  se_source : Address;
  se_destination : Address;
  se_csn : CombinedSequenceSnapshot;
}.

#[export] Instance Nonce_eq_dec : EqDecision Nonce.
Proof. solve_decision. Defined.
#[export] Instance SendErrorId_eq_dec : EqDecision SendErrorId.
Proof. solve_decision. Defined.

Definition wf_nonce (n : Nonce) : Prop :=
  wf_cookie (nonce_cookie n) ∧ wf_address (nonce_source n)
  ∧ wf_address (nonce_destination n) ∧ wf_snapshot (nonce_csn n).
Definition wf_send_error_id (i : SendErrorId) : Prop :=
  wf_address (se_source i) ∧ wf_address (se_destination i) ∧ wf_snapshot (se_csn i).

#[export] Instance wf_nonce_dec n : Decision (wf_nonce n).
Proof. unfold wf_nonce. apply _. Defined.
#[export] Instance wf_send_error_id_dec i : Decision (wf_send_error_id i).
Proof. unfold wf_send_error_id. apply _. Defined.

Definition SEND_ERROR_ID_BYTES : nat := 8.

(** [Nonce::new] and [Nonce::clone]. *)
Definition nonce_new (cookie : Cookie) (source destination : Address)
    (csn : CombinedSequenceSnapshot) : Nonce :=
  mkNonce cookie source destination csn.
Definition nonce_clone (n : Nonce) : Nonce :=
  mkNonce (nonce_cookie n) (nonce_source n) (nonce_destination n) (nonce_csn n).

(** [Nonce::source_identity]. *)
Definition source_identity (n : Nonce) : Identity :=
  Identity.identity_from_address (nonce_source n).

Section codec.
Context `{!ByteOrder}.

(** [Nonce::from_bytes]. *)
Definition nonce_from_bytes (bs : bytes) : outcome SignalingError Nonce :=
  if bool_decide (length bs ≠ 24%nat)
  then Err (SignalingError.Decode ("Byte slice must be exactly 24 bytes, not "
         +:+ fmt_dec (Z.of_nat (length bs))))
  else
    let overflow := read_u16 (slice 18 20 bs) in
    let sequence := read_u32 (slice 20 24 bs) in
    Ok (mkNonce (mkCookie (slice 0 16 bs))
      (mkAddress (default 0 (bs !! 16%nat))) (mkAddress (default 0 (bs !! 17%nat)))
      (mkCombinedSequenceSnapshot overflow sequence)).

(** [Nonce::into_bytes]. *)
Definition nonce_into_bytes (n : Nonce) : bytes :=
  cookie_bytes (nonce_cookie n)
  ++ [addr (nonce_source n)] ++ [addr (nonce_destination n)]
  ++ write_u16 (overflow_number (nonce_csn n)) ++ write_u32 (sequence_number (nonce_csn n)).

(** [Into<box_::Nonce>] and [Into<secretbox::Nonce>]. *)
Definition nonce_into_sodium (n : Nonce) : bytes := nonce_into_bytes n.

(** [SendErrorId::as_bytes]. *)
Definition send_error_id_as_bytes (i : SendErrorId) : bytes :=
  [addr (se_source i)] ++ [addr (se_destination i)]
  ++ write_u16 (overflow_number (se_csn i)) ++ write_u32 (sequence_number (se_csn i)).

(** [SendErrorId::from_slice]. *)
Definition send_error_id_from_slice (bs : bytes) : outcome SignalingError SendErrorId :=
  if bool_decide (length bs ≠ SEND_ERROR_ID_BYTES)
  then Err (SignalingError.Decode ("byte slice must be exactly 8 bytes, not "
         +:+ fmt_dec (Z.of_nat (length bs))))
  else
    let source := mkAddress (default 0 (bs !! 0%nat)) in
    let destination := mkAddress (default 0 (bs !! 1%nat)) in
    let overflow := read_u16 (slice 2 4 bs) in
    let sequence := read_u32 (slice 4 8 bs) in
    Ok (mkSendErrorId source destination (mkCombinedSequenceSnapshot overflow sequence)).

(** [SendErrorIdVisitor::visit_bytes]. *)
Definition send_error_id_visit_bytes (v : bytes) : outcome SerdeError SendErrorId :=
  if bool_decide (length v ≠ 8%nat)
  then Err (InvalidLength (Z.of_nat (length v)) "8 bytes of binary data")
  else map_err (λ e, InvalidValue (SignalingError.signaling_error_to_string e)
         "8 bytes of binary data") (send_error_id_from_slice v).
End codec.

Section codec_lemmas.
Context `{!ByteOrder, !ByteOrderLaws}.

Lemma nonce_bytes_wf n : wf_nonce n → wf_array 24 (nonce_into_bytes n).
Proof.
  intros ([Hcl Hcw] & Hs & Hd & [Ho Hq]). unfold nonce_into_bytes.
  destruct (wf_write_u16 _ Ho) as [Hol How], (wf_write_u32 _ Hq) as [Hql Hqw].
  split; [rewrite !length_app, Hcl, Hol, Hql; done|].
  rewrite !wf_bytes_app. split_and!; done || byte_list.
Qed.

Lemma nonce_from_into n : wf_nonce n → nonce_from_bytes (nonce_into_bytes n) = Ok n.
Proof.
  intros Hn. pose proof (nonce_bytes_wf n Hn) as [Hl _].
  destruct Hn as ([Hcl _] & _ & _ & [Ho Hq]). destruct n as [[c] [s] [d] [o q]]; simpl in *.
  unfold nonce_from_bytes. rewrite bool_decide_eq_false_2 by (rewrite Hl; auto). clear Hl.
  pose proof (length_write_u16 o Ho) as Hol. pose proof (length_write_u32 q Hq) as Hql.
  unfold nonce_into_bytes; simpl.
  destruct (write_u16 o) as [|o1 [|o2 [|??]]] eqn:Ew; try done.
  destruct (write_u32 q) as [|q1 [|q2 [|q3 [|q4 [|??]]]]] eqn:Eq; try done.
  do 17 (destruct c as [|? c]; try done). cbn.
  change (slice 18 20 _) with [o1; o2]. change (slice 20 24 _) with [q1; q2; q3; q4].
  by rewrite <- Ew, <- Eq, read_write_u16, read_write_u32.
Qed.

Lemma nonce_into_from bs n : wf_bytes bs → nonce_from_bytes bs = Ok n →
  nonce_into_bytes n = bs ∧ wf_nonce n.
Proof.
  intros Hw. unfold nonce_from_bytes. case_bool_decide as Hl; [done|].
  intros [= <-].
  do 25 (destruct bs as [|? bs]; try done). clear Hl.
  change (slice 0 16 _) with [z; z0; z1; z2; z3; z4; z5; z6; z7; z8; z9; z10; z11; z12; z13; z14].
  change (slice 18 20 _) with [z17; z18]. change (slice 20 24 _) with [z19; z20; z21; z22].
  inv_bytes Hw.
  assert (wf_array 2 [z17; z18]) by (split; [done|]; byte_list).
  assert (wf_array 4 [z19; z20; z21; z22]) by (split; [done|]; byte_list).
  unfold nonce_into_bytes; simpl. rewrite write_read_u16, write_read_u32 by done.
  split; [done|]. split_and!; simpl; auto with salty.
  - split; [done|]. byte_list.
  - split; simpl; auto with salty.
Qed.

Lemma send_error_id_bytes_wf i : wf_send_error_id i →
  wf_array SEND_ERROR_ID_BYTES (send_error_id_as_bytes i).
Proof.
  intros (Hs & Hd & [Ho Hq]). unfold send_error_id_as_bytes.
  destruct (wf_write_u16 _ Ho) as [Hol How], (wf_write_u32 _ Hq) as [Hql Hqw].
  split; [rewrite !length_app, Hol, Hql; done|].
  rewrite !wf_bytes_app. split_and!; done || byte_list.
Qed.
Lemma send_error_id_roundtrip i : wf_send_error_id i →
  send_error_id_from_slice (send_error_id_as_bytes i) = Ok i.
Proof.
  intros Hi. pose proof (send_error_id_bytes_wf i Hi) as [Hl _].
  unfold send_error_id_from_slice. rewrite bool_decide_eq_false_2 by (rewrite Hl; auto).
  clear Hl. destruct Hi as (_ & _ & [Ho Hq]). destruct i as [[s] [d] [o q]]; simpl in *.
  pose proof (length_write_u16 o Ho) as Hol. pose proof (length_write_u32 q Hq) as Hql.
  unfold send_error_id_as_bytes in *; simpl in *.
  destruct (write_u16 o) as [|o1 [|o2 [|??]]] eqn:Ew; try done.
  destruct (write_u32 q) as [|q1 [|q2 [|q3 [|q4 [|??]]]]] eqn:Eq; try done.
  change (slice 2 4 _) with [o1; o2]. change (slice 4 8 _) with [q1; q2; q3; q4].
  by rewrite <- Ew, <- Eq, read_write_u16, read_write_u32.
Qed.
Lemma send_error_id_into_from bs i : wf_bytes bs → send_error_id_from_slice bs = Ok i →
  send_error_id_as_bytes i = bs ∧ wf_send_error_id i.
Proof.
  intros Hw. unfold send_error_id_from_slice. case_bool_decide as Hl; [done|]. intros [= <-].
  do 9 (destruct bs as [|? bs]; try done). clear Hl.
  change (slice 2 4 _) with [z1; z2]. change (slice 4 8 _) with [z3; z4; z5; z6]. inv_bytes Hw.
  assert (wf_array 2 [z1; z2]) by (split; [done|]; byte_list).
  assert (wf_array 4 [z3; z4; z5; z6]) by (split; [done|]; byte_list).
  unfold send_error_id_as_bytes; simpl. rewrite write_read_u16, write_read_u32 by done.
  split; [done|]. split_and!; simpl; auto with salty. split; simpl; auto with salty.
Qed.
End codec_lemmas.
