(* ===== verification/Crypto.v ===== *)
(** * Keys, tokens and signed keys

    [src/crypto_types.rs]: the key pair, the auth token and the signed keys of
    the server-auth message, on top of the [rust_sodium] boxes, and the
    hexadecimal constructors. *)

From S2P Require Import Prelude Text External Errors Types Csn Cookie Nonce.

Record PublicKey := mkPublicKey { pk_bytes : bytes }.
Record PrivateKey := mkPrivateKey { sk_bytes : bytes }.
Record SecretKey := mkSecretKey { secret_bytes : bytes }.

#[export] Instance PublicKey_eq_dec : EqDecision PublicKey.
Proof. solve_decision. Defined.

Record KeyPair := mkKeyPair {
  public_key : PublicKey;
  private_key : PrivateKey;
}.

Record AuthToken := mkAuthToken { secret_key : SecretKey }.

Record UnsignedKeys := mkUnsignedKeys {
  server_public_session_key : PublicKey;
  client_public_permanent_key : PublicKey;
}.

Definition SIGNED_KEYS_BYTES : nat := (2 * PUBLICKEYBYTES + MACBYTES)%nat.

Record SignedKeys := mkSignedKeys { signed_bytes : bytes }.

Definition wf_public_key (k : PublicKey) : Prop := wf_array PUBLICKEYBYTES (pk_bytes k).
Definition wf_signed_keys (k : SignedKeys) : Prop := wf_array SIGNED_KEYS_BYTES (signed_bytes k).

#[export] Instance wf_public_key_dec k : Decision (wf_public_key k).
Proof. unfold wf_public_key. apply _. Defined.
#[export] Instance wf_signed_keys_dec k : Decision (wf_signed_keys k).
Proof. unfold wf_signed_keys. apply _. Defined.

(** A key pair as [box_::gen_keypair] and [from_private_key] make them. *)
Definition wf_keypair `{!Sodium} (k : KeyPair) : Prop :=
  wf_array SECRETKEYBYTES (sk_bytes (private_key k))
  ∧ pk_bytes (public_key k) = scalarmult_base (sk_bytes (private_key k)).

(** ** Hexadecimal keys *)

Section hex.
Context `{!Sodium, !HexCodec}.

Definition public_key_from_hex_str (hex_str : string) : outcome SaltyError PublicKey :=
  bs ← (match hex_decode_permissive hex_str with
        | inl bs => Ok bs
        | inr _ => Err (SaltyError.Decode "Could not decode public key hex string")
        end);
  ok_or (mkPublicKey <$> key_from_slice PUBLICKEYBYTES bs)
    (SaltyError.Decode "Invalid public key hex string").

Definition private_key_from_hex_str (hex_str : string) : outcome SaltyError PrivateKey :=
  bs ← (match hex_decode_permissive hex_str with
        | inl bs => Ok bs
        | inr _ => Err (SaltyError.Decode "Could not decode private key hex string")
        end);
  ok_or (mkPrivateKey <$> key_from_slice SECRETKEYBYTES bs)
    (SaltyError.Decode "Invalid private key hex string").

Definition public_key_hex (k : KeyPair) : string := hex_encode (pk_bytes (public_key k)).
Definition private_key_hex (k : KeyPair) : string := hex_encode (sk_bytes (private_key k)).

(** [AuthToken::from_hex_str]. *)
Definition auth_token_from_hex_str (hex_str : string) : outcome SaltyError AuthToken :=
  bs ← (match hex_decode_permissive hex_str with
        | inl bs => Ok bs
        | inr e => Err (SaltyError.Decode ("Could not decode auth token hex string: " +:+ e))
        end);
  key ← ok_or (mkSecretKey <$> key_from_slice 32 bs)
    (SaltyError.Decode "Invalid auth token hex string");
  Ok (mkAuthToken key).

(** [AuthToken::from_slice]. *)
Definition auth_token_from_slice (bs : bytes) : outcome SaltyError AuthToken :=
  if bool_decide (length bs ≠ 32%nat)
  then Err (SaltyError.Decode "Invalid auth token bytes: Slice must be 32 bytes long")
  else
    key ← ok_or (mkSecretKey <$> key_from_slice 32 bs)
      (SaltyError.Decode "Invalid auth token bytes: Could not create SecretKey");
    Ok (mkAuthToken key).
End hex.

Definition secret_key_bytes (t : AuthToken) : bytes := secret_bytes (secret_key t).

(** ** Key pairs *)

Section generate.
Context `{!Env} {S E : Type}.

(** [KeyPair::new]. *)
Definition keypair_new : M env S E KeyPair :=
  _ ← libsodium_init_or_panic;
  '(pk, sk) ← mworld gen_keypair;
  mret (mkKeyPair (mkPublicKey pk) (mkPrivateKey sk)).

(** [PublicKey::random], used in tests. *)
Definition public_key_random `{!Sodium} : M env S E PublicKey :=
  _ ← libsodium_init_or_panic;
  rand ← mworld (randombytes 32);
  mlift (mkPublicKey <$> expect (key_from_slice PUBLICKEYBYTES rand)
    "called `Option::unwrap()` on a `None` value").

(** [AuthToken::new]. *)
Definition auth_token_new : M env S E AuthToken :=
  _ ← libsodium_init_or_panic;
  key ← mworld secretbox_gen_key;
  mret (mkAuthToken (mkSecretKey key)).
End generate.

Section boxes.
Context `{!ByteOrder, !Sodium}.

(** [KeyPair::from_private_key] and [KeyPair::from_keypair]. *)
Definition from_private_key (sk : PrivateKey) : KeyPair :=
  mkKeyPair (mkPublicKey (scalarmult_base (sk_bytes sk))) sk.
Definition from_keypair (pk : PublicKey) (sk : PrivateKey) : KeyPair := mkKeyPair pk sk.

(** [KeyPair::encrypt]. *)
Definition keypair_encrypt (k : KeyPair) (data : bytes) (nonce : Nonce) (other_key : PublicKey)
    : bytes :=
  box_seal data (nonce_into_bytes nonce) (pk_bytes other_key) (sk_bytes (private_key k)).

(** [KeyPair::decrypt]. *)
Definition keypair_decrypt (k : KeyPair) (data : bytes) (nonce : Nonce) (other_key : PublicKey)
    : outcome SignalingError bytes :=
  ok_or (box_open data (nonce_into_bytes nonce) (pk_bytes other_key) (sk_bytes (private_key k)))
    (SignalingError.Crypto "Could not decrypt data").

(** [AuthToken::encrypt]. *)
Definition auth_token_encrypt (t : AuthToken) (plaintext : bytes) (nonce : Nonce) : bytes :=
  secretbox_seal plaintext (nonce_into_bytes nonce) (secret_key_bytes t).

(** [AuthToken::decrypt]. *)
Definition auth_token_decrypt (t : AuthToken) (ciphertext : bytes) (nonce : Nonce)
    : outcome SignalingError bytes :=
  ok_or (secretbox_open ciphertext (nonce_into_bytes nonce) (secret_key_bytes t))
    (SignalingError.Crypto "Could not decrypt data").

(** [UnsignedKeys::new] and [UnsignedKeys::sign], which is used in tests. *)
Definition unsigned_keys_new (server_key client_key : PublicKey) : UnsignedKeys :=
  mkUnsignedKeys server_key client_key.
Definition unsigned_keys_sign {E} (k : UnsignedKeys) (server_session_keypair : KeyPair)
    (client_key : PublicKey) (nonce : Nonce) : outcome E SignedKeys :=
  let bs := pk_bytes (server_public_session_key k) ++ pk_bytes (client_public_permanent_key k) in
  let vec := box_seal bs (nonce_into_bytes nonce) (pk_bytes client_key)
    (sk_bytes (private_key server_session_keypair)) in
  if bool_decide (length vec ≠ SIGNED_KEYS_BYTES) then Panic "assertion failed: `(left == right)`"
  else Ok (mkSignedKeys vec).

(** [SignedKeys::decrypt]. *)
Definition signed_keys_decrypt (k : SignedKeys) (permanent_key : KeyPair)
    (server_public_permanent_key : PublicKey) (nonce : Nonce)
    : outcome SignalingError UnsignedKeys :=
  decrypted ← ok_or (box_open (signed_bytes k) (nonce_into_bytes nonce)
      (pk_bytes server_public_permanent_key) (sk_bytes (private_key permanent_key)))
    (SignalingError.Crypto "Could not decrypt signed keys");
  if bool_decide (length decrypted ≠ (32 * 2)%nat)
  then Panic "assertion failed: `(left == right)`"
  else
    session ← expect (key_from_slice PUBLICKEYBYTES (slice 0 32 decrypted))
      "called `Option::unwrap()` on a `None` value";
    permanent ← expect (key_from_slice PUBLICKEYBYTES (slice 32 64 decrypted))
      "called `Option::unwrap()` on a `None` value";
    Ok (mkUnsignedKeys (mkPublicKey session) (mkPublicKey permanent)).
End boxes.

(** [Serialize for SignedKeys] and [SignedKeysVisitor::visit_bytes]. *)
Definition signed_keys_serialize (k : SignedKeys) : bytes := signed_bytes k.
Definition signed_keys_visit_bytes (v : bytes) : outcome SerdeError SignedKeys :=
  if bool_decide (length v ≠ SIGNED_KEYS_BYTES)
  then Err (InvalidLength (Z.of_nat (length v)) "80 bytes of binary data")
  else Ok (mkSignedKeys (slice 0 80 v)).

(** ** Lemmas *)

Section laws.
Context `{!ByteOrder, !Sodium, !SodiumLaws}.

Lemma wf_keypair_public k : wf_keypair k → wf_public_key (public_key k).
Proof. intros [Hs Hp]. unfold wf_public_key. rewrite Hp. by apply scalarmult_base_wf. Qed.

(** What [a] encrypts for [b], [b] decrypts. *)
Lemma keypair_roundtrip a b data nonce : wf_keypair a → wf_keypair b →
  keypair_decrypt b (keypair_encrypt a data nonce (public_key b)) nonce (public_key a) = Ok data.
Proof.
  intros [_ Ha] [_ Hb]. unfold keypair_decrypt, keypair_encrypt.
  by rewrite Ha, Hb, box_open_seal.
Qed.

(** Keys and tokens survive their hexadecimal form. *)
Lemma public_key_hex_decode `{!HexCodec, !HexCodecLaws} k : wf_array PUBLICKEYBYTES (pk_bytes k) →
  public_key_from_hex_str (hex_encode (pk_bytes k)) = Ok k.
Proof.
  intros [Hl Hw]. unfold public_key_from_hex_str. rewrite hex_decode_encode by done. simpl.
  rewrite key_from_slice_spec, decide_True by done. by destruct k.
Qed.
Lemma private_key_hex_decode `{!HexCodec, !HexCodecLaws} k : wf_array SECRETKEYBYTES (sk_bytes k) →
  private_key_from_hex_str (hex_encode (sk_bytes k)) = Ok k.
Proof.
  intros [Hl Hw]. unfold private_key_from_hex_str. rewrite hex_decode_encode by done. simpl.
  rewrite key_from_slice_spec, decide_True by done. by destruct k.
Qed.
Lemma auth_token_hex_decode `{!HexCodec, !HexCodecLaws} t : wf_array 32 (secret_key_bytes t) →
  auth_token_from_hex_str (hex_encode (secret_key_bytes t)) = Ok t.
Proof.
  intros [Hl Hw]. unfold auth_token_from_hex_str. rewrite hex_decode_encode by done. simpl.
  rewrite key_from_slice_spec, decide_True by done. by destruct t as [[]].
Qed.

Lemma auth_token_roundtrip t data nonce :
  auth_token_decrypt t (auth_token_encrypt t data nonce) nonce = Ok data.
Proof. unfold auth_token_decrypt, auth_token_encrypt. by rewrite secretbox_open_seal. Qed.

(** The assertion and the unwraps of [SignedKeys::decrypt] cannot fail on an
    80 byte array: the plaintext of a box is 16 bytes shorter. *)
Lemma signed_keys_decrypt_total k kp pk nonce : wf_signed_keys k →
  match box_open (signed_bytes k) (nonce_into_bytes nonce) (pk_bytes pk)
          (sk_bytes (private_key kp)) with
  | Some m => signed_keys_decrypt k kp pk nonce
      = Ok (mkUnsignedKeys (mkPublicKey (slice 0 32 m)) (mkPublicKey (slice 32 64 m)))
  | None => signed_keys_decrypt k kp pk nonce
      = Err (SignalingError.Crypto "Could not decrypt signed keys")
  end.
Proof.
  intros [Hk _]. unfold signed_keys_decrypt. destruct (box_open _ _ _ _) as [m|] eqn:Ho; [|done].
  apply box_open_length in Ho. rewrite Hk in Ho. unfold SIGNED_KEYS_BYTES, MACBYTES, PUBLICKEYBYTES in Ho.
  simpl. rewrite bool_decide_eq_false_2 by lia.
  rewrite !key_from_slice_spec, !decide_True
    by (unfold PUBLICKEYBYTES; rewrite length_slice; lia). done.
Qed.
End laws.

Lemma signed_keys_visit_roundtrip k : wf_signed_keys k →
  signed_keys_visit_bytes (signed_keys_serialize k) = Ok k.
Proof.
  destruct k as [bs]. unfold wf_signed_keys, signed_keys_visit_bytes; simpl. intros [Hl _].
  rewrite bool_decide_eq_false_2 by (rewrite Hl; auto). unfold slice.
  rewrite drop_0, take_ge; [done|]. rewrite Hl. vm_compute. lia.
Qed.
