(* ===== verification/Tasks.v ===== *)
(** * Msgpack values and tasks

    The dynamically typed msgpack [Value] the tasks exchange, and
    [src/tasks.rs]: the [Task] trait, the ordered list of tasks of a client and
    the choice of the task shared with the peer. *)

From S2P Require Import Prelude Text Errors.

(** ** rmpv::Value *)

(** A msgpack string that need not be valid UTF-8. *)
Inductive Utf8String :=
  | Utf8Valid (s : string)
  | Utf8Invalid (bs : bytes).

Module Value.
#[local] Unset Elimination Schemes.
Inductive Value :=
  | Nil
  | Boolean (b : bool)
  | Integer (n : Z)
  | F32 (bits : Z)
  | F64 (bits : Z)
  | String (s : Utf8String)
  | Binary (bs : bytes)
  | Array (vs : list Value)
  | Map (kvs : list (Value * Value))
  | Ext (ty : Z) (bs : bytes).
#[local] Set Elimination Schemes.

Definition as_str (v : Value) : option string :=
  match v with String (Utf8Valid s) => Some s | _ => None end.
Definition as_u64 (v : Value) : option Z :=
  match v with
  | Integer n => if bool_decide (u64 n) then Some n else None
  | _ => None
  end.
(** [Value::from] of a string. *)
Definition from_string (s : string) : Value := String (Utf8Valid s).
End Value.
Abbreviation Value := Value.Value.

(** The induction principle of the nested type. *)
Lemma Value_ind (P : Value → Prop) :
  P Value.Nil → (∀ b, P (Value.Boolean b)) → (∀ n, P (Value.Integer n)) → (∀ n, P (Value.F32 n)) →
  (∀ n, P (Value.F64 n)) → (∀ s, P (Value.String s)) → (∀ bs, P (Value.Binary bs)) →
  (∀ vs, Forall P vs → P (Value.Array vs)) →
  (∀ kvs, Forall (λ kv, P kv.1 ∧ P kv.2) kvs → P (Value.Map kvs)) →
  (∀ ty bs, P (Value.Ext ty bs)) → ∀ v, P v.
Proof.
  intros HN HB HI H32 H64 HS HBin HA HM HE. fix IH 1.
  intros [|b|n|n|n|s|bs|vs|kvs|ty bs];
    [exact HN|apply HB|apply HI|apply H32|apply H64|apply HS|apply HBin| | |apply HE].
  - apply HA. induction vs as [|v vs IHvs]; constructor; [apply IH|exact IHvs].
  - apply HM. induction kvs as [|[k v] kvs IHkvs]; constructor; [split; apply IH|exact IHkvs].
Qed.

(** The values that can be sent: what the types guarantee, with lengths that can
    be written, and neither extension values nor strings that are not UTF-8,
    which do not survive serialization. *)
Fixpoint wf_value (v : Value) : bool :=
  match v with
  | Value.Nil | Value.Boolean _ => true
  | Value.Integer n => bool_decide (- 2 ^ 63 ≤ n < 2 ^ 64)
  | Value.F32 n => bool_decide (u32 n)
  | Value.F64 n => bool_decide (u64 n)
  | Value.String (Utf8Valid s) => bool_decide (wf_string s)
  | Value.String (Utf8Invalid _) => false
  | Value.Binary bs => bool_decide (wf_bytes bs ∧ short bs)
  | Value.Array vs => bool_decide (short vs) && forallb wf_value vs
  | Value.Map kvs => bool_decide (short kvs) && forallb (λ '(k, v), wf_value k && wf_value v) kvs
  | Value.Ext _ _ => false
  end.

(** What the type of a value guarantees of its numbers and bytes. *)
Fixpoint typed_value (v : Value) : Prop :=
  match v with
  | Value.Integer n => - 2 ^ 63 ≤ n < 2 ^ 64
  | Value.Binary bs => wf_bytes bs
  | Value.Array vs => foldr (λ v P, typed_value v ∧ P) True vs
  | Value.Map kvs => foldr (λ '(k, v) P, typed_value v ∧ P) True kvs
  | _ => True
  end.

Lemma typed_array vs : typed_value (Value.Array vs) ↔ Forall typed_value vs.
Proof.
  simpl. induction vs as [|v vs IH]; simpl; [by split|]. by rewrite Forall_cons, IH.
Qed.
Lemma typed_map kvs : typed_value (Value.Map kvs) ↔ Forall (λ kv, typed_value kv.2) kvs.
Proof.
  simpl. induction kvs as [|[k v] kvs IH]; simpl; [by split|]. by rewrite Forall_cons, IH.
Qed.

(** ** The Task trait

    A task is user code: the client only knows it through this interface.
    [task_init] receives the peer's task data and may fail; its error is known
    by its text. *)

Class Task (T : Type) := {
  task_init : option (gmap string Value) → T → (unit + string) * T;
  task_name : T → string;
  task_data : T → option (gmap string Value);
  task_supported_types : T → list string;
}.

(** ** Tasks *)

Record Tasks (T : Type) := mkTasks { tasks_vec : list T }.
Arguments mkTasks {T} tasks_vec.
Arguments tasks_vec {T} t.

Section tasks.
Context {T : Type} `{!Task T}.

(** [Tasks::new], [Tasks::from_vec] and [Tasks::add_task]. *)
Definition tasks_new (task : T) : Tasks T := mkTasks [task].

Definition tasks_from_vec (tasks : list T) : outcome string (Tasks T) :=
  match tasks with
  | [] => Err "Tasks vector may not be empty"
  | _ => Ok (mkTasks tasks)
  end.

Definition add_task (task : T) (self : Tasks T) : outcome string (Tasks T) :=
  if existsb (λ t, bool_decide (task_name t = task_name task)) (tasks_vec self)
  then Err ("Task with name " +:+ dquote +:+ task_name task +:+ dquote
         +:+ " cannot be added twice")
  else Ok (mkTasks (tasks_vec self ++ [task])).

(** [Tasks::len] and [Tasks::into_iter]. *)
Definition tasks_len (self : Tasks T) : nat := length (tasks_vec self).
Definition tasks_into_iter (self : Tasks T) : list T := tasks_vec self.

(** [Tasks::choose_shared_task]. *)
Fixpoint choose_from (ours : list T) (tasks : list string) : option T :=
  match ours with
  | [] => None
  | task :: ours' =>
      if existsb (λ p, bool_decide (p = task_name task)) tasks then Some task
      else choose_from ours' tasks
  end.
Definition choose_shared_task (self : Tasks T) (tasks : list string) : option T :=
  choose_from (tasks_vec self) tasks.

(** The names of a task list are distinct and the list is not empty. *)
Definition wf_tasks (ts : Tasks T) : Prop :=
  tasks_vec ts ≠ [] ∧ NoDup (task_name <$> tasks_vec ts).

Lemma existsb_name (l : list string) n : existsb (λ p, bool_decide (p = n)) l = true ↔ n ∈ l.
Proof.
  rewrite existsb_exists. split.
  - intros (x & Hx & ->%bool_decide_eq_true). by apply list_elem_of_In.
  - intros Hn. exists n. split; [by apply list_elem_of_In|by apply bool_decide_eq_true].
Qed.

Lemma choose_from_spec ours tasks :
  match choose_from ours tasks with
  | Some t => ∃ before after, ours = before ++ t :: after ∧ task_name t ∈ tasks
      ∧ Forall (λ t', task_name t' ∉ tasks) before
  | None => Forall (λ t', task_name t' ∉ tasks) ours
  end.
Proof.
  induction ours as [|t ours IH]; simpl; [constructor|].
  destruct (existsb _ tasks) eqn:He.
  - apply existsb_name in He. exists [], ours. by split_and!.
  - assert (task_name t ∉ tasks) as Hn by (rewrite <- existsb_name; by rewrite He).
    destruct (choose_from ours tasks) as [t'|].
    + destruct IH as (b & a & -> & ? & ?). exists (t :: b), a. split_and!; try done. by constructor.
    + by constructor.
Qed.

Lemma add_task_wf task self ts : wf_tasks self → add_task task self = Ok ts → wf_tasks ts.
Proof.
  intros [Hne Hnd]. unfold add_task. destruct (existsb _ _) eqn:He; [done|]. intros [= <-].
  split; simpl.
  - destruct (tasks_vec self); done.
  - rewrite fmap_app. apply NoDup_app. split_and!; [done| |apply NoDup_singleton].
    intros n Hn ->%list_elem_of_singleton.
    apply list_elem_of_fmap in Hn as (t & Hnt & Ht%list_elem_of_In).
    assert (existsb (λ t, bool_decide (task_name t = task_name task)) (tasks_vec self) = true)
      as Ht'; [|congruence].
    apply existsb_exists. exists t. by rewrite bool_decide_eq_true_2.
Qed.
End tasks.

(** ** Messages between the client and its task *)

Module TaskMessage.
Inductive TaskMessage :=
  | Value (map : gmap string Value.Value)
  | Application (data : Value.Value)
  | Close (reason : CloseCode).
End TaskMessage.
Abbreviation TaskMessage := TaskMessage.TaskMessage.
