(* ===== verification/Msgpack.v ===== *)
(** * The MessagePack format

    An executable encoder and decoder of msgpack values, after the public
    specification of the format: [encode] uses the shortest form of a number or
    a length, as the rmp crates do, and [decode] reads any form.  The round trip
    is proved for the values that can be sent ([wf_value]).

    The client does not depend on this file: its codec is the parameter [Rmps].
    The format gives that parameter an instance, in which the wire bytes of the
    messages are the real ones. *)

From S2P Require Import Prelude Text Errors Tasks.

Module Msgpack.

(** ** Numbers *)

(** The [n] low bytes of a number, the most significant first. *)
Fixpoint be (n : nat) (z : Z) : bytes :=
  match n with O => [] | S n' => be n' (z / 256) ++ [z mod 256] end.
Definition of_be (bs : bytes) : Z := fold_left (λ a b, a * 256 + b) bs 0.

Lemma length_be n : ∀ z, length (be n z) = n.
Proof. induction n as [|n IH]; intros z; simpl; [done|]. rewrite length_app, IH. simpl. lia. Qed.
Lemma of_be_snoc bs b : of_be (bs ++ [b]) = of_be bs * 256 + b.
Proof. unfold of_be. by rewrite fold_left_app. Qed.
Lemma of_be_be n : ∀ z, 0 ≤ z < 256 ^ Z.of_nat n → of_be (be n z) = z.
Proof.
  induction n as [|n IH]; intros z Hz; [simpl in Hz; unfold of_be; simpl; lia|].
  cbn [be]. rewrite of_be_snoc, IH.
  - pose proof (Z.div_mod z 256). lia.
  - rewrite Nat2Z.inj_succ, Z.pow_succ_r in Hz by lia.
    split; [apply Z.div_pos; lia|]. apply Z.div_lt_upper_bound; lia.
Qed.
Lemma be_wf n : ∀ z, wf_bytes (be n z).
Proof.
  induction n as [|n IH]; intros z; simpl; [constructor|]. apply Forall_app. split; [apply IH|].
  repeat constructor; apply Z.mod_pos_bound; lia.
Qed.

(** ** Encoding *)

(** A marker with a length behind it, in the shortest of the forms. *)
Definition head8 (m8 m16 m32 : Z) (len : Z) : bytes :=
  if len <? 2 ^ 8 then m8 :: be 1 len
  else if len <? 2 ^ 16 then m16 :: be 2 len else m32 :: be 4 len.
Definition head16 (m16 m32 : Z) (len : Z) : bytes :=
  if len <? 2 ^ 16 then m16 :: be 2 len else m32 :: be 4 len.

Definition encode_int (n : Z) : bytes :=
  if 0 <=? n then
    if n <? 128 then [n]
    else if n <? 2 ^ 8 then 204 :: be 1 n
    else if n <? 2 ^ 16 then 205 :: be 2 n
    else if n <? 2 ^ 32 then 206 :: be 4 n else 207 :: be 8 n
  else if - 32 <=? n then [256 + n]
  else if - 2 ^ 7 <=? n then 208 :: be 1 (n mod 2 ^ 8)
  else if - 2 ^ 15 <=? n then 209 :: be 2 (n mod 2 ^ 16)
  else if - 2 ^ 31 <=? n then 210 :: be 4 (n mod 2 ^ 32) else 211 :: be 8 (n mod 2 ^ 64).
Definition len {A} (l : list A) : Z := Z.of_nat (length l).
Definition str_head (n : Z) : bytes := if n <? 32 then [160 + n] else head8 217 218 219 n.
Definition bin_head (n : Z) : bytes := head8 196 197 198 n.
Definition array_head (n : Z) : bytes := if n <? 16 then [144 + n] else head16 220 221 n.
Definition map_head (n : Z) : bytes := if n <? 16 then [128 + n] else head16 222 223 n.
Definition utf8_bytes (s : Utf8String) : bytes :=
  match s with Utf8Valid s => string_bytes s | Utf8Invalid bs => bs end.

Fixpoint encode (v : Value) : bytes :=
  match v with
  | Value.Nil => [192]
  | Value.Boolean b => [if b then 195 else 194]
  | Value.Integer n => encode_int n
  | Value.F32 n => 202 :: be 4 n
  | Value.F64 n => 203 :: be 8 n
  | Value.String s => str_head (len (utf8_bytes s)) ++ utf8_bytes s
  | Value.Binary bs => bin_head (len bs) ++ bs
  | Value.Array vs => array_head (len vs) ++ concat (map encode vs)
  | Value.Map kvs => map_head (len kvs) ++ concat (map (λ '(k, v), encode k ++ encode v) kvs)
  | Value.Ext ty bs => head8 199 200 201 (len bs) ++ [ty mod 256] ++ bs
  end.

Lemma encode_not_nil v : encode v ≠ [].
Proof.
  destruct v; simpl; unfold encode_int, str_head, bin_head, array_head, map_head, head8, head16;
    by repeat case_match.
Qed.

(** ** Decoding *)

Definition take_bytes (n : Z) (bs : bytes) : option (bytes * bytes) :=
  if len bs <? n then None else Some (take (Z.to_nat n) bs, drop (Z.to_nat n) bs).
Definition take_be (n : Z) (bs : bytes) : option (Z * bytes) :=
  '(b, r) ← take_bytes n bs; Some (of_be b, r).
Definition signed (bits n : Z) : Z := if n <? 2 ^ (bits - 1) then n else n - 2 ^ bits.

Section items.
Context {A : Type} (item : bytes → option (A * bytes)).
(** [n] items one after the other; [fuel] bounds their number. *)
Fixpoint items (fuel : nat) (n : Z) (bs : bytes) : option (list A * bytes) :=
  if n <=? 0 then Some ([], bs)
  else match fuel with
  | O => None
  | S fuel' => '(x, r) ← item bs; '(xs, r') ← items fuel' (n - 1) r; Some (x :: xs, r')
  end.
Definition pair (bs : bytes) : option (A * A * bytes) :=
  '(x, r) ← item bs; '(y, r') ← item r; Some ((x, y), r').
End items.

Definition read_str (n : Z) (bs : bytes) : option (Value * bytes) :=
  '(b, r) ← take_bytes n bs;
  Some (Value.String (if utf8_valid b then Utf8Valid (bytes_string b) else Utf8Invalid b), r).
Definition read_bin (n : Z) (bs : bytes) : option (Value * bytes) :=
  '(b, r) ← take_bytes n bs; Some (Value.Binary b, r).
Definition read_ext (n : Z) (bs : bytes) : option (Value * bytes) :=
  '(ty, r) ← take_be 1 bs; '(b, r') ← take_bytes n r; Some (Value.Ext (signed 8 ty) b, r').
(** A form whose length has [w] bytes. *)
Definition with_len {A} (w : Z) (k : Z → bytes → option A) (bs : bytes) : option A :=
  '(n, r) ← take_be w bs; k n r.
Definition read_uint (w : Z) (bs : bytes) : option (Value * bytes) :=
  '(n, r) ← take_be w bs; Some (Value.Integer n, r).
Definition read_sint (w : Z) (bs : bytes) : option (Value * bytes) :=
  '(n, r) ← take_be w bs; Some (Value.Integer (signed (8 * w) n), r).

(** A value and the bytes behind it; [fuel] bounds the nesting. *)
Fixpoint decode (fuel : nat) (bs : bytes) : option (Value * bytes) :=
  match fuel, bs with
  | O, _ | _, [] => None
  | S fuel', m :: r =>
      let array n r := '(vs, r') ← items (decode fuel') fuel' n r; Some (Value.Array vs, r') in
      let map n r := '(kvs, r') ← items (pair (decode fuel')) fuel' n r; Some (Value.Map kvs, r') in
      if m <? 128 then Some (Value.Integer m, r)
      else if m <? 144 then map (m - 128) r
      else if m <? 160 then array (m - 144) r
      else if m <? 192 then read_str (m - 160) r
      else if 224 <=? m then Some (Value.Integer (m - 256), r)
      else match m with
      | 192 => Some (Value.Nil, r)
      | 194 => Some (Value.Boolean false, r)
      | 195 => Some (Value.Boolean true, r)
      | 196 => with_len 1 read_bin r
      | 197 => with_len 2 read_bin r
      | 198 => with_len 4 read_bin r
      | 199 => with_len 1 read_ext r
      | 200 => with_len 2 read_ext r
      | 201 => with_len 4 read_ext r
      | 202 => '(n, r') ← take_be 4 r; Some (Value.F32 n, r')
      | 203 => '(n, r') ← take_be 8 r; Some (Value.F64 n, r')
      | 204 => read_uint 1 r
      | 205 => read_uint 2 r
      | 206 => read_uint 4 r
      | 207 => read_uint 8 r
      | 208 => read_sint 1 r
      | 209 => read_sint 2 r
      | 210 => read_sint 4 r
      | 211 => read_sint 8 r
      | 212 => read_ext 1 r
      | 213 => read_ext 2 r
      | 214 => read_ext 4 r
      | 215 => read_ext 8 r
      | 216 => read_ext 16 r
      | 217 => with_len 1 read_str r
      | 218 => with_len 2 read_str r
      | 219 => with_len 4 read_str r
      | 220 => with_len 2 array r
      | 221 => with_len 4 array r
      | 222 => with_len 2 map r
      | 223 => with_len 4 map r
      | _ => None
      end
  end.

(** ** The round trip *)

Ltac zcmp := repeat match goal with
  | |- context [?a <? ?b] => destruct (Z.ltb_spec a b); [try lia|try lia]
  | |- context [?a <=? ?b] => destruct (Z.leb_spec a b); [try lia|try lia]
  end.

Lemma len_pos {A} (l : list A) : 0 ≤ len l.
Proof. unfold len. lia. Qed.
Lemma take_bytes_app bs rest : take_bytes (len bs) (bs ++ rest) = Some (bs, rest).
Proof.
  unfold take_bytes, len. rewrite length_app. zcmp. rewrite Nat2Z.id. by rewrite take_app_length, drop_app_length.
Qed.
Lemma take_be_be n z rest : 0 ≤ z < 256 ^ Z.of_nat n →
  take_be (Z.of_nat n) (be n z ++ rest) = Some (z, rest).
Proof.
  intros Hz. unfold take_be. pose proof (take_bytes_app (be n z) rest) as Ht.
  unfold len in Ht. rewrite length_be in Ht. rewrite Ht. simpl. by rewrite of_be_be.
Qed.
Lemma with_len_be {A} n (k : Z → bytes → option A) z rest : 0 ≤ z < 256 ^ Z.of_nat n →
  with_len (Z.of_nat n) k (be n z ++ rest) = k z rest.
Proof. intros Hz. unfold with_len. by rewrite take_be_be. Qed.
Lemma signed_mod bits n : 0 < bits → - 2 ^ (bits - 1) ≤ n < 2 ^ (bits - 1) →
  signed bits (n mod 2 ^ bits) = n.
Proof.
  intros Hb Hn. unfold signed.
  assert (2 ^ bits = 2 * 2 ^ (bits - 1)) as E by (rewrite <- Z.pow_succ_r by lia; f_equal; lia).
  destruct (Z.le_gt_cases 0 n).
  - rewrite Z.mod_small by lia. zcmp.
  - rewrite <- (Z.mod_unique n (2 ^ bits) (-1) (n + 2 ^ bits)) by lia. zcmp.
Qed.

Lemma decode_int f n rest : - 2 ^ 63 ≤ n < 2 ^ 64 →
  decode (S f) (encode_int n ++ rest) = Some (Value.Integer n, rest).
Proof.
  intros Hn. unfold encode_int.
  assert (∀ w : nat, 0 ≤ n < 256 ^ Z.of_nat w →
    read_uint (Z.of_nat w) (be w n ++ rest) = Some (Value.Integer n, rest)) as Hu.
  { intros w Hw. unfold read_uint. by rewrite take_be_be. }
  assert (∀ w : nat, (0 < w)%nat →
    - 2 ^ (8 * Z.of_nat w - 1) ≤ n < 2 ^ (8 * Z.of_nat w - 1) →
    read_sint (Z.of_nat w) (be w (n mod 2 ^ (8 * Z.of_nat w)) ++ rest)
    = Some (Value.Integer n, rest)) as Hs.
  { intros w Hw Hr. unfold read_sint. rewrite take_be_be.
    - cbn [mbind option_bind]. rewrite signed_mod by lia. done.
    - change 256 with (2 ^ 8). rewrite <- Z.pow_mul_r by lia. apply Z.mod_pos_bound. lia. }
  destruct (Z.leb_spec 0 n).
  - destruct (Z.ltb_spec n 128); [cbn [app decode]; zcmp; done|].
    destruct (Z.ltb_spec n (2 ^ 8)); [by apply (Hu 1%nat)|].
    destruct (Z.ltb_spec n (2 ^ 16)); [by apply (Hu 2%nat)|].
    destruct (Z.ltb_spec n (2 ^ 32)); [by apply (Hu 4%nat)|].
    apply (Hu 8%nat). simpl. lia.
  - destruct (Z.leb_spec (- 32) n); [cbn [app decode]; zcmp; do 3 f_equal; lia|].
    destruct (Z.leb_spec (- 2 ^ 7) n); [apply (Hs 1%nat); simpl; lia|].
    destruct (Z.leb_spec (- 2 ^ 15) n); [apply (Hs 2%nat); simpl; lia|].
    destruct (Z.leb_spec (- 2 ^ 31) n); [apply (Hs 4%nat); simpl; lia|].
    apply (Hs 8%nat); simpl; lia.
Qed.

Lemma decode_str f n rest : 0 ≤ n < 2 ^ 32 → decode (S f) (str_head n ++ rest) = read_str n rest.
Proof.
  intros Hn. unfold str_head, head8.
  destruct (Z.ltb_spec n 32); [cbn [app decode]; zcmp; f_equal; lia|].
  destruct (Z.ltb_spec n (2 ^ 8)); [apply (with_len_be 1 read_str); simpl; lia|].
  destruct (Z.ltb_spec n (2 ^ 16)); [apply (with_len_be 2 read_str); simpl; lia|apply (with_len_be 4 read_str); simpl; lia].
Qed.
Lemma decode_bin f n rest : 0 ≤ n < 2 ^ 32 → decode (S f) (bin_head n ++ rest) = read_bin n rest.
Proof.
  intros Hn. unfold bin_head, head8.
  destruct (Z.ltb_spec n (2 ^ 8)); [apply (with_len_be 1 read_bin); simpl; lia|].
  destruct (Z.ltb_spec n (2 ^ 16)); [apply (with_len_be 2 read_bin); simpl; lia|apply (with_len_be 4 read_bin); simpl; lia].
Qed.
Lemma decode_array f n rest : 0 ≤ n < 2 ^ 32 →
  decode (S f) (array_head n ++ rest)
  = '(vs, r) ← items (decode f) f n rest; Some (Value.Array vs, r).
Proof.
  intros Hn. unfold array_head, head16.
  destruct (Z.ltb_spec n 16); [cbn [app decode]; zcmp; by rewrite Z.add_simpl_l|].
  destruct (Z.ltb_spec n (2 ^ 16)).
  - apply (with_len_be 2 (λ n r, '(vs, r) ← items (decode f) f n r; Some (Value.Array vs, r))); simpl; lia.
  - apply (with_len_be 4 (λ n r, '(vs, r) ← items (decode f) f n r; Some (Value.Array vs, r))); simpl; lia.
Qed.
Lemma decode_map f n rest : 0 ≤ n < 2 ^ 32 →
  decode (S f) (map_head n ++ rest)
  = '(kvs, r) ← items (pair (decode f)) f n rest; Some (Value.Map kvs, r).
Proof.
  intros Hn. unfold map_head, head16.
  destruct (Z.ltb_spec n 16); [cbn [app decode]; zcmp; by rewrite Z.add_simpl_l|].
  destruct (Z.ltb_spec n (2 ^ 16)).
  - apply (with_len_be 2 (λ n r, '(kvs, r) ← items (pair (decode f)) f n r; Some (Value.Map kvs, r))); simpl; lia.
  - apply (with_len_be 4 (λ n r, '(kvs, r) ← items (pair (decode f)) f n r; Some (Value.Map kvs, r))); simpl; lia.
Qed.

Lemma items_concat {A} (item : bytes → option (A * bytes)) (enc : A → bytes) xs :
  Forall (λ x, ∀ rest, item (enc x ++ rest) = Some (x, rest)) xs →
  ∀ fuel rest, (length xs ≤ fuel)%nat →
  items item fuel (len xs) (concat (map enc xs) ++ rest) = Some (xs, rest).
Proof.
  induction 1 as [|x xs Hx _ IH]; intros fuel rest Hf; [by destruct fuel|].
  destruct fuel as [|fuel]; [simpl in Hf; lia|]. cbn [items map concat].
  unfold len. cbn [length]. zcmp. rewrite <- app_assoc, Hx. cbn [mbind option_bind].
  replace (Z.of_nat (S (length xs)) - 1) with (len xs) by (unfold len; lia).
  rewrite IH by (simpl in Hf; lia). done.
Qed.

Lemma head_nonempty v : (0 < length (encode v))%nat.
Proof.
  destruct v as [|?|n|?|?|s|bs|vs|kvs|? bs]; cbn [encode];
    unfold encode_int, str_head, bin_head, array_head, map_head, head8, head16;
    repeat match goal with |- context [if ?b then _ else _] => destruct b end; simpl; lia.
Qed.
Lemma concat_length {A} (enc : A → bytes) xs : (∀ x, 0 < length (enc x))%nat →
  (length xs ≤ length (concat (map enc xs)))%nat
  ∧ Forall (λ x, length (enc x) ≤ length (concat (map enc xs)))%nat xs.
Proof.
  intros Hpos. induction xs as [|x xs [IHl IHf]]; [done|]. cbn [map concat length].
  rewrite length_app. specialize (Hpos x). split; [lia|]. constructor; [lia|].
  eapply Forall_impl; [exact IHf|]. simpl. lia.
Qed.
Lemma array_head_nonempty n : (0 < length (array_head n))%nat.
Proof. unfold array_head, head16. repeat case_match; simpl; lia. Qed.
Lemma map_head_nonempty n : (0 < length (map_head n))%nat.
Proof. unfold map_head, head16. repeat case_match; simpl; lia. Qed.

Lemma forallb_Forall {A} (f : A → bool) xs : forallb f xs = true → Forall (λ x, f x = true) xs.
Proof. rewrite forallb_forall, Forall_forall. intros Hf x Hx. by apply Hf, list_elem_of_In. Qed.
Definition encode_pair : Value * Value → bytes := λ '(k, v), encode k ++ encode v.
Lemma encode_pair_nonempty kv : (0 < length (encode_pair kv))%nat.
Proof. destruct kv as [k v]. cbn [encode_pair]. rewrite length_app. pose proof (head_nonempty k). lia. Qed.

(** What is written can be read back, whatever follows it. *)
Lemma decode_encode v : wf_value v = true → ∀ fuel rest,
  (length (encode v) ≤ fuel)%nat → decode fuel (encode v ++ rest) = Some (v, rest).
Proof.
  induction v as [|b|n|n|n|[s|]|bs|vs IH|kvs IH|] using Value_ind; intros Hw fuel rest Hf;
    (destruct fuel as [|fuel];
      [match type of Hf with (length (encode ?v) ≤ _)%nat => pose proof (head_nonempty v) end; lia|]);
    cbn [wf_value] in Hw; try done; cbn [encode] in *;
    try (apply bool_decide_eq_true_1 in Hw).
  - by destruct b.
  - by apply decode_int.
  - change (with_len 4 (λ n r, Some (Value.F32 n, r)) (be 4 n ++ rest) = Some (Value.F32 n, rest)).
    unwidth. apply (with_len_be 4 (λ n r, Some (Value.F32 n, r))). simpl. lia.
  - change (with_len 8 (λ n r, Some (Value.F64 n, r)) (be 8 n ++ rest) = Some (Value.F64 n, rest)).
    unwidth. apply (with_len_be 8 (λ n r, Some (Value.F64 n, r))). simpl. lia.
  - destruct Hw as [Hu Hs]. cbn [utf8_bytes]. rewrite <- app_assoc, decode_str by (split; [apply len_pos|done]).
    unfold read_str. rewrite take_bytes_app. cbn [mbind option_bind]. by rewrite Hu, bytes_string_bytes.
  - destruct Hw as [_ Hs]. rewrite <- app_assoc, decode_bin by (split; [apply len_pos|done]).
    unfold read_bin. by rewrite take_bytes_app.
  - apply andb_true_iff in Hw as [Hs%bool_decide_eq_true_1 Hw].
    rewrite <- app_assoc, decode_array by (split; [apply len_pos|done]).
    destruct (concat_length encode vs head_nonempty) as [Hl Hls].
    pose proof (array_head_nonempty (len vs)). rewrite length_app in Hf.
    rewrite items_concat; [done| |lia].
    apply forallb_Forall in Hw. apply Forall_forall. intros v Hv r.
    rewrite !Forall_forall in *. apply IH; [done|by apply Hw|]. specialize (Hls v Hv). lia.
  - apply andb_true_iff in Hw as [Hs%bool_decide_eq_true_1 Hw].
    rewrite <- app_assoc, decode_map by (split; [apply len_pos|done]).
    destruct (concat_length encode_pair kvs encode_pair_nonempty) as [Hl Hls].
    pose proof (map_head_nonempty (len kvs)). rewrite length_app in Hf.
    change (map _ kvs) with (map encode_pair kvs) in *. rewrite items_concat; [done| |lia].
    apply forallb_Forall in Hw. apply Forall_forall. intros [k v] Hkv r.
    rewrite !Forall_forall in *. destruct (IH _ Hkv) as [IHk IHv]. cbn [fst snd] in IHk, IHv.
    specialize (Hw _ Hkv). apply andb_true_iff in Hw as [Hk Hv]. specialize (Hls _ Hkv).
    cbn [encode_pair] in Hls. rewrite length_app in Hls. unfold pair. cbn [encode_pair].
    rewrite <- app_assoc, IHk by (done || lia). cbn [mbind option_bind].
    rewrite IHv by (done || lia). done.
Qed.

Lemma head8_wf m8 m16 m32 n : u8 m8 → u8 m16 → u8 m32 → wf_bytes (head8 m8 m16 m32 n).
Proof. intros. unfold head8. repeat case_match; constructor; (done || apply be_wf). Qed.
Lemma head16_wf m16 m32 n : u8 m16 → u8 m32 → wf_bytes (head16 m16 m32 n).
Proof. intros. unfold head16. case_match; constructor; (done || apply be_wf). Qed.
Lemma one_byte b : 0 ≤ b < 256 → wf_bytes [b].
Proof. intros Hb. constructor; [by unwidth|constructor]. Qed.
Lemma encode_int_wf n : wf_bytes (encode_int n).
Proof.
  unfold encode_int. destruct (Z.leb_spec 0 n).
  - destruct (Z.ltb_spec n 128); [apply one_byte; lia|].
    repeat case_match; constructor; (done || apply be_wf).
  - destruct (Z.leb_spec (- 32) n); [apply one_byte; lia|].
    repeat case_match; constructor; (done || apply be_wf).
Qed.
Lemma heads_wf n : 0 ≤ n → wf_bytes (str_head n) ∧ wf_bytes (bin_head n)
  ∧ wf_bytes (array_head n) ∧ wf_bytes (map_head n).
Proof.
  intros Hn. unfold str_head, bin_head, array_head, map_head. repeat split.
  - destruct (Z.ltb_spec n 32); [apply one_byte; lia|by apply head8_wf].
  - by apply head8_wf.
  - destruct (Z.ltb_spec n 16); [apply one_byte; lia|by apply head16_wf].
  - destruct (Z.ltb_spec n 16); [apply one_byte; lia|by apply head16_wf].
Qed.
Lemma concat_wf {A} (enc : A → bytes) xs : Forall (λ x, wf_bytes (enc x)) xs →
  wf_bytes (concat (map enc xs)).
Proof. induction 1; simpl; [constructor|]. by apply Forall_app. Qed.

(** What is encoded is bytes. *)
Lemma encode_wf v : wf_value v = true → wf_bytes (encode v).
Proof.
  induction v as [|b|n|n|n|[s|]|bs|vs IH|kvs IH|] using Value_ind; cbn [wf_value encode]; intros Hw;
    try done; try (apply Forall_app; split; [by apply heads_wf, len_pos|]).
  - by apply one_byte.
  - apply one_byte. by destruct b.
  - apply encode_int_wf.
  - constructor; [done|apply be_wf].
  - constructor; [done|apply be_wf].
  - apply wf_string_bytes.
  - by apply bool_decide_eq_true_1 in Hw as [? _].
  - apply andb_true_iff in Hw as [_ Hw%forallb_Forall]. apply concat_wf, Forall_forall. intros v Hv.
    rewrite !Forall_forall in *. by apply IH, Hw.
  - apply andb_true_iff in Hw as [_ Hw%forallb_Forall]. apply (concat_wf encode_pair), Forall_forall.
    intros [k v] Hkv. rewrite !Forall_forall in *. destruct (IH _ Hkv) as [IHk IHv].
    specialize (Hw _ Hkv). apply andb_true_iff in Hw as [Hk Hv]. by apply Forall_app; split; [apply IHk|apply IHv].
Qed.

(** ** What is decoded is well typed *)

Definition sound {A} (P : A → Prop) (f : bytes → option (A * bytes)) : Prop :=
  ∀ bs a r, wf_bytes bs → f bs = Some (a, r) → P a ∧ wf_bytes r.

Lemma of_be_range bs : wf_bytes bs → 0 ≤ of_be bs < 256 ^ len bs.
Proof.
  unfold len. induction bs as [|b bs IH] using rev_ind; [done|]. intros Hb.
  apply Forall_app in Hb as [Hbs Hb]. specialize (IH Hbs). inversion_clear Hb as [|?? Hw _]. unwidth.
  rewrite of_be_snoc, length_app, Nat2Z.inj_add, Z.pow_add_r by lia. simpl. lia.
Qed.
Lemma take_bytes_sound n : sound (λ b, wf_bytes b ∧ len b = Z.max 0 n) (take_bytes n).
Proof.
  intros bs b r Hbs. unfold take_bytes, len. destruct (Z.ltb_spec (Z.of_nat (length bs)) n); [done|].
  intros [= <- <-]. rewrite <- (take_drop (Z.to_nat n) bs) in Hbs. apply Forall_app in Hbs as [Ht Hd].
  split; [split; [done|]|done]. rewrite length_take. lia.
Qed.
Lemma take_be_sound w : 0 ≤ w → sound (in_width (8 * w)) (take_be w).
Proof.
  intros Hw bs n r Hbs. unfold take_be. intros ([b r'] & Ht & [= <- <-])%bind_Some.
  destruct (take_bytes_sound w bs b r' Hbs Ht) as [[Hb Hl] Hr]. split; [|done].
  pose proof (of_be_range b Hb) as Ho. rewrite Hl in Ho. unwidth.
  rewrite Z.max_r in Ho by lia. change 256 with (2 ^ 8) in Ho. by rewrite <- Z.pow_mul_r in Ho by lia.
Qed.
Lemma with_len_sound {A} (P : A → Prop) w k : 0 ≤ w → (∀ n, sound P (k n)) → sound P (with_len w k).
Proof.
  intros Hw Hk bs a r Hbs. unfold with_len. intros ([n r'] & Ht & Ha)%bind_Some.
  destruct (take_be_sound w Hw bs n r' Hbs Ht). by apply (Hk n r').
Qed.
Lemma read_str_sound n : sound typed_value (read_str n).
Proof.
  intros bs v r Hbs. unfold read_str. intros ([b r'] & Ht & [= <- <-])%bind_Some.
  by destruct (take_bytes_sound n bs b r' Hbs Ht).
Qed.
Lemma read_bin_sound n : sound typed_value (read_bin n).
Proof.
  intros bs v r Hbs. unfold read_bin. intros ([b r'] & Ht & [= <- <-])%bind_Some.
  by destruct (take_bytes_sound n bs b r' Hbs Ht) as [[??]?].
Qed.
Lemma read_ext_sound n : sound typed_value (read_ext n).
Proof.
  intros bs v r Hbs. unfold read_ext. intros ([ty r'] & Hty & ([b r''] & Ht & [= <- <-])%bind_Some)%bind_Some.
  apply take_be_sound in Hty as [_ Hr]; [|done..]. by apply take_bytes_sound in Ht as [??].
Qed.
Lemma read_uint_sound w : 0 ≤ w ≤ 8 → sound typed_value (read_uint w).
Proof.
  intros Hw bs v r Hbs. unfold read_uint. intros ([n r'] & Ht & [= <- <-])%bind_Some.
  apply take_be_sound in Ht as [Hn Hr]; [|lia|done]. split; [|done]. unfold in_width in Hn. simpl.
  assert (2 ^ (8 * w) ≤ 2 ^ 64) by (apply Z.pow_le_mono_r; lia). lia.
Qed.
Lemma read_sint_sound w : 0 < w ≤ 8 → sound typed_value (read_sint w).
Proof.
  intros Hw bs v r Hbs. unfold read_sint. intros ([n r'] & Ht & [= <- <-])%bind_Some.
  apply take_be_sound in Ht as [Hn Hr]; [|lia|done]. split; [|done]. unfold in_width in Hn. simpl. unfold signed.
  assert (2 ^ (8 * w - 1) ≤ 2 ^ 63) by (apply Z.pow_le_mono_r; lia).
  assert (2 ^ (8 * w) = 2 * 2 ^ (8 * w - 1)) by (rewrite <- Z.pow_succ_r by lia; f_equal; lia). zcmp.
Qed.
Lemma items_sound {A} (P : A → Prop) item : sound P item → ∀ fuel n, sound (Forall P) (items item fuel n).
Proof.
  intros Hi. induction fuel as [|fuel IH]; intros n bs xs r Hbs; cbn [items]; destruct (n <=? 0); try done.
  1,2: by intros [= <- <-].
  intros ([x r'] & Hx & ([xs' r''] & Hxs & [= <- <-])%bind_Some)%bind_Some.
  apply Hi in Hx as [Hx Hr]; [|done]. apply IH in Hxs as [??]; [|done]. by split; [constructor|].
Qed.
Lemma pair_sound item : sound typed_value item → sound (λ kv, typed_value kv.2) (pair item).
Proof.
  intros Hi bs [k v] r Hbs. unfold pair.
  intros ([x r'] & Hx & ([y r''] & Hy & [= <- <- <-])%bind_Some)%bind_Some.
  apply Hi in Hx as [_ Hr]; [|done]. by apply Hi in Hy.
Qed.
Lemma decode_sound fuel : sound typed_value (decode fuel).
Proof.
  induction fuel as [|fuel IH]; intros bs v r Hbs; [done|]. destruct bs as [|m bs]; [done|].
  inversion_clear Hbs as [|?? Hm Hb]. cbn [decode].
  assert (∀ n, sound typed_value (λ r,
    '(vs, r') ← items (decode fuel) fuel n r; Some (Value.Array vs, r'))) as Harr.
  { intros n bs' v' r' Hbs. intros ([vs r''] & Hi & [= <- <-])%bind_Some.
    apply (items_sound typed_value) in Hi as [??]; [|done..]. split; [by apply typed_array|done]. }
  assert (∀ n, sound typed_value (λ r,
    '(kvs, r') ← items (pair (decode fuel)) fuel n r; Some (Value.Map kvs, r'))) as Hmap.
  { intros n bs' v' r' Hbs. intros ([vs r''] & Hi & [= <- <-])%bind_Some.
    apply (items_sound (λ kv, typed_value kv.2)) in Hi as [??]; [|by apply pair_sound|done].
    split; [by apply typed_map|done]. }
  destruct (Z.ltb_spec m 128).
  { intros [= <- <-]. unwidth. split; [simpl; lia|done]. }
  destruct (m <? 144); [apply (Hmap _ bs v r Hb)|].
  destruct (m <? 160); [apply (Harr _ bs v r Hb)|].
  destruct (m <? 192); [apply (read_str_sound _ bs v r Hb)|].
  destruct (Z.leb_spec 224 m).
  { intros [= <- <-]. unwidth. split; [simpl; lia|done]. }
  assert (∀ w f, 0 ≤ w → (∀ n, typed_value (f n)) →
    ('(n, r') ← take_be w bs; Some (f n, r')) = Some (v, r) → typed_value v ∧ wf_bytes r) as Hf.
  { intros w f Hw Hf ([n r'] & Ht & [= <- <-])%bind_Some. apply take_be_sound in Ht as [_ ?]; auto. }
  repeat (case_match; try discriminate);
    first [by intros [= <- <-]|refine (Hf _ _ _ _); [lia|done]
      |refine (read_uint_sound _ _ _ _ _ Hb); lia|refine (read_sint_sound _ _ _ _ _ Hb); lia
      |refine (read_ext_sound _ _ _ _ Hb)
      |refine (with_len_sound _ _ _ _ _ _ _ _ Hb); [lia|];
       auto using read_bin_sound, read_str_sound, read_ext_sound].
Qed.
End Msgpack.
