(* ===== verification/Messages.v ===== *)
(** * Protocol messages

    [src/protocol/messages.rs]: the thirteen handshake messages, their type
    tags, the builders of the two flavours of the auth message, and the msgpack
    codec ([rmp_serde]) as a parameter. *)

From S2P Require Import Prelude Text External Errors Types Csn Cookie Nonce Crypto Tasks.

(** ** Data *)

Record ClientHello := mkClientHello { ch_key : PublicKey }.
Record ServerHello := mkServerHello { sh_key : PublicKey }.
Record ClientAuth := mkClientAuth {
  ca_your_cookie : Cookie;
  ca_subprotocols : list string;
  ca_ping_interval : Z;
  ca_your_key : option PublicKey;
}.
Record ServerAuth := mkServerAuth {
  sa_your_cookie : Cookie;
  sa_signed_keys : option SignedKeys;
  sa_responders : option (list Address);
  sa_initiator_connected : option bool;
}.
Inductive NewInitiator := mkNewInitiator.
Record NewResponder := mkNewResponder { nr_id : Address }.
Record DropResponder := mkDropResponder {
  dr_id : Address;
  dr_reason : option Z;
}.
Record SendError := mkSendError { send_error_id : SendErrorId }.
Record Disconnected := mkDisconnected { disconnected_id : Address }.
Record Token := mkToken { token_key : PublicKey }.
Record Key := mkKey { key_key : PublicKey }.
Record Auth := mkAuth {
  auth_your_cookie : Cookie;
  auth_tasks : option (list string);
  auth_task : option string;
  auth_data : gmap string (option (gmap string Value));
}.
Record Close := mkClose { close_reason : Z }.

Module DropReason.
Inductive DropReason :=
  ProtocolError | InternalError | DroppedByInitiator | InitiatorCouldNotDecrypt.

(** [impl Into<u16> for DropReason]. *)
Definition drop_reason_into_u16 (r : DropReason) : Z :=
  match r with
  | ProtocolError => 3001
  | InternalError => 3002
  | DroppedByInitiator => 3004
  | InitiatorCouldNotDecrypt => 3005
  end.
End DropReason.
Abbreviation DropReason := DropReason.DropReason.

Module Message.
Inductive Message :=
  | ClientHello (m : ClientHello)
  | ServerHello (m : ServerHello)
  | ClientAuth (m : ClientAuth)
  | ServerAuth (m : ServerAuth)
  | NewInitiator (m : NewInitiator)
  | NewResponder (m : NewResponder)
  | DropResponder (m : DropResponder)
  | SendError (m : SendError)
  | Disconnected (m : Disconnected)
  | Token (m : Token)
  | Key (m : Key)
  | Auth (m : Auth)
  | Close (m : Close).

Definition get_type (m : Message) : string :=
  match m with
  | ClientHello _ => "client-hello"
  | ServerHello _ => "server-hello"
  | ClientAuth _ => "client-auth"
  | ServerAuth _ => "server-auth"
  | NewInitiator _ => "new-initiator"
  | NewResponder _ => "new-responder"
  | DropResponder _ => "drop-responder"
  | SendError _ => "send-error"
  | Disconnected _ => "disconnected"
  | Token _ => "token"
  | Key _ => "key"
  | Auth _ => "auth"
  | Close _ => "close"
  end.
End Message.
Abbreviation Message := Message.Message.

(** The structs that can be wrapped in a [Message]. *)
Class IntoMessage (A : Type) := into_message : A → Message.
#[export] Instance client_hello_message : IntoMessage ClientHello := Message.ClientHello.
#[export] Instance server_hello_message : IntoMessage ServerHello := Message.ServerHello.
#[export] Instance client_auth_message : IntoMessage ClientAuth := Message.ClientAuth.
#[export] Instance server_auth_message : IntoMessage ServerAuth := Message.ServerAuth.
#[export] Instance new_initiator_message : IntoMessage NewInitiator := Message.NewInitiator.
#[export] Instance new_responder_message : IntoMessage NewResponder := Message.NewResponder.
#[export] Instance drop_responder_message : IntoMessage DropResponder := Message.DropResponder.
#[export] Instance send_error_message : IntoMessage SendError := Message.SendError.
#[export] Instance token_message : IntoMessage Token := Message.Token.
#[export] Instance key_message : IntoMessage Key := Message.Key.
#[export] Instance auth_message : IntoMessage Auth := Message.Auth.
#[export] Instance close_message : IntoMessage Close := Message.Close.

(** Constructors, most of them used in tests. *)
Definition client_hello_new (key : PublicKey) : ClientHello := mkClientHello key.
Definition server_hello_new (key : PublicKey) : ServerHello := mkServerHello key.
Definition disconnected_new (id : Address) : Disconnected := mkDisconnected id.
Definition close_new (reason : Z) : Close := mkClose reason.
(** [ServerAuth::for_initiator] and [ServerAuth::for_responder]. *)
Definition server_auth_for_initiator (your_cookie : Cookie) (signed_keys : option SignedKeys)
    (responders : list Address) : ServerAuth :=
  mkServerAuth your_cookie signed_keys (Some responders) None.
Definition server_auth_for_responder (your_cookie : Cookie) (signed_keys : option SignedKeys)
    (initiator_connected : bool) : ServerAuth :=
  mkServerAuth your_cookie signed_keys None (Some initiator_connected).
Section random.
Context `{!Env, !Sodium} {S E : Type}.
Definition client_hello_random : M env S E ClientHello :=
  key ← public_key_random; mret (mkClientHello key).
Definition server_hello_random : M env S E ServerHello :=
  key ← public_key_random; mret (mkServerHello key).
Definition token_random : M env S E Token :=
  key ← public_key_random; mret (mkToken key).
Definition key_random : M env S E Key :=
  key ← public_key_random; mret (mkKey key).
End random.

(** [DropResponder::with_reason]. *)
Definition drop_responder_with_reason (id : Address) (reason : DropReason) : DropResponder :=
  mkDropResponder id (Some (DropReason.drop_reason_into_u16 reason)).

(** [Close::from_close_code]. *)
Definition close_from_close_code (c : CloseCode) : Close := mkClose (CloseCode.as_number c).

(** ** The msgpack codec (rmp_serde)

    Serialization of a message may fail in the library; the client calls it
    under [expect].  Deserialization errors are known by their text. *)

Class Rmps := {
  rmps_message_to_vec : Message → option bytes;
  rmps_message_from_slice : bytes → Message + string;
  rmps_value_to_vec : Value → option bytes;
  rmps_value_from_slice : bytes → Value + string;
}.

(** The messages whose round trip the client relies on between two clients. *)
Definition peer_message (m : Message) : bool :=
  match m with
  | Message.Token _ | Message.Key _ | Message.Auth _ | Message.Close _ => true
  | _ => false
  end.

(** The typing of a message: what the Rust types of its fields guarantee. *)
Definition wf_message (m : Message) : Prop :=
  match m with
  | Message.ClientHello m => wf_public_key (ch_key m)
  | Message.ServerHello m => wf_public_key (sh_key m)
  | Message.ClientAuth m => wf_cookie (ca_your_cookie m) ∧ u32 (ca_ping_interval m)
      ∧ from_option wf_public_key True (ca_your_key m)
  | Message.ServerAuth m => wf_cookie (sa_your_cookie m)
      ∧ from_option wf_signed_keys True (sa_signed_keys m)
      ∧ from_option (Forall wf_address) True (sa_responders m)
  | Message.NewInitiator _ => True
  | Message.NewResponder m => wf_address (nr_id m)
  | Message.DropResponder m => wf_address (dr_id m) ∧ from_option (in_width 16) True (dr_reason m)
  | Message.SendError m => wf_send_error_id (send_error_id m)
  | Message.Disconnected m => wf_address (disconnected_id m)
  | Message.Token m => wf_public_key (token_key m)
  | Message.Key m => wf_public_key (key_key m)
  | Message.Auth m => wf_cookie (auth_your_cookie m)
  | Message.Close m => u16 (close_reason m)
  end.

#[export] Instance from_option_dec {A} (P : A → Prop) Q o :
  (∀ a, Decision (P a)) → Decision Q → Decision (from_option P Q o).
Proof. destruct o; simpl; intros; apply _. Defined.
#[export] Instance wf_message_dec m : Decision (wf_message m).
Proof. destruct m; simpl; apply _. Defined.

(** The msgpack form of a close message: an internally tagged map. *)
Definition close_value (reason : Z) : Value :=
  Value.Map [(Value.from_string "type", Value.from_string "close");
             (Value.from_string "reason", Value.Integer reason)].

(** What can be sent in the fields of a message: strings and values that can be
    written. *)
Definition wf_map (m : gmap string Value) : Prop :=
  Z.of_nat (size m) < 2 ^ 32 ∧ map_Forall (λ k v, wf_string k ∧ wf_value v = true) m.
Definition wf_data (d : gmap string (option (gmap string Value))) : Prop :=
  Z.of_nat (size d) < 2 ^ 32 ∧ map_Forall (λ k o, wf_string k ∧ from_option wf_map True o) d.
Definition wire_message (m : Message) : Prop :=
  match m with
  | Message.Auth m => from_option (λ ts, short ts ∧ Forall wf_string ts) True (auth_tasks m)
      ∧ from_option wf_string True (auth_task m) ∧ wf_data (auth_data m)
  | Message.ClientAuth m => short (ca_subprotocols m) ∧ Forall wf_string (ca_subprotocols m)
  | Message.ServerAuth m => from_option short True (sa_responders m)
  | _ => True
  end.
#[export] Instance wf_map_dec m : Decision (wf_map m).
Proof. unfold wf_map. apply _. Defined.
#[export] Instance wf_data_dec d : Decision (wf_data d).
Proof. unfold wf_data. apply _. Defined.
#[export] Instance wire_message_dec m : Decision (wire_message m).
Proof. destruct m; simpl; apply _. Defined.

(** Serialization into memory succeeds; deserialization yields a value of the
    type; a well-typed client-to-client message, and a value, that can be
    written survives the round trip; a close message can also be read as a
    value. *)
Class RmpsLaws `{!Rmps} : Prop := {
  rmps_message_to_vec_total m : is_Some (rmps_message_to_vec m);
  rmps_message_from_slice_wf bs m : rmps_message_from_slice bs = inl m → wf_message m;
  rmps_message_roundtrip m bs : peer_message m = true → wf_message m → wire_message m →
    rmps_message_to_vec m = Some bs → rmps_message_from_slice bs = inl m;
  rmps_value_to_vec_total v : is_Some (rmps_value_to_vec v);
  rmps_value_roundtrip v bs : wf_value v = true →
    rmps_value_to_vec v = Some bs → rmps_value_from_slice bs = inl v;
  rmps_close_as_value r bs : u16 r → rmps_message_to_vec (Message.Close (mkClose r)) = Some bs →
    rmps_value_from_slice bs = inl (close_value r);
  (** What is written is a non-empty [Vec<u8>], and what is read is a [Value]. *)
  rmps_message_to_vec_bytes m bs : rmps_message_to_vec m = Some bs → wf_bytes bs ∧ bs ≠ [];
  rmps_value_to_vec_bytes v bs : rmps_value_to_vec v = Some bs → wf_bytes bs ∧ bs ≠ [];
  rmps_value_from_slice_typed bs v : rmps_value_from_slice bs = inl v → typed_value v;
}.

Section msgpack.
Context `{!Rmps}.

(** [Message::from_msgpack]. *)
Definition from_msgpack (bs : bytes) : outcome SignalingError Message :=
  match rmps_message_from_slice bs with
  | inl m => Ok m
  | inr e => Err (SignalingError.from_serde e)
  end.

(** [Message::to_msgpack]. *)
Definition to_msgpack {E} (m : Message) : outcome E bytes :=
  expect (rmps_message_to_vec m) "Serialization failed".
End msgpack.

(** ** Auth message builders *)

Record InitiatorAuthBuilder := mkInitiatorAuthBuilder { ib_auth : Auth }.
Record ResponderAuthBuilder := mkResponderAuthBuilder { rb_auth : Auth }.

(** [InitiatorAuthBuilder::new], [set_task] and [build]. *)
Definition initiator_auth_new (your_cookie : Cookie) : InitiatorAuthBuilder :=
  mkInitiatorAuthBuilder (mkAuth your_cookie None None ∅).

Definition set_task (name : string) (data : option (gmap string Value))
    (self : InitiatorAuthBuilder) : InitiatorAuthBuilder :=
  let auth := ib_auth self in
  mkInitiatorAuthBuilder
    (mkAuth (auth_your_cookie auth) (auth_tasks auth) (Some name) (<[name := data]> ∅)).

Definition initiator_auth_build (self : InitiatorAuthBuilder) : outcome SignalingError Auth :=
  if bool_decide (is_Some (auth_tasks (ib_auth self))) then Panic "tasks may not be set"
  else if bool_decide (is_Some (auth_task (ib_auth self))) then Ok (ib_auth self)
  else Err (SignalingError.InvalidMessage "An `Auth` message must have a task set").

(** [ResponderAuthBuilder::new]. *)
Definition responder_auth_new (your_cookie : Cookie) : ResponderAuthBuilder :=
  mkResponderAuthBuilder (mkAuth your_cookie (Some []) None ∅).

(** [Vec::dedup]: drop consecutive repetitions. *)
Fixpoint dedup (l : list string) : list string :=
  match l with
  | [] => []
  | a :: l' =>
      match l' with
      | b :: _ => if decide (a = b) then dedup l' else a :: dedup l'
      | [] => [a]
      end
  end.

(** [slice::sort_unstable] on strings, in their lexicographic order. *)
Definition sort_unstable (l : list string) : list string := merge_sort String.le l.

(** [ResponderAuthBuilder::add_task], used in tests. *)
Definition add_named_task (name : string) (data : option (gmap string Value))
    (self : ResponderAuthBuilder) : outcome SignalingError ResponderAuthBuilder :=
  let auth := rb_auth self in
  match auth_tasks auth with
  | Some tasks =>
      Ok (mkResponderAuthBuilder (mkAuth (auth_your_cookie auth) (Some (tasks ++ [name]))
            (auth_task auth) (<[name := data]> (auth_data auth))))
  | None => Panic "tasks list not initialized!"
  end.

Section responder_builder.
Context {T : Type} `{!Task T}.

(** One iteration of [ResponderAuthBuilder::add_tasks]. *)
Definition add_one_task (task : T) (self : ResponderAuthBuilder)
    : outcome SignalingError ResponderAuthBuilder :=
  let auth := rb_auth self in
  let name := task_name task in
  match auth_tasks auth with
  | Some tasks =>
      Ok (mkResponderAuthBuilder (mkAuth (auth_your_cookie auth) (Some (tasks ++ [name]))
            (auth_task auth) (<[name := task_data task]> (auth_data auth))))
  | None => Panic "tasks list not initialized!"
  end.

Fixpoint add_task_list (tasks : list T) (self : ResponderAuthBuilder)
    : outcome SignalingError ResponderAuthBuilder :=
  match tasks with
  | [] => Ok self
  | task :: tasks' => self' ← add_one_task task self; add_task_list tasks' self'
  end.
Definition add_tasks (tasks : Tasks T) (self : ResponderAuthBuilder)
    : outcome SignalingError ResponderAuthBuilder := add_task_list (tasks_vec tasks) self.
End responder_builder.

(** [ResponderAuthBuilder::build]. *)
Definition responder_auth_build (self : ResponderAuthBuilder) : outcome SignalingError Auth :=
  if bool_decide (is_Some (auth_task (rb_auth self))) then Panic "task may not be set"
  else
    tasks ← expect (auth_tasks (rb_auth self)) "tasks list not initialized!";
    if bool_decide (tasks = []) then
      Err (SignalingError.InvalidMessage "An `Auth` message must contain at least one task")
    else if bool_decide (length (dedup (sort_unstable tasks)) ≠ length tasks) then
      Err (SignalingError.InvalidMessage "An `Auth` message may not contain duplicate tasks")
    else Ok (rb_auth self).

(** ** Lemmas on the builders *)

Lemma length_dedup_le l : (length (dedup l) ≤ length l)%nat.
Proof.
  induction l as [|a [|b l] IH]; simpl in *; try lia. case_decide; simpl in *; lia.
Qed.

(** On a sorted list, [dedup] removes something exactly when there is a
    duplicate. *)
Lemma length_dedup_sorted l : StronglySorted String.le l →
  length (dedup l) = length l ↔ NoDup l.
Proof.
  induction 1 as [|a l Hl IH Ha]; [split; [constructor|done]|].
  destruct l as [|b l]; [split; [intros _; apply NoDup_singleton|done]|].
  change (dedup (a :: b :: l))
    with (if decide (a = b) then dedup (b :: l) else a :: dedup (b :: l)).
  rewrite NoDup_cons. case_decide as Hab.
  - split; [|intros [Hn _]; destruct Hn; subst; apply elem_of_cons; by left].
    pose proof (length_dedup_le (b :: l)). simpl in *. lia.
  - rewrite <- IH. change (length (a :: dedup (b :: l))) with (S (length (dedup (b :: l)))).
    change (length (a :: b :: l)) with (S (length (b :: l))). split; [|intros [_ ->]; done].
    intros [= Heq]. split; [|done]. intros [->|Hin]%elem_of_cons; [done|].
    apply Hab. inversion Hl as [|?? _ Hb]; subst. rewrite Forall_forall in Hb.
    inversion Ha; subst. apply (anti_symm String.le); auto.
Qed.

Lemma length_dedup_sort l : length (dedup (sort_unstable l)) = length l ↔ NoDup l.
Proof.
  unfold sort_unstable. pose proof (merge_sort_Permutation String.le l) as Hp.
  rewrite <- (Permutation_length Hp), length_dedup_sorted, Hp by (apply StronglySorted_merge_sort; apply _).
  done.
Qed.

Section builder_lemmas.
Context {T : Type} `{!Task T}.

(** Adding tasks appends their names in order and stores their data. *)
Lemma add_task_list_spec (tasks : list T) : ∀ c l d,
  add_task_list tasks (mkResponderAuthBuilder (mkAuth c (Some l) None d))
  = Ok (mkResponderAuthBuilder (mkAuth c (Some (l ++ (task_name <$> tasks))) None
      (foldl (λ d t, <[task_name t := task_data t]> d) d tasks))).
Proof.
  induction tasks as [|t tasks IH]; intros c l d; simpl; [by rewrite app_nil_r|].
  unfold mbind, outcome_bind. simpl. rewrite IH. by rewrite <- (app_assoc l).
Qed.

(** What the responder's auth message is, built from its task list. *)
Lemma responder_auth_spec c (ts : Tasks T) :
  (b ← add_tasks ts (responder_auth_new c); responder_auth_build b)
  = if decide (tasks_vec ts = []) then
      Err (SignalingError.InvalidMessage "An `Auth` message must contain at least one task")
    else if decide (NoDup (task_name <$> tasks_vec ts)) then
      Ok (mkAuth c (Some (task_name <$> tasks_vec ts)) None
        (foldl (λ d t, <[task_name t := task_data t]> d) ∅ (tasks_vec ts)))
    else Err (SignalingError.InvalidMessage "An `Auth` message may not contain duplicate tasks").
Proof.
  unfold add_tasks, responder_auth_new. rewrite add_task_list_spec. simpl.
  unfold responder_auth_build; simpl.
  destruct (tasks_vec ts) as [|t l]; [done|].
  rewrite (decide_False (P := _ :: _ = [])) by done.
  rewrite bool_decide_eq_false_2 by done. case_decide as Hn.
  - by rewrite bool_decide_eq_false_2 by (intros Hl; by apply Hl, length_dedup_sort).
  - by rewrite bool_decide_eq_true_2 by (by rewrite length_dedup_sort).
Qed.

Lemma initiator_auth_spec c name data :
  initiator_auth_build (set_task name data (initiator_auth_new c))
  = Ok (mkAuth c None (Some name) {[name := data]}).
Proof. done. Qed.
End builder_lemmas.
