(* ===== verification/Serde.v ===== *)
(** * Messages as msgpack maps

    The derived serialization of the messages (messages.rs).  [ser_message] is
    the map that [#[serde(tag = "type")]] and the attributes of the structs
    describe: the tag first, then the fields in the order of their declaration,
    an optional field left out when it is [None].  [de_message] de_typed such
    a map: the fields in any order, unknown ones ignored, a missing or repeated
    one refused, each value with the visitor of its type.

    The byte format is the parameter [Rmp].  From its laws the file derives the
    laws of the client's codec ([RmpsLaws]), so that what the development
    assumes of serialization can be traced to the round trip of plain values. *)

From S2P Require Import Prelude Text External Errors Types Csn Cookie Nonce Crypto Tasks.
From S2P Require Import Messages.

(** ** The parameter

    Values as bytes, in the format of rmp and rmpv; what rust_sodium and serde
    read as a key or a string; the other forms of a message that serde reads (an
    array, field numbers); the text of an error; the iteration order of a hash
    map. *)
Class Rmp := {
  rmp_write : Value → bytes;
  rmp_read : bytes → Value + string;
  de_key : Value → option PublicKey;
  de_string : Value → option string;
  de_other : Value → option Message;
  de_error : Value → string;
  map_order {A} : gmap string A → list (string * A);
}.

Class RmpLaws `{!Rmp} : Prop := {
  rmp_read_write v : wf_value v = true → rmp_read (rmp_write v) = inl v;
  rmp_write_bytes v : wf_bytes (rmp_write v) ∧ rmp_write v ≠ [];
  rmp_read_typed bs v : rmp_read bs = inl v → typed_value v;
  de_key_binary k : wf_public_key k → de_key (Value.Binary (pk_bytes k)) = Some k;
  de_key_wf v k : typed_value v → de_key v = Some k → wf_public_key k;
  de_string_str s : de_string (Value.from_string s) = Some s;
  de_other_wf v m : typed_value v → de_other v = Some m → wf_message m;
  map_order_perm {A} (m : gmap string A) : map_order m ≡ₚ map_to_list m;
}.

(** ** Serialization *)

Section ser.
Context `{!Rmp, !ByteOrder}.

Definition str (s : string) : Value := Value.from_string s.
Definition ser_key (k : PublicKey) : Value := Value.Binary (pk_bytes k).
Definition ser_cookie (c : Cookie) : Value := Value.Binary (cookie_serialize c).
Definition ser_signed_keys (k : SignedKeys) : Value := Value.Binary (signed_keys_serialize k).
Definition ser_address (a : Address) : Value := Value.Integer (Address.address_serialize a).
Definition ser_send_error_id (i : SendErrorId) : Value := Value.Binary (send_error_id_as_bytes i).
Definition ser_map {A} (ser : A → Value) (m : gmap string A) : Value :=
  Value.Map (map (λ '(k, v), (str k, ser v)) (map_order m)).
Definition ser_option {A} (ser : A → Value) (o : option A) : Value :=
  match o with Some a => ser a | None => Value.Nil end.

(** A field, and a field with [skip_serializing_if = "Option::is_none"]. *)
Definition put (name : string) (v : Value) : list (string * Value) := [(name, v)].
Definition put_some {A} (name : string) (ser : A → Value) (o : option A) : list (string * Value) :=
  match o with Some a => put name (ser a) | None => [] end.

Definition ser_fields (m : Message) : list (string * Value) :=
  match m with
  | Message.ClientHello m => put "key" (ser_key (ch_key m))
  | Message.ServerHello m => put "key" (ser_key (sh_key m))
  | Message.ClientAuth m =>
      put "your_cookie" (ser_cookie (ca_your_cookie m))
      ++ put "subprotocols" (Value.Array (map str (ca_subprotocols m)))
      ++ put "ping_interval" (Value.Integer (ca_ping_interval m))
      ++ put_some "your_key" ser_key (ca_your_key m)
  | Message.ServerAuth m =>
      put "your_cookie" (ser_cookie (sa_your_cookie m))
      ++ put_some "signed_keys" ser_signed_keys (sa_signed_keys m)
      ++ put_some "responders" (λ rs, Value.Array (map ser_address rs)) (sa_responders m)
      ++ put_some "initiator_connected" Value.Boolean (sa_initiator_connected m)
  | Message.NewInitiator _ => []
  | Message.NewResponder m => put "id" (ser_address (nr_id m))
  | Message.DropResponder m =>
      put "id" (ser_address (dr_id m)) ++ put_some "reason" Value.Integer (dr_reason m)
  | Message.SendError m => put "id" (ser_send_error_id (send_error_id m))
  | Message.Disconnected m => put "id" (ser_address (disconnected_id m))
  | Message.Token m => put "key" (ser_key (token_key m))
  | Message.Key m => put "key" (ser_key (key_key m))
  | Message.Auth m =>
      put "your_cookie" (ser_cookie (auth_your_cookie m))
      ++ put_some "tasks" (λ ts, Value.Array (map str ts)) (auth_tasks m)
      ++ put_some "task" str (auth_task m)
      ++ put "data" (ser_map (ser_option (ser_map id)) (auth_data m))
  | Message.Close m => put "reason" (Value.Integer (close_reason m))
  end.

(** The names of the variants, from their [rename] attributes. *)
Definition variant_name (m : Message) : string :=
  match m with
  | Message.ClientHello _ => "client-hello"
  | Message.ServerHello _ => "server-hello"
  | Message.ClientAuth _ => "client-auth"
  | Message.ServerAuth _ => "server-auth"
  | Message.NewInitiator _ => "new-initiator"
  | Message.NewResponder _ => "new-responder"
  | Message.DropResponder _ => "drop-responder"
  | Message.SendError _ => "send-error"
  | Message.Disconnected _ => "disconnected"
  | Message.Token _ => "token"
  | Message.Key _ => "key"
  | Message.Auth _ => "auth"
  | Message.Close _ => "close"
  end.
Definition ser_message (m : Message) : Value :=
  Value.Map (map (λ '(k, v), (str k, v)) (put "type" (str (variant_name m)) ++ ser_fields m)).
End ser.

(** ** Deserialization *)

Section de.
Context `{!Rmp, !ByteOrder}.

Definition visited {E A} (o : outcome E A) : option A :=
  match o with Ok a => Some a | _ => None end.
Definition de_bytes {E A} (visit : bytes → outcome E A) (v : Value) : option A :=
  match v with Value.Binary bs => visited (visit bs) | _ => None end.
Definition de_uint (bits : Z) (v : Value) : option Z :=
  match v with
  | Value.Integer n => if bool_decide (in_width bits n) then Some n else None
  | _ => None
  end.
Definition de_bool (v : Value) : option bool :=
  match v with Value.Boolean b => Some b | _ => None end.
(** [AddressVisitor] reads an integer that is encoded in one byte.  A value does
    not keep the width of its encoding, so an address in a wider form, which the
    visitor refuses, is read here as well. *)
Definition de_address (v : Value) : option Address := Address.address_visit_u8 <$> de_uint 8 v.
Definition de_vec {A} (de : Value → option A) (v : Value) : option (list A) :=
  match v with Value.Array vs => mapM de vs | _ => None end.
Definition de_option {A} (de : Value → option A) (v : Value) : option (option A) :=
  match v with Value.Nil => Some None | _ => Some <$> de v end.
(** A hash map: a later entry replaces an earlier one with its key. *)
Definition de_entry {A} (de : Value → option A) (kv : Value * Value) : option (string * A) :=
  k ← de_string kv.1; a ← de kv.2; Some (k, a).
Definition de_map {A} (de : Value → option A) (v : Value) : option (gmap string A) :=
  match v with
  | Value.Map kvs => foldl (λ m '(k, a), <[k := a]> m) ∅ <$> mapM (de_entry de) kvs
  | _ => None
  end.

(** The entries of a map whose keys are all strings. *)
Definition named (kv : Value * Value) : option (string * Value) :=
  k ← Value.as_str kv.1; Some (k, kv.2).
Definition fields (v : Value) : option (list (string * Value)) :=
  match v with Value.Map kvs => mapM named kvs | _ => None end.

(** The values of a field; one that must be there, and one that may be missing. *)
Definition values (name : string) (fs : list (string * Value)) : list Value :=
  map snd (filter (λ f, f.1 = name) fs).
Definition required {A} (name : string) (de : Value → option A) (fs : list (string * Value))
    : option A :=
  match values name fs with [v] => de v | _ => None end.
Definition optional {A} (name : string) (de : Value → option A) (fs : list (string * Value))
    : option (option A) :=
  match values name fs with [] => Some None | [v] => de_option de v | _ => None end.

Definition de_client_auth (fs : list (string * Value)) : option Message :=
  your_cookie ← required "your_cookie" (de_bytes cookie_visit_bytes) fs;
  subprotocols ← required "subprotocols" (de_vec de_string) fs;
  ping_interval ← required "ping_interval" (de_uint 32) fs;
  your_key ← optional "your_key" de_key fs;
  Some (Message.ClientAuth (mkClientAuth your_cookie subprotocols ping_interval your_key)).
Definition de_server_auth (fs : list (string * Value)) : option Message :=
  your_cookie ← required "your_cookie" (de_bytes cookie_visit_bytes) fs;
  signed_keys ← optional "signed_keys" (de_bytes signed_keys_visit_bytes) fs;
  responders ← optional "responders" (de_vec de_address) fs;
  initiator_connected ← optional "initiator_connected" de_bool fs;
  Some (Message.ServerAuth (mkServerAuth your_cookie signed_keys responders initiator_connected)).
Definition de_drop_responder (fs : list (string * Value)) : option Message :=
  id ← required "id" de_address fs;
  reason ← optional "reason" (de_uint 16) fs;
  Some (Message.DropResponder (mkDropResponder id reason)).
Definition de_auth (fs : list (string * Value)) : option Message :=
  your_cookie ← required "your_cookie" (de_bytes cookie_visit_bytes) fs;
  tasks ← optional "tasks" (de_vec de_string) fs;
  task ← optional "task" de_string fs;
  data ← required "data" (de_map (de_option (de_map Some))) fs;
  Some (Message.Auth (mkAuth your_cookie tasks task data)).

(** The fields behind a tag: each variant by its name. *)
Definition variants (fs : list (string * Value)) : list (string * option Message) := [
  ("client-hello", Message.ClientHello ∘ mkClientHello <$> required "key" de_key fs);
  ("server-hello", Message.ServerHello ∘ mkServerHello <$> required "key" de_key fs);
  ("client-auth", de_client_auth fs);
  ("server-auth", de_server_auth fs);
  ("new-initiator",
    match fs with [] => Some (Message.NewInitiator mkNewInitiator) | _ => None end);
  ("new-responder", Message.NewResponder ∘ mkNewResponder <$> required "id" de_address fs);
  ("drop-responder", de_drop_responder fs);
  ("send-error",
    Message.SendError ∘ mkSendError <$> required "id" (de_bytes send_error_id_visit_bytes) fs);
  ("disconnected", Message.Disconnected ∘ mkDisconnected <$> required "id" de_address fs);
  ("token", Message.Token ∘ mkToken <$> required "key" de_key fs);
  ("key", Message.Key ∘ mkKey <$> required "key" de_key fs);
  ("auth", de_auth fs);
  ("close", Message.Close ∘ mkClose <$> required "reason" (de_uint 16) fs)
].
Definition de_variant (tag : string) (fs : list (string * Value)) : option Message :=
  '(_, m) ← head (filter (λ v, v.1 = tag) (variants fs)); m.

Definition de_message (v : Value) : option Message :=
  match fields v with
  | Some fs => tag ← required "type" de_string fs; de_variant tag (filter (λ f, f.1 ≠ "type") fs)
  | None => de_other v
  end.

(** ** The client's codec *)

Definition serde_rmps : Rmps := {|
  rmps_message_to_vec m := Some (rmp_write (ser_message m));
  rmps_message_from_slice bs :=
    match rmp_read bs with
    | inl v => match de_message v with Some m => inl m | None => inr (de_error v) end
    | inr e => inr e
    end;
  rmps_value_to_vec v := Some (rmp_write v);
  rmps_value_from_slice := rmp_read;
|}.
End de.

(** ** What is read is well typed *)

Section typing.
Context `{!Rmp, !RmpLaws, !ByteOrder, !ByteOrderLaws}.

Definition de_typed {A} (de : Value → option A) (P : A → Prop) : Prop :=
  ∀ v a, typed_value v → de v = Some a → P a.
Definition typed_fields (fs : list (string * Value)) : Prop := Forall (λ f, typed_value f.2) fs.

Lemma fields_typed v fs : typed_value v → fields v = Some fs → typed_fields fs.
Proof.
  destruct v as [| | | | | | | |kvs|]; try done. intros Hv%typed_map. cbn [fields]. intros Hm%mapM_Some_1.
  unfold typed_fields. induction Hm as [|[k v] [k' v'] kvs fs He _ IH]; [constructor|].
  inversion_clear Hv. constructor; [|auto].
  unfold named in He. simpl in He. destruct (Value.as_str k); simplify_eq/=. done.
Qed.
Lemma values_typed name fs : typed_fields fs → Forall typed_value (values name fs).
Proof.
  intros Hfs. unfold values. apply Forall_map, Forall_forall. intros f Hf.
  apply list_elem_of_filter in Hf as [_ Hf]. unfold typed_fields in Hfs. rewrite Forall_forall in Hfs. by apply Hfs.
Qed.
Lemma required_reads {A} name (de : Value → option A) P fs a : typed_fields fs → de_typed de P →
  required name de fs = Some a → P a.
Proof.
  intros Hfs Hde. unfold required. pose proof (values_typed name fs Hfs) as Hv.
  destruct (values name fs) as [|v [|]]; try done. inversion_clear Hv. by apply Hde.
Qed.
Lemma optional_reads {A} name (de : Value → option A) P fs o : typed_fields fs → de_typed de P →
  optional name de fs = Some o → from_option P True o.
Proof.
  intros Hfs Hde. unfold optional. pose proof (values_typed name fs Hfs) as Hv.
  destruct (values name fs) as [|v [|]]; [by intros [= <-]| |done]. inversion_clear Hv as [|?? Ht _].
  assert (∀ o, Some <$> de v = Some o → from_option P True o) as Hs.
  { intros o' (a & Ha & ->)%fmap_Some. simpl. by apply (Hde v). }
  unfold de_option. destruct v; auto. by intros [= <-].
Qed.
Lemma de_bytes_reads {E A} (visit : bytes → outcome E A) (P : A → Prop) :
  (∀ bs a, wf_bytes bs → visit bs = Ok a → P a) → de_typed (de_bytes visit) P.
Proof.
  intros Hv [| | | | | |bs| | |] a; try done. cbn [typed_value de_bytes]. intros Hbs.
  destruct (visit bs) as [a'| |] eqn:He; simpl; [|done..]. intros [= <-]. by apply (Hv bs).
Qed.
Lemma de_uint_reads bits : de_typed (de_uint bits) (in_width bits).
Proof. intros [] k; try done. cbn [de_uint]. case_bool_decide; [|done]. by intros _ [= <-]. Qed.
Lemma de_address_reads : de_typed de_address wf_address.
Proof. intros v a _ (n & Hn & ->)%fmap_Some. by destruct v; try done; simpl in Hn; case_bool_decide; simplify_eq. Qed.
Lemma de_vec_reads {A} (de : Value → option A) P : de_typed de P → de_typed (de_vec de) (Forall P).
Proof.
  intros Hde [| | | | | | |vs| |] l; try done. intros Hv%typed_array. cbn [de_vec].
  intros Hm%mapM_Some_1. induction Hm as [|v a vs l He _ IH]; [constructor|].
  inversion_clear Hv. constructor; [by apply (Hde v)|auto].
Qed.
Lemma cookie_reads : de_typed (de_bytes cookie_visit_bytes) wf_cookie.
Proof. apply de_bytes_reads. intros bs c Hbs [Hl ->]%cookie_visit_bytes_Ok; done. Qed.
Lemma signed_keys_reads : de_typed (de_bytes signed_keys_visit_bytes) wf_signed_keys.
Proof.
  apply de_bytes_reads. intros bs k Hbs. unfold signed_keys_visit_bytes.
  case_bool_decide as Hl; [done|]. intros [= <-].
  by apply (wf_array_slice 0 80 80).
Qed.
Lemma send_error_id_reads : de_typed (de_bytes send_error_id_visit_bytes) wf_send_error_id.
Proof.
  apply de_bytes_reads. intros bs i Hbs. unfold send_error_id_visit_bytes.
  case_bool_decide as Hl; [done|]. destruct (send_error_id_from_slice bs) as [i'| |] eqn:He; try done.
  intros [= <-]. by eapply send_error_id_into_from.
Qed.

Create HintDb serde.
#[local] Hint Resolve de_uint_reads de_address_reads de_vec_reads cookie_reads signed_keys_reads
  send_error_id_reads : serde.
Ltac reading := repeat match goal with
  | H : mbind _ _ = Some _ |- _ => apply bind_Some in H as (? & ? & H)
  | H : fmap _ _ = Some _ |- _ => apply fmap_Some in H as (? & ? & ->)
  | H : Some _ = Some _ |- _ => injection H as <-
  end.
Lemma variants_wf fs : typed_fields fs → Forall (λ v, ∀ m, v.2 = Some m → wf_message m) (variants fs).
Proof.
  intros Hfs. assert (de_typed de_key wf_public_key) as Hk by (intros v k; apply de_key_wf).
  unfold variants, de_client_auth, de_server_auth, de_drop_responder, de_auth.
  repeat apply Forall_cons_2; [..|constructor]; cbn [snd]; intros m Hm.
  5: by destruct fs; simplify_eq.
  all: reading; repeat match goal with
    | H : required _ _ _ = Some _ |- _ => eapply required_reads in H; [|exact Hfs|solve [eauto with serde]]
    | H : optional _ _ _ = Some _ |- _ => eapply optional_reads in H; [|exact Hfs|solve [eauto with serde]]
    end; simpl; repeat (apply conj; [eassumption|]); first [eassumption|exact I].
Qed.
Lemma de_variant_wf tag fs m : typed_fields fs → de_variant tag fs = Some m → wf_message m.
Proof.
  intros Hfs Hd. unfold de_variant in Hd. apply bind_Some in Hd as ([tag' o] & Hh & Ho).
  assert ((tag', o) ∈ variants fs) as Hin.
  { destruct (filter _ _) as [|v vs] eqn:Hf; [done|]. injection Hh as ->.
    assert ((tag', o) ∈ filter (λ v, v.1 = tag) (variants fs)) as Hin by (rewrite Hf; left).
    by apply list_elem_of_filter in Hin as [_ ?]. }
  clear Hh. subst o. pose proof (variants_wf fs Hfs) as Hall. rewrite Forall_forall in Hall. by specialize (Hall _ Hin m eq_refl).
Qed.
Lemma de_message_wf v m : typed_value v → de_message v = Some m → wf_message m.
Proof.
  intros Hv. unfold de_message. destruct (fields v) as [fs|] eqn:Hf.
  - intros (tag & _ & Hd)%bind_Some. eapply de_variant_wf; [|exact Hd].
    apply (fields_typed v fs) in Hf; [|done]. unfold typed_fields in *.
    apply Forall_forall. intros f [_ Hin]%list_elem_of_filter. rewrite Forall_forall in Hf. auto.
  - by apply de_other_wf.
Qed.
End typing.

(** ** The round trip *)

Section roundtrip.
Context `{!Rmp, !RmpLaws, !ByteOrder, !ByteOrderLaws}.

Lemma de_vec_map {A} (de : Value → option A) (ser : A → Value) (P : A → Prop) l :
  (∀ a, P a → de (ser a) = Some a) → Forall P l → de_vec de (Value.Array (map ser l)) = Some l.
Proof.
  intros Hde Hl. cbn [de_vec]. apply mapM_Some_2. induction Hl; constructor; auto.
Qed.
Lemma foldl_insert {A} (l : list (string * A)) :
  foldl (λ m '(k, a), <[k := a]> m) ∅ l = list_to_map (reverse l) :> gmap string A.
Proof.
  induction l as [|[k a] l IH] using rev_ind; [done|].
  rewrite foldl_app, IH, reverse_app. done.
Qed.
Lemma de_ser_map {A} (de : Value → option A) (ser : A → Value) (m : gmap string A) :
  map_Forall (λ _ a, de (ser a) = Some a) m → de_map de (ser_map ser m) = Some m.
Proof.
  intros Hm. cbn [de_map ser_map]. pose proof (map_order_perm m) as Hp.
  assert (mapM (de_entry de) (map (λ '(k, v), (str k, ser v)) (map_order m)) = Some (map_order m)) as ->.
  { apply mapM_Some_2. apply Forall2_fmap_l, Forall_Forall2_diag, Forall_forall. intros [k a] Hin.
    rewrite Hp in Hin. apply elem_of_map_to_list in Hin. unfold de_entry. simpl.
    rewrite de_string_str. simpl. by rewrite (Hm k a Hin). }
  simpl. f_equal. rewrite foldl_insert.
  trans (list_to_map (map_to_list m) : gmap string A); [symmetry|apply list_to_map_to_list].
  apply list_to_map_proper; [apply NoDup_fst_map_to_list|]. by rewrite reverse_Permutation, Hp.
Qed.
Lemma de_option_ser {A} (de : Value → option A) (ser : A → Value) o :
  (∀ a, ser a ≠ Value.Nil) → (∀ a, o = Some a → de (ser a) = Some a) →
  de_option de (ser_option ser o) = Some o.
Proof.
  intros Hn Hde. destruct o as [a|]; [|done]. cbn [ser_option]. unfold de_option.
  specialize (Hn a). specialize (Hde a eq_refl). destruct (ser a); try done; by rewrite Hde.
Qed.
Lemma de_ser_data d : de_map (de_option (de_map Some)) (ser_map (ser_option (ser_map id)) d) = Some d.
Proof.
  apply de_ser_map. intros k o _. apply de_option_ser; [done|]. intros m _. by apply de_ser_map.
Qed.
Lemma de_ser_cookie c : wf_cookie c → de_bytes cookie_visit_bytes (ser_cookie c) = Some c.
Proof. intros Hc. cbn [de_bytes ser_cookie]. by rewrite cookie_roundtrip. Qed.
Lemma de_ser_signed_keys k : wf_signed_keys k →
  de_bytes signed_keys_visit_bytes (ser_signed_keys k) = Some k.
Proof. intros Hk. cbn [de_bytes ser_signed_keys]. by rewrite signed_keys_visit_roundtrip. Qed.
Lemma de_ser_send_error_id i : wf_send_error_id i →
  de_bytes send_error_id_visit_bytes (ser_send_error_id i) = Some i.
Proof.
  intros Hi. cbn [de_bytes ser_send_error_id]. unfold send_error_id_visit_bytes.
  destruct (send_error_id_bytes_wf i Hi) as [Hl _]. rewrite bool_decide_eq_false_2 by (rewrite Hl; auto).
  by rewrite send_error_id_roundtrip.
Qed.
Lemma de_ser_uint bits n : in_width bits n → de_uint bits (Value.Integer n) = Some n.
Proof. intros Hn. cbn [de_uint]. by rewrite bool_decide_eq_true_2. Qed.
Lemma de_ser_address a : wf_address a → de_address (ser_address a) = Some a.
Proof. intros Ha. unfold de_address, ser_address. rewrite de_ser_uint by done. by destruct a. Qed.

Lemma fields_named fs : fields (Value.Map (map (λ '(k, v), (str k, v)) fs)) = Some fs.
Proof. cbn [fields]. apply mapM_Some_2. induction fs as [|[k v] fs IH]; constructor; auto. Qed.
Lemma ser_fields_untagged m : filter (λ f, f.1 ≠ "type") (ser_fields m) = ser_fields m.
Proof.
  by destruct m as [| |[???[]]|[?[][][]]| | |[?[]]| | | | |[?[][]?]|].
Qed.
Lemma de_ser_fields m :
  de_message (ser_message m) = de_variant (variant_name m) (ser_fields m).
Proof.
  unfold de_message, ser_message. rewrite fields_named.
  assert (required "type" de_string (put "type" (str (variant_name m)) ++ ser_fields m)
    = Some (variant_name m)) as ->.
  { unfold required. replace (values _ _) with [str (variant_name m)]; [apply de_string_str|].
    by destruct m as [| |[???[]]|[?[][][]]| | |[?[]]| | | | |[?[][]?]|]. }
  cbn [mbind option_bind]. f_equal. apply (ser_fields_untagged m).
Qed.

Lemma de_ser_key k : wf_public_key k → de_key (ser_key k) = Some k.
Proof. apply de_key_binary. Qed.
Lemma required_at {A} name (de : Value → option A) fs v a :
  values name fs = [v] → de v = Some a → required name de fs = Some a.
Proof. unfold required. by intros ->. Qed.
Lemma optional_at {A} name (de : Value → option A) (ser : A → Value) fs o :
  values name fs = match o with Some a => [ser a] | None => [] end →
  (∀ a, ser a ≠ Value.Nil) → from_option (λ a, de (ser a) = Some a) True o →
  optional name de fs = Some o.
Proof.
  unfold optional. intros -> Hn Ho. destruct o as [a|]; [|done].
  apply (de_option_ser de ser (Some a)); [done|]. by intros ? [= <-].
Qed.
Lemma de_strings ss : de_vec de_string (Value.Array (map str ss)) = Some ss.
Proof. apply (de_vec_map _ _ (λ _, True)); [intros; apply de_string_str|by apply Forall_true]. Qed.

Lemma de_ser_client_auth m : wf_message (Message.ClientAuth m) →
  de_client_auth (ser_fields (Message.ClientAuth m)) = Some (Message.ClientAuth m).
Proof.
  destruct m as [c ss pi k]. simpl. intros (Hc & Hp & Hk). unfold de_client_auth.
  rewrite (required_at _ _ _ (ser_cookie c) c); [simpl|by destruct k|by apply de_ser_cookie].
  rewrite (required_at _ _ _ (Value.Array (map str ss)) ss); [simpl|by destruct k|by apply de_strings].
  rewrite (required_at _ _ _ (Value.Integer pi) pi); [simpl|by destruct k|by apply de_ser_uint].
  erewrite (optional_at _ _ ser_key _ k); [done|by destruct k|done|].
  destruct k; [by apply de_ser_key|done].
Qed.
Lemma de_ser_server_auth m : wf_message (Message.ServerAuth m) →
  de_server_auth (ser_fields (Message.ServerAuth m)) = Some (Message.ServerAuth m).
Proof.
  destruct m as [c k rs ic]. simpl. intros (Hc & Hk & Hr). unfold de_server_auth.
  rewrite (required_at _ _ _ (ser_cookie c) c); [simpl|by destruct k, rs, ic|by apply de_ser_cookie].
  erewrite (optional_at _ _ ser_signed_keys _ k); [|by destruct k, rs, ic|done|].
  2: { destruct k; [by apply de_ser_signed_keys|done]. }
  erewrite (optional_at _ _ (λ rs, Value.Array (map ser_address rs)) _ rs); [|by destruct k, rs, ic|done|].
  2: { destruct rs; [|done]. by apply (de_vec_map _ _ wf_address); [apply de_ser_address|]. }
  erewrite (optional_at _ _ Value.Boolean _ ic); [done|by destruct k, rs, ic|done|by destruct ic].
Qed.
Lemma de_ser_drop_responder m : wf_message (Message.DropResponder m) →
  de_drop_responder (ser_fields (Message.DropResponder m)) = Some (Message.DropResponder m).
Proof.
  destruct m as [i r]. simpl. intros (Hi & Hr). unfold de_drop_responder.
  rewrite (required_at _ _ _ (ser_address i) i); [simpl|by destruct r|by apply de_ser_address].
  erewrite (optional_at _ _ Value.Integer _ r); [done|by destruct r|done|].
  destruct r; [by apply de_ser_uint|done].
Qed.
Lemma de_ser_auth m : wf_message (Message.Auth m) →
  de_auth (ser_fields (Message.Auth m)) = Some (Message.Auth m).
Proof.
  destruct m as [c ts t d]. simpl. intros Hc. unfold de_auth.
  rewrite (required_at _ _ _ (ser_cookie c) c); [simpl|by destruct ts, t|by apply de_ser_cookie].
  erewrite (optional_at _ _ (λ ts, Value.Array (map str ts)) _ ts); [|by destruct ts, t|done|].
  2: { destruct ts; [apply de_strings|done]. }
  erewrite (optional_at _ _ str _ t); [|by destruct ts, t|done|].
  2: { destruct t; [apply de_string_str|done]. }
  rewrite (required_at _ _ _ (ser_map (ser_option (ser_map id)) d) d); [done|by destruct ts, t|by apply de_ser_data].
Qed.
Lemma one_field {A} name (de : Value → option A) v a (f : A → Message) :
  de v = Some a → f <$> required name de (put name v) = Some (f a).
Proof.
  intros Hv. rewrite (required_at _ _ _ v a); [done| |done].
  unfold values, put. by rewrite filter_cons_True, filter_nil.
Qed.
(** What is serialized deserializes to the same message. *)
Lemma de_ser_message m : wf_message m → de_message (ser_message m) = Some m.
Proof.
  rewrite de_ser_fields. intros Hw.
  destruct m as [[k]|[k]|m|m|[]|[i]|m|[i]|[i]|[k]|[k]|m|[r]]; simpl in Hw.
  - exact (one_field _ _ _ _ (Message.ClientHello ∘ mkClientHello) (de_ser_key k Hw)).
  - exact (one_field _ _ _ _ (Message.ServerHello ∘ mkServerHello) (de_ser_key k Hw)).
  - by apply de_ser_client_auth.
  - by apply de_ser_server_auth.
  - done.
  - exact (one_field _ _ _ _ (Message.NewResponder ∘ mkNewResponder) (de_ser_address i Hw)).
  - by apply de_ser_drop_responder.
  - exact (one_field _ _ _ _ (Message.SendError ∘ mkSendError) (de_ser_send_error_id i Hw)).
  - exact (one_field _ _ _ _ (Message.Disconnected ∘ mkDisconnected) (de_ser_address i Hw)).
  - exact (one_field _ _ _ _ (Message.Token ∘ mkToken) (de_ser_key k Hw)).
  - exact (one_field _ _ _ _ (Message.Key ∘ mkKey) (de_ser_key k Hw)).
  - by apply de_ser_auth.
  - exact (one_field _ _ _ _ (Message.Close ∘ mkClose) (de_ser_uint 16 r Hw)).
Qed.

(** ** What is serialized can be written *)

Lemma wf_str s : wf_string s → wf_value (str s) = true.
Proof. intros Hs. simpl. by apply bool_decide_eq_true_2. Qed.
Lemma wf_binary n bs : wf_array n bs → (n < 256)%nat → wf_value (Value.Binary bs) = true.
Proof.
  intros [Hl Hbs] Hn. simpl. apply bool_decide_eq_true_2. split; [done|]. unfold short. rewrite Hl. lia.
Qed.
Lemma wf_integer bits n : 0 ≤ bits ≤ 64 → in_width bits n → wf_value (Value.Integer n) = true.
Proof.
  intros Hb [Hz Hn]. simpl. apply bool_decide_eq_true_2. split; [lia|].
  eapply Z.lt_le_trans; [exact Hn|]. apply Z.pow_le_mono_r; lia.
Qed.
Lemma wf_array_value {A} (ser : A → Value) l : short l → Forall (λ a, wf_value (ser a) = true) l →
  wf_value (Value.Array (map ser l)) = true.
Proof.
  intros Hs Hl. cbn [wf_value]. apply andb_true_iff. split.
  - apply bool_decide_eq_true_2. unfold short. by rewrite length_map.
  - apply forallb_forall. intros v Hv. apply in_map_iff in Hv as (a & <- & Ha).
    rewrite Forall_forall in Hl. by apply Hl, list_elem_of_In.
Qed.
Definition wf_field (f : string * Value) : Prop := wf_string f.1 ∧ wf_value f.2 = true.
Lemma wf_map_value fs : short fs → Forall wf_field fs →
  wf_value (Value.Map (map (λ '(k, v), (str k, v)) fs)) = true.
Proof.
  intros Hs Hl. cbn [wf_value]. apply andb_true_iff. split.
  - apply bool_decide_eq_true_2. unfold short. by rewrite length_map.
  - apply forallb_forall. intros [k v] Hv. apply in_map_iff in Hv as ([s v'] & [= <- <-] & Ha).
    rewrite Forall_forall in Hl. destruct (Hl (s, v')) as [Hk Hv]; [by apply list_elem_of_In|].
    simpl in Hk, Hv. rewrite Hv. by rewrite wf_str.
Qed.
Lemma wf_ser_map {A} (ser : A → Value) (m : gmap string A) : Z.of_nat (size m) < 2 ^ 32 →
  map_Forall (λ k a, wf_string k ∧ wf_value (ser a) = true) m → wf_value (ser_map ser m) = true.
Proof.
  intros Hs Hm. unfold ser_map.
  replace (map _ _) with (map (λ '(k, v), (str k, v)) (map (λ '(k, a), (k, ser a)) (map_order m))).
  2: { rewrite map_map. apply map_ext. by intros []. }
  pose proof (map_order_perm m) as Hp. apply wf_map_value.
  - unfold short. by rewrite length_map, Hp, length_map_to_list.
  - apply Forall_fmap, Forall_forall. intros [k a] Hin. rewrite Hp in Hin.
    apply elem_of_map_to_list in Hin. exact (Hm k a Hin).
Qed.
Lemma wf_ser_data d : wf_data d → wf_value (ser_map (ser_option (ser_map id)) d) = true.
Proof.
  intros [Hs Hd]. apply wf_ser_map; [done|]. intros k [m|] Hk; destruct (Hd k _ Hk) as [Hks Hm]; [|done].
  split; [done|]. destruct Hm as [Hms Hm]. by apply wf_ser_map.
Qed.
Lemma wf_strings ss : short ss → Forall wf_string ss → wf_value (Value.Array (map str ss)) = true.
Proof. intros Hs Hss. apply wf_array_value; [done|]. eapply Forall_impl; [exact Hss|]. apply wf_str. Qed.
Lemma wf_put name v : bool_decide (wf_string name) = true → wf_value v = true →
  Forall wf_field (put name v).
Proof. intros Hn%bool_decide_eq_true_1 Hv. constructor; [by split|constructor]. Qed.
Lemma wf_put_some {A} name (ser : A → Value) o : bool_decide (wf_string name) = true →
  from_option (λ a, wf_value (ser a) = true) True o → Forall wf_field (put_some name ser o).
Proof. intros Hn Ho. destruct o as [a|]; [by apply wf_put|constructor]. Qed.
Lemma wf_fields m : wf_message m → wire_message m → Forall wf_field (ser_fields m).
Proof.
  assert (∀ k, wf_public_key k → wf_value (ser_key k) = true) as Hkey
    by (intros k Hk; apply (wf_binary 32); [exact Hk|lia]).
  assert (∀ c, wf_cookie c → wf_value (ser_cookie c) = true) as Hcookie
    by (intros c Hc; apply (wf_binary 16); [exact Hc|lia]).
  assert (∀ k, wf_signed_keys k → wf_value (ser_signed_keys k) = true) as Hsigned
    by (intros k Hk; apply (wf_binary 80); [exact Hk|lia]).
  assert (∀ i, wf_send_error_id i → wf_value (ser_send_error_id i) = true) as Hid
    by (intros i Hi; apply (wf_binary 8); [by apply send_error_id_bytes_wf|lia]).
  assert (∀ a, wf_address a → wf_value (ser_address a) = true) as Haddr by (intros; by apply (wf_integer 8)).
  destruct m as [[k]|[k]|[c ss pi k]|[c k rs ic]|[]|[i]|[i r]|[i]|[i]|[k]|[k]|[c ts t d]|[r]];
    cbn [wf_message wire_message ser_fields ch_key sh_key nr_id send_error_id disconnected_id token_key
      key_key close_reason]; intros Hw Hm; rewrite ?Forall_app;
    try (apply wf_put; [done|by (apply Hkey || apply Hid || apply Haddr || apply (wf_integer 16))]).
  - destruct Hw as (? & ? & ?), Hm. split; [by apply wf_put; [|apply Hcookie]|].
    split; [by apply wf_put; [|apply wf_strings]|].
    split; [by apply wf_put; [|by apply (wf_integer 32)]|].
    apply wf_put_some; [done|]. destruct k; [by apply Hkey|done].
  - destruct Hw as (? & ? & ?). split; [by apply wf_put; [|apply Hcookie]|].
    split; [apply wf_put_some; [done|destruct k; [by apply Hsigned|done]]|].
    split; [|apply wf_put_some; [done|by destruct ic]].
    apply wf_put_some; [done|]. destruct rs as [rs|]; [|done]. simpl in *.
    apply wf_array_value; [done|]. by eapply Forall_impl.
  - constructor.
  - destruct Hw as (? & ?). split; [by apply wf_put; [|apply Haddr]|].
    apply wf_put_some; [done|]. destruct r; [by apply (wf_integer 16)|done].
  - destruct Hm as (Hts & ? & ?). split; [by apply wf_put; [|apply Hcookie]|].
    split; [apply wf_put_some; [done|]; destruct ts as [ts|]; [destruct Hts; by apply wf_strings|done]|].
    split; [apply wf_put_some; [done|]; destruct t as [t|]; [by apply wf_str|done]|].
    by apply wf_put; [|apply wf_ser_data].
Qed.
Lemma wf_ser_message m : wf_message m → wire_message m → wf_value (ser_message m) = true.
Proof.
  intros Hw Hm. apply wf_map_value.
  - by destruct m as [| |[???[]]|[?[][][]]| | |[?[]]| | | | |[?[][]?]|].
  - apply Forall_app. split; [|by apply wf_fields]. apply wf_put; [done|]. by destruct m.
Qed.

(** The tag on the wire is the type the code reports. *)
Lemma variant_name_get_type m : variant_name m = Message.get_type m.
Proof. by destruct m. Qed.

(** ** The laws of the client's codec *)

Lemma serde_rmps_laws : @RmpsLaws serde_rmps.
Proof.
  split; simpl.
  - eauto.
  - intros bs m. destruct (rmp_read bs) as [v|] eqn:Hr; [|done].
    destruct (de_message v) eqn:Hm; [|done]. intros [= <-].
    eapply de_message_wf; [|exact Hm]. by eapply rmp_read_typed.
  - intros m bs _ Hw Hm [= <-]. rewrite rmp_read_write by (by apply wf_ser_message).
    by rewrite de_ser_message.
  - eauto.
  - intros v bs Hv [= <-]. by apply rmp_read_write.
  - intros r bs Hr [= <-]. by rewrite rmp_read_write by (by apply (wf_ser_message (Message.Close (mkClose r)))).
  - intros m bs [= <-]. apply rmp_write_bytes.
  - intros v bs [= <-]. apply rmp_write_bytes.
  - intros bs v. apply rmp_read_typed.
Qed.
End roundtrip.
