(* ===== verification/ReferenceCodec.v ===== *)
(** * An executable codec for messages and values

    The MessagePack format as an instance of [Rmp] with the proofs of its laws,
    and through Serde.v of [Rmps], and a sample task: the hypotheses of the
    development can be met and every definition can be run, on the bytes the
    client really sends. *)

From S2P Require Import Prelude Text External Errors Types Csn Cookie Nonce Crypto Tasks.
From S2P Require Import Msgpack Messages Serde.
From stdpp Require Import countable.

Module ReferenceCodec.
Import Reference.

(** ** Values as trees *)

Definition leaf : Type := (string + bytes)%type.

Fixpoint to_tree (v : Value) : gen_tree leaf :=
  match v with
  | Value.Nil => GenNode 0 []
  | Value.Boolean b => GenNode (if b then 1 else 2)%nat []
  | Value.Integer n => GenNode 3 [GenLeaf (inr [n])]
  | Value.F32 n => GenNode 4 [GenLeaf (inr [n])]
  | Value.F64 n => GenNode 5 [GenLeaf (inr [n])]
  | Value.String (Utf8Valid s) => GenNode 6 [GenLeaf (inl s)]
  | Value.String (Utf8Invalid bs) => GenNode 7 [GenLeaf (inr bs)]
  | Value.Binary bs => GenNode 8 [GenLeaf (inr bs)]
  | Value.Array vs => GenNode 9 (map to_tree vs)
  | Value.Map kvs => GenNode 10 (map (λ '(k, v), GenNode 0 [to_tree k; to_tree v]) kvs)
  | Value.Ext ty bs => GenNode 11 [GenLeaf (inr [ty]); GenLeaf (inr bs)]
  end.

Fixpoint of_tree (t : gen_tree leaf) : Value :=
  match t with
  | GenNode 1 _ => Value.Boolean true
  | GenNode 2 _ => Value.Boolean false
  | GenNode 3 [GenLeaf (inr [n])] => Value.Integer n
  | GenNode 4 [GenLeaf (inr [n])] => Value.F32 n
  | GenNode 5 [GenLeaf (inr [n])] => Value.F64 n
  | GenNode 6 [GenLeaf (inl s)] => Value.String (Utf8Valid s)
  | GenNode 7 [GenLeaf (inr bs)] => Value.String (Utf8Invalid bs)
  | GenNode 8 [GenLeaf (inr bs)] => Value.Binary bs
  | GenNode 9 ts => Value.Array (map of_tree ts)
  | GenNode 10 ts => Value.Map (map (λ t,
      match t with
      | GenNode _ [k; v] => (of_tree k, of_tree v)
      | _ => (Value.Nil, Value.Nil)
      end) ts)
  | GenNode 11 [GenLeaf (inr [ty]); GenLeaf (inr bs)] => Value.Ext ty bs
  | _ => Value.Nil
  end.

Lemma of_to_tree : ∀ v, of_tree (to_tree v) = v.
Proof.
  fix IH 1. intros [|[]|n|n|n|[s|bs]|bs|vs|kvs|ty bs]; try reflexivity; cbn [to_tree of_tree]; f_equal.
  - induction vs as [|v vs IHvs]; [done|]. cbn [map]. by rewrite IH, IHvs.
  - induction kvs as [|[k v] kvs IHkvs]; [done|]. cbn [map of_tree]. by rewrite !IH, IHkvs.
Qed.

#[export] Instance Value_eq_dec : EqDecision Value.
Proof.
  intros v w. destruct (decide (to_tree v = to_tree w)) as [Heq|Hne]; [left|right].
  - abstract by rewrite <- (of_to_tree v), Heq, of_to_tree.
  - abstract by intros ->.
Defined.

(** ** The instances *)

Definition key_of_value (v : Value) : option PublicKey :=
  match v with
  | Value.Binary bs => if decide (length bs = PUBLICKEYBYTES) then Some (mkPublicKey bs) else None
  | _ => None
  end.
Definition read_value (bs : bytes) : option Value :=
  if decide (wf_bytes bs) then fst <$> Msgpack.decode (length bs) bs else None.

(** A number kept in the range of a byte; the bytes of what can be sent are. *)
Definition low_byte (b : Z) : Z := b mod 256.
Lemma low_bytes bs : wf_bytes bs → low_byte <$> bs = bs.
Proof.
  induction 1 as [|b bs Hb _ IH]; [done|]. cbn [fmap list_fmap]. rewrite IH. f_equal.
  apply Z.mod_small. by unwidth.
Qed.

#[export] Instance rmp : Rmp := {|
  rmp_write v := low_byte <$> Msgpack.encode v;
  rmp_read bs :=
    match read_value bs with Some v => inl v | None => inr "invalid type" end;
  de_key := key_of_value;
  de_string := Value.as_str;
  de_other _ := None;
  de_error _ := "error while decoding value";
  map_order A m := map_to_list m;
|}.
#[export] Instance rmp_laws : RmpLaws.
Proof.
  split; simpl; unfold read_value.
  - intros v Hv. rewrite low_bytes by (by apply Msgpack.encode_wf).
    rewrite decide_True by (by apply Msgpack.encode_wf).
    pose proof (Msgpack.decode_encode v Hv (length (Msgpack.encode v)) [] (le_n _)) as Hd.
    by rewrite app_nil_r in Hd; rewrite Hd.
  - intros v. split.
    + apply Forall_fmap, Forall_forall. intros b _. apply Z.mod_pos_bound. lia.
    + intros Hn%fmap_nil_inv. by apply (Msgpack.encode_not_nil v).
  - intros bs v. case_decide as Hbs; [|done].
    destruct (Msgpack.decode _ bs) as [[v' r]|] eqn:Hd; [|done]. intros [= <-].
    by eapply Msgpack.decode_sound.
  - intros k [Hl _]. unfold key_of_value. rewrite decide_True by done. by destruct k.
  - intros [| | | | | |bs| | |] k; try done. simpl. case_decide; [|done]. intros Hbs [= <-]. by split.
  - done.
  - done.
  - done.
Qed.

#[export] Instance rmps : Rmps := serde_rmps.
#[export] Instance rmps_laws : RmpsLaws := serde_rmps_laws.

(** ** A task *)

(** A task is its name; it accepts any data and one type of message. *)
#[export] Instance sample_task : Task string := {|
  task_init _ t := (inl tt, t);
  task_name t := t;
  task_data _ := None;
  task_supported_types _ := ["candidates"];
|}.
End ReferenceCodec.
