(* ===== verification/Boxes.v ===== *)
(** * Open and sealed boxes, handle actions

    [src/boxes.rs]: a message with its nonce, in clear ([OpenBox]) or as bytes
    ([ByteBox]), with encoding and encryption in both directions; the [Event]
    of [src/lib.rs] and the [HandleAction] of [src/protocol/types.rs] that a
    handler returns. *)

From S2P Require Import Prelude Text External Errors Types Csn Cookie Nonce Crypto Tasks Messages.

Record OpenBox (A : Type) := mkOpenBox {
  obox_message : A;
  obox_nonce : Nonce;
}.
Arguments mkOpenBox {A} obox_message obox_nonce.
Arguments obox_message {A} o.
Arguments obox_nonce {A} o.

Record ByteBox := mkByteBox {
  bbox_bytes : bytes;
  bbox_nonce : Nonce;
}.

(** [OpenBox::<Message>::new], [OpenBox::<Value>::new] and [ByteBox::new]. *)
Definition open_box_new {A} (message : A) (nonce : Nonce) : OpenBox A := mkOpenBox message nonce.
Definition byte_box_new (bs : bytes) (nonce : Nonce) : ByteBox := mkByteBox bs nonce.

Section byte_box.
Context `{!ByteOrder}.

(** [ByteBox::from_slice]. *)
Definition byte_box_from_slice (bs : bytes) : outcome SignalingError ByteBox :=
  if bool_decide (length bs ≤ NONCEBYTES)%nat
  then Err (SignalingError.Decode "Message is too short")
  else
    nonce ← map_err (λ e, SignalingError.Decode ("Cannot decode nonce: "
      +:+ SignalingError.signaling_error_to_string e)) (nonce_from_bytes (take 24 bs));
    Ok (mkByteBox (drop 24 bs) nonce).

(** [ByteBox::into_bytes]. *)
Definition byte_box_into_bytes (b : ByteBox) : bytes :=
  nonce_into_bytes (bbox_nonce b) ++ bbox_bytes b.
End byte_box.

(** ** Boxed protocol messages *)

Section open_box.
Context `{!ByteOrder, !Sodium, !Rmps}.

(** [OpenBox::<Message>::encode]. *)
Definition obox_encode {E} (o : OpenBox Message) : outcome E ByteBox :=
  bs ← to_msgpack (obox_message o);
  Ok (mkByteBox bs (obox_nonce o)).

(** [OpenBox::<Message>::encrypt]. *)
Definition obox_encrypt {E} (o : OpenBox Message) (keypair : KeyPair) (other_key : PublicKey)
    : outcome E ByteBox :=
  bs ← to_msgpack (obox_message o);
  Ok (mkByteBox (keypair_encrypt keypair bs (obox_nonce o) other_key) (obox_nonce o)).

(** [OpenBox::<Message>::encrypt_token]. *)
Definition obox_encrypt_token {E} (o : OpenBox Message) (auth_token : AuthToken)
    : outcome E ByteBox :=
  bs ← to_msgpack (obox_message o);
  Ok (mkByteBox (auth_token_encrypt auth_token bs (obox_nonce o)) (obox_nonce o)).

(** The [map_err] closures of the decoding functions. *)
Definition cannot_decode (e : SignalingError) : SignalingError :=
  SignalingError.Decode ("Cannot decode message payload: "
    +:+ SignalingError.signaling_error_to_string e).
Definition cannot_decrypt (e : SignalingError) : SignalingError :=
  SignalingError.Decode ("Cannot decrypt message payload: "
    +:+ SignalingError.signaling_error_to_string e).

(** [OpenBox::<Message>::decode]. *)
Definition obox_decode (b : ByteBox) : outcome SignalingError (OpenBox Message) :=
  message ← map_err cannot_decode (from_msgpack (bbox_bytes b));
  Ok (mkOpenBox message (bbox_nonce b)).

(** [OpenBox::<Message>::decrypt]. *)
Definition obox_decrypt (b : ByteBox) (keypair : KeyPair) (other_key : PublicKey)
    : outcome SignalingError (OpenBox Message) :=
  decrypted ← map_err cannot_decrypt
    (keypair_decrypt keypair (bbox_bytes b) (bbox_nonce b) other_key);
  message ← map_err cannot_decode (from_msgpack decrypted);
  Ok (mkOpenBox message (bbox_nonce b)).

(** [OpenBox::<Message>::decrypt_token]. *)
Definition obox_decrypt_token (b : ByteBox) (auth_token : AuthToken)
    : outcome SignalingError (OpenBox Message) :=
  decrypted ← map_err cannot_decode (auth_token_decrypt auth_token (bbox_bytes b) (bbox_nonce b));
  message ← map_err cannot_decode (from_msgpack decrypted);
  Ok (mkOpenBox message (bbox_nonce b)).

(** [OpenBox::<Value>::encrypt]. *)
Definition value_encrypt {E} (o : OpenBox Value) (keypair : KeyPair) (other_key : PublicKey)
    : outcome E ByteBox :=
  bs ← expect (rmps_value_to_vec (obox_message o)) "Failed to serialize value";
  Ok (mkByteBox (keypair_encrypt keypair bs (obox_nonce o) other_key) (obox_nonce o)).

(** [OpenBox::<Value>::decrypt]. *)
Definition value_decrypt (b : ByteBox) (keypair : KeyPair) (other_key : PublicKey)
    : outcome SignalingError (OpenBox Value) :=
  decrypted ← map_err cannot_decrypt
    (keypair_decrypt keypair (bbox_bytes b) (bbox_nonce b) other_key);
  message ← (match rmps_value_from_slice decrypted with
             | inl v => Ok v
             | inr e => Err (SignalingError.Decode ("Cannot decode message payload: " +:+ e))
             end);
  Ok (mkOpenBox message (bbox_nonce b)).
End open_box.

(** ** Seals

    How the content of a box is protected: not at all, for the holder of a
    private key, or for the holder of the token. *)

Inductive Content := AMessage (m : Message) | AValue (v : Value).
Inductive Seal := InClear | WithKeys (own : KeyPair) (other : PublicKey) | WithToken (t : AuthToken).

Definition sealed_with `{!ByteOrder, !Sodium, !Rmps} (q : Seal) (c : Content) (b : ByteBox) : Prop :=
  match q, c with
  | InClear, AMessage m => obox_encode (E := SignalingError) (mkOpenBox m (bbox_nonce b)) = Ok b
  | WithKeys own other, AMessage m =>
      obox_encrypt (E := SignalingError) (mkOpenBox m (bbox_nonce b)) own other = Ok b
  | WithKeys own other, AValue v =>
      value_encrypt (E := SignalingError) (mkOpenBox v (bbox_nonce b)) own other = Ok b
  | WithToken t, AMessage m =>
      obox_encrypt_token (E := SignalingError) (mkOpenBox m (bbox_nonce b)) t = Ok b
  | _, AValue _ => False
  end.

(** ** Events and handle actions *)

Module Event.
Inductive Event :=
  | ServerHandshakeDone (peer_connected : bool)
  | PeerHandshakeDone
  | Disconnected (id : Z).
End Event.
Abbreviation Event := Event.Event.

Module HandleAction.
Inductive HandleAction :=
  | Reply (bbox : ByteBox)
  | HandshakeError (e : SaltyError)
  | HandshakeDone
  | Event (e : Event.Event)
  | TaskMessage (m : TaskMessage.TaskMessage).
End HandleAction.
Abbreviation HandleAction := HandleAction.HandleAction.

(** The boxes a list of actions sends. *)
Definition replies (actions : list HandleAction) : list ByteBox :=
  omap (λ a, match a with HandleAction.Reply b => Some b | _ => None end) actions.

(** ** Lemmas *)

Section wire.
Context `{!ByteOrder, !ByteOrderLaws}.

(** A box with a payload survives the wire. *)
Lemma byte_box_roundtrip b : wf_nonce (bbox_nonce b) → bbox_bytes b ≠ [] →
  byte_box_from_slice (byte_box_into_bytes b) = Ok b.
Proof.
  intros Hn Hne. destruct (nonce_bytes_wf _ Hn) as [Hl _]. destruct b as [bs n]; simpl in *.
  unfold byte_box_from_slice, byte_box_into_bytes, NONCEBYTES; simpl.
  rewrite bool_decide_eq_false_2
    by (rewrite length_app, Hl; destruct bs; [done|simpl; lia]).
  rewrite take_app_length', drop_app_length' by done. by rewrite nonce_from_into.
Qed.

(** Conversely a parsed box has exactly the bytes it was parsed from. *)
Lemma byte_box_from_slice_Ok bs b : wf_bytes bs → byte_box_from_slice bs = Ok b →
  byte_box_into_bytes b = bs ∧ wf_nonce (bbox_nonce b) ∧ bbox_bytes b ≠ [].
Proof.
  intros Hw. unfold byte_box_from_slice, byte_box_into_bytes, NONCEBYTES.
  case_bool_decide as Hlen; [done|].
  destruct (nonce_from_bytes (take 24 bs)) as [n|e|m] eqn:Hn; [|done..]. simpl. intros [= <-]; simpl.
  apply nonce_into_from in Hn as [-> Hwf]; [|by apply Forall_take].
  split_and!; [apply take_drop|done|]. intros Hd. apply (f_equal length) in Hd.
  rewrite length_drop in Hd. simpl in Hd. lia.
Qed.

(** Parsing never panics. *)
Lemma byte_box_from_slice_total bs m : byte_box_from_slice bs ≠ Panic m.
Proof.
  unfold byte_box_from_slice, nonce_from_bytes, NONCEBYTES. case_bool_decide as Hlen; [done|].
  rewrite bool_decide_eq_false_2; [done|]. rewrite length_take. lia.
Qed.
End wire.

Section seal.
Context `{!ByteOrder, !Sodium, !SodiumLaws, !Rmps, !RmpsLaws}.

Lemma to_msgpack_total m : ∃ bs, rmps_message_to_vec m = Some bs
  ∧ ∀ E, to_msgpack (E := E) m = Ok bs.
Proof.
  destruct (rmps_message_to_vec_total m) as [bs Hbs]. exists bs. unfold to_msgpack. by rewrite Hbs.
Qed.

Lemma from_to_msgpack m : peer_message m = true → wf_message m → wire_message m →
  ∃ bs, (∀ E, to_msgpack (E := E) m = Ok bs) ∧ from_msgpack bs = Ok m.
Proof.
  intros Hm Hw Hwi. destruct (to_msgpack_total m) as (bs & Hv & Ht). exists bs. split; [done|].
  unfold from_msgpack. by rewrite (rmps_message_roundtrip m bs Hm Hw Hwi Hv).
Qed.

Lemma obox_encrypt_total {E} o k pk :
  ∃ bbox, obox_encrypt (E := E) o k pk = Ok bbox ∧ bbox_nonce bbox = obox_nonce o.
Proof.
  destruct (to_msgpack_total (obox_message o)) as (bs & _ & Ht).
  unfold obox_encrypt. rewrite Ht. eexists. split; done.
Qed.
Lemma obox_encode_total {E} o :
  ∃ bbox, obox_encode (E := E) o = Ok bbox ∧ bbox_nonce bbox = obox_nonce o.
Proof.
  destruct (to_msgpack_total (obox_message o)) as (bs & _ & Ht).
  unfold obox_encode. rewrite Ht. eexists. split; done.
Qed.
Lemma obox_encrypt_token_total {E} o t :
  ∃ bbox, obox_encrypt_token (E := E) o t = Ok bbox ∧ bbox_nonce bbox = obox_nonce o.
Proof.
  destruct (to_msgpack_total (obox_message o)) as (bs & _ & Ht).
  unfold obox_encrypt_token. rewrite Ht. eexists. split; done.
Qed.
Lemma value_encrypt_total {E} o k pk :
  ∃ bbox, value_encrypt (E := E) o k pk = Ok bbox ∧ bbox_nonce bbox = obox_nonce o.
Proof.
  destruct (rmps_value_to_vec_total (obox_message o)) as [bs Hb].
  unfold value_encrypt. rewrite Hb. eexists. split; done.
Qed.
Lemma from_msgpack_wf bs m : from_msgpack bs = Ok m → wf_message m.
Proof.
  unfold from_msgpack. destruct (rmps_message_from_slice bs) eqn:Hm; [|done].
  intros [= <-]. by eapply rmps_message_from_slice_wf.
Qed.

(** What is sealed for a peer opens to the same message and nonce. *)
Lemma obox_encrypt_decrypt {E} a b m n : wf_keypair a → wf_keypair b →
  peer_message m = true → wf_message m → wire_message m →
  ∃ bbox, obox_encrypt (E := E) (mkOpenBox m n) a (public_key b) = Ok bbox
    ∧ bbox_nonce bbox = n ∧ obox_decrypt bbox b (public_key a) = Ok (mkOpenBox m n).
Proof.
  intros Ha Hb Hm Hw Hwi. destruct (from_to_msgpack m Hm Hw Hwi) as (bs & Ht & Hf).
  eexists. unfold obox_encrypt; simpl. rewrite Ht. split_and!; [done|done|].
  unfold obox_decrypt; simpl. rewrite keypair_roundtrip by done. simpl. by rewrite Hf.
Qed.

Lemma obox_encrypt_token_decrypt {E} t m n : peer_message m = true → wf_message m → wire_message m →
  ∃ bbox, obox_encrypt_token (E := E) (mkOpenBox m n) t = Ok bbox
    ∧ bbox_nonce bbox = n ∧ obox_decrypt_token bbox t = Ok (mkOpenBox m n).
Proof.
  intros Hm Hw Hwi. destruct (from_to_msgpack m Hm Hw Hwi) as (bs & Ht & Hf).
  eexists. unfold obox_encrypt_token; simpl. rewrite Ht. split_and!; [done|done|].
  unfold obox_decrypt_token; simpl. rewrite auth_token_roundtrip. simpl. by rewrite Hf.
Qed.

(** A sealed payload is never empty, so a sealed box survives the wire. *)
Lemma obox_encrypt_payload {E} o k pk b : obox_encrypt (E := E) o k pk = Ok b → bbox_bytes b ≠ [].
Proof.
  unfold obox_encrypt. destruct (to_msgpack _) as [bs|e|m]; [|done..]. simpl. intros [= <-]; simpl.
  unfold keypair_encrypt. intros Hl%(f_equal length). rewrite box_seal_length in Hl.
  unfold MACBYTES in Hl. simpl in Hl. lia.
Qed.
Lemma value_encrypt_payload {E} o k pk b : value_encrypt (E := E) o k pk = Ok b → bbox_bytes b ≠ [].
Proof.
  unfold value_encrypt. destruct (rmps_value_to_vec _) as [bs|]; [|done]. simpl. intros [= <-]; simpl.
  unfold keypair_encrypt. intros Hl%(f_equal length). rewrite box_seal_length in Hl.
  unfold MACBYTES in Hl. simpl in Hl. lia.
Qed.
Lemma obox_encrypt_token_payload {E} o t b :
  obox_encrypt_token (E := E) o t = Ok b → bbox_bytes b ≠ [].
Proof.
  unfold obox_encrypt_token. destruct (to_msgpack _) as [bs|e|m]; [|done..]. simpl.
  intros [= <-]; simpl. unfold auth_token_encrypt. intros Hl%(f_equal length).
  rewrite secretbox_seal_length in Hl. unfold MACBYTES in Hl. simpl in Hl. lia.
Qed.

Lemma value_encrypt_decrypt {E} a b v n : wf_keypair a → wf_keypair b → wf_value v = true →
  ∃ bbox, value_encrypt (E := E) (mkOpenBox v n) a (public_key b) = Ok bbox
    ∧ bbox_nonce bbox = n ∧ value_decrypt bbox b (public_key a) = Ok (mkOpenBox v n).
Proof.
  intros Ha Hb Hv. destruct (rmps_value_to_vec_total v) as [bs Ht].
  pose proof (rmps_value_roundtrip v bs Hv Ht) as Hf.
  eexists. unfold value_encrypt; simpl. rewrite Ht. split_and!; [done|done|].
  unfold value_decrypt; simpl. rewrite keypair_roundtrip by done. simpl. by rewrite Hf.
Qed.
End seal.

Lemma value_decrypt_total `{!ByteOrder, !Sodium, !Rmps} b k pk msg : value_decrypt b k pk ≠ Panic msg.
Proof.
  unfold value_decrypt, keypair_decrypt. destruct (box_open _ _ _ _); simpl; [|done].
  by case_match.
Qed.

(** A decoded box carries a well-typed message and the nonce of the wire box;
    decoding never panics. *)
Definition decoded (b : ByteBox) (r : outcome SignalingError (OpenBox Message)) : Prop :=
  match r with
  | Ok o => wf_message (obox_message o) ∧ obox_nonce o = bbox_nonce b
  | Err _ => True
  | Panic _ => False
  end.

Section decoded.
Context `{!ByteOrder, !Sodium, !Rmps, !RmpsLaws}.

Lemma from_msgpack_decoded b f bs :
  decoded b (message ← map_err f (from_msgpack bs); Ok (mkOpenBox message (bbox_nonce b))).
Proof.
  destruct (from_msgpack bs) as [m|e|msg] eqn:Hm; simpl; [|done|].
  - split; [by eapply from_msgpack_wf|done].
  - unfold from_msgpack in Hm. by destruct (rmps_message_from_slice bs).
Qed.
Lemma obox_decode_decoded b : decoded b (obox_decode b).
Proof. apply from_msgpack_decoded. Qed.
Lemma obox_decrypt_decoded b k pk : decoded b (obox_decrypt b k pk).
Proof.
  unfold obox_decrypt, keypair_decrypt. destruct (box_open _ _ _ _); simpl; [|done].
  apply from_msgpack_decoded.
Qed.
Lemma obox_decrypt_token_decoded b t : decoded b (obox_decrypt_token b t).
Proof.
  unfold obox_decrypt_token, auth_token_decrypt. destruct (secretbox_open _ _ _); simpl; [|done].
  apply from_msgpack_decoded.
Qed.
Lemma map_err_decoded b f r : decoded b r → decoded b (map_err f r).
Proof. by destruct r. Qed.
End decoded.

#[export] Hint Resolve obox_decode_decoded obox_decrypt_decoded obox_decrypt_token_decoded
  map_err_decoded : salty.
