(* ===== verification/Context.v ===== *)
(** * Peer contexts

    [src/protocol/context.rs]: the state kept about the server, the initiator
    and each responder, behind the trait [PeerContext].  The combined sequence
    pair sits in an [RwLock]: it is changed through shared references, so every
    method that draws a sequence number returns the changed context.  The lock
    itself is transparent: a guard never outlives the statement that takes it
    (one function body for [validate_nonce_csn]), nothing panics while it is
    held and the contexts are not shared between threads, so [try_write] always
    succeeds. *)

From S2P Require Import Prelude Text External Errors Types Csn Cookie Nonce Crypto.

(** ** The trait *)

Class PeerContext (P : Type) := {
  pc_identity : P → Identity;
  pc_permanent_key : P → option PublicKey;
  pc_session_key : P → option PublicKey;
  pc_keypair : P → option KeyPair;
  pc_csn_pair : P → CombinedSequencePair;
  pc_cookie_pair : P → CookiePair;
  (** Writing through the lock, and [cookie_pair_mut]. *)
  pc_set_csn_pair : CombinedSequencePair → P → P;
  pc_set_cookie_pair : CookiePair → P → P;
}.

(** A [&mut dyn PeerContext] borrowed from an object of type [S]: the context,
    and the object with the context replaced. *)
Inductive DynPeer (S : Type) : Type :=
  MkDynPeer (P : Type) (inst : PeerContext P) (peer : P) (put : P → S).
Arguments MkDynPeer {S P} {inst} peer put.

(** [peer.csn_pair().try_write()?.ours.increment()?]. *)
Definition peer_increment `{!PeerContext P} (p : P)
    : outcome SignalingError CombinedSequenceSnapshot * P :=
  let pair := pc_csn_pair p in
  let '(r, ours') := increment (csn_ours pair) in
  (r, pc_set_csn_pair (mkCombinedSequencePair ours' (csn_theirs pair)) p).

(** ** Server *)

Record ServerContext := mkServerContext {
  srv_handshake_state : ServerHandshakeState;
  srv_permanent_key : option PublicKey;
  srv_session_key : option PublicKey;
  srv_csn_pair : CombinedSequencePair;
  srv_cookie_pair : CookiePair;
}.

Definition srv_set_handshake_state (st : ServerHandshakeState) (c : ServerContext) : ServerContext :=
  mkServerContext st (srv_permanent_key c) (srv_session_key c) (srv_csn_pair c) (srv_cookie_pair c).
Definition srv_set_permanent_key (k : option PublicKey) (c : ServerContext) : ServerContext :=
  mkServerContext (srv_handshake_state c) k (srv_session_key c) (srv_csn_pair c) (srv_cookie_pair c).
Definition srv_set_session_key (k : option PublicKey) (c : ServerContext) : ServerContext :=
  mkServerContext (srv_handshake_state c) (srv_permanent_key c) k (srv_csn_pair c) (srv_cookie_pair c).

#[export] Instance server_peer : PeerContext ServerContext := {|
  pc_identity c := Identity.Server;
  pc_permanent_key := srv_permanent_key;
  pc_session_key := srv_session_key;
  pc_keypair c := None;
  pc_csn_pair := srv_csn_pair;
  pc_cookie_pair := srv_cookie_pair;
  pc_set_csn_pair p c := mkServerContext (srv_handshake_state c) (srv_permanent_key c)
    (srv_session_key c) p (srv_cookie_pair c);
  pc_set_cookie_pair p c := mkServerContext (srv_handshake_state c) (srv_permanent_key c)
    (srv_session_key c) (srv_csn_pair c) p;
|}.

(** ** Initiator (as seen by a responder) *)

Record InitiatorContext := mkInitiatorContext {
  ini_handshake_state : InitiatorHandshakeState;
  ini_permanent_key : PublicKey;
  ini_session_key : option PublicKey;
  ini_keypair : KeyPair;
  ini_csn_pair : CombinedSequencePair;
  ini_cookie_pair : CookiePair;
}.

Definition ini_set_handshake_state (st : InitiatorHandshakeState) (c : InitiatorContext)
    : InitiatorContext :=
  mkInitiatorContext st (ini_permanent_key c) (ini_session_key c) (ini_keypair c)
    (ini_csn_pair c) (ini_cookie_pair c).
Definition ini_set_session_key (k : option PublicKey) (c : InitiatorContext) : InitiatorContext :=
  mkInitiatorContext (ini_handshake_state c) (ini_permanent_key c) k (ini_keypair c)
    (ini_csn_pair c) (ini_cookie_pair c).

#[export] Instance initiator_peer : PeerContext InitiatorContext := {|
  pc_identity c := Identity.Initiator;
  pc_permanent_key c := Some (ini_permanent_key c);
  pc_session_key := ini_session_key;
  pc_keypair c := Some (ini_keypair c);
  pc_csn_pair := ini_csn_pair;
  pc_cookie_pair := ini_cookie_pair;
  pc_set_csn_pair p c := mkInitiatorContext (ini_handshake_state c) (ini_permanent_key c)
    (ini_session_key c) (ini_keypair c) p (ini_cookie_pair c);
  pc_set_cookie_pair p c := mkInitiatorContext (ini_handshake_state c) (ini_permanent_key c)
    (ini_session_key c) (ini_keypair c) (ini_csn_pair c) p;
|}.

(** ** Responder (as seen by the initiator) *)

Record ResponderContext := mkResponderContext {
  rsp_handshake_state : ResponderHandshakeState;
  rsp_counter : Z;
  rsp_address : Address;
  rsp_permanent_key : option PublicKey;
  rsp_session_key : option PublicKey;
  rsp_keypair : KeyPair;
  rsp_csn_pair : CombinedSequencePair;
  rsp_cookie_pair : CookiePair;
}.

Definition rsp_set_handshake_state (st : ResponderHandshakeState) (c : ResponderContext)
    : ResponderContext :=
  mkResponderContext st (rsp_counter c) (rsp_address c) (rsp_permanent_key c)
    (rsp_session_key c) (rsp_keypair c) (rsp_csn_pair c) (rsp_cookie_pair c).
Definition rsp_set_permanent_key (k : option PublicKey) (c : ResponderContext) : ResponderContext :=
  mkResponderContext (rsp_handshake_state c) (rsp_counter c) (rsp_address c) k
    (rsp_session_key c) (rsp_keypair c) (rsp_csn_pair c) (rsp_cookie_pair c).
Definition rsp_set_session_key (k : option PublicKey) (c : ResponderContext) : ResponderContext :=
  mkResponderContext (rsp_handshake_state c) (rsp_counter c) (rsp_address c)
    (rsp_permanent_key c) k (rsp_keypair c) (rsp_csn_pair c) (rsp_cookie_pair c).

#[export] Instance responder_peer : PeerContext ResponderContext := {|
  pc_identity c := Identity.Responder (addr (rsp_address c));
  pc_permanent_key := rsp_permanent_key;
  pc_session_key := rsp_session_key;
  pc_keypair c := Some (rsp_keypair c);
  pc_csn_pair := rsp_csn_pair;
  pc_cookie_pair := rsp_cookie_pair;
  pc_set_csn_pair p c := mkResponderContext (rsp_handshake_state c) (rsp_counter c)
    (rsp_address c) (rsp_permanent_key c) (rsp_session_key c) (rsp_keypair c) p (rsp_cookie_pair c);
  pc_set_cookie_pair p c := mkResponderContext (rsp_handshake_state c) (rsp_counter c)
    (rsp_address c) (rsp_permanent_key c) (rsp_session_key c) (rsp_keypair c) (rsp_csn_pair c) p;
|}.

(** ** Constructors *)

Section new.
Context `{!Env} {S E : Type}.

(** [ServerContext::new], [InitiatorContext::new], [ResponderContext::new]. *)
Definition server_context_new : M env S E ServerContext :=
  csn_pair ← csn_pair_new;
  cookie_pair ← cookie_pair_new;
  mret (mkServerContext ServerHandshakeState.New None None csn_pair cookie_pair).

Definition initiator_context_new (permanent_key : PublicKey) : M env S E InitiatorContext :=
  keypair ← keypair_new;
  csn_pair ← csn_pair_new;
  cookie_pair ← cookie_pair_new;
  mret (mkInitiatorContext InitiatorHandshakeState.New permanent_key None keypair
    csn_pair cookie_pair).

Definition responder_context_new (address : Address) (counter : Z) : M env S E ResponderContext :=
  keypair ← keypair_new;
  csn_pair ← csn_pair_new;
  cookie_pair ← cookie_pair_new;
  mret (mkResponderContext ResponderHandshakeState.New counter address None None keypair
    csn_pair cookie_pair).
End new.

(** ** What every implementation of the trait guarantees *)

Class PeerContextLaws (P : Type) `{!PeerContext P} : Prop := {
  pc_csn_set_csn p c : pc_csn_pair (pc_set_csn_pair p c) = p;
  pc_cookie_set_csn p c : pc_cookie_pair (pc_set_csn_pair p c) = pc_cookie_pair c;
  pc_identity_set_csn p c : pc_identity (pc_set_csn_pair p c) = pc_identity c;
  pc_keypair_set_csn p c : pc_keypair (pc_set_csn_pair p c) = pc_keypair c;
  pc_session_set_csn p c : pc_session_key (pc_set_csn_pair p c) = pc_session_key c;
  pc_csn_set_cookie p c : pc_csn_pair (pc_set_cookie_pair p c) = pc_csn_pair c;
  pc_cookie_set_cookie p c : pc_cookie_pair (pc_set_cookie_pair p c) = p;
  pc_identity_set_cookie p c : pc_identity (pc_set_cookie_pair p c) = pc_identity c;
  pc_set_cookie_same c : pc_set_cookie_pair (pc_cookie_pair c) c = c;
}.

#[export] Instance server_peer_laws : PeerContextLaws ServerContext.
Proof. by split; intros; try done; destruct c. Qed.
#[export] Instance initiator_peer_laws : PeerContextLaws InitiatorContext.
Proof. by split; intros; try done; destruct c. Qed.
#[export] Instance responder_peer_laws : PeerContextLaws ResponderContext.
Proof. by split; intros; try done; destruct c. Qed.

(** The sequence numbers and cookies of a context are in range. *)
Definition wf_peer `{!PeerContext P} (p : P) : Prop :=
  wf_csn_pair (pc_csn_pair p) ∧ wf_cookie_pair (pc_cookie_pair p).

Lemma peer_increment_wf `{!PeerContext P, !PeerContextLaws P} p :
  wf_peer p → wf_peer (peer_increment p).2.
Proof.
  intros [[Ho Ht] Hc]. unfold peer_increment.
  pose proof (increment_wf _ Ho) as Hi. destruct (increment _) as [r ours']; simpl in *.
  unfold wf_peer. by rewrite pc_csn_set_csn, pc_cookie_set_csn.
Qed.

Lemma peer_increment_Ok `{!PeerContext P, !PeerContextLaws P} p snap p' :
  wf_peer p → peer_increment p = (Ok snap, p') →
  snap = snapshot_of (csn_ours (pc_csn_pair p')) ∧ wf_peer p'
  ∧ csn_number (csn_ours (pc_csn_pair p')) = csn_number (csn_ours (pc_csn_pair p)) + 1
  ∧ csn_theirs (pc_csn_pair p') = csn_theirs (pc_csn_pair p)
  ∧ pc_cookie_pair p' = pc_cookie_pair p ∧ pc_identity p' = pc_identity p.
Proof.
  intros Hp. pose proof (peer_increment_wf p Hp) as Hw. destruct Hp as [[Ho _] _].
  unfold peer_increment in *. destruct (increment _) as [r ours'] eqn:Hi. intros [= -> <-].
  apply increment_Ok in Hi as (-> & _ & Hn); [|done].
  by rewrite pc_csn_set_csn, pc_cookie_set_csn, pc_identity_set_csn.
Qed.
