(* ===== verification/Signaling.v ===== *)
(** * The signaling trait

    The role-independent half of [src/protocol/mod.rs]: the [Common] state, the
    methods a role has to provide ([SignalingBase], [Signaling]) and the default
    methods of the trait, which validate nonces, decode and dispatch messages,
    run the server handshake and seal task messages. *)

From S2P Require Import Prelude Text External Errors Types Csn Cookie Nonce Crypto Tasks Messages.
From S2P Require Import Boxes Context.

(** ** Common state *)

Module AuthProvider.
Inductive AuthProvider :=
  | Token (t : AuthToken)
  | TrustedKey (k : PublicKey).
End AuthProvider.
Abbreviation AuthProvider := AuthProvider.AuthProvider.

(** [std::time::Duration]. *)
Record Duration := mkDuration { as_secs : Z; subsec_nanos : Z }.

Definition wf_duration (d : Duration) : Prop := u64 (as_secs d) ∧ 0 ≤ subsec_nanos d < 10 ^ 9.

Definition SUBPROTOCOL : string := "v1.saltyrtc.org".

Record Common (T : Type) := mkCommon {
  c_signaling_state : SignalingState;
  c_permanent_keypair : KeyPair;
  c_auth_provider : option AuthProvider;
  c_role : Role;
  c_identity : ClientIdentity;
  c_server : ServerContext;
  c_tasks : option (Tasks T);
  c_task : option T;
  c_task_supported_types : option (list string);
  c_ping_interval : option Duration;
}.
Arguments mkCommon {T}.
Arguments c_signaling_state {T}.
Arguments c_permanent_keypair {T}.
Arguments c_auth_provider {T}.
Arguments c_role {T}.
Arguments c_identity {T}.
Arguments c_server {T}.
Arguments c_tasks {T}.
Arguments c_task {T}.
Arguments c_task_supported_types {T}.
Arguments c_ping_interval {T}.

Section common.
Context {T : Type}.
Implicit Types c : Common T.

Definition with_signaling_state (st : SignalingState) c : Common T :=
  mkCommon st (c_permanent_keypair c) (c_auth_provider c) (c_role c) (c_identity c)
    (c_server c) (c_tasks c) (c_task c) (c_task_supported_types c) (c_ping_interval c).
Definition with_auth_provider (p : option AuthProvider) c : Common T :=
  mkCommon (c_signaling_state c) (c_permanent_keypair c) p (c_role c) (c_identity c)
    (c_server c) (c_tasks c) (c_task c) (c_task_supported_types c) (c_ping_interval c).
Definition with_identity (i : ClientIdentity) c : Common T :=
  mkCommon (c_signaling_state c) (c_permanent_keypair c) (c_auth_provider c) (c_role c) i
    (c_server c) (c_tasks c) (c_task c) (c_task_supported_types c) (c_ping_interval c).
Definition with_server (s : ServerContext) c : Common T :=
  mkCommon (c_signaling_state c) (c_permanent_keypair c) (c_auth_provider c) (c_role c)
    (c_identity c) s (c_tasks c) (c_task c) (c_task_supported_types c) (c_ping_interval c).
Definition with_tasks (ts : option (Tasks T)) c : Common T :=
  mkCommon (c_signaling_state c) (c_permanent_keypair c) (c_auth_provider c) (c_role c)
    (c_identity c) (c_server c) ts (c_task c) (c_task_supported_types c) (c_ping_interval c).
Definition with_task (t : option T) (types : option (list string)) c : Common T :=
  mkCommon (c_signaling_state c) (c_permanent_keypair c) (c_auth_provider c) (c_role c)
    (c_identity c) (c_server c) (c_tasks c) t types (c_ping_interval c).

(** [Common::set_signaling_state]: the result and the new state. *)
Definition set_signaling_state (state : SignalingState) c
    : outcome SignalingError unit * Common T :=
  if bool_decide (c_signaling_state c = state) then (Ok tt, c)
  else if negb (SignalingState.may_transition_to (c_signaling_state c) state) then
    (Err (SignalingError.InvalidStateTransition
      ("Signaling state: " +:+ SignalingState.signaling_state_debug (c_signaling_state c)
       +:+ " -> " +:+ SignalingState.signaling_state_debug state)), c)
  else (Ok tt, with_signaling_state state c).

(** [Common::set_signaling_state_forced], used in tests. *)
Definition set_signaling_state_forced (state : SignalingState) c
    : outcome SignalingError unit * Common T := (Ok tt, with_signaling_state state c).
End common.

(** ** Responder counter *)

Record ResponderCounter := mkResponderCounter { counter_value : Z }.

Definition responder_counter_new : ResponderCounter := mkResponderCounter 0.

(** [ResponderCounter::increment]: the old value, and the new counter. *)
Definition responder_counter_increment (c : ResponderCounter)
    : outcome SignalingError Z * ResponderCounter :=
  match checked_add 32 (counter_value c) 1 with
  | Some v => (Ok (counter_value c), mkResponderCounter v)
  | None => (Err (SignalingError.Crash "Overflow when incrementing responder counter"), c)
  end.

(** ** The trait *)

(** The accessors a role provides. *)
Class SignalingBase (T S : Type) := {
  common : S → Common T;
  set_common : Common T → S → S;
  get_peer : S → option (DynPeer S);
  get_peer_with_address_mut : ∀ {E}, Address → S → outcome E (option (DynPeer S));
  initiator_pubkey : S → PublicKey;
}.

Section base.
Context {T S : Type} `{!Task T, !SignalingBase T S}.
Context `{!ByteOrder, !Sodium, !Rmps, !Env}.

Definition server (s : S) : ServerContext := c_server (common s).
Definition identity (s : S) : ClientIdentity := c_identity (common s).
Definition role (s : S) : Role := c_role (common s).
Definition server_handshake_state (s : S) : ServerHandshakeState := srv_handshake_state (server s).
Definition set_server (c : ServerContext) (s : S) : S :=
  set_common (with_server c (common s)) s.

(** [Signaling::auth_token]. *)
Definition auth_token (s : S) : option AuthToken :=
  match c_auth_provider (common s) with
  | Some (AuthProvider.Token token) => Some token
  | _ => None
  end.

(** [Signaling::validate_repeated_cookie]. *)
Definition validate_repeated_cookie (repeated_cookie our_cookie : Cookie) (identity : Identity)
    : outcome SignalingError unit :=
  if bool_decide (repeated_cookie ≠ our_cookie) then
    Err (SignalingError.Protocol ("Repeated cookie in auth message from "
      +:+ Identity.identity_to_string identity +:+ " does not match our cookie"))
  else Ok tt.

(** [Signaling::current_peer_sequence_numbers]. *)
Definition current_peer_sequence_numbers (s : S) : option PeerSequenceNumbers :=
  match get_peer s with
  | Some (@MkDynPeer _ _ _ peer _) =>
      match csn_theirs (pc_csn_pair peer) with
      | Some theirs => Some (mkPeerSequenceNumbers (combined_sequence_number theirs)
          (csn_number (csn_ours (pc_csn_pair peer))))
      | None => None
      end
  | None => None
  end.

(** The nonce of the next message to the server: [Nonce::new] with our cookie,
    our identity, the server's identity and the next sequence number. *)
Definition next_server_nonce : M env S SignalingError Nonce :=
  s ← mget;
  src ← mlift (ClientIdentity.address_from_client_identity (identity s));
  dst ← mlift (Identity.address_from_identity (pc_identity (server s)));
  let '(r, server') := peer_increment (server s) in
  _ ← mput (set_server server' s);
  csn ← mlift r;
  mret (mkNonce (cookie_ours (pc_cookie_pair (server s))) src dst csn).

(** The nonce of the next message to a peer held in [p], with [p] changed. *)
Definition next_peer_nonce `{!PeerContext P} (id : ClientIdentity) (p : P)
    : outcome SignalingError Nonce * P :=
  match ClientIdentity.address_from_client_identity id, Identity.address_from_identity (pc_identity p) with
  | Ok src, Ok dst =>
      let '(r, p') := peer_increment p in
      ((csn ← r; Ok (mkNonce (cookie_ours (pc_cookie_pair p)) src dst csn)), p')
  | Panic m, _ => (Panic m, p)
  | Err e, _ => (Err e, p)
  | _, Panic m => (Panic m, p)
  | _, Err e => (Err e, p)
  end.

(** The peer lookup of [validate_nonce_csn] and [validate_nonce_cookie]. *)
Definition find_sender (nonce : Nonce) : M env S ValidationError (DynPeer S) :=
  s ← mget;
  peer ← mlift (get_peer_with_address_mut (nonce_source nonce) s);
  match peer with
  | Some p => mret p
  | None =>
      if bool_decide (role s = Role.Initiator) && Address.is_responder (nonce_source nonce) then
        throw (ValidationError.DropMsg ("Could not find responder with address "
          +:+ Address.address_to_string (nonce_source nonce)))
      else throw (ValidationError.Crash "Got message from invalid sender that wasn't dropped")
  end.

(** What [validate_nonce_csn] does to the sender's sequence pair. *)
Definition check_csn (peer_identity : Identity) (current : CombinedSequenceSnapshot)
    (pair : CombinedSequencePair) : outcome ValidationError CombinedSequencePair :=
  match csn_theirs pair with
  | Some previous =>
      if snapshot_lt current previous then
        Err (ValidationError.Fail ("The " +:+ Identity.identity_to_string peer_identity
          +:+ " CSN is lower than last time"))
      else if bool_decide (current = previous) then
        Err (ValidationError.Fail ("The " +:+ Identity.identity_to_string peer_identity
          +:+ " CSN hasn't been incremented"))
      else Ok (mkCombinedSequencePair (csn_ours pair) (Some current))
  | None =>
      if bool_decide (overflow_number current ≠ 0) then
        Err (ValidationError.Fail ("First message from "
          +:+ Identity.identity_to_string peer_identity
          +:+ " must have set the overflow number to 0"))
      else Ok (mkCombinedSequencePair (csn_ours pair) (Some current))
  end.

(** [Signaling::validate_nonce_csn]. *)
Definition validate_nonce_csn (nonce : Nonce) : M env S ValidationError unit :=
  '(@MkDynPeer _ _ _ peer put) ← find_sender nonce;
  pair ← mlift (check_csn (pc_identity peer) (nonce_csn nonce) (pc_csn_pair peer));
  mput (put (pc_set_csn_pair pair peer)).

(** What [validate_nonce_cookie] does to the sender's cookie pair. *)
Definition check_cookie (peer_identity : Identity) (cookie : Cookie) (pair : CookiePair)
    : outcome ValidationError CookiePair :=
  match cookie_theirs pair with
  | None =>
      if bool_decide (cookie = cookie_ours pair) then
        Err (ValidationError.Fail ("Cookie from " +:+ Identity.identity_to_string peer_identity
          +:+ " is identical to our own cookie"))
      else Ok (mkCookiePair (cookie_ours pair) (Some cookie))
  | Some theirs =>
      if bool_decide (cookie ≠ theirs) then
        Err (ValidationError.Fail ("Cookie from " +:+ Identity.identity_to_string peer_identity
          +:+ " has changed"))
      else Ok pair
  end.

(** [Signaling::validate_nonce_cookie]. *)
Definition validate_nonce_cookie (nonce : Nonce) : M env S ValidationError unit :=
  '(@MkDynPeer _ _ _ peer put) ← find_sender nonce;
  pair ← mlift (check_cookie (pc_identity peer) (nonce_cookie nonce) (pc_cookie_pair peer));
  mput (put (pc_set_cookie_pair pair peer)).

(** [Signaling::decode_server_message]. *)
Definition decode_server_message (bbox : ByteBox) (s : S)
    : outcome SignalingError (OpenBox Message) :=
  if bool_decide (c_signaling_state (common s) = SignalingState.ServerHandshake)
     && bool_decide (server_handshake_state s = ServerHandshakeState.New)
  then obox_decode bbox
  else
    match srv_session_key (server s) with
    | Some pubkey => obox_decrypt bbox (c_permanent_keypair (common s)) pubkey
    | None => Err (SignalingError.Crash "Missing server session key")
    end.

(** [Signaling::decode_task_message]. *)
Definition decode_task_message (bbox : ByteBox) (s : S)
    : outcome SignalingError (OpenBox Value) :=
  match get_peer s with
  | None => Err (SignalingError.Crash "Peer not set")
  | Some (@MkDynPeer _ _ _ peer _) =>
      session_key ← ok_or (pc_session_key peer) (SignalingError.Crash "Peer session key not set");
      keypair ← ok_or (pc_keypair peer)
        (SignalingError.Crash "Peer session keypair not available");
      value_decrypt bbox keypair session_key
  end.

(** [Signaling::encode_task_message]. *)
Definition encode_task_message (value : Value) : M env S SignalingError ByteBox :=
  s ← mget;
  if bool_decide (c_signaling_state (common s) ≠ SignalingState.Task) then
    throw (SignalingError.Crash ("Called encode_task_message in state "
      +:+ SignalingState.signaling_state_debug (c_signaling_state (common s))))
  else
    match get_peer s with
    | None => throw (SignalingError.Crash "Peer not set")
    | Some (@MkDynPeer _ _ _ peer put) =>
        let '(r, peer') := next_peer_nonce (identity s) peer in
        _ ← mput (put peer');
        nonce ← mlift r;
        keypair ← mlift (ok_or (pc_keypair peer)
          (SignalingError.Crash "Session keypair not available"));
        session_key ← mlift (ok_or (pc_session_key peer)
          (SignalingError.Crash "Peer session key not set"));
        mlift (value_encrypt (mkOpenBox value nonce) keypair session_key)
    end.

(** The body of [Signaling::encode_close_message] once the peer is known. *)
Definition seal_close `{!PeerContext P} (reason : CloseCode) (id : ClientIdentity) (peer : P)
    : outcome SignalingError ByteBox * P :=
  let '(r, peer') := next_peer_nonce id peer in
  ((nonce ← r;
    let msg := Message.Close (close_from_close_code reason) in
    keypair ← ok_or (pc_keypair peer) (SignalingError.Crash "Session keypair not available");
    session_key ← ok_or (pc_session_key peer) (SignalingError.Crash "Peer session key not set");
    obox_encrypt (mkOpenBox msg nonce) keypair session_key), peer').

(** [Signaling::encode_close_message] with [peer_ctx = None]. *)
Definition encode_close_message (reason : CloseCode) : M env S SignalingError ByteBox :=
  s ← mget;
  if bool_decide (c_signaling_state (common s) ≠ SignalingState.Task) then
    throw (SignalingError.Crash ("Called encode_close_message in state "
      +:+ SignalingState.signaling_state_debug (c_signaling_state (common s))))
  else
    match get_peer s with
    | None => throw (SignalingError.Crash "Peer not set")
    | Some (@MkDynPeer _ _ _ peer put) =>
        let '(r, peer') := seal_close reason (identity s) peer in
        _ ← mput (put peer');
        mlift r
    end.

(** [Signaling::send_drop_responder]. *)
Definition send_drop_responder (addr : Address) (reason : DropReason)
    : M env S SignalingError HandleAction :=
  s ← mget;
  if bool_decide (role s ≠ Role.Initiator) then
    throw (SignalingError.Crash "Non-initiator should never need to encode a DropResponder message")
  else
    let drop := Message.DropResponder (drop_responder_with_reason addr reason) in
    drop_nonce ← next_server_nonce;
    session_key ← mlift (ok_or (srv_session_key (server s))
      (SignalingError.Crash "Server session key not set"));
    bbox ← mlift (obox_encrypt (mkOpenBox drop drop_nonce) (c_permanent_keypair (common s))
      session_key);
    mret (HandleAction.Reply bbox).

(** [Signaling::handle_send_error]. *)
Definition handle_send_error (msg : SendError) : M env S SignalingError (list HandleAction) :=
  throw SignalingError.SendError.

(** The ping interval of the client-auth message: whole seconds, clamped to
    [u32::MAX], zero when unset. *)
Definition ping_interval_secs (i : option Duration) : Z :=
  match i with
  | Some d => if bool_decide (2 ^ 32 - 1 < as_secs d) then 2 ^ 32 - 1 else as_secs d
  | None => 0
  end.

(** The client-hello message of [handle_server_hello], sent by a responder. *)
Definition send_client_hello : M env S SignalingError (list HandleAction) :=
  s ← mget;
  if bool_decide (role s = Role.Responder) then
    let client_hello :=
      Message.ClientHello (mkClientHello (public_key (c_permanent_keypair (common s)))) in
    client_hello_nonce ← next_server_nonce;
    bbox ← mlift (obox_encode (mkOpenBox client_hello client_hello_nonce));
    mret [HandleAction.Reply bbox]
  else mret [].

(** The client-auth message of [handle_server_hello]. *)
Definition send_client_auth : M env S SignalingError HandleAction :=
  s ← mget;
  your_cookie ← mlift (expect (cookie_theirs (srv_cookie_pair (server s)))
    "called `Option::unwrap()` on a `None` value");
  let client_auth := Message.ClientAuth (mkClientAuth your_cookie [SUBPROTOCOL]
    (ping_interval_secs (c_ping_interval (common s))) (srv_permanent_key (server s))) in
  client_auth_nonce ← next_server_nonce;
  pubkey ← mlift (ok_or (srv_session_key (server s))
    (SignalingError.Crash "Missing server permanent key"));
  bbox ← mlift (obox_encrypt (mkOpenBox client_auth client_auth_nonce)
    (c_permanent_keypair (common s)) pubkey);
  mret (HandleAction.Reply bbox).

(** [Signaling::handle_server_hello]. *)
Definition handle_server_hello (msg : ServerHello) : M env S SignalingError (list HandleAction) :=
  s ← mget;
  if bool_decide (is_Some (srv_session_key (server s))) then
    throw (SignalingError.Protocol
      "Got a server-hello message, but server session key is already set")
  else
    _ ← mmodify (λ s, set_server (srv_set_session_key (Some (sh_key msg)) (server s)) s);
    hello ← send_client_hello;
    auth ← send_client_auth;
    _ ← mmodify (λ s, set_server
      (srv_set_handshake_state ServerHandshakeState.ClientInfoSent (server s)) s);
    mret (hello ++ [auth]).

(** The check of the signed keys in [Signaling::handle_server_auth]. *)
Definition verify_signed_keys (msg : ServerAuth) (nonce_clone : option Nonce) (s : S)
    : outcome SignalingError unit :=
  match srv_permanent_key (server s) with
  | Some server_public_permanent_key =>
      nonce ← ok_or nonce_clone (SignalingError.Crash
        "This is a server-auth message, but no nonce clone was passed in");
      signed_keys ← ok_or (sa_signed_keys msg) (SignalingError.Protocol
        "Server's public permanent key is known, but server did not send signed keys");
      decrypted ← signed_keys_decrypt signed_keys (c_permanent_keypair (common s))
        server_public_permanent_key nonce;
      session_key ← ok_or (srv_session_key (server s))
        (SignalingError.Crash "Server session key not set");
      if bool_decide (server_public_session_key decrypted ≠ session_key) then
        Err (SignalingError.Protocol
          "Server public session key sent in `signed_keys` is not valid")
      else if bool_decide (client_public_permanent_key decrypted
                           ≠ public_key (c_permanent_keypair (common s))) then
        Err (SignalingError.Protocol "Our public permanent key sent in `signed_keys` is not valid")
      else Ok tt
  | None => Ok tt
  end.

(** [Signaling::encrypt_raw_with_session_keys] and its inverse. *)
Definition encrypt_raw_with_session_keys (data nonce : bytes) (s : S)
    : outcome SignalingError bytes :=
  match get_peer s with
  | None => Err SignalingError.NoPeer
  | Some (@MkDynPeer _ _ _ peer _) =>
      peer_key ← ok_or (pc_session_key peer)
        (SignalingError.Crash "Peer session public key not set");
      our_key ← ok_or (private_key <$> pc_keypair peer)
        (SignalingError.Crash "Our session private key not set");
      Ok (box_seal data nonce (pk_bytes peer_key) (sk_bytes our_key))
  end.

Definition decrypt_raw_with_session_keys (data nonce : bytes) (s : S)
    : outcome SignalingError bytes :=
  match get_peer s with
  | None => Err SignalingError.NoPeer
  | Some (@MkDynPeer _ _ _ peer _) =>
      peer_key ← ok_or (pc_session_key peer)
        (SignalingError.Crash "Peer session public key not set");
      our_key ← ok_or (private_key <$> pc_keypair peer)
        (SignalingError.Crash "Our session private key not set");
      ok_or (box_open data nonce (pk_bytes peer_key) (sk_bytes our_key))
        (SignalingError.Crypto "Could not decrypt bytes")
  end.
End base.

(** ** Role-specific handlers *)

Class Signaling (T S : Type) `{!Env} := {
  signaling_base :: SignalingBase T S;
  validate_nonce_destination : Nonce → M env S ValidationError unit;
  validate_nonce_source : Nonce → M env S ValidationError unit;
  decode_peer_message : ByteBox → S → outcome SignalingError (OpenBox Message);
  handle_peer_message : OpenBox Message → M env S SignalingError (list HandleAction);
  handle_server_auth_impl : ServerAuth → M env S SignalingError (list HandleAction);
  handle_new_initiator : NewInitiator → M env S SignalingError (list HandleAction);
  handle_new_responder : NewResponder → M env S SignalingError (list HandleAction);
  handle_disconnected : Disconnected → M env S SignalingError (list HandleAction);
}.

(** ** Task messages *)

(** The conversion of a msgpack map to a [HashMap<String, Value>]. *)
Fixpoint pairs_to_map (pairs : list (Value * Value)) (map : gmap string Value)
    : outcome SignalingError (gmap string Value) :=
  match pairs with
  | [] => Ok map
  | (k, v) :: pairs' =>
      key ← ok_or (Value.as_str k)
        (SignalingError.InvalidMessage "Task message map contains non-hashable key");
      pairs_to_map pairs' (<[key := v]> map)
  end.

Definition value_to_map (v : Value) : outcome SignalingError (gmap string Value) :=
  match v with
  | Value.Map pairs => pairs_to_map pairs ∅
  | _ => Err (SignalingError.InvalidMessage "Task message is not a map")
  end.

(** The close reason of a task-phase close message. *)
Definition close_reason_of (map : gmap string Value) : outcome SignalingError CloseCode :=
  reason ← ok_or (map !! "reason")
    (SignalingError.InvalidMessage "Close message does not contain a reason field");
  val ← ok_or (Value.as_u64 reason)
    (SignalingError.InvalidMessage "Close message reason is not an integer");
  if bool_decide (2 ^ 16 - 1 < val)
  then Err (SignalingError.InvalidMessage "Close message reason code is too large")
  else Ok (CloseCode.from_number (wrap 16 val)).

(** The handling of a decoded task message: the actions for the client. *)
Definition process_task_message (message : Value) (supported_types : option (list string))
    : outcome SignalingError (list HandleAction) :=
  map ← value_to_map message;
  type_value ← ok_or (map !! "type")
    (SignalingError.InvalidMessage "Task message does not contain type field");
  msg_type ← ok_or (Value.as_str type_value)
    (SignalingError.InvalidMessage "Task message type is not a string");
  if bool_decide (msg_type = "application") then
    data ← ok_or (map !! "data")
      (SignalingError.InvalidMessage "Application message does not contain a data field");
    Ok [HandleAction.TaskMessage (TaskMessage.Application data)]
  else if bool_decide (msg_type = "close") then
    reason ← close_reason_of map;
    Ok [HandleAction.TaskMessage (TaskMessage.Close reason)]
  else
    task_supported_types ← ok_or supported_types
      (SignalingError.Crash "Task supported types not set");
    if existsb (λ t, bool_decide (t = msg_type)) task_supported_types then
      Ok [HandleAction.TaskMessage (TaskMessage.Value map)]
    else Ok [].

(** ** Dispatching *)

Section dispatch.
Context {T S : Type} `{!Task T, !Env, !Signaling T S}.
Context `{!ByteOrder, !Sodium, !Rmps}.

(** [Signaling::validate_nonce]. *)
Definition validate_nonce (nonce : Nonce) : M env S ValidationError unit :=
  _ ← validate_nonce_destination nonce;
  _ ← validate_nonce_source nonce;
  _ ← validate_nonce_csn nonce;
  _ ← validate_nonce_cookie nonce;
  mret tt.

(** [Signaling::handle_server_auth]. *)
Definition handle_server_auth (msg : ServerAuth) (nonce_clone : option Nonce)
    : M env S SignalingError (list HandleAction) :=
  s ← mget;
  if bool_decide (identity s = ClientIdentity.Unknown) then
    throw (SignalingError.Crash "No identity assigned when receiving server-auth message")
  else
    _ ← mlift (validate_repeated_cookie (sa_your_cookie msg)
      (cookie_ours (srv_cookie_pair (server s))) (pc_identity (server s)));
    _ ← mlift (verify_signed_keys msg nonce_clone s);
    actions ← handle_server_auth_impl msg;
    _ ← mmodify (λ s, set_server
      (srv_set_handshake_state ServerHandshakeState.Done (server s)) s);
    s ← mget;
    let '(r, c) := set_signaling_state SignalingState.PeerHandshake (common s) in
    _ ← mput (set_common c s);
    _ ← mlift r;
    mret actions.

(** [Signaling::handle_server_message]. *)
Definition handle_server_message (obox : OpenBox Message) (nonce_clone : option Nonce)
    : M env S SignalingError (list HandleAction) :=
  s ← mget;
  match server_handshake_state s, obox_message obox with
  | ServerHandshakeState.New, Message.ServerHello msg => handle_server_hello msg
  | ServerHandshakeState.ClientInfoSent, Message.ServerAuth msg =>
      handle_server_auth msg nonce_clone
  | ServerHandshakeState.Done, Message.NewInitiator msg => handle_new_initiator msg
  | ServerHandshakeState.Done, Message.NewResponder msg => handle_new_responder msg
  | ServerHandshakeState.Done, Message.DropResponder _ =>
      panic "not yet implemented: TODO (#36): Handling DropResponder messages not yet implemented"
  | ServerHandshakeState.Done, Message.SendError msg => handle_send_error msg
  | ServerHandshakeState.Done, Message.Disconnected msg => handle_disconnected msg
  | st, message =>
      throw (SignalingError.InvalidStateTransition ("Got '" +:+ Message.get_type message
        +:+ "' message from server in "
        +:+ ServerHandshakeState.server_handshake_state_debug st +:+ " state"))
  end.

(** [Signaling::handle_handshake_peer_message]. *)
Definition handle_handshake_peer_message (bbox : ByteBox)
    : M env S SignalingError (list HandleAction) :=
  if Address.is_server (nonce_source (bbox_nonce bbox)) then
    throw (SignalingError.Crash "Message in handle_handshake_peer_message is from server!")
  else
    s ← mget;
    decoded ← mtry (mlift (decode_peer_message bbox s));
    match decoded with
    | inr SignalingError.InitiatorCouldNotDecrypt =>
        drop_responder ← send_drop_responder (nonce_source (bbox_nonce bbox))
          DropReason.InitiatorCouldNotDecrypt;
        mret [drop_responder]
    | inr e => throw e
    | inl obox =>
        match c_signaling_state (common s) with
        | SignalingState.ServerHandshake =>
            throw (SignalingError.Crash "Illegal signaling state: ServerHandshake")
        | SignalingState.PeerHandshake =>
            if Address.is_server (nonce_source (obox_nonce obox))
            then handle_server_message obox None
            else handle_peer_message obox
        | SignalingState.Task =>
            throw (SignalingError.Crash "Illegal signaling state: Task")
        end
    end.

(** [Signaling::handle_task_peer_message]. *)
Definition handle_task_peer_message (bbox : ByteBox)
    : M env S SignalingError (list HandleAction) :=
  if Address.is_server (nonce_source (bbox_nonce bbox)) then
    throw (SignalingError.Crash "Message in handle_task_peer_message is from server!")
  else
    s ← mget;
    obox ← mlift (decode_task_message bbox s);
    mlift (process_task_message (obox_message obox) (c_task_supported_types (common s))).

(** [Signaling::handle_message] once the nonce is valid: decoding and
    dispatching on the sender and the signaling state. *)
Definition dispatch_message (bbox : ByteBox) : M env S SignalingError (list HandleAction) :=
  s ← mget;
  if Address.is_server (nonce_source (bbox_nonce bbox)) then
    obox ← mlift (decode_server_message bbox s);
    let nonce_clone_opt :=
      if bool_decide (Message.get_type (obox_message obox) = "server-auth")
      then Some (bbox_nonce bbox) else None in
    handle_server_message obox nonce_clone_opt
  else
    match c_signaling_state (common s) with
    | SignalingState.ServerHandshake => handle_handshake_peer_message bbox
    | SignalingState.PeerHandshake => handle_handshake_peer_message bbox
    | SignalingState.Task => handle_task_peer_message bbox
    end.

(** [Signaling::handle_message]. *)
Definition handle_message (bbox : ByteBox) : M env S SignalingError (list HandleAction) :=
  valid ← mtry (validate_nonce (bbox_nonce bbox));
  match valid with
  | inr (ValidationError.DropMsg _) => mret []
  | inr (ValidationError.Fail reason) => throw (SignalingError.InvalidNonce reason)
  | inr (ValidationError.Crash reason) => throw (SignalingError.Crash reason)
  | inl _ => dispatch_message bbox
  end.
End dispatch.
