(* ===== verification/SignalingSpec.v ===== *)
(** * What the signaling trait guarantees

    The role-independent invariant of the [Common] state, the two-state frame
    of a handler, and the theorem that [handle_message] keeps the invariant,
    moves the handshake forward only and raises no panic but the two the code
    contains on purpose.  The role-specific methods enter through the class
    [SignalingSafe], which both roles implement. *)

From S2P Require Import Prelude Text External Errors Types Csn Cookie Nonce Crypto Tasks Messages.
From S2P Require Import Boxes Context Signaling.

(** ** Panics *)

(** The assertion of [Cookie::random] on the entropy source, and the
    [unimplemented!] of [handle_server_message]. *)
Definition entropy_assertion : string := "assertion failed: !rand.iter().all(|&x| x == 0)".
Definition drop_responder_unimplemented : string :=
  "not yet implemented: TODO (#36): Handling DropResponder messages not yet implemented".

(** The panics on what the process gets from libsodium: random bytes that are all
    zero, or no initialisation, where it has not been initialised before. *)
Definition unlucky `{!Env} (msg : string) : Prop :=
  msg = entropy_assertion ∨ msg = init_failed ∧ ¬ Initialised.
Lemma unlucky_entropy `{!Env} : unlucky entropy_assertion.
Proof. by left. Qed.
#[export] Hint Resolve unlucky_entropy : core.

Definition no_surprise `{!Env} {E A} (o : outcome E A) : Prop :=
  match o with
  | Panic msg => unlucky msg ∨ msg = drop_responder_unimplemented
  | _ => True
  end.

Lemma no_panic_no_surprise `{!Env} {E A} (o : outcome E A) : is_panic o = false → no_surprise o.
Proof. by destruct o. Qed.

(** ** Fresh contexts *)

Section fresh.
Context `{!Env, !Sodium, !EnvLaws} {S E : Type}.
Implicit Types s : S.

Lemma wp_init s (Q : outcome E unit → S → Prop) :
  Q (Ok tt) s → (∀ m, unlucky m → Q (Panic m) s) → wp libsodium_init_or_panic s Q.
Proof.
  intros HQ HP. unfold libsodium_init_or_panic. do 4 wp_step; wp_step; [done|].
  apply HP. right. split; [done|]. intros Hi. by rewrite (Hi w) in Hb.
Qed.

Lemma wp_keypair_new s (Q : outcome E KeyPair → S → Prop) :
  (∀ k, wf_keypair k → Q (Ok k) s) → (∀ m, unlucky m → Q (Panic m) s) → wp keypair_new s Q.
Proof.
  intros HQ HP. unfold keypair_new. wp_step. apply wp_init; [|done]. repeat wp_step.
  pose proof (gen_keypair_wf w) as [Hl Hp]. destruct (gen_keypair w).1 as [pk sk]. wp_step.
  by apply HQ.
Qed.

Lemma wp_csn_pair_new s (Q : outcome E CombinedSequencePair → S → Prop) :
  (∀ p, wf_csn_pair p → csn_theirs p = None → cs_overflow (csn_ours p) = 0 → Q (Ok p) s) →
  (∀ m, unlucky m → Q (Panic m) s) → wp csn_pair_new s Q.
Proof.
  intros HQ HP. unfold csn_pair_new. wp_step. unfold csn_random. wp_step. apply wp_init; [|done].
  repeat wp_step. pose proof (randombytes_wf 4 w) as [Hl _].
  destruct (randombytes 4 w).1 as [|r0 [|r1 [|r2 [|r3 [|??]]]]]; try done.
  repeat wp_step. apply HQ; [|done..]. split; [|done]. split; simpl; unwidth; [done|].
  apply Z.mod_pos_bound. lia.
Qed.

Lemma wp_cookie_pair_new s (Q : outcome E CookiePair → S → Prop) :
  (∀ p, wf_cookie_pair p → cookie_theirs p = None → Q (Ok p) s) →
  (∀ m, unlucky m → Q (Panic m) s) → wp cookie_pair_new s Q.
Proof.
  intros HQ HP. unfold cookie_pair_new. wp_step. unfold cookie_random. wp_step. apply wp_init; [|done].
  repeat wp_step; [by apply HP|]. apply HQ; [|done]. split; [|done]. exact (randombytes_wf 16 w).
Qed.

(** A context just made by its constructor. *)
Record fresh_server (c : ServerContext) : Prop := {
  fs_state : srv_handshake_state c = ServerHandshakeState.New;
  fs_permanent : srv_permanent_key c = None;
  fs_session : srv_session_key c = None;
  fs_wf : wf_peer c;
}.
Record fresh_responder (a : Address) (n : Z) (r : ResponderContext) : Prop := {
  fr_state : rsp_handshake_state r = ResponderHandshakeState.New;
  fr_counter : rsp_counter r = n;
  fr_address : rsp_address r = a;
  fr_permanent : rsp_permanent_key r = None;
  fr_session : rsp_session_key r = None;
  fr_keypair : wf_keypair (rsp_keypair r);
  fr_wf : wf_peer r;
  fr_unheard : csn_theirs (rsp_csn_pair r) = None ∧ cookie_theirs (rsp_cookie_pair r) = None;
}.
Record fresh_initiator (k : PublicKey) (i : InitiatorContext) : Prop := {
  fi_state : ini_handshake_state i = InitiatorHandshakeState.New;
  fi_permanent : ini_permanent_key i = k;
  fi_session : ini_session_key i = None;
  fi_keypair : wf_keypair (ini_keypair i);
  fi_wf : wf_peer i;
  fi_unheard : csn_theirs (ini_csn_pair i) = None ∧ cookie_theirs (ini_cookie_pair i) = None;
}.

Lemma wp_server_context_new s (Q : outcome E ServerContext → S → Prop) :
  (∀ c, fresh_server c → Q (Ok c) s) → (∀ m, unlucky m → Q (Panic m) s) →
  wp server_context_new s Q.
Proof.
  intros HQ HP. unfold server_context_new. wp_step. apply wp_csn_pair_new; [|done]. intros p Hp _ _.
  do 2 wp_step. apply wp_cookie_pair_new; [|done]. intros c Hc _. do 2 wp_step. by apply HQ.
Qed.
Lemma wp_responder_context_new a n s (Q : outcome E ResponderContext → S → Prop) :
  (∀ r, fresh_responder a n r → Q (Ok r) s) → (∀ m, unlucky m → Q (Panic m) s) →
  wp (responder_context_new a n) s Q.
Proof.
  intros HQ HP. unfold responder_context_new. wp_step. apply wp_keypair_new; [|done]. intros k Hk.
  do 2 wp_step. apply wp_csn_pair_new; [|done]. intros p Hp Hp' _.
  do 2 wp_step. apply wp_cookie_pair_new; [|done]. intros c Hc Hc'. do 2 wp_step. by apply HQ.
Qed.
Lemma wp_initiator_context_new k s (Q : outcome E InitiatorContext → S → Prop) :
  (∀ i, fresh_initiator k i → Q (Ok i) s) → (∀ m, unlucky m → Q (Panic m) s) →
  wp (initiator_context_new k) s Q.
Proof.
  intros HQ HP. unfold initiator_context_new. wp_step. apply wp_keypair_new; [|done]. intros kp Hk.
  do 2 wp_step. apply wp_csn_pair_new; [|done]. intros p Hp Hp' _.
  do 2 wp_step. apply wp_cookie_pair_new; [|done]. intros c Hc Hc'. do 2 wp_step. by apply HQ.
Qed.
End fresh.

(** ** Drawing sequence numbers *)

(** A context whose own sequence number has moved to [ours']. *)
Definition advanced `{!PeerContext P} (p : P) (ours' : CombinedSequence) : P :=
  pc_set_csn_pair (mkCombinedSequencePair ours' (csn_theirs (pc_csn_pair p))) p.

(** The outcome of drawing a nonce from a context: either the own sequence
    number is one higher and is the one of the nonce, or it is exhausted. *)
Definition nonce_drawn (cookie : Cookie) (src dst : Address) (ours ours' : CombinedSequence)
    (o : outcome SignalingError Nonce) : Prop :=
  match o with
  | Ok n => n = mkNonce cookie src dst (snapshot_of ours') ∧ csn_number ours' = csn_number ours + 1
  | Err e => e = SignalingError.CsnOverflow ∧ ours' = ours ∧ CSN_LIMIT ≤ csn_number ours + 1
  | Panic _ => False
  end.

Lemma nonce_drawn_le c src dst ours ours' o :
  nonce_drawn c src dst ours ours' o → csn_number ours ≤ csn_number ours'.
Proof. destruct o; simpl; [intros [_ ?]; lia|intros (_ & -> & _); lia|done]. Qed.

Section draw.
Context `{!PeerContext P, !PeerContextLaws P}.
Implicit Types p : P.

Lemma peer_increment_cases p : wf_peer p → ∃ ours', wf_csn ours'
  ∧ (peer_increment p).2 = advanced p ours'
  ∧ match (peer_increment p).1 with
    | Ok snap => snap = snapshot_of ours'
        ∧ csn_number ours' = csn_number (csn_ours (pc_csn_pair p)) + 1
    | Err e => e = SignalingError.CsnOverflow ∧ ours' = csn_ours (pc_csn_pair p)
        ∧ CSN_LIMIT ≤ csn_number (csn_ours (pc_csn_pair p)) + 1
    | Panic _ => False
    end.
Proof.
  intros [[Ho _] _]. pose proof (increment_spec _ Ho) as Hi. unfold peer_increment.
  case_bool_decide.
  - destruct Hi as (c' & Hi & Hw & Hn). rewrite Hi. by exists c'.
  - rewrite Hi. simpl. exists (csn_ours (pc_csn_pair p)). split_and!; [done..|lia].
Qed.

Lemma wf_advanced p ours' : wf_peer p → wf_csn ours' → wf_peer (advanced p ours').
Proof.
  intros [[_ Ht] Hc] Ho. unfold wf_peer, advanced. rewrite pc_csn_set_csn, pc_cookie_set_csn. done.
Qed.

Lemma next_peer_nonce_cases id p src dst : wf_peer p →
  (∀ E, ClientIdentity.address_from_client_identity (E := E) id = Ok src) →
  (∀ E, Identity.address_from_identity (E := E) (pc_identity p) = Ok dst) →
  ∃ ours', wf_csn ours' ∧ (next_peer_nonce id p).2 = advanced p ours'
  ∧ nonce_drawn (cookie_ours (pc_cookie_pair p)) src dst (csn_ours (pc_csn_pair p)) ours'
      (next_peer_nonce id p).1.
Proof.
  intros Hp Hs Hd. unfold next_peer_nonce. rewrite Hs, Hd.
  destruct (peer_increment_cases p Hp) as (ours' & Hw & H2 & H1). exists ours'. split; [done|].
  destruct (peer_increment p) as [[snap|e|m] p']; simpl in *; [|done..].
  destruct H1 as [-> Hn]. done.
Qed.
End draw.

(** ** The common invariant *)

Section common_inv.
Context {T : Type}.
Implicit Types c : Common T.

(** The identity fits the role: an initiator is [0x01], a responder in
    [0x02..0xff], and either may be unassigned. *)
Definition identity_fits (r : Role) (i : ClientIdentity) : Prop :=
  match r, i with
  | _, ClientIdentity.Unknown => True
  | Role.Initiator, ClientIdentity.Initiator => True
  | Role.Responder, ClientIdentity.Responder a => 2 ≤ a < 256
  | _, _ => False
  end.

Record common_inv c : Prop := {
  ci_server : wf_peer (c_server c);
  ci_info : srv_handshake_state (c_server c) ≠ ServerHandshakeState.New →
    is_Some (srv_session_key (c_server c))
    ∧ is_Some (cookie_theirs (srv_cookie_pair (c_server c)));
  ci_done : srv_handshake_state (c_server c) = ServerHandshakeState.Done ↔
    c_signaling_state c ≠ SignalingState.ServerHandshake;
  ci_new : srv_handshake_state (c_server c) = ServerHandshakeState.New →
    c_identity c = ClientIdentity.Unknown;
  ci_assigned : c_signaling_state c ≠ SignalingState.ServerHandshake →
    c_identity c ≠ ClientIdentity.Unknown;
  ci_identity : identity_fits (c_role c) (c_identity c);
  ci_task : c_signaling_state c = SignalingState.Task →
    is_Some (c_task c) ∧ is_Some (c_task_supported_types c);
}.

Lemma identity_fits_address r i : identity_fits r i → ∃ a,
  (∀ E, ClientIdentity.address_from_client_identity (E := E) i = Ok a) ∧ wf_address a.
Proof.
  intros Hi. destruct (client_identity_address_ok (E := unit) i) as (a & Ha & Hw).
  - by destruct r, i.
  - exists a. split; [|done]. intros E. destruct i; simpl in *; try congruence.
    case_bool_decide; congruence.
Qed.

(** ** The frame of a handler

    What a handler leaves alone once the nonce of the message has been
    validated: keys, role, identity, cookies and the sender's sequence number;
    our own sequence number and the stage only grow. *)

Record common_frame c c' : Prop := {
  cf_keypair : c_permanent_keypair c' = c_permanent_keypair c;
  cf_role : c_role c' = c_role c;
  cf_identity : c_identity c' = c_identity c;
  cf_ping : c_ping_interval c' = c_ping_interval c;
  cf_permanent : srv_permanent_key (c_server c') = srv_permanent_key (c_server c);
  cf_session : is_Some (srv_session_key (c_server c)) →
    srv_session_key (c_server c') = srv_session_key (c_server c);
  cf_cookies : srv_cookie_pair (c_server c') = srv_cookie_pair (c_server c);
  cf_theirs : csn_theirs (srv_csn_pair (c_server c')) = csn_theirs (srv_csn_pair (c_server c));
  cf_ours : csn_number (csn_ours (srv_csn_pair (c_server c)))
    ≤ csn_number (csn_ours (srv_csn_pair (c_server c')));
  cf_stage : SignalingState.stage (c_signaling_state c)
    ≤ SignalingState.stage (c_signaling_state c');
}.

#[export] Instance common_frame_preorder : PreOrder common_frame.
Proof.
  split.
  - intros c. by split.
  - intros c1 c2 c3 [] []. split; try congruence; [|lia|lia].
    intros Hs. rewrite <- cf_session0 by done. apply cf_session1. by rewrite cf_session0.
Qed.

(** Drawing a sequence number for the server. *)
Lemma common_inv_advance c ours' : common_inv c → wf_csn ours' →
  common_inv (with_server (advanced (c_server c) ours') c).
Proof. intros [] Ho. split; try done. by apply wf_advanced. Qed.
Lemma common_frame_advance c ours' :
  csn_number (csn_ours (srv_csn_pair (c_server c))) ≤ csn_number ours' →
  common_frame c (with_server (advanced (c_server c) ours') c).
Proof. intros Ho. by split. Qed.
End common_inv.

(** ** Nonce validation against one context *)

Lemma check_csn_Ok id cur pair pair' : wf_csn_pair pair → wf_snapshot cur →
  check_csn id cur pair = Ok pair' →
  wf_csn_pair pair' ∧ csn_ours pair' = csn_ours pair ∧ csn_theirs pair' = Some cur
  ∧ match csn_theirs pair with
    | Some prev => combined_sequence_number prev < combined_sequence_number cur
    | None => overflow_number cur = 0
    end.
Proof.
  intros [Ho Ht] Hc. unfold check_csn. destruct (csn_theirs pair) as [prev|]; simpl in *.
  - unfold snapshot_lt, snapshot_cmp. destruct (Z.compare_spec
      (combined_sequence_number cur) (combined_sequence_number prev)) as [He| |Hl]; [|done|].
    + apply snapshot_number_inj in He as ->; [|done..]. by rewrite bool_decide_eq_true_2.
    + case_bool_decide; [done|]. intros [= <-]. by split_and!.
  - case_bool_decide as Hn; [done|]. intros [= <-]. by split_and!.
Qed.
Lemma check_csn_not_panic id cur pair msg : check_csn id cur pair ≠ Panic msg.
Proof. unfold check_csn. by repeat case_match. Qed.

(** A replayed or reordered sequence number is refused. *)
Lemma check_csn_replay id cur pair prev : wf_csn_pair pair → wf_snapshot cur →
  csn_theirs pair = Some prev →
  combined_sequence_number cur ≤ combined_sequence_number prev →
  ∃ reason, check_csn id cur pair = Err (ValidationError.Fail reason).
Proof.
  intros Hp Hc Ht Hle. destruct (check_csn id cur pair) as [pair'|e|msg] eqn:Hk.
  - apply check_csn_Ok in Hk as (_ & _ & _ & Hlt); [|done..]. rewrite Ht in Hlt. lia.
  - unfold check_csn in Hk. rewrite Ht in Hk. repeat case_match; simplify_eq; eauto.
  - by apply check_csn_not_panic in Hk.
Qed.

Lemma check_cookie_Ok id c pair pair' : wf_cookie_pair pair → wf_cookie c →
  check_cookie id c pair = Ok pair' →
  wf_cookie_pair pair' ∧ cookie_ours pair' = cookie_ours pair ∧ cookie_theirs pair' = Some c
  ∧ match cookie_theirs pair with
    | Some theirs => c = theirs
    | None => c ≠ cookie_ours pair
    end.
Proof.
  intros [Ho Ht] Hc. unfold check_cookie. destruct pair as [ours [theirs|]]; simpl in *.
  - case_bool_decide as Hn; [done|]. subst. by intros [= <-].
  - case_bool_decide as Hn; [done|]. intros [= <-]. by split_and!.
Qed.
Lemma check_cookie_not_panic id c pair msg : check_cookie id c pair ≠ Panic msg.
Proof. unfold check_cookie. by repeat case_match. Qed.

(** ** One step of the protocol, seen from the common state

    The relation between the states before and after a message: the sender's
    cookie is pinned by its first message, the sender's sequence number grows,
    the identity is assigned once, keys and our cookie never change and the
    handshake never moves back. *)

Definition csn_le (o o' : option CombinedSequenceSnapshot) : Prop :=
  match o, o' with
  | None, _ => True
  | Some prev, Some cur => combined_sequence_number prev ≤ combined_sequence_number cur
  | Some _, None => False
  end.
Definition pinned {A} (o o' : option A) : Prop := ∀ a, o = Some a → o' = Some a.

#[export] Instance csn_le_preorder : PreOrder csn_le.
Proof.
  split; [by intros [c|]; simpl|]. intros [a|] [b|] [c|]; simpl; try done. lia.
Qed.
#[export] Instance pinned_preorder {A} : PreOrder (@pinned A).
Proof. split; [by intros o a|]. intros o1 o2 o3 H12 H23 a Ha. by apply H23, H12. Qed.

Record common_step {T} (c c' : Common T) : Prop := {
  cs_keypair : c_permanent_keypair c' = c_permanent_keypair c;
  cs_role : c_role c' = c_role c;
  cs_ping : c_ping_interval c' = c_ping_interval c;
  cs_permanent : srv_permanent_key (c_server c') = srv_permanent_key (c_server c);
  cs_our_cookie : cookie_ours (srv_cookie_pair (c_server c'))
    = cookie_ours (srv_cookie_pair (c_server c));
  cs_identity : c_identity c = ClientIdentity.Unknown ∨ c_identity c' = c_identity c;
  cs_session : pinned (srv_session_key (c_server c)) (srv_session_key (c_server c'));
  cs_cookie : pinned (cookie_theirs (srv_cookie_pair (c_server c)))
    (cookie_theirs (srv_cookie_pair (c_server c')));
  cs_theirs : csn_le (csn_theirs (srv_csn_pair (c_server c)))
    (csn_theirs (srv_csn_pair (c_server c')));
  cs_ours : csn_number (csn_ours (srv_csn_pair (c_server c)))
    ≤ csn_number (csn_ours (srv_csn_pair (c_server c')));
  cs_stage : SignalingState.stage (c_signaling_state c)
    ≤ SignalingState.stage (c_signaling_state c');
}.

#[export] Instance common_step_preorder {T} : PreOrder (@common_step T).
Proof.
  split.
  - intros c. split; try done; [by right|lia..].
  - intros c1 c2 c3 [] []. split; try congruence; [|etrans; eassumption..].
    destruct cs_identity0, cs_identity1; [left|left|left|right]; congruence.
Qed.

Lemma common_frame_step {T} (c c' : Common T) : common_frame c c' → common_step c c'.
Proof.
  intros []. split; try done; [by rewrite cf_cookies0|by right| | |].
  - intros k Hk. rewrite <- Hk. apply cf_session0. by eexists.
  - by rewrite cf_cookies0.
  - by rewrite cf_theirs0.
Qed.

(** The same within one stage: what checking a nonce does. *)
Definition checked {T} (c c' : Common T) : Prop :=
  common_step c c' ∧ c_signaling_state c' = c_signaling_state c.
#[export] Instance checked_preorder {T} : PreOrder (@checked T).
Proof. split; [by intros c|]. intros c1 c2 c3 [] []. split; [by etrans|congruence]. Qed.

(** ** New clients *)

(** The shared state as the constructors of both roles leave it. *)
Record configured {T} (role : Role) (kp : KeyPair) (tasks : Tasks T) (server_key : option PublicKey)
    (ping : option Duration) (c : Common T) : Prop := {
  co_role : c_role c = role;
  co_keypair : c_permanent_keypair c = kp;
  co_tasks : c_tasks c = Some tasks;
  co_task : c_task c = None;
  co_server_key : srv_permanent_key (c_server c) = server_key;
  co_ping : c_ping_interval c = ping;
  co_state : c_signaling_state c = SignalingState.ServerHandshake;
}.

(** A constructor returns no error, and panics only if libsodium fails it. *)
Definition constructed `{!Env} {E A} (P : A → Prop) (o : outcome E A) : Prop :=
  match o with Ok a => P a | Err _ => False | Panic m => unlucky m end.
