(* ===== verification/SignalingSafe.v ===== *)
(** * Safety of the signaling trait

    The interface [SignalingSafe] between the default methods of the trait and
    the two roles: an invariant of the object, and what each role-specific
    method does to it.  Against this interface alone, [handle_message] and the
    encoding methods are shown to keep the invariant, to relate the states by
    [common_step] and to raise no unexpected panic. *)

From S2P Require Import Prelude Text External Errors Types Csn Cookie Nonce Crypto Tasks Messages.
From S2P Require Import Boxes Context Signaling SignalingSpec.

(** ** Laws of the accessors *)

Class SignalingBaseLaws (T S : Type) `{!SignalingBase T S} : Prop := {
  common_set_common c s : common (set_common c s) = c;
  set_common_common s : set_common (common s) s = s;
  set_common_twice c c' s : set_common c' (set_common c s) = set_common c' s;
  (** The server is found under its address. *)
  lookup_server E a s : Address.is_server a = true →
    get_peer_with_address_mut (E := E) a s = Ok (Some (MkDynPeer (server s) (λ c, set_server c s)));
}.

Section sender.
Context {T S : Type} `{!SignalingBase T S}.

(** What is recorded about the sender of a message: the sequence number and
    the cookie of its last accepted message. *)
Definition last_csn (a : Address) (s : S) : option CombinedSequenceSnapshot :=
  match get_peer_with_address_mut (E := ValidationError) a s with
  | Ok (Some (@MkDynPeer _ _ _ p _)) => csn_theirs (pc_csn_pair p)
  | _ => None
  end.
Definition sender_cookie (a : Address) (s : S) : option Cookie :=
  match get_peer_with_address_mut (E := ValidationError) a s with
  | Ok (Some (@MkDynPeer _ _ _ p _)) => cookie_theirs (pc_cookie_pair p)
  | _ => None
  end.

(** A borrowed peer context that may be written back under the invariant, and
    is found again at the same address. *)
Record sender_ok (I : S → Prop) (a : Address) (s : S) {P} {i : PeerContext P}
    (p : P) (put : P → S) : Prop := {
  so_laws : PeerContextLaws P;
  so_wf : wf_peer p;
  so_update np cp : wf_csn_pair np → csn_ours np = csn_ours (pc_csn_pair p) →
    wf_cookie_pair cp → cookie_ours cp = cookie_ours (pc_cookie_pair p) →
    pinned (cookie_theirs (pc_cookie_pair p)) (cookie_theirs cp) →
    I (put (pc_set_cookie_pair cp (pc_set_csn_pair np p)));
  so_again p' : pc_identity p' = pc_identity p → ∃ put',
    get_peer_with_address_mut (E := ValidationError) a (put p') = Ok (Some (MkDynPeer p' put'))
    ∧ ∀ q, put' q = put q;
}.

(** The chosen peer, from which nonces may be drawn under the invariant. *)
Record peer_ok (I : S → Prop) (s : S) {P} {i : PeerContext P} (p : P) (put : P → S) : Prop := {
  po_laws : PeerContextLaws P;
  po_wf : wf_peer p;
  po_keypair : is_Some (pc_keypair p);
  po_address : ∃ a, ∀ E, Identity.address_from_identity (E := E) (pc_identity p) = Ok a;
  po_advance ours' : wf_csn ours' → I (put (advanced p ours'));
  po_common p' : common (put p') = common s;
  po_again p' : ∃ put', get_peer (put p') = Some (MkDynPeer p' put') ∧ ∀ q, put' q = put q;
}.
End sender.

(** ** The interface *)

Section handled.
Context {T S : Type} `{!Env, !SignalingBase T S}.

(** The postcondition of a handler started in [s]. *)
Definition handled (I : S → Prop) (s : S) {E A} (o : outcome E A) (s' : S) : Prop :=
  I s' ∧ common_frame (common s) (common s') ∧ no_surprise o.

(** The same, with the stages of both handshakes unchanged. *)
Definition quiet (I : S → Prop) (s : S) {E A} (o : outcome E A) (s' : S) : Prop :=
  handled I s o s' ∧ c_signaling_state (common s') = c_signaling_state (common s)
  ∧ srv_handshake_state (server s') = srv_handshake_state (server s).
End handled.

(** The part the shared methods need: the server's context may be replaced. *)
Class SignalingCore (T S : Type) `{!SignalingBase T S} (I : S → Prop) : Prop := {
  ss_base :: SignalingBaseLaws T S;
  ss_common s : I s → common_inv (common s);
  ss_set_server c s : I s → common_inv (with_server c (common s)) → I (set_server c s);
}.

Class SignalingSafe (T S : Type) `{!Task T, !Env, !Signaling T S} (I : S → Prop) : Prop := {
  ss_core :: SignalingCore T S I;
  (** The end of the server handshake. *)
  ss_enter_peer_handshake s : I s →
    c_signaling_state (common s) = SignalingState.ServerHandshake →
    let c := with_signaling_state SignalingState.PeerHandshake (with_server
      (srv_set_handshake_state ServerHandshakeState.Done (server s)) (common s)) in
    common_inv c → I (set_common c s);
  (** A sender other than the server. *)
  ss_sender a s : I s → Address.is_server a = false →
    ∃ op, get_peer_with_address_mut (E := ValidationError) a s = Ok op
    ∧ match op with
      | Some (@MkDynPeer _ _ _ p put) => sender_ok I a s p put ∧ ∀ p', common (put p') = common s
      | None => True
      end;
  ss_destination n s : I s → wf_nonce n → wp (validate_nonce_destination n) s (λ o s',
    I s' ∧ is_panic o = false ∧ (∀ a, last_csn a s' = last_csn a s)
    ∧ ∃ i, common s' = with_identity i (common s)
      ∧ (identity s = ClientIdentity.Unknown ∨ i = identity s));
  ss_source n s : wp (validate_nonce_source n) s (λ o s', s' = s ∧ is_panic o = false);
  ss_decode b s : decoded b (decode_peer_message b s);
  ss_peer_message o s : I s → c_signaling_state (common s) = SignalingState.PeerHandshake →
    wf_message (obox_message o) → wf_nonce (obox_nonce o) →
    Address.is_server (nonce_source (obox_nonce o)) = false →
    is_Some (sender_cookie (nonce_source (obox_nonce o)) s) →
    wp (handle_peer_message o) s (handled I s);
  ss_server_auth_impl msg s : I s →
    srv_handshake_state (server s) = ServerHandshakeState.ClientInfoSent →
    identity s ≠ ClientIdentity.Unknown → wf_message (Message.ServerAuth msg) →
    wp (handle_server_auth_impl msg) s (quiet I s);
  ss_new_initiator msg s : I s →
    srv_handshake_state (server s) = ServerHandshakeState.Done →
    wp (handle_new_initiator msg) s (handled I s);
  ss_new_responder msg s : I s →
    srv_handshake_state (server s) = ServerHandshakeState.Done →
    wf_message (Message.NewResponder msg) →
    wp (handle_new_responder msg) s (handled I s);
  ss_disconnected msg s : I s →
    wp (handle_disconnected msg) s (handled I s);
  (** The peer of the task phase. *)
  ss_peer s : I s → c_signaling_state (common s) = SignalingState.Task →
    match get_peer s with
    | Some (@MkDynPeer _ _ _ p put) => peer_ok I s p put
    | None => False
    end;
}.

(** ** Rules for [handled] *)

Section rules.
Context {T S : Type} `{!Env, !SignalingBase T S} {W E : Type} (I : S → Prop).

Lemma handled_trans s s1 {A} (o : outcome E A) s2 :
  common_frame (common s) (common s1) → handled I s1 o s2 → handled I s o s2.
Proof. intros Hf (HI & Hf' & Ho). split_and!; [done|by etrans|done]. Qed.

Lemma handled_bind {A B} (m : M W S E A) (k : A → M W S E B) s :
  wp m s (handled I s) →
  (∀ a s1, I s1 → common_frame (common s) (common s1) → wp (k a) s1 (handled I s1)) →
  wp (x ← m; k x) s (handled I s).
Proof.
  intros Hm Hk. wp_step. eapply wp_mono; [exact Hm|]. intros [a|e|msg] s1 (HI & Hf & Ho); simpl.
  - eapply wp_mono; [by apply Hk|]. intros. by eapply handled_trans.
  - done.
  - done.
Qed.

Lemma handled_ret {A} (a : A) s : I s → wp (mret a : M W S E A) s (handled I s).
Proof. intros. wp_step. by split_and!. Qed.
Lemma handled_throw {A} e s : I s → wp (throw e : M W S E A) s (handled I s).
Proof. intros. wp_step. by split_and!. Qed.

Lemma quiet_refl {A} (o : outcome E A) s : I s → no_surprise o → quiet I s o s.
Proof. by intros; split_and!. Qed.
Lemma quiet_trans s s1 {A B} (o1 : outcome E A) (o : outcome E B) s2 :
  quiet I s o1 s1 → quiet I s1 o s2 → quiet I s o s2.
Proof.
  intros ((_ & Hf & _) & Hst & Hsrv) (Hh & Hst' & Hsrv').
  split_and!; [by eapply handled_trans|by etrans|by etrans].
Qed.
Lemma quiet_other {A B} (o : outcome E A) (o' : outcome E B) s s' :
  quiet I s o s' → no_surprise o' → quiet I s o' s'.
Proof. intros ((? & ? & _) & ? & ?) ?. by split_and!. Qed.
Lemma quiet_bind {A B} (m : M W S E A) (k : A → M W S E B) s :
  wp m s (quiet I s) →
  (∀ a s1, I s1 → quiet I s (Ok a : outcome E A) s1 → wp (k a) s1 (quiet I s1)) →
  wp (x ← m; k x) s (quiet I s).
Proof.
  intros Hm Hk. wp_step. eapply wp_mono; [exact Hm|]. intros o s1 Hq.
  destruct o as [a|e|msg]; [|by eapply quiet_other; [|apply Hq]..].
  cbn [wp_then]. eapply wp_mono; [apply Hk; [apply Hq|done]|]. intros. by eapply quiet_trans.
Qed.
End rules.

(** ** Default methods *)

(** Sealing a message always succeeds. *)
Ltac wp_seal :=
  let go H := (let b := fresh "bbox" in let Hb := fresh "Hseal" in let Hn := fresh "Hnonce" in
    destruct H as (b & Hb & Hn); rewrite Hb; cbn [wp_then]) in
  lazymatch goal with
  | |- wp_then _ _ (obox_encrypt ?o ?k ?pk) _ =>
      go (obox_encrypt_total (E := SignalingError) o k pk)
  | |- wp_then _ _ (obox_encode ?o) _ => go (obox_encode_total (E := SignalingError) o)
  | |- wp_then _ _ (obox_encrypt_token ?o ?t) _ =>
      go (obox_encrypt_token_total (E := SignalingError) o t)
  end.

Section default_methods.
Context {T S : Type} `{!Task T, !Env, !SignalingBase T S}.
Context `{!ByteOrder, !Sodium, !SodiumLaws, !Rmps, !RmpsLaws}.
Context (I : S → Prop) `{!SignalingCore T S I}.
Implicit Types s : S.

Lemma server_set_server c s : server (set_server c s) = c.
Proof. unfold server, set_server. by rewrite common_set_common. Qed.
Lemma common_set_server c s : common (set_server c s) = with_server c (common s).
Proof. unfold set_server. by rewrite common_set_common. Qed.

(** Drawing a nonce for the server. *)
Lemma wp_next_server_nonce s (Q : outcome SignalingError Nonce → S → Prop) : I s →
  (∀ o src ours', wf_csn ours' → wf_address src →
    (∀ E, ClientIdentity.address_from_client_identity (E := E) (identity s) = Ok src) →
    nonce_drawn (cookie_ours (srv_cookie_pair (server s))) src (mkAddress 0)
      (csn_ours (srv_csn_pair (server s))) ours' o →
    Q o (set_server (advanced (server s) ours') s)) →
  wp next_server_nonce s Q.
Proof.
  intros HI HQ. pose proof (ss_common s HI) as Hc.
  destruct (identity_fits_address _ _ (ci_identity _ Hc)) as (src & Hsrc & Hw).
  destruct (peer_increment_cases _ (ci_server _ Hc)) as (ours' & Ho & Hp & Hr).
  change (c_server (common s)) with (server s) in *.
  unfold next_server_nonce. repeat wp_step. rewrite Hsrc. repeat wp_step.
  cbn [pc_identity server_peer Identity.address_from_identity wp_then].
  destruct (peer_increment (server s)) as [r srv']; simpl in Hp, Hr; subst srv'.
  repeat wp_step. specialize (λ o, HQ o src ours' Ho Hw Hsrc).
  destruct r as [snap|e|msg]; simpl in Hr; [|by apply HQ|done].
  destruct Hr as [-> Hn]. repeat wp_step. by apply HQ.
Qed.

(** Two states that differ by drawn server nonces only. *)
Definition server_drawn s s' : Prop := ∃ ours', wf_csn ours'
  ∧ csn_number (csn_ours (srv_csn_pair (server s))) ≤ csn_number ours'
  ∧ s' = set_server (advanced (server s) ours') s.

Lemma server_drawn_refl s : I s → server_drawn s s.
Proof.
  intros HI. exists (csn_ours (srv_csn_pair (server s))).
  destruct (ci_server _ (ss_common s HI)) as [[Ho _] _]. split_and!; [done|lia|].
  rewrite <- (set_common_common s) at 1. unfold set_server. f_equal.
  unfold server, advanced. simpl. by destruct (common s) as [?????[???[] []]????].
Qed.
Lemma server_drawn_trans s1 s2 s3 : server_drawn s1 s2 → server_drawn s2 s3 → server_drawn s1 s3.
Proof.
  intros (o2 & Hw2 & Hn2 & ->) (o3 & Hw3 & Hn3 & ->). exists o3. rewrite server_set_server in *.
  simpl in *. split_and!; [done|lia|]. unfold set_server at 1.
  rewrite common_set_server. unfold set_server. by rewrite set_common_twice.
Qed.
Lemma server_drawn_common s s' : server_drawn s s' →
  ∃ ours', common s' = with_server (advanced (server s) ours') (common s).
Proof. intros (ours' & _ & _ & ->). exists ours'. apply common_set_server. Qed.
Lemma server_drawn_handled s s' {E A} (o : outcome E A) :
  I s → server_drawn s s' → no_surprise o → handled I s o s'.
Proof.
  intros HI (ours' & Hw & Hn & ->) Ho. split_and!; [| |done].
  - apply ss_set_server; [done|]. apply common_inv_advance, Hw. by apply ss_common.
  - rewrite common_set_server. by apply common_frame_advance.
Qed.

Lemma wp_draw s (Q : outcome SignalingError Nonce → S → Prop) : I s →
  (∀ n s', server_drawn s s' → Q (Ok n) s') →
  (∀ e s', server_drawn s s' → Q (Err e) s') → wp next_server_nonce s Q.
Proof.
  intros HI HQ HE. apply wp_next_server_nonce; [done|]. intros o src ours' Ho _ _ Hd.
  assert (server_drawn s (set_server (advanced (server s) ours') s))
    by (exists ours'; split_and!; [done|by eapply nonce_drawn_le|done]).
  destruct o; [by apply HQ|by apply HE|done].
Qed.

(** The methods that only draw a nonce and seal a message with it. *)
Definition draws {A} (m : M env S SignalingError A) : Prop :=
  ∀ s, I s → wp m s (λ o s', server_drawn s s' ∧ is_panic o = false).

Lemma send_drop_responder_draws a r : draws (send_drop_responder a r).
Proof.
  intros s HI. unfold send_drop_responder. repeat wp_step; [by split; [apply server_drawn_refl|]|].
  apply wp_draw; [done| |done]. intros n s' Hs. repeat wp_step; [|done].
  wp_seal. by repeat wp_step.
Qed.
(** The box it returns: the drop-responder message, sealed for the server
    under the next nonce. *)
Definition sealed_for_server (m : Message) s s' (b : ByteBox) : Prop :=
  ∃ sk src ours', srv_session_key (server s) = Some sk
  ∧ s' = set_server (advanced (server s) ours') s
  ∧ csn_number ours' = csn_number (csn_ours (srv_csn_pair (server s))) + 1
  ∧ bbox_nonce b = mkNonce (cookie_ours (srv_cookie_pair (server s))) src (mkAddress 0)
      (snapshot_of ours')
  ∧ obox_encrypt (E := SignalingError) (mkOpenBox m (bbox_nonce b))
      (c_permanent_keypair (common s)) sk = Ok b.

Lemma send_drop_responder_sealed a r s : I s →
  wp (send_drop_responder a r) s (λ o s', match o with
    | Ok act => ∃ b, act = HandleAction.Reply b
        ∧ sealed_for_server (Message.DropResponder (drop_responder_with_reason a r)) s s' b
    | _ => True
    end).
Proof.
  intros HI. unfold send_drop_responder. repeat wp_step; [done|].
  apply wp_next_server_nonce; [done|]. intros o src ours' Ho _ _ Hd. destruct o as [n|e|msg]; [|done..].
  repeat wp_step; [|done]. destruct Hd as [-> Hn]. wp_seal. repeat wp_step.
  exists bbox. split; [done|]. eexists _, src, ours'. split_and!; try done. by rewrite Hnonce.
Qed.

Lemma send_client_hello_draws : draws send_client_hello.
Proof.
  intros s HI. unfold send_client_hello. repeat wp_step; [|by split; [apply server_drawn_refl|]].
  apply wp_draw; [done| |done]. intros n s' Hs. repeat wp_step. wp_seal.
  by repeat wp_step.
Qed.
Lemma send_client_auth_drawn s : I s → is_Some (cookie_theirs (srv_cookie_pair (server s))) →
  wp send_client_auth s (λ o s', server_drawn s s' ∧ is_panic o = false).
Proof.
  intros HI [c Hc]. unfold send_client_auth. repeat wp_step; [|congruence].
  apply wp_draw; [done| |done]. intros n s' Hs. repeat wp_step; [|done].
  wp_seal. by repeat wp_step.
Qed.

(** Storing the server's session key, when none is stored yet. *)
Lemma set_session_key_ok k s : I s → srv_session_key (server s) = None →
  srv_handshake_state (server s) = ServerHandshakeState.New →
  I (set_server (srv_set_session_key k (server s)) s)
  ∧ common_frame (common s) (common (set_server (srv_set_session_key k (server s)) s)).
Proof.
  intros HI Hk Hnew. pose proof (ss_common s HI) as []. split.
  - apply ss_set_server; [done|]. by split.
  - rewrite common_set_server. split; try done. simpl. fold (server s). rewrite Hk. by intros [].
Qed.

Lemma client_info_sent_ok s : I s →
  c_signaling_state (common s) = SignalingState.ServerHandshake →
  is_Some (srv_session_key (server s)) →
  is_Some (cookie_theirs (srv_cookie_pair (server s))) →
  let s' := set_server (srv_set_handshake_state ServerHandshakeState.ClientInfoSent (server s)) s in
  I s' ∧ common_frame (common s) (common s').
Proof.
  intros HI Hst Hk Hc. pose proof (ss_common s HI) as []. split.
  - apply ss_set_server; [done|]. by split.
  - rewrite common_set_server. by split.
Qed.

Lemma drawn_bind {A B} (m : M env S SignalingError A) (k : A → M env S SignalingError B) s : I s →
  wp m s (λ o s', server_drawn s s' ∧ is_panic o = false) →
  (∀ a s1, I s1 → server_drawn s s1 → wp (k a) s1 (handled I s1)) →
  wp (x ← m; k x) s (handled I s).
Proof.
  intros HI Hm Hk. wp_step. eapply wp_mono; [exact Hm|]. intros o s1 [Hd Ho%no_panic_no_surprise].
  pose proof (server_drawn_handled _ _ o HI Hd Ho) as (HI1 & Hf & _).
  destruct o; [|done..]. eapply wp_mono; [by apply Hk|]. intros. by eapply handled_trans.
Qed.

(** What a state with drawn nonces shares with the state before. *)
Lemma server_drawn_same s s' : server_drawn s s' →
  c_signaling_state (common s') = c_signaling_state (common s)
  ∧ srv_handshake_state (server s') = srv_handshake_state (server s)
  ∧ srv_session_key (server s') = srv_session_key (server s)
  ∧ srv_cookie_pair (server s') = srv_cookie_pair (server s).
Proof.
  intros [ours' Hc]%server_drawn_common. unfold server. by rewrite Hc.
Qed.

(** Until the server handshake is done, so is not the first stage. *)
Lemma server_new_handshake s : I s →
  srv_handshake_state (server s) ≠ ServerHandshakeState.Done →
  c_signaling_state (common s) = SignalingState.ServerHandshake.
Proof.
  intros HI Hnew. pose proof (ci_done _ (ss_common s HI)) as [_ Hdone].
  apply dec_stable. intros Hst. by apply Hnew, Hdone.
Qed.

Lemma draws_quiet {A} (m : M env S SignalingError A) s : draws m → I s → wp m s (quiet I s).
Proof.
  intros Hm HI. eapply wp_mono; [by apply Hm|]. intros o s' [Hd Ho%no_panic_no_surprise].
  destruct (server_drawn_same _ _ Hd) as (? & ? & _). split_and!; try done;
    by apply server_drawn_handled.
Qed.

(** [handle_server_hello], once the server's cookie is known. *)
Lemma handle_server_hello_handled msg s : I s →
  srv_handshake_state (server s) = ServerHandshakeState.New →
  is_Some (cookie_theirs (srv_cookie_pair (server s))) →
  wp (handle_server_hello msg) s (handled I s).
Proof.
  intros HI Hnew Htheirs. unfold handle_server_hello. do 4 wp_step; [by apply handled_throw|].
  apply bool_decide_eq_false, eq_None_not_Some in Hb.
  destruct (set_session_key_ok (Some (sh_key msg)) s HI Hb Hnew) as [HI1 Hf1].
  do 3 wp_step. eapply wp_mono; [|intros o s'; apply (handled_trans I _ _ _ _ Hf1)].
  assert (server (set_server (srv_set_session_key (Some (sh_key msg)) (server s)) s)
    = srv_set_session_key (Some (sh_key msg)) (server s)) as Hs1 by apply server_set_server.
  set (s1 := set_server _ s) in *.
  apply drawn_bind; [done|by apply send_client_hello_draws|]. intros hello s2 HI2 Hd2.
  destruct (server_drawn_same _ _ Hd2) as (E1 & E2 & E3 & E4).
  apply drawn_bind; [done|apply send_client_auth_drawn; [done|by rewrite E4, Hs1]|].
  intros auth s3 HI3 Hd3. destruct (server_drawn_same _ _ Hd3) as (E1' & E2' & E3' & E4').
  destruct (client_info_sent_ok s3 HI3) as [HI4 Hf4].
  - rewrite E1', E1. unfold s1. rewrite common_set_server. simpl.
    apply server_new_handshake; [done|]. by rewrite Hnew.
  - by rewrite E3', E3, Hs1.
  - by rewrite E4', E4, Hs1.
  - repeat wp_step. by split_and!.
Qed.
End default_methods.

(** ** The server handshake *)

Section server_handshake.
Context {T S : Type} `{!Task T, !Env, !Signaling T S}.
Context `{!ByteOrder, !Sodium, !SodiumLaws, !Rmps, !RmpsLaws}.
Context (I : S → Prop) `{!SignalingSafe T S I}.
Implicit Types s : S.

(** The signed keys are checked without a panic. *)
Lemma verify_signed_keys_total msg nc s m :
  wf_message (Message.ServerAuth msg) → verify_signed_keys msg nc s ≠ Panic m.
Proof.
  intros (_ & Hk & _). unfold verify_signed_keys.
  destruct (srv_permanent_key (server s)) as [pk|]; [|done].
  destruct nc as [n|]; [|done]. destruct (sa_signed_keys msg) as [k|]; [|done]. simpl in *.
  pose proof (signed_keys_decrypt_total k (c_permanent_keypair (common s)) pk n Hk) as Ht.
  destruct (box_open _ _ _ _); rewrite Ht; [|done]. simpl.
  destruct (srv_session_key (server s)); [|done]. simpl. by repeat case_match.
Qed.

(** The two assignments that end the server handshake. *)
Lemma enter_peer_handshake_ok s : I s →
  srv_handshake_state (server s) = ServerHandshakeState.ClientInfoSent →
  identity s ≠ ClientIdentity.Unknown →
  let s' := set_server (srv_set_handshake_state ServerHandshakeState.Done (server s)) s in
  let '(r, c) := set_signaling_state SignalingState.PeerHandshake (common s') in
  r = Ok tt ∧ I (set_common c s') ∧ common_frame (common s) (common (set_common c s')).
Proof.
  intros HI Hsrv Hid. pose proof (server_new_handshake I s HI) as Hst.
  rewrite Hsrv in Hst. specialize (Hst ltac:(done)).
  cbv zeta. rewrite (common_set_server I). unfold set_signaling_state; simpl. rewrite Hst.
  rewrite bool_decide_eq_false_2 by done. simpl. split; [done|].
  unfold set_server. rewrite set_common_twice, common_set_common. split.
  - apply ss_enter_peer_handshake; [done..|]. destruct (ss_common s HI). unfold server in Hsrv.
    split; try done. simpl. intros _. apply ci_info. by rewrite Hsrv.
  - split; try done. simpl. rewrite Hst. done.
Qed.

Lemma handle_server_auth_handled msg nc s : I s →
  srv_handshake_state (server s) = ServerHandshakeState.ClientInfoSent →
  wf_message (Message.ServerAuth msg) →
  wp (handle_server_auth msg nc) s (handled I s).
Proof.
  intros HI Hsrv Hm. unfold handle_server_auth. do 4 wp_step; [by apply handled_throw|].
  apply bool_decide_eq_false in Hb. do 2 wp_step. unfold validate_repeated_cookie.
  case_bool_decide; [by split_and!|]. do 3 wp_step.
  destruct (verify_signed_keys msg nc s) as [[]|e|m] eqn:Hv;
    [|by split_and!|by apply verify_signed_keys_total in Hv].
  do 2 wp_step. eapply wp_mono; [by apply ss_server_auth_impl|].
  intros [actions|e|m] s1 ((HI1 & Hf1 & Ho1) & Hst1 & Hsrv1); [|by split_and!..]. cbn [wp_then].
  rewrite Hsrv in Hsrv1.
  assert (identity s1 ≠ ClientIdentity.Unknown) as Hid1.
  { unfold identity. by rewrite (cf_identity _ _ Hf1). }
  pose proof (enter_peer_handshake_ok s1 HI1 Hsrv1 Hid1) as He. cbv zeta in He.
  repeat wp_step. destruct (set_signaling_state _ _) as [r c].
  destruct He as (-> & HI2 & Hf2). repeat wp_step. split_and!; [done|by etrans|done].
Qed.
End server_handshake.

(** ** Nonce validation *)

(** What a nonce validation leaves behind: the sender's context with the new
    sequence number and cookie. *)
Definition accept `{!PeerContext P} (n : Nonce) (p : P) : P :=
  let p1 := pc_set_csn_pair
    (mkCombinedSequencePair (csn_ours (pc_csn_pair p)) (Some (nonce_csn n))) p in
  pc_set_cookie_pair
    (mkCookiePair (cookie_ours (pc_cookie_pair p)) (Some (nonce_cookie n))) p1.

(** The sequence number is newer than the last one, or may be the first. *)
Definition fresh_csn (last : option CombinedSequenceSnapshot) (cur : CombinedSequenceSnapshot)
    : Prop :=
  match last with
  | Some prev => combined_sequence_number prev < combined_sequence_number cur
  | None => overflow_number cur = 0
  end.

(** The nonce is fresh for a context. *)
Definition acceptable `{!PeerContext P} (n : Nonce) (p : P) : Prop :=
  fresh_csn (csn_theirs (pc_csn_pair p)) (nonce_csn n)
  ∧ match cookie_theirs (pc_cookie_pair p) with
    | Some theirs => nonce_cookie n = theirs
    | None => nonce_cookie n ≠ cookie_ours (pc_cookie_pair p)
    end.

Section validation.
Context {T S : Type} `{!Task T, !Env, !Signaling T S}.
Context (I : S → Prop) `{!SignalingSafe T S I}.
Implicit Types s : S.

(** The sender is known: the checks of its sequence number and cookie. *)
Lemma validate_sender_spec n s {P} {i : PeerContext P} (p : P) put (J : S → Prop) :
  wf_nonce n → sender_ok J (nonce_source n) s p put →
  get_peer_with_address_mut (E := ValidationError) (nonce_source n) s = Ok (Some (MkDynPeer p put)) →
  wp (_ ← validate_nonce_csn n; validate_nonce_cookie n : M env S ValidationError unit) s (λ o s',
    match o with
    | Ok _ => acceptable n p ∧ s' = put (accept n p)
    | Err e => s' = s ∨ ∃ pair, check_csn (pc_identity p) (nonce_csn n) (pc_csn_pair p) = Ok pair
        ∧ s' = put (pc_set_csn_pair pair p)
    | Panic _ => False
    end).
Proof.
  intros (Hwc & _ & _ & Hws) [Hl [Hwf1 Hwf2] _ Hag] Hg. unfold validate_nonce_csn.
  wp_step. unfold find_sender at 1. repeat wp_step. rewrite Hg. repeat wp_step.
  destruct (check_csn _ _ _) as [pair|e|m] eqn:Hcsn; [|by left|by apply check_csn_not_panic in Hcsn].
  repeat wp_step.
  apply check_csn_Ok in Hcsn as Hok; [|done..]. destruct Hok as (Hwp & Ho & Ht & Hfresh).
  destruct (Hag (pc_set_csn_pair pair p)) as (put' & Hg' & Hput'); [apply pc_identity_set_csn|].
  unfold validate_nonce_cookie, find_sender. repeat wp_step. rewrite Hg'. repeat wp_step.
  rewrite pc_cookie_set_csn, pc_identity_set_csn.
  destruct (check_cookie _ _ _) as [cpair|e|m] eqn:Hck;
    [|by right; exists pair|by apply check_cookie_not_panic in Hck].
  apply check_cookie_Ok in Hck as (Hwcp & Hco & Hct & Hckok); [|done..].
  repeat wp_step. split.
  - by split.
  - rewrite Hput'. unfold accept. f_equal. destruct cpair, pair; simpl in *; subst. done.
Qed.
(** The server's context may be updated by a nonce validation. *)
Lemma server_sender_ok a s : I s → Address.is_server a = true →
  sender_ok I a s (server s) (λ c, set_server c s).
Proof.
  intros HI Ha. pose proof (ss_common s HI) as [[Hcsn Hck]]. split.
  - apply _.
  - done.
  - intros np cp Hnp Hno Hcp Hco Hpin. apply ss_set_server; [done|]. split; try done. simpl.
    intros Hn. destruct (ci_info Hn) as [Hk [c Hc]]. split; [done|]. exists c. by apply Hpin.
  - intros p' _. exists (λ c, set_server c (set_server p' s)). split.
    + rewrite lookup_server by done. by rewrite (server_set_server I).
    + intros q. unfold set_server at 1. rewrite (common_set_server I). unfold set_server.
      by rewrite set_common_twice.
Qed.

Section known_sender.
Context (n : Nonce) (s : S) {P} {i : PeerContext P} (p : P) (put : P → S).
Context (Hok : sender_ok I (nonce_source n) s p put) (Hn : wf_nonce n).

Lemma accept_inv : acceptable n p → I (put (accept n p)).
Proof.
  intros [Hf Hc]. destruct Hok as [Hl [[Ho Ht] [Hco Hct]] Hup _]. destruct Hn as (Hwc & _ & _ & Hws).
  apply Hup; try done.
  intros c Hcp. rewrite Hcp in Hc. simpl. congruence.
Qed.
Lemma set_csn_inv pair : check_csn (pc_identity p) (nonce_csn n) (pc_csn_pair p) = Ok pair →
  I (put (pc_set_csn_pair pair p)) ∧ fresh_csn (csn_theirs (pc_csn_pair p)) (nonce_csn n)
  ∧ csn_ours pair = csn_ours (pc_csn_pair p) ∧ csn_theirs pair = Some (nonce_csn n).
Proof.
  destruct Hok as [Hl [Hcsn Hck] Hup _]. destruct Hn as (_ & _ & _ & Hws).
  intros (Hw & Ho & Ht & Hf)%check_csn_Ok; [|done..]. split_and!; try done.
  rewrite <- (pc_set_cookie_same (pc_set_csn_pair pair p)), pc_cookie_set_csn.
  by apply Hup.
Qed.
Lemma last_csn_put p' : pc_identity p' = pc_identity p →
  last_csn (nonce_source n) (put p') = csn_theirs (pc_csn_pair p')
  ∧ sender_cookie (nonce_source n) (put p') = cookie_theirs (pc_cookie_pair p').
Proof.
  intros (put' & Hg & _)%(so_again _ _ _ _ _ Hok). unfold last_csn, sender_cookie. by rewrite Hg.
Qed.
End known_sender.

(** The outcome of a nonce validation. *)
Definition validated (n : Nonce) s (o : outcome ValidationError unit) (s' : S) : Prop :=
  let a := nonce_source n in
  I s' ∧ checked (common s) (common s') ∧ is_panic o = false ∧
  match o with
  | Ok _ => fresh_csn (last_csn a s) (nonce_csn n) ∧ last_csn a s' = Some (nonce_csn n)
      ∧ sender_cookie a s' = Some (nonce_cookie n)
  | _ => last_csn a s' = last_csn a s
      ∨ (fresh_csn (last_csn a s) (nonce_csn n) ∧ last_csn a s' = Some (nonce_csn n))
  end.

Lemma fresh_csn_le last cur : fresh_csn last cur → csn_le last (Some cur).
Proof. destruct last; simpl; [lia|done]. Qed.

(** The effect of a validation on the common state. *)
Lemma server_update_step s np cp :
  csn_ours np = csn_ours (srv_csn_pair (server s)) →
  cookie_ours cp = cookie_ours (srv_cookie_pair (server s)) →
  csn_le (csn_theirs (srv_csn_pair (server s))) (csn_theirs np) →
  pinned (cookie_theirs (srv_cookie_pair (server s))) (cookie_theirs cp) →
  checked (common s)
    (common (set_server (pc_set_cookie_pair cp (pc_set_csn_pair np (server s))) s)).
Proof.
  intros Hno Hco Hle Hpin. rewrite (common_set_server I). split; [|done]. split; try done; simpl.
  - by right.
  - by rewrite Hno.
Qed.

(** The sender is found: what the two checks establish. *)
Lemma validate_sender_validated n s {P} {i : PeerContext P} (p : P) put :
  wf_nonce n → sender_ok I (nonce_source n) s p put →
  get_peer_with_address_mut (E := ValidationError) (nonce_source n) s = Ok (Some (MkDynPeer p put)) →
  (∀ np cp, csn_ours np = csn_ours (pc_csn_pair p) → cookie_ours cp = cookie_ours (pc_cookie_pair p) →
    csn_le (csn_theirs (pc_csn_pair p)) (csn_theirs np) →
    pinned (cookie_theirs (pc_cookie_pair p)) (cookie_theirs cp) →
    checked (common s) (common (put (pc_set_cookie_pair cp (pc_set_csn_pair np p))))) →
  I s →
  wp (_ ← validate_nonce_csn n; validate_nonce_cookie n : M env S ValidationError unit) s
    (validated n s).
Proof.
  intros Hn Hok Hg Hstep HI.
  eapply wp_mono; [by eapply validate_sender_spec|].
  assert (last_csn (nonce_source n) s = csn_theirs (pc_csn_pair p)) as Hlast
    by (unfold last_csn; by rewrite Hg).
  pose proof (so_laws _ _ _ _ _ Hok) as Hlaws.
  intros [u|e|m] s'; [intros [Hacc ->]|intros [->|(pair & Hp & ->)]|done]; unfold validated.
  - pose proof Hacc as [Hf Hc].
    destruct (last_csn_put n s p put Hok (accept n p)) as [-> ->].
    { unfold accept. by rewrite pc_identity_set_cookie, pc_identity_set_csn. }
    rewrite Hlast. unfold accept at 3 4.
    rewrite pc_csn_set_cookie, pc_csn_set_csn, pc_cookie_set_cookie. split_and!; try done.
    + by apply (accept_inv n s).
    + apply Hstep; try done; simpl; [by apply fresh_csn_le|].
      intros c Hcp. rewrite Hcp in Hc. congruence.
  - split_and!; [done..|]. by left.
  - destruct (set_csn_inv n s p put Hok Hn pair Hp) as (HI' & Hf & Ho & Ht).
    split_and!; [done| |done|].
    + rewrite <- (pc_set_cookie_same (pc_set_csn_pair pair p)), pc_cookie_set_csn.
      apply Hstep; try done. rewrite Ht. by apply fresh_csn_le.
    + right. rewrite Hlast. split; [done|].
      destruct (last_csn_put n s p put Hok (pc_set_csn_pair pair p)) as [-> _];
        [apply pc_identity_set_csn|]. by rewrite pc_csn_set_csn.
Qed.

(** The second half of the validation, from any sender. *)
Lemma validate_csn_cookie_validated n s : I s → wf_nonce n →
  wp (_ ← validate_nonce_csn n; validate_nonce_cookie n : M env S ValidationError unit) s
    (validated n s).
Proof.
  intros HI Hn. destruct (Address.is_server (nonce_source n)) eqn:Ha.
  - apply (validate_sender_validated n s (server s) (λ c, set_server c s));
      [done|by apply server_sender_ok|by apply lookup_server|apply server_update_step|done].
  - destruct (ss_sender _ s HI Ha) as (op & Hg & Hop). destruct op as [[P i p put]|].
    + destruct Hop as [Hok Hcommon]. eapply validate_sender_validated; try done.
      intros. by rewrite Hcommon.
    + unfold validate_nonce_csn. do 2 wp_step. unfold find_sender. repeat wp_step. rewrite Hg.
      repeat wp_step; (split_and!; [done..|by left]).
Qed.

Lemma validated_trans n s s1 o s2 : checked (common s) (common s1) →
  (∀ a, last_csn a s1 = last_csn a s) → validated n s1 o s2 → validated n s o s2.
Proof.
  intros Hs Hl (HI & Hs' & Ho & Hm). unfold validated. rewrite <- Hl.
  split_and!; [done|by etrans|done|done].
Qed.

Lemma validate_nonce_validated n s : I s → wf_nonce n →
  wp (validate_nonce n) s (validated n s).
Proof.
  intros HI Hn. unfold validate_nonce. wp_step. eapply wp_mono; [by apply ss_destination|].
  intros o s1 (HI1 & Ho & Hl & id & Hc & Hid).
  assert (checked (common s) (common s1)) as Hstep.
  { rewrite Hc. split; [|done]. split; try done. }
  destruct o as [u|e|m]; [|split_and!; [done..|by left]|done].
  cbn [wp_then]. wp_step. eapply wp_mono; [apply ss_source|].
  intros o1 ? [-> Ho1]. destruct o1 as [u1|e|m]; [|split_and!; [done..|by left]|done].
  cbn [wp_then]. apply wp_bind_assoc. wp_step.
  eapply wp_mono; [by apply validate_csn_cookie_validated|].
  intros o2 s2 Hv. apply (validated_trans n s s1) in Hv; [|done..].
  destruct o2 as [[]|e|m]; cbn [wp_then]; [by wp_step|done..].
Qed.
End validation.

(** ** Dispatching *)

Section dispatch_safe.
Context {T S : Type} `{!Task T, !Env, !Signaling T S}.
Context `{!ByteOrder, !Sodium, !SodiumLaws, !Rmps, !RmpsLaws}.
Context (I : S → Prop) `{!SignalingSafe T S I}.
Implicit Types s : S.

Lemma handle_server_message_handled o nc s : I s → wf_message (obox_message o) →
  is_Some (cookie_theirs (srv_cookie_pair (server s))) →
  wp (handle_server_message o nc) s (handled I s).
Proof.
  intros HI Hm Hc. unfold handle_server_message, server_handshake_state. do 3 wp_step.
  destruct (srv_handshake_state (server s)) eqn:Hsrv, (obox_message o) eqn:Hmsg;
    try (by apply handled_throw).
  - by apply (handle_server_hello_handled I).
  - by apply handle_server_auth_handled.
  - by apply ss_new_initiator.
  - by apply ss_new_responder.
  - wp_step. split_and!; [done..|by right].
  - by apply ss_disconnected.
Qed.

Lemma decode_server_message_decoded b s : decoded b (decode_server_message b s).
Proof.
  unfold decode_server_message. case_match; [auto with salty|]. case_match; [|done]. auto with salty.
Qed.

Lemma decode_task_message_total b s m : decode_task_message b s ≠ Panic m.
Proof.
  unfold decode_task_message. destruct (get_peer s) as [[P i p put]|]; [|done].
  destruct (pc_session_key p); [|done]. destruct (pc_keypair p); [|done]. simpl.
  apply value_decrypt_total.
Qed.
Lemma process_task_message_total v types m : process_task_message v types ≠ Panic m.
Proof.
  assert (∀ kvs acc m', pairs_to_map kvs acc ≠ Panic m') as Hp.
  { induction kvs as [|[k v'] kvs IH]; intros acc m'; [done|]. simpl.
    destruct (Value.as_str k); [|done]. simpl. apply IH. }
  unfold process_task_message. destruct v; try done. simpl.
  destruct (pairs_to_map kvs ∅) as [map|e|m'] eqn:Hmap; [|done|by apply Hp in Hmap]. simpl.
  unfold close_reason_of, ok_or, mbind, outcome_bind. by repeat case_match.
Qed.

Lemma handle_handshake_peer_message_handled b s : I s → wf_nonce (bbox_nonce b) →
  is_Some (sender_cookie (nonce_source (bbox_nonce b)) s) →
  wp (handle_handshake_peer_message b) s (handled I s).
Proof.
  intros HI Hn Hc. unfold handle_handshake_peer_message. wp_step; [by apply handled_throw|].
  repeat wp_step. pose proof (ss_decode b s) as Hd.
  destruct (decode_peer_message b s) as [o|e|m]; [|..|done]; repeat wp_step.
  - destruct Hd as [Hm Hno]. destruct (c_signaling_state (common s)) eqn:Hst;
      [by apply handled_throw| |by apply handled_throw].
    rewrite Hno, Hb. apply ss_peer_message; try done; by rewrite Hno.
  - destruct e; try (by apply handled_throw).
    apply (drawn_bind I); [done|by apply (send_drop_responder_draws I)|]. intros a s1 HI1 _.
    by apply handled_ret.
Qed.

Lemma handle_task_peer_message_handled b s : I s → wp (handle_task_peer_message b) s (handled I s).
Proof.
  intros HI. unfold handle_task_peer_message. wp_step; [by apply handled_throw|].
  repeat wp_step. destruct (decode_task_message b s) as [o|e|m] eqn:Hd; repeat wp_step.
  - destruct (process_task_message _ _) eqn:Hp; [by split_and!..|].
    by apply process_task_message_total in Hp.
  - by split_and!.
  - by apply decode_task_message_total in Hd.
Qed.

(** After the nonce has been accepted. *)
Lemma dispatch_message_handled b s : I s → wf_nonce (bbox_nonce b) →
  is_Some (sender_cookie (nonce_source (bbox_nonce b)) s) →
  wp (dispatch_message b) s (handled I s).
Proof.
  intros HI Hn Hc. unfold dispatch_message. repeat wp_step.
  - pose proof (decode_server_message_decoded b s) as Hd.
    destruct (decode_server_message b s) as [o|e|m]; [|by split_and!|done]. cbn [wp_then].
    apply handle_server_message_handled; [done|apply Hd|].
    unfold sender_cookie in Hc. by rewrite lookup_server in Hc.
  - destruct (c_signaling_state (common s));
      [by apply handle_handshake_peer_message_handled..|by apply handle_task_peer_message_handled].
Qed.

(** [handle_message] keeps the invariant, relates the states by [common_step]
    and raises no panic but the two known ones. *)
Lemma handle_message_safe b s : I s → wf_nonce (bbox_nonce b) →
  wp (handle_message b) s (λ o s',
    I s' ∧ common_step (common s) (common s') ∧ no_surprise o).
Proof.
  intros HI Hn. unfold handle_message. do 2 wp_step.
  eapply wp_mono; [by apply (validate_nonce_validated I)|].
  intros o s1 (HI1 & [Hs1 _] & Ho & Hv).
  destruct o as [[]|e|m]; [|destruct e; repeat wp_step; by split_and!|done].
  cbn [wp_then]. destruct Hv as (_ & _ & Hc).
  eapply wp_mono; [apply dispatch_message_handled; [done..|by rewrite Hc]|].
  intros o s' (HI' & Hf & Ho'). split_and!; [done| |done].
  etrans; [done|]. by apply common_frame_step.
Qed.

(** Drawing a nonce from the context of the chosen peer. *)
Lemma task_peer_nonce s : I s → c_signaling_state (common s) = SignalingState.Task →
  ∃ P (i : PeerContext P) (p : P) put ours' r src dst kp,
    get_peer s = Some (MkDynPeer p put) ∧ next_peer_nonce (identity s) p = (r, advanced p ours')
    ∧ nonce_drawn (cookie_ours (pc_cookie_pair p)) src dst (csn_ours (pc_csn_pair p)) ours' r
    ∧ (∀ E, Identity.address_from_identity (E := E) (pc_identity p) = Ok dst)
    ∧ pc_keypair p = Some kp
    ∧ ∀ A (o : outcome SignalingError A), no_surprise o → handled I s o (put (advanced p ours')).
Proof.
  intros HI Hb. pose proof (ss_peer s HI Hb) as Hpeer.
  destruct (get_peer s) as [[P i p put]|]; [|done].
  destruct Hpeer as [Hl Hw [kp Hkp] [dst Hdst] Hadv Hcom].
  destruct (identity_fits_address _ _ (ci_identity _ (ss_common s HI))) as (src & Hsrc & _).
  destruct (next_peer_nonce_cases (identity s) p src dst Hw Hsrc Hdst) as (ours' & Ho' & Hp' & Hd).
  destruct (next_peer_nonce (identity s) p) as [r p'] eqn:Hnp; simpl in Hp', Hd; subst p'.
  exists P, i, p, put, ours', r, src, dst, kp. split_and!; try done.
  intros A o Ho. split_and!; [by apply Hadv|by rewrite Hcom|done].
Qed.

Lemma encode_task_message_sealed v s : I s →
  wp (encode_task_message v) s (λ o s', handled I s o s' ∧ is_panic o = false).
Proof.
  intros HI. unfold encode_task_message. repeat wp_step; [by split; [split_and!|]|].
  apply bool_decide_eq_false, dec_stable in Hb.
  destruct (task_peer_nonce s HI Hb) as (P & i & p & put & ours' & r & src & dst & kp & Hg & Hnp &
    Hd & _ & Hkp & Hdone). rewrite Hg, Hnp.
  repeat wp_step. destruct r as [n|e|m]; [|by split; [apply Hdone|]|done].
  repeat wp_step; try (by split; [apply Hdone|]).
  destruct (value_encrypt_total (E := SignalingError) (mkOpenBox v n) k p0) as (b & -> & _).
  by split; [apply Hdone|].
Qed.

Lemma encode_close_message_sealed c s : I s →
  wp (encode_close_message c) s (λ o s', handled I s o s' ∧ is_panic o = false).
Proof.
  intros HI. unfold encode_close_message. repeat wp_step; [by split; [split_and!|]|].
  apply bool_decide_eq_false, dec_stable in Hb.
  destruct (task_peer_nonce s HI Hb) as (P & i & p & put & ours' & r & src & dst & kp & Hg & Hnp &
    Hd & _ & Hkp & Hdone). rewrite Hg. unfold seal_close. rewrite Hnp.
  repeat wp_step. destruct r as [n|e|m]; [|by split; [apply Hdone|]|done]. simpl.
  rewrite Hkp. simpl. destruct (pc_session_key p) as [k|]; [|by split; [apply Hdone|]]. simpl.
  destruct (obox_encrypt_total (E := SignalingError) (mkOpenBox (Message.Close
    (close_from_close_code c)) n) kp k) as (b & -> & _). by split; [apply Hdone|].
Qed.

(** The peer of the task phase: its address, and the keys a message to it is
    sealed with. *)
Definition session s : option (Address * KeyPair * PublicKey) :=
  match get_peer s with
  | Some (@MkDynPeer _ _ _ p _) =>
      match Identity.address_from_identity (E := SignalingError) (pc_identity p),
            pc_keypair p, pc_session_key p with
      | Ok a, Some kp, Some pk => Some (a, kp, pk)
      | _, _, _ => None
      end
  | None => None
  end.

(** A box for this peer. *)
Definition sealed_for_peer s (c : Content) (b : ByteBox) : Prop :=
  ∃ kp pk, session s = Some (nonce_destination (bbox_nonce b), kp, pk)
  ∧ sealed_with (WithKeys kp pk) c b.

Lemma session_advanced s `{!PeerContext P} (p : P) put ours' : get_peer s = Some (MkDynPeer p put) →
  peer_ok I s p put → session (put (advanced p ours')) = session s.
Proof.
  intros Hg Hok. destruct (po_again _ _ _ _ Hok (advanced p ours')) as (put' & Hg' & _).
  destruct Hok as [Hl _ _ _ _ _ _]. unfold session. rewrite Hg, Hg'. unfold advanced.
  by rewrite pc_identity_set_csn, pc_keypair_set_csn, pc_session_set_csn.
Qed.

Lemma encode_task_message_session v s : I s →
  wp (encode_task_message v) s (λ o s', session s' = session s ∧ match o with
    | Ok b => sealed_for_peer s (AValue v) b
    | _ => True
    end).
Proof.
  intros HI. unfold encode_task_message. repeat wp_step; [done|].
  apply bool_decide_eq_false, dec_stable in Hb. pose proof (ss_peer s HI Hb) as Hok.
  destruct (task_peer_nonce s HI Hb) as (P & i & p & put & ours' & r & src & dst & kp & Hg & Hnp &
    Hd & Hdst & Hkp & _). rewrite Hg in Hok. rewrite Hg, Hnp.
  pose proof (session_advanced s p put ours' Hg Hok) as Hse.
  repeat wp_step. destruct r as [n|e|m]; [|done..]. repeat wp_step; try done.
  destruct (value_encrypt_total (E := SignalingError) (mkOpenBox v n) k p0) as (b & Hb' & Hn).
  rewrite Hb'. split; [done|]. simpl in Hn. exists k, p0. simpl. rewrite Hn. split; [|done].
  destruct Hd as [-> _]. unfold session. by rewrite Hg, Hdst, Ho, Ho0.
Qed.

Lemma encode_close_message_session c s : I s →
  wp (encode_close_message c) s (λ o s', session s' = session s ∧ match o with
    | Ok b => sealed_for_peer s (AMessage (Message.Close (close_from_close_code c))) b
    | _ => True
    end).
Proof.
  intros HI. unfold encode_close_message. repeat wp_step; [done|].
  apply bool_decide_eq_false, dec_stable in Hb. pose proof (ss_peer s HI Hb) as Hok.
  destruct (task_peer_nonce s HI Hb) as (P & i & p & put & ours' & r & src & dst & kp & Hg & Hnp &
    Hd & Hdst & Hkp & _). rewrite Hg in Hok. rewrite Hg. unfold seal_close. rewrite Hnp.
  pose proof (session_advanced s p put ours' Hg Hok) as Hse.
  repeat wp_step. split; [done|]. destruct r as [n|e|m]; [|done..]. simpl.
  rewrite Hkp. simpl. destruct (pc_session_key p) as [k|] eqn:Hk; [|done]. simpl.
  destruct (obox_encrypt_total (E := SignalingError) (mkOpenBox (Message.Close
    (close_from_close_code c)) n) kp k) as (b & Hb' & Hn).
  rewrite Hb'. simpl in Hn. exists kp, k. simpl. rewrite Hn. split; [|done].
  destruct Hd as [-> _]. unfold session. by rewrite Hg, Hdst, Hkp, Hk.
Qed.

(** A message whose sequence number is not newer than the last one recorded
    for its sender is neither decoded nor answered. *)
Lemma handle_message_replay b s prev : I s → wf_nonce (bbox_nonce b) →
  last_csn (nonce_source (bbox_nonce b)) s = Some prev →
  combined_sequence_number (nonce_csn (bbox_nonce b)) ≤ combined_sequence_number prev →
  wp (handle_message b) s (λ o s', I s' ∧ common_step (common s) (common s')
    ∧ (o = Ok [] ∨ ∃ e, o = Err e) ∧ last_csn (nonce_source (bbox_nonce b)) s' = Some prev).
Proof.
  intros HI Hn Hlast Hle. unfold handle_message. do 2 wp_step.
  eapply wp_mono; [by apply (validate_nonce_validated I)|].
  intros o s1 (HI1 & [Hs1 _] & Ho & Hv). rewrite Hlast in Hv. simpl in Hv.
  destruct o as [[]|e|m]; [destruct Hv; lia| |done].
  destruct Hv as [Hv|[Hf _]]; [|lia].
  destruct e; repeat wp_step; split_and!; eauto.
Qed.

(** ** Runs *)

(** The nonces accepted from a sender while a sequence of boxes is handled,
    errors included. *)
Definition accepts (b : ByteBox) s (w : env) : bool :=
  is_ok (out (validate_nonce (bbox_nonce b) s w)).

Fixpoint accepted (a : Address) (bs : list ByteBox) s (w : env) : list Nonce :=
  match bs with
  | [] => []
  | b :: bs' =>
      (if accepts b s w && bool_decide (nonce_source (bbox_nonce b) = a) then [bbox_nonce b] else [])
      ++ accepted a bs' (post (handle_message b s w)) (world_of (handle_message b s w))
  end.

(** One accepted message from the server: its number is new and recorded. *)
Lemma accepts_server b s w : I s → wf_nonce (bbox_nonce b) →
  Address.is_server (nonce_source (bbox_nonce b)) = true → accepts b s w = true →
  fresh_csn (csn_theirs (srv_csn_pair (server s))) (nonce_csn (bbox_nonce b))
  ∧ csn_theirs (srv_csn_pair (server (post (handle_message b s w)))) = Some (nonce_csn (bbox_nonce b)).
Proof.
  intros HI Hn Ha Hacc. pose proof (validate_nonce_validated I _ s HI Hn w) as Hv.
  unfold accepts in Hacc. unfold handle_message, mtry.
  destruct (validate_nonce (bbox_nonce b) s w) as [[o s1] w1] eqn:Hval.
  unfold out, post in Hacc, Hv. simpl in *. destruct o as [[]|e|m]; [|done..].
  destruct Hv as (HI1 & _ & _ & Hf & Hl & Hc).
  unfold last_csn in Hf, Hl. rewrite lookup_server in Hf, Hl by done. split; [done|].
  unfold mbind, M_bind. rewrite Hval.
  pose proof (dispatch_message_handled b s1 HI1 Hn ltac:(by rewrite Hc) w1) as (_ & Hfr & _).
  unfold server at 1. rewrite (cf_theirs _ _ Hfr). exact Hl.
Qed.

(** A number above the last one recorded, if any. *)
Definition above (last : option CombinedSequenceSnapshot) (z : Z) : Prop :=
  match last with Some prev => combined_sequence_number prev < z | None => True end.

Lemma above_le last last' z : csn_le last last' → above last' z → above last z.
Proof. destruct last, last'; simpl; lia || done. Qed.

(** The numbers accepted from the server increase strictly along every run,
    starting from the last one recorded. *)
Lemma accepted_server_increasing bs : ∀ s w, I s → Forall (λ b, wf_nonce (bbox_nonce b)) bs →
  let nums := map (λ n, combined_sequence_number (nonce_csn n)) (accepted (mkAddress 0) bs s w) in
  StronglySorted Z.lt nums ∧ Forall (above (csn_theirs (srv_csn_pair (server s)))) nums.
Proof.
  induction bs as [|b bs IH]; intros s w HI Hbs; simpl; [by repeat constructor|].
  inversion Hbs as [|?? Hb Hbs']; subst. clear Hbs.
  destruct (handle_message_safe b s HI Hb w) as (HI' & Hstep & _).
  destruct (IH _ (world_of (handle_message b s w)) HI' Hbs') as [Hsort Habove].
  destruct (accepts b s w) eqn:Hacc; simpl.
  2: { split; [done|]. eapply Forall_impl; [exact Habove|]. intros z.
       apply above_le. apply (cs_theirs _ _ Hstep). }
  case_bool_decide as Ha; simpl.
  2: { split; [done|]. eapply Forall_impl; [exact Habove|]. intros z.
       apply above_le. apply (cs_theirs _ _ Hstep). }
  destruct (accepts_server b s w HI Hb) as [Hf Hl]; [by rewrite Ha|done|].
  rewrite Hl in Habove. simpl in Habove.
  split; constructor; [done|done| |].
  - by destruct (csn_theirs _).
  - eapply Forall_impl; [exact Habove|]. simpl. intros z Hz.
    apply (above_le _ (Some (nonce_csn (bbox_nonce b)))); [by apply fresh_csn_le|done].
Qed.
End dispatch_safe.
