(* ===== verification/Runs.v ===== *)
(** * Runs of a client

    The step relation of a signaling object (a message arrives, the task sends a
    message, the client closes), the states it reaches, and what holds along
    every run: the invariant, the absence of unexpected panics, the one-way
    evolution of the common state, replay protection and the freshness of the
    nonces of outgoing task messages.  The statements are proved once against
    the interface [SignalingSafe] and instantiated for the two roles. *)

From S2P Require Import Prelude Text External Errors Types Csn Cookie Nonce Crypto Tasks Messages.
From S2P Require Import Boxes Context Signaling SignalingSpec SignalingSafe.

Section runs.
Context {T S : Type} `{!Task T, !Env, !Signaling T S}.
Context `{!ByteOrder, !Sodium, !Rmps}.
Implicit Types s : S.

(** One call of the object's interface, in any world. *)
Inductive step s : S → Prop :=
  | step_message b w : wf_nonce (bbox_nonce b) → step s (post (handle_message b s w))
  | step_task v w : step s (post (encode_task_message v s w))
  | step_close c w : step s (post (encode_close_message c s w)).

Context `{!SodiumLaws, !RmpsLaws} (I : S → Prop) `{!SignalingSafe T S I}.

Lemma step_safe s s' : step s s' → I s → I s' ∧ common_step (common s) (common s').
Proof.
  intros Hs HI. destruct Hs as [b w Hn|v w|c w].
  - by destruct (handle_message_safe I b s HI Hn w) as (? & ? & _).
  - destruct (encode_task_message_sealed I v s HI w) as ((? & ? & _) & _).
    split; [done|by apply common_frame_step].
  - destruct (encode_close_message_sealed I c s HI w) as ((? & ? & _) & _).
    split; [done|by apply common_frame_step].
Qed.

Lemma steps_safe s s' : rtc step s s' → I s → I s' ∧ common_step (common s) (common s').
Proof.
  induction 1 as [s|s s1 s' Hs _ IH]; intros HI; [done|].
  destruct (step_safe s s1 Hs HI) as [HI1 Hs1]. destruct (IH HI1) as [HI' Hs'].
  split; [done|by etrans].
Qed.

(** ** Outgoing task messages *)

(** The boxes a sequence of task messages is sealed into. *)
Fixpoint encode_all (vs : list Value) : M env S SignalingError (list ByteBox) :=
  match vs with
  | [] => mret []
  | v :: vs' => b ← encode_task_message v; bs ← encode_all vs'; mret (b :: bs)
  end.

(** The own sequence number of the chosen peer. *)
Definition peer_csn s : option Z :=
  match get_peer s with
  | Some (@MkDynPeer _ _ _ p _) => Some (csn_number (csn_ours (pc_csn_pair p)))
  | None => None
  end.

(** A sealed task message carries the next number of the peer's context. *)
Lemma encode_task_message_csn v s w b s' w' z : I s → peer_csn s = Some z →
  encode_task_message v s w = (Ok b, s', w') →
  I s' ∧ peer_csn s' = Some (z + 1)
  ∧ combined_sequence_number (nonce_csn (bbox_nonce b)) = z + 1.
Proof.
  intros HI Hz Hrun. pose proof (encode_task_message_sealed I v s HI w) as ((HI' & _) & _).
  rewrite Hrun in HI'. unfold post in HI'. simpl in HI'. split; [done|].
  unfold encode_task_message in Hrun. mred. case_bool_decide as Hst; [done|].
  destruct (task_peer_nonce I s HI Hst) as (P & i & p & put & ours' & r & src & dst & kp & Hg &
    Hnp & Hd & _ & Hkp & _). pose proof (ss_peer s HI Hst) as Hok. rewrite Hg in Hok, Hrun.
  unfold peer_csn in Hz. rewrite Hg in Hz. injection Hz as <-.
  rewrite Hnp in Hrun. mred. destruct r as [n|e|m]; [|done..]. rewrite Hkp in Hrun. mred.
  destruct (pc_session_key p) as [k|]; [|done]. mred.
  destruct (value_encrypt_total (E := SignalingError) (mkOpenBox v n) kp k) as (b0 & Hb0 & Hbn).
  rewrite Hb0 in Hrun. injection Hrun as <- <- <-. destruct Hd as [-> Hn].
  rewrite Hbn. simpl. rewrite snapshot_of_number. split; [|done].
  destruct (po_again _ _ _ _ Hok (advanced p ours')) as (put' & Hg' & _).
  unfold peer_csn. rewrite Hg'. pose proof (po_laws _ _ _ _ Hok).
  unfold advanced. rewrite pc_csn_set_csn. simpl. by rewrite Hn.
Qed.

Lemma encode_all_csns vs : ∀ s w bs s' w' z, I s → peer_csn s = Some z →
  encode_all vs s w = (Ok bs, s', w') →
  map (λ b, combined_sequence_number (nonce_csn (bbox_nonce b))) bs
  = map (λ k, z + 1 + Z.of_nat k) (seq 0 (length vs)).
Proof.
  induction vs as [|v vs IH]; intros s w bs s' w' z HI Hz; simpl; [by intros [= <- _ _]|].
  intros (b & s1 & w1 & Hb & Hrest)%bind_Ok.
  apply bind_Ok in Hrest as (bs' & s2 & w2 & Hbs & [= <- _ _]).
  destruct (encode_task_message_csn v s w b s1 w1 z HI Hz Hb) as (HI1 & Hz1 & Hn).
  simpl. rewrite Hn, (IH _ _ _ _ _ _ HI1 Hz1 Hbs), <- seq_shift, map_map. f_equal; [lia|].
  apply map_ext. intros k. lia.
Qed.
End runs.
