(* ===== verification/Initiator.v ===== *)
(** * The initiator

    [InitiatorSignaling] of [src/protocol/mod.rs]: the state of an initiator
    (the responders known on the path, the chosen responder, the responder
    counter), its implementation of the signaling trait, the handlers of the
    responder's token, key and auth messages, and path cleaning. *)

From S2P Require Import Prelude Text External Errors Types Csn Cookie Nonce Crypto Tasks Messages.
From S2P Require Import Boxes Context Signaling.

Record InitiatorSignaling (T : Type) := mkInitiatorSignaling {
  is_common : Common T;
  is_responders : gmap Address ResponderContext;
  is_responder : option ResponderContext;
  is_counter : ResponderCounter;
}.
Arguments mkInitiatorSignaling {T}.
Arguments is_common {T}.
Arguments is_responders {T}.
Arguments is_responder {T}.
Arguments is_counter {T}.

Section state.
Context {T : Type}.
Implicit Types s : InitiatorSignaling T.

Definition is_set_common (c : Common T) s : InitiatorSignaling T :=
  mkInitiatorSignaling c (is_responders s) (is_responder s) (is_counter s).
Definition is_set_responders (rs : gmap Address ResponderContext) s : InitiatorSignaling T :=
  mkInitiatorSignaling (is_common s) rs (is_responder s) (is_counter s).
Definition is_set_responder (r : option ResponderContext) s : InitiatorSignaling T :=
  mkInitiatorSignaling (is_common s) (is_responders s) r (is_counter s).
Definition is_set_counter (c : ResponderCounter) s : InitiatorSignaling T :=
  mkInitiatorSignaling (is_common s) (is_responders s) (is_responder s) c.
End state.

(** ** Accessors *)

Section accessors.
Context {T : Type}.
Implicit Types s : InitiatorSignaling T.

Definition is_get_peer s : option (DynPeer (InitiatorSignaling T)) :=
  match is_responder s with
  | Some p => Some (MkDynPeer p (λ p', is_set_responder (Some p') s))
  | None => None
  end.

Definition is_get_peer_with_address_mut {E} (addr : Address) s
    : outcome E (option (DynPeer (InitiatorSignaling T))) :=
  match Identity.identity_from_address addr with
  | Identity.Server =>
      Ok (Some (MkDynPeer (c_server (is_common s))
        (λ c, is_set_common (with_server c (is_common s)) s)))
  | Identity.Initiator => Ok None
  | Identity.Responder _ =>
      if bool_decide (c_signaling_state (is_common s) = SignalingState.Task) then
        match is_responder s with
        | Some p =>
            peer_addr ← Identity.address_from_identity (pc_identity p);
            if bool_decide (peer_addr = addr)
            then Ok (Some (MkDynPeer p (λ p', is_set_responder (Some p') s)))
            else Ok None
        | None => Ok None
        end
      else
        match is_responders s !! addr with
        | Some r =>
            Ok (Some (MkDynPeer r (λ r', is_set_responders (<[addr := r']> (is_responders s)) s)))
        | None => Ok None
        end
  end.

#[export] Instance initiator_base : SignalingBase T (InitiatorSignaling T) := {|
  common := is_common;
  set_common := is_set_common;
  get_peer := is_get_peer;
  get_peer_with_address_mut E := is_get_peer_with_address_mut;
  initiator_pubkey s := public_key (c_permanent_keypair (is_common s));
|}.
End accessors.

(** The first element with the least key, as [Iterator::min_by_key]. *)
Fixpoint min_by_key {A} (f : A → Z) (l : list A) : option A :=
  match l with
  | [] => None
  | a :: l' =>
      match min_by_key f l' with
      | Some b => if f b <? f a then Some b else Some a
      | None => Some a
      end
  end.

Section initiator.
Context {T : Type} `{!Task T}.
Context `{!ByteOrder, !Sodium, !Rmps, !Env}.
Abbreviation IM := (M env (InitiatorSignaling T)).

(** [validate_nonce_destination]. *)
Definition is_validate_nonce_destination (nonce : Nonce) : IM ValidationError unit :=
  s ← mget;
  _ ← (if bool_decide (identity s = ClientIdentity.Unknown)
          && negb (Address.is_unknown (nonce_destination nonce))
          && bool_decide (server_handshake_state s ≠ ServerHandshakeState.New) then
      if Address.is_initiator (nonce_destination nonce) then
        mmodify (λ s, is_set_common (with_identity ClientIdentity.Initiator (is_common s)) s)
      else
        throw (ValidationError.Fail ("cannot assign address "
          +:+ Address.address_to_string (nonce_destination nonce) +:+ " to initiator"))
    else mret tt);
  s ← mget;
  our ← mlift (ClientIdentity.address_from_client_identity (identity s));
  if bool_decide (nonce_destination nonce ≠ our) then
    throw (ValidationError.Fail ("Bad destination: "
      +:+ Address.address_to_string (nonce_destination nonce) +:+ " (our identity is "
      +:+ ClientIdentity.client_identity_to_string (identity s) +:+ ")"))
  else mret tt.

Definition bad_source (nonce : Nonce) (id : ClientIdentity) : ValidationError :=
  ValidationError.DropMsg ("Bad source: " +:+ Address.address_to_string (nonce_source nonce)
    +:+ " (our identity is " +:+ ClientIdentity.client_identity_to_string id +:+ ")").

(** [validate_nonce_source]. *)
Definition is_validate_nonce_source (nonce : Nonce) : IM ValidationError unit :=
  s ← mget;
  match addr (nonce_source nonce) with
  | 0 => mret tt
  | 1 => throw (bad_source nonce (identity s))
  | _ =>
      if bool_decide (identity s = ClientIdentity.Initiator) then mret tt
      else throw (bad_source nonce (identity s))
  end.

(** The local helpers of [decode_peer_message]. *)
Definition responder_permanent_key (r : ResponderContext) : outcome SignalingError PublicKey :=
  ok_or (rsp_permanent_key r) (SignalingError.Crash
    ("Did not find public permanent key for responder " +:+ fmt_dec (addr (rsp_address r)))).
Definition responder_session_key (r : ResponderContext) : outcome SignalingError PublicKey :=
  ok_or (rsp_session_key r) (SignalingError.Crash
    ("Did not find public session key for responder " +:+ fmt_dec (addr (rsp_address r)))).

Definition no_responder (source : Address) : SignalingError :=
  SignalingError.Crash ("Did not find responder with address " +:+ Address.address_to_string source).

(** [decode_peer_message]. *)
Definition is_decode_peer_message (bbox : ByteBox) (s : InitiatorSignaling T)
    : outcome SignalingError (OpenBox Message) :=
  let source := nonce_source (bbox_nonce bbox) in
  if negb (Address.is_responder source) then
    Err (SignalingError.Crash "Received message from an initiator")
  else
    responder ← ok_or (is_responders s !! source) (no_responder source);
    match rsp_handshake_state responder with
    | ResponderHandshakeState.New =>
        match c_auth_provider (is_common s) with
        | Some (AuthProvider.Token token) => obox_decrypt_token bbox token
        | Some (AuthProvider.TrustedKey _) => Err (SignalingError.Crash
            ("Handshake state is " +:+ dquote +:+ "New" +:+ dquote
             +:+ " even though a trusted key is available"))
        | None => Err (SignalingError.Crash
            ("Handshake state is " +:+ dquote +:+ "New" +:+ dquote
             +:+ " without an auth provider available"))
        end
    | ResponderHandshakeState.TokenReceived =>
        key ← responder_permanent_key responder;
        map_err (λ e, match e with
                      | SignalingError.Decode _ => SignalingError.InitiatorCouldNotDecrypt
                      | e => e
                      end)
          (obox_decrypt bbox (c_permanent_keypair (is_common s)) key)
    | ResponderHandshakeState.KeySent =>
        key ← responder_session_key responder;
        obox_decrypt bbox (rsp_keypair responder) key
    | other => Err (SignalingError.Crash ("Invalid responder handshake state: "
        +:+ ResponderHandshakeState.responder_handshake_state_debug other))
    end.

(** [handle_token]. *)
Definition is_handle_token (msg : Token) (source : Address) : IM SignalingError (list HandleAction) :=
  s ← mget;
  responder ← mlift (ok_or (is_responders s !! source) (no_responder source));
  if bool_decide (is_Some (rsp_permanent_key responder)) then
    throw (SignalingError.Crash "Responder already has a permanent key set!")
  else
    _ ← mmodify (λ s, is_set_responders (<[source :=
      rsp_set_handshake_state ResponderHandshakeState.TokenReceived
        (rsp_set_permanent_key (Some (token_key msg)) responder)]> (is_responders s)) s);
    s ← mget;
    match c_auth_provider (is_common s) with
    | Some (AuthProvider.Token _) =>
        _ ← mmodify (λ s, is_set_common (with_auth_provider None (is_common s)) s);
        mret []
    | _ => throw (SignalingError.Crash "Auth provider is not a token")
    end.

(** [handle_key]. *)
Definition is_handle_key (msg : Key) (source : Address) : IM SignalingError (list HandleAction) :=
  s ← mget;
  responder ← mlift (ok_or (is_responders s !! source) (no_responder source));
  if bool_decide (is_Some (rsp_session_key responder)) then
    throw (SignalingError.Crash "Responder already has a session key set!")
  else
    match rsp_permanent_key responder with
    | None => throw (SignalingError.Crash "Responder permanent key not set")
    | Some pk =>
        if bool_decide (pk = key_key msg) then
          throw (SignalingError.Protocol "Responder session key and permanent key are equal")
        else
          let responder := rsp_set_handshake_state ResponderHandshakeState.KeyReceived
            (rsp_set_session_key (Some (key_key msg)) responder) in
          _ ← mmodify (λ s, is_set_responders (<[source := responder]> (is_responders s)) s);
          let key := Message.Key (mkKey (public_key (rsp_keypair responder))) in
          let '(r, responder) := next_peer_nonce (identity s) responder in
          _ ← mmodify (λ s, is_set_responders (<[source := responder]> (is_responders s)) s);
          key_nonce ← mlift r;
          permanent_key ← mlift (ok_or (rsp_permanent_key responder)
            (SignalingError.Crash "Responder permanent key not set"));
          bbox ← mlift (obox_encrypt (mkOpenBox key key_nonce)
            (c_permanent_keypair (is_common s)) permanent_key);
          _ ← mmodify (λ s, is_set_responders (<[source :=
            rsp_set_handshake_state ResponderHandshakeState.KeySent responder]>
              (is_responders s)) s);
          mret [HandleAction.Reply bbox]
    end.

(** The validation of the [tasks] and [data] fields in [handle_auth]. *)
Definition check_auth_fields (msg : Auth) : outcome SignalingError (list string) :=
  if bool_decide (is_Some (auth_task msg)) then
    Err (SignalingError.InvalidMessage
      "We're an initiator, but the `task` field in the auth message is set")
  else
    proposed_tasks ← (match auth_tasks msg with
      | None => Err (SignalingError.InvalidMessage
          "The `tasks` field in the auth message is not set")
      | Some [] => Err (SignalingError.InvalidMessage
          "The `tasks` field in the auth message is empty")
      | Some tasks => Ok tasks
      end);
    if bool_decide (size (auth_data msg) ≠ length proposed_tasks) then
      Err (SignalingError.InvalidMessage
        "The `tasks` and `data` fields in the auth message have a different number of entries")
    else
      match list_find (λ task, auth_data msg !! task = None) proposed_tasks with
      | Some (_, task) => Err (SignalingError.InvalidMessage ("The task " +:+ dquote +:+ task
          +:+ dquote +:+ " in the auth message does not have a corresponding data entry"))
      | None => Ok proposed_tasks
      end.

(** Dropping the other responders in [handle_auth]. *)
Definition drop_other_responders : IM SignalingError (list HandleAction) :=
  s ← mget;
  if bool_decide (is_responders s = ∅) then mret []
  else
    addrs ← mworld (hash_order (dom (is_responders s)));
    actions ← mfor (λ acc a,
      drop_responder ← send_drop_responder a DropReason.DroppedByInitiator;
      mret (acc ++ [drop_responder])) [] addrs;
    _ ← mmodify (is_set_responders ∅);
    mret actions.

(** The part of [handle_auth] after the chosen task has been initialized. *)
Definition is_finish_auth (responder : ResponderContext) (chosen_task : T)
    : IM SignalingError (list HandleAction) :=
  drops ← drop_other_responders;
  let responder := rsp_set_handshake_state ResponderHandshakeState.AuthReceived responder in
  responder_cookie ← mlift (ok_or (cookie_theirs (rsp_cookie_pair responder))
    (SignalingError.Crash "Responder cookie not set"));
  auth ← mlift (initiator_auth_build (set_task (task_name chosen_task) (task_data chosen_task)
    (initiator_auth_new responder_cookie)));
  s ← mget;
  src ← mlift (ClientIdentity.address_from_client_identity (identity s));
  let '(r, responder') := peer_increment responder in
  csn ← mlift r;
  let auth_nonce :=
    mkNonce (cookie_ours (rsp_cookie_pair responder)) src (rsp_address responder) csn in
  session_key ← mlift (ok_or (rsp_session_key responder')
    (SignalingError.Crash "Responder session key not set"));
  bbox ← mlift (obox_encrypt (mkOpenBox (Message.Auth auth) auth_nonce)
    (rsp_keypair responder') session_key);
  _ ← mmodify (λ s, is_set_common (with_task (Some chosen_task)
    (Some (task_supported_types chosen_task)) (is_common s)) s);
  let responder' := rsp_set_handshake_state ResponderHandshakeState.AuthSent responder' in
  s ← mget;
  let '(r, c) := set_signaling_state SignalingState.Task (is_common s) in
  _ ← mput (is_set_common c s);
  _ ← mlift r;
  _ ← mmodify (is_set_responder (Some responder'));
  mret (drops ++ [HandleAction.Reply bbox; HandleAction.HandshakeDone]).

(** [handle_auth]. *)
Definition is_handle_auth (msg : Auth) (source : Address) : IM SignalingError (list HandleAction) :=
  s ← mget;
  responder ← mlift (ok_or (is_responders s !! source) (no_responder source));
  _ ← mmodify (λ s, is_set_responders (delete source (is_responders s)) s);
  _ ← mlift (validate_repeated_cookie (auth_your_cookie msg)
    (cookie_ours (rsp_cookie_pair responder)) (pc_identity responder));
  proposed_tasks ← mlift (check_auth_fields msg);
  _ ← mmodify (λ s, is_set_common (with_tasks None (is_common s)) s);
  our_tasks ← mlift (ok_or (c_tasks (is_common s)) (SignalingError.Crash "No tasks defined"));
  match choose_shared_task our_tasks proposed_tasks with
  | None =>
      let '(r, _) := seal_close CloseCode.NoSharedTask (identity s) responder in
      close ← mtry (mlift r);
      mret (match close with
            | inl bbox => [HandleAction.Reply bbox; HandleAction.HandshakeError SaltyError.NoSharedTask]
            | inr e => [HandleAction.HandshakeError SaltyError.NoSharedTask]
            end)
  | Some chosen_task =>
      task_data ← mlift (ok_or (auth_data msg !! task_name chosen_task)
        (SignalingError.Crash "Task data not found"));
      match task_init task_data chosen_task with
      | (inr e, _) => throw (SignalingError.TaskInitialization e)
      | (inl _, chosen_task) => is_finish_auth responder chosen_task
      end
  end.

(** [handle_peer_message]. *)
Definition is_handle_peer_message (obox : OpenBox Message) : IM SignalingError (list HandleAction) :=
  let source := nonce_source (obox_nonce obox) in
  s ← mget;
  responder ← mlift (ok_or (is_responders s !! source) (no_responder source));
  match rsp_handshake_state responder, obox_message obox with
  | ResponderHandshakeState.New, Message.Token msg => is_handle_token msg source
  | ResponderHandshakeState.TokenReceived, Message.Key msg => is_handle_key msg source
  | ResponderHandshakeState.KeySent, Message.Auth msg => is_handle_auth msg source
  | st, message => throw (SignalingError.InvalidStateTransition
      ("Got " +:+ Message.get_type message +:+ " message from responder "
       +:+ fmt_dec (addr source) +:+ " in "
       +:+ ResponderHandshakeState.responder_handshake_state_debug st +:+ " state"))
  end.

(** The candidate [drop_oldest_inactive_responder] picks among the visited
    responders. *)
Definition drop_candidate (rs : list ResponderContext) : option Address :=
  rsp_address <$> min_by_key rsp_counter
    (filter (λ r, rsp_handshake_state r = ResponderHandshakeState.New) rs).

(** [drop_oldest_inactive_responder]. *)
Definition drop_oldest_inactive_responder : IM SignalingError (option HandleAction) :=
  s ← mget;
  addrs ← mworld (hash_order (dom (is_responders s)));
  match drop_candidate (omap (λ a, is_responders s !! a) addrs) with
  | None => mret None
  | Some address =>
      responder ← mlift (ok_or (is_responders s !! address)
        (SignalingError.Crash "Inactive responder not found anymore in responders list"));
      _ ← mmodify (λ s, is_set_responders (delete address (is_responders s)) s);
      action ← send_drop_responder (rsp_address responder) DropReason.DroppedByInitiator;
      mret (Some action)
  end.

(** [process_new_responder]. *)
Definition process_new_responder (address : Address) : IM SignalingError (option HandleAction) :=
  s ← mget;
  _ ← (if bool_decide (is_Some (is_responders s !! address)) then
         mmodify (λ s, is_set_responders (delete address (is_responders s)) s)
       else mret tt);
  let '(r, counter') := responder_counter_increment (is_counter s) in
  _ ← mmodify (is_set_counter counter');
  counter ← mlift r;
  responder ← responder_context_new address counter;
  responder ← (match c_auth_provider (is_common s) with
    | Some (AuthProvider.TrustedKey key) =>
        if bool_decide (is_Some (rsp_permanent_key responder)) then
          throw (SignalingError.Crash "Responder already has a permanent key set!")
        else mret (rsp_set_handshake_state ResponderHandshakeState.TokenReceived
          (rsp_set_permanent_key (Some key) responder))
    | _ => mret responder
    end);
  _ ← mmodify (λ s, is_set_responders (<[address := responder]> (is_responders s)) s);
  s ← mget;
  if bool_decide (254 - 2 < size (is_responders s))%nat
  then drop_oldest_inactive_responder
  else mret None.

(** [handle_server_auth_impl]. *)
Definition is_handle_server_auth_impl (msg : ServerAuth) : IM SignalingError (list HandleAction) :=
  if bool_decide (is_Some (sa_initiator_connected msg)) then
    throw (SignalingError.InvalidMessage
      "We're the initiator, but the `initiator_connected` field in the server-auth message is set")
  else
    match sa_responders msg with
    | None => throw (SignalingError.InvalidMessage
        "`responders` field in server-auth message not set")
    | Some responders =>
        let responders_set : gset Address := list_to_set responders in
        if bool_decide (mkAddress 0 ∈ responders_set) || bool_decide (mkAddress 1 ∈ responders_set)
        then throw (SignalingError.InvalidMessage
          "`responders` field in server-auth message may not contain addresses <0x02")
        else if bool_decide (length responders ≠ size responders_set) then
          throw (SignalingError.InvalidMessage
            "`responders` field in server-auth message may not contain duplicates")
        else
          addrs ← mworld (hash_order responders_set);
          actions ← mfor (λ acc address,
            drop_responder ← process_new_responder address;
            mret (acc ++ option_list drop_responder)) [] addrs;
          mret (actions ++ [HandleAction.Event
            (Event.ServerHandshakeDone (bool_decide (responders = [])))])
    end.

(** [handle_new_initiator], [handle_new_responder], [handle_disconnected]. *)
Definition is_handle_new_initiator (msg : NewInitiator) : IM SignalingError (list HandleAction) :=
  throw (SignalingError.Protocol "Received 'new-responder' message as initiator").

Definition is_handle_new_responder (msg : NewResponder) : IM SignalingError (list HandleAction) :=
  if negb (Address.is_responder (nr_id msg)) then
    throw (SignalingError.InvalidMessage
      "`id` field in new-responder message is not a valid responder address")
  else
    action ← process_new_responder (nr_id msg);
    mret (option_list action).

Definition is_handle_disconnected (msg : Disconnected) : IM SignalingError (list HandleAction) :=
  if negb (Address.is_responder (disconnected_id msg)) then
    throw (SignalingError.Protocol "Received 'disconnected' message with non-responder id")
  else mret [HandleAction.Event (Event.Disconnected (addr (disconnected_id msg)))].

#[export] Instance initiator_signaling : Signaling T (InitiatorSignaling T) := {|
  validate_nonce_destination := is_validate_nonce_destination;
  validate_nonce_source := is_validate_nonce_source;
  decode_peer_message := is_decode_peer_message;
  handle_peer_message := is_handle_peer_message;
  handle_server_auth_impl := is_handle_server_auth_impl;
  handle_new_initiator := is_handle_new_initiator;
  handle_new_responder := is_handle_new_responder;
  handle_disconnected := is_handle_disconnected;
|}.

(** [InitiatorSignaling::new]. *)
Definition initiator_signaling_new {S E} (permanent_keypair : KeyPair) (tasks : Tasks T)
    (responder_trusted_pubkey server_public_permanent_key : option PublicKey)
    (ping_interval : option Duration) : M env S E (InitiatorSignaling T) :=
  auth_provider ← (match responder_trusted_pubkey with
    | Some key => mret (AuthProvider.TrustedKey key)
    | None => token ← auth_token_new; mret (AuthProvider.Token token)
    end);
  ctx ← server_context_new;
  mret (mkInitiatorSignaling
    (mkCommon SignalingState.ServerHandshake permanent_keypair (Some auth_provider)
      Role.Initiator ClientIdentity.Unknown
      (srv_set_permanent_key server_public_permanent_key ctx)
      (Some tasks) None None ping_interval)
    ∅ None responder_counter_new).
End initiator.
