(* ===== verification/InitiatorSafe.v ===== *)
(** * Safety of the initiator

    The invariant of [InitiatorSignaling] and the proof that the initiator
    implements the interface [SignalingSafe]: the table of responders is keyed
    by valid addresses and its counters are unique, the keys a context holds
    fit its handshake state, and the chosen responder is set exactly in the
    task phase. *)

From S2P Require Import Prelude Text External Errors Types Csn Cookie Nonce Crypto Tasks Messages.
From S2P Require Import Boxes Context Signaling SignalingSpec SignalingSafe Runs Initiator.

(** ** The invariant *)

Definition trusted (p : option AuthProvider) : Prop :=
  match p with Some (AuthProvider.TrustedKey _) => True | _ => False end.

Section invariant.
Context `{!Sodium}.

(** The keys and the cookie a responder context holds in each state. *)
Definition responder_keys_fit (p : option AuthProvider) (r : ResponderContext) : Prop :=
  match rsp_handshake_state r with
  | ResponderHandshakeState.New =>
      rsp_permanent_key r = None ∧ rsp_session_key r = None ∧ ¬ trusted p
  | ResponderHandshakeState.TokenReceived =>
      is_Some (rsp_permanent_key r) ∧ rsp_session_key r = None
  | ResponderHandshakeState.KeyReceived =>
      is_Some (rsp_permanent_key r) ∧ is_Some (rsp_session_key r)
  | ResponderHandshakeState.KeySent =>
      is_Some (rsp_permanent_key r) ∧ is_Some (rsp_session_key r)
      ∧ is_Some (cookie_theirs (rsp_cookie_pair r))
  | _ => False
  end.

Record responder_inv (p : option AuthProvider) (a : Address) (r : ResponderContext) : Prop := {
  ri_range : 2 ≤ addr a < 256;
  ri_address : rsp_address r = a;
  ri_wf : wf_peer r;
  ri_keypair : wf_keypair (rsp_keypair r);
  ri_keys : responder_keys_fit p r;
}.

(** The table of responders; [n] is the next counter value. *)
Definition table_ok (p : option AuthProvider) (n : Z) (m : gmap Address ResponderContext) : Prop :=
  (∀ a r, m !! a = Some r → responder_inv p a r ∧ 0 ≤ rsp_counter r < n)
  ∧ (∀ a b ra rb, m !! a = Some ra → m !! b = Some rb → rsp_counter ra = rsp_counter rb → a = b).

(** The chosen responder, after the peer handshake. *)
Record chosen_inv (r : ResponderContext) : Prop := {
  ch_state : rsp_handshake_state r = ResponderHandshakeState.AuthSent;
  ch_range : 2 ≤ addr (rsp_address r) < 256;
  ch_wf : wf_peer r;
  ch_keypair : wf_keypair (rsp_keypair r);
  ch_session : is_Some (rsp_session_key r);
  ch_cookie : is_Some (cookie_theirs (rsp_cookie_pair r));
}.

(** [k] bounds the number of responders on the path: without a trusted key,
    path cleaning keeps it at [254 - 2]. *)
Record initiator_upto (k : nat) {T} (s : InitiatorSignaling T) : Prop := {
  ii_common : common_inv (is_common s);
  ii_role : c_role (is_common s) = Role.Initiator;
  ii_counter : u32 (counter_value (is_counter s));
  ii_table : table_ok (c_auth_provider (is_common s)) (counter_value (is_counter s)) (is_responders s);
  ii_chosen : match is_responder s with
    | Some r => c_signaling_state (is_common s) = SignalingState.Task ∧ chosen_inv r
    | None => c_signaling_state (is_common s) ≠ SignalingState.Task
    end;
  ii_path : ¬ trusted (c_auth_provider (is_common s)) → (size (is_responders s) ≤ k)%nat;
}.
Abbreviation initiator_inv := (initiator_upto 252).

(** ** Updates of the table *)

Lemma table_ok_empty p n : table_ok p n ∅.
Proof. split; intros *; by rewrite lookup_empty. Qed.

Lemma table_ok_delete p n m a : table_ok p n m → table_ok p n (delete a m).
Proof.
  intros [Hr Hi]. split.
  - intros b r [_ Hb]%lookup_delete_Some. by apply Hr.
  - intros b b' rb rb' [_ Hb]%lookup_delete_Some [_ Hb']%lookup_delete_Some. by apply Hi.
Qed.

Lemma table_ok_update p n m a r r' : table_ok p n m → m !! a = Some r →
  rsp_counter r' = rsp_counter r → responder_inv p a r' → table_ok p n (<[a := r']> m).
Proof.
  intros [Hr Hi] Ha Hc Hinv. split.
  - intros b rb [[<- <-]|[_ Hb]]%lookup_insert_Some; [|by apply Hr].
    split; [done|]. rewrite Hc. by apply (Hr a).
  - intros b b' rb rb' [[<- <-]|[_ Hb]]%lookup_insert_Some [[<- <-]|[_ Hb']]%lookup_insert_Some;
      rewrite ?Hc; eauto.
Qed.

Lemma table_ok_new p n m a r : table_ok p n m → m !! a = None → 0 ≤ n →
  rsp_counter r = n → responder_inv p a r → table_ok p (n + 1) (<[a := r]> m).
Proof.
  intros [Hr Hi] Ha Hn Hc Hinv. split.
  - intros b rb [[<- <-]|[_ Hb]]%lookup_insert_Some; [split; [done|lia]|].
    destruct (Hr b rb Hb). split; [done|lia].
  - intros b b' rb rb' [[<- <-]|[_ Hb]]%lookup_insert_Some [[<- <-]|[_ Hb']]%lookup_insert_Some Heq;
      [done| | |by eauto].
    + destruct (Hr _ _ Hb'). lia.
    + destruct (Hr _ _ Hb). lia.
Qed.

(** The token is used up. *)
Lemma table_ok_no_provider p n m : table_ok p n m → table_ok None n m.
Proof.
  intros [Hr Hi]. split; [|done]. intros a r Ha. destruct (Hr a r Ha) as [[] ?].
  split; [|done]. split; try done. unfold responder_keys_fit in *.
  destruct (rsp_handshake_state r); [|done..]. destruct ri_keys0 as (? & ? & _). split_and!; [done..|auto].
Qed.

Lemma table_ok_mono p n n' m : table_ok p n m → n ≤ n' → table_ok p n' m.
Proof.
  intros [Hr Hi] Hn. split; [|done]. intros a r Ha. destruct (Hr a r Ha). split; [done|lia].
Qed.

(** ** Updates of the object *)

Section updates.
Context {T : Type}.
Implicit Types s : InitiatorSignaling T.

Lemma inv_set_responders k m s : initiator_upto k s →
  table_ok (c_auth_provider (is_common s)) (counter_value (is_counter s)) m →
  (size m ≤ size (is_responders s))%nat → initiator_upto k (is_set_responders m s).
Proof. intros [] Hm Hs. split; try done. simpl. intros Ht. etrans; [done|]. auto. Qed.

Lemma inv_update a r r' s : initiator_inv s → is_responders s !! a = Some r →
  rsp_counter r' = rsp_counter r → responder_inv (c_auth_provider (is_common s)) a r' →
  initiator_inv (is_set_responders (<[a := r']> (is_responders s)) s).
Proof.
  intros HI Ha Hc Hr. apply inv_set_responders; [done|by eapply table_ok_update; [apply HI|..]|].
  by rewrite map_size_insert_Some.
Qed.

Lemma inv_delete a s : initiator_inv s →
  initiator_inv (is_set_responders (delete a (is_responders s)) s).
Proof.
  intros HI. apply inv_set_responders; [done|apply table_ok_delete, HI|]. apply map_size_delete_le.
Qed.

(** One responder fewer. *)
Lemma inv_drop k a s : initiator_upto (S k) s → is_Some (is_responders s !! a) →
  initiator_upto k (is_set_responders (delete a (is_responders s)) s).
Proof.
  intros [???? Hch Hpath] Ha. split; try done; [by apply table_ok_delete|]. simpl. intros Ht.
  rewrite map_size_delete_Some by done. specialize (Hpath Ht). lia.
Qed.

Lemma inv_lookup a r s : initiator_inv s → is_responders s !! a = Some r →
  responder_inv (c_auth_provider (is_common s)) a r.
Proof. intros HI Ha. by apply (proj1 (ii_table _ s HI)). Qed.

Lemma inv_no_provider s : initiator_inv s → ¬ trusted (c_auth_provider (is_common s)) →
  initiator_inv (is_set_common (with_auth_provider None (is_common s)) s).
Proof.
  intros [[] ??? Hch Hpath] Ht. split; try done; simpl; [by eapply table_ok_no_provider|auto].
Qed.
End updates.
End invariant.
Abbreviation initiator_inv := (initiator_upto 252).

(** ** The accessors *)

#[export] Instance initiator_base_laws {T} : SignalingBaseLaws T (InitiatorSignaling T).
Proof.
  split; [done|by intros []|done|]. intros E a s Ha. destruct a as [z]. unfold Address.is_server in Ha.
  apply bool_decide_eq_true in Ha. simpl in Ha. by subst.
Qed.

#[export] Instance initiator_core {T} `{!Sodium} :
  SignalingCore T (InitiatorSignaling T) initiator_inv.
Proof. split; [apply _|by intros s []|]. intros c s [] Hc. by split. Qed.

(** ** The handlers *)

Section handlers.
Context {T : Type} `{!Task T}.
Context `{!ByteOrder, !Sodium, !SodiumLaws, !Rmps, !RmpsLaws, !Env, !EnvLaws}.
Implicit Types s : InitiatorSignaling T.

(** A state that only differs in the table of responders. *)
Lemma handled_responders {E A} s m (o : outcome E A) :
  initiator_inv (is_set_responders m s) → no_surprise o →
  handled initiator_inv s o (is_set_responders m s).
Proof. by intros; split_and!. Qed.

Lemma is_handle_token_handled msg source s r : initiator_inv s →
  is_responders s !! source = Some r → rsp_handshake_state r = ResponderHandshakeState.New →
  wp (is_handle_token msg source) s (handled initiator_inv s).
Proof.
  intros HI Hl Hst. pose proof (inv_lookup _ _ _ HI Hl) as Hr. pose proof (ri_keys _ _ _ Hr) as Hk.
  unfold responder_keys_fit in Hk. rewrite Hst in Hk. destruct Hk as (Hp & Hs & _).
  set (r' := rsp_set_handshake_state ResponderHandshakeState.TokenReceived
        (rsp_set_permanent_key (Some (token_key msg)) r)).
  assert (initiator_inv (is_set_responders (<[source := r']> (is_responders s)) s)) as HI1.
  { eapply inv_update; [done..|]. destruct Hr. by split. }
  unfold is_handle_token. repeat wp_step; simplify_eq; [by split_and!|].
  fold r'. cbn [is_common is_set_responders].
  destruct (c_auth_provider (is_common s)) as [[t|k]|] eqn:Hprov; repeat wp_step;
    try (by apply handled_responders).
  split_and!; [|by split|done]. apply inv_no_provider; [done|]. simpl. rewrite Hprov. by intros [].
Qed.

(** The contexts of the key handler, in the order they are stored. *)
Lemma responder_inv_advance p a r ours' : responder_inv p a r → wf_csn ours' →
  responder_inv p a (advanced r ours').
Proof. intros [] Ho. split; try done. by apply wf_advanced. Qed.

Lemma identity_address s : initiator_inv s → ∃ src,
  ∀ E, ClientIdentity.address_from_client_identity (E := E) (identity s) = Ok src.
Proof.
  intros HI. destruct (identity_fits_address _ _ (ci_identity _ (ii_common _ s HI))) as (src & Hs & _).
  by exists src.
Qed.
Lemma responder_identity r : 2 ≤ addr (rsp_address r) < 256 →
  ∀ E, Identity.address_from_identity (E := E) (pc_identity r) = Ok (rsp_address r).
Proof.
  intros Hr E. destruct r as [?? [a] ?????]; simpl in *. rewrite bool_decide_eq_true_2; [done|lia].
Qed.

Lemma is_handle_key_handled msg source s r : initiator_inv s →
  is_responders s !! source = Some r →
  rsp_handshake_state r = ResponderHandshakeState.TokenReceived →
  is_Some (cookie_theirs (rsp_cookie_pair r)) →
  wp (is_handle_key msg source) s (handled initiator_inv s).
Proof.
  intros HI Hl Hst Hcookie. pose proof (inv_lookup _ _ _ HI Hl) as Hr.
  pose proof (ri_keys _ _ _ Hr) as Hk. unfold responder_keys_fit in Hk. rewrite Hst in Hk.
  destruct Hk as ([pk Hpk] & Hs).
  unfold is_handle_key. repeat wp_step; simplify_eq; [by split_and!|].
  rewrite Hpk. wp_step; [by apply handled_throw|].
  set (r1 := rsp_set_handshake_state ResponderHandshakeState.KeyReceived _).
  assert (responder_inv (c_auth_provider (is_common s)) source r1) as Hr1.
  { destruct Hr. by split. }
  pose proof (inv_update source r r1 s HI Ho eq_refl Hr1) as HI1.
  destruct (identity_address s HI) as [src Hsrc].
  destruct (next_peer_nonce_cases (identity s) r1 src (rsp_address r1)) as (ours' & Hw & Hp2 & Hd);
    [apply Hr1|done|apply responder_identity; rewrite (ri_address _ _ _ Hr1); apply Hr1|].
  destruct (next_peer_nonce (identity s) r1) as [res r2]; simpl in Hp2, Hd; subst r2.
  set (r2 := advanced r1 ours') in *.
  assert (responder_inv (c_auth_provider (is_common s)) source r2) as Hr2
    by by apply responder_inv_advance.
  pose proof (inv_update source r1 r2 _ HI1 (lookup_insert_eq _ _ _) eq_refl Hr2) as HI2.
  repeat wp_step. destruct res as [n|e|m]; [|by split_and!|done]. repeat wp_step; [|by split_and!].
  wp_seal. repeat wp_step. split_and!; [|by split|done].
  eapply (inv_update source r2 _ _ HI2); [apply lookup_insert_eq|done|].
  destruct Hr2. by split.
Qed.

(** ** Path cleaning *)

Lemma min_by_key_spec {A} (f : A → Z) l :
  match min_by_key f l with
  | Some a => a ∈ l ∧ ∀ b, b ∈ l → f a ≤ f b
  | None => l = []
  end.
Proof.
  induction l as [|a l IH]; simpl; [done|]. destruct (min_by_key f l) as [b|].
  - destruct IH as [Hb Hmin]. destruct (Z.ltb_spec (f b) (f a)).
    + split; [by right|]. intros c [->|Hc]%elem_of_cons; [lia|by apply Hmin].
    + split; [by left|]. intros c [->|Hc]%elem_of_cons; [lia|]. specialize (Hmin c Hc). lia.
  - subst. split; [by left|]. by intros c ->%list_elem_of_singleton.
Qed.

(** The inactive responder with the least counter. *)
Definition oldest_inactive (m : gmap Address ResponderContext) (a : Address) : Prop :=
  ∃ r, m !! a = Some r ∧ rsp_handshake_state r = ResponderHandshakeState.New
  ∧ ∀ b rb, m !! b = Some rb → rsp_handshake_state rb = ResponderHandshakeState.New →
      rsp_counter r ≤ rsp_counter rb.

(** The drop candidate does not depend on the order of iteration. *)
Lemma drop_candidate_spec p n m w : table_ok p n m →
  match drop_candidate (omap (λ a, m !! a) (hash_order (dom m) w).1) with
  | Some a => oldest_inactive m a
  | None => ∀ a r, m !! a = Some r → rsp_handshake_state r ≠ ResponderHandshakeState.New
  end.
Proof.
  intros [Hr _]. unfold drop_candidate.
  assert (∀ r, r ∈ filter (λ r, rsp_handshake_state r = ResponderHandshakeState.New)
    (omap (λ a, m !! a) (hash_order (dom m) w).1) ↔
    rsp_handshake_state r = ResponderHandshakeState.New ∧ ∃ a, m !! a = Some r) as Hel.
  { intros r. rewrite list_elem_of_filter, list_elem_of_omap. f_equiv.
    split; [intros (a & _ & Ha); eauto|]. intros [a Ha]. exists a. split; [|done].
    rewrite hash_order_perm, elem_of_elements. by apply elem_of_dom. }
  pose proof (min_by_key_spec rsp_counter (filter (λ r,
    rsp_handshake_state r = ResponderHandshakeState.New)
    (omap (λ a, m !! a) (hash_order (dom m) w).1))) as Hmin.
  destruct (min_by_key _ _) as [r|]; simpl.
  - destruct Hmin as [[Hnew [a Ha]]%Hel Hmin]. destruct (Hr a r Ha) as [[_ -> _ _ _] _].
    exists r. split_and!; [done..|]. intros b rb Hb Hbn. apply Hmin, Hel. eauto.
  - intros a r Ha Hn. assert (r ∈ @nil ResponderContext) as Hin by (rewrite <- Hmin; apply Hel; eauto).
    by apply elem_of_nil in Hin.
Qed.

Lemma quiet_responders {E A} s m (o : outcome E A) :
  initiator_inv (is_set_responders m s) → no_surprise o →
  quiet initiator_inv s o (is_set_responders m s).
Proof. by intros; split_and!. Qed.

(** Dropping the oldest inactive responder restores the bound on the path. *)
Lemma drop_oldest_quiet s : initiator_upto 253 s →
  (¬ trusted (c_auth_provider (is_common s)) → ∃ a r, is_responders s !! a = Some r
    ∧ rsp_handshake_state r = ResponderHandshakeState.New) →
  wp drop_oldest_inactive_responder s (quiet initiator_inv s).
Proof.
  intros HI Hcand. unfold drop_oldest_inactive_responder. repeat wp_step.
  pose proof (drop_candidate_spec _ _ _ w (ii_table _ s HI)) as Hc.
  destruct (drop_candidate _) as [a|]; repeat wp_step.
  - pose proof (inv_drop 252 a s HI ltac:(by eexists)) as HI1.
    eapply wp_mono; [exact (draws_quiet _ _ _ (send_drop_responder_draws initiator_inv _ _) HI1)|].
    intros o s' Hq. eapply quiet_trans in Hq; [|by apply (quiet_responders s _ (Ok tt))].
    destruct o; repeat wp_step; [by eapply quiet_other|done..].
  - destruct Hc as (r & Hr & _). congruence.
  - apply quiet_refl; [|done]. destruct HI. split; try done. intros Ht.
    destruct (Hcand Ht) as (a & r & Ha & Hn). by destruct (Hc a r Ha).
Qed.

(** The context stored for a new responder. *)
Lemma new_responder_inv p a n r : fresh_responder a n r → 2 ≤ addr a < 256 → ¬ trusted p →
  responder_inv p a r.
Proof.
  intros Hf Ha Hp. unfold responder_keys_fit. destruct Hf as [Hst]. split; try done.
  unfold responder_keys_fit. by rewrite Hst.
Qed.
Lemma new_trusted_responder_inv p a n r k : fresh_responder a n r → 2 ≤ addr a < 256 →
  responder_inv p a (rsp_set_handshake_state ResponderHandshakeState.TokenReceived
    (rsp_set_permanent_key (Some k) r)).
Proof. intros [] Ha. by split. Qed.

(** The states [process_new_responder] goes through. *)
Lemma new_counter_inv a n s : initiator_inv s → counter_value (is_counter s) ≤ n → u32 n →
  initiator_inv (is_set_counter (mkResponderCounter n)
    (is_set_responders (delete a (is_responders s)) s)).
Proof.
  intros HI Hle Hn. destruct (inv_delete a s HI). split; try done. by eapply table_ok_mono.
Qed.
Lemma insert_responder_inv a r s : initiator_inv s →
  responder_inv (c_auth_provider (is_common s)) a r →
  rsp_counter r = counter_value (is_counter s) → u32 (counter_value (is_counter s) + 1) →
  initiator_upto 253 (is_set_responders (<[a := r]> (delete a (is_responders s)))
    (is_set_counter (mkResponderCounter (counter_value (is_counter s) + 1)) s)).
Proof.
  intros HI Hr Hc Hn. pose proof (inv_delete a s HI) as HI'. pose proof (ii_counter _ s HI) as Hw.
  destruct HI. split; try done; simpl.
  - apply table_ok_new; [apply HI'|apply lookup_delete_eq|unwidth; lia|done..].
  - intros Ht. rewrite map_size_insert_None by apply lookup_delete_eq.
    pose proof (ii_path _ _ HI' Ht) as Hs. simpl in Hs. lia.
Qed.

(** The context of a responder that has not been heard of: it is trusted if
    there is a trusted key, and new otherwise. *)
Definition registered (p : option AuthProvider) (r : ResponderContext) : Prop :=
  csn_theirs (rsp_csn_pair r) = None ∧ cookie_theirs (rsp_cookie_pair r) = None
  ∧ match p with
    | Some (AuthProvider.TrustedKey k) => rsp_handshake_state r = ResponderHandshakeState.TokenReceived
        ∧ rsp_permanent_key r = Some k
    | _ => rsp_handshake_state r = ResponderHandshakeState.New
    end.

(** Setting the trusted key of a new responder, if there is one. *)
Lemma trust_new_responder p a n r s : fresh_responder a n r → 2 ≤ addr a < 256 →
  wp (W := env) (match p with
    | Some (AuthProvider.TrustedKey key) =>
        if bool_decide (is_Some (rsp_permanent_key r)) then
          throw (SignalingError.Crash "Responder already has a permanent key set!")
        else mret (rsp_set_handshake_state ResponderHandshakeState.TokenReceived
          (rsp_set_permanent_key (Some key) r))
    | _ => mret r
    end) s (λ o s', s' = s ∧ (o = Err (SignalingError.Crash
      "Responder already has a permanent key set!") ∨ ∃ r', o = Ok r'
    ∧ responder_inv p a r' ∧ rsp_counter r' = n
    ∧ (¬ trusted p → rsp_handshake_state r' = ResponderHandshakeState.New) ∧ registered p r')).
Proof.
  intros Hr Ha. pose proof (fr_counter _ _ _ Hr) as Hc. pose proof (fr_state _ _ _ Hr) as Hst.
  pose proof (fr_unheard _ _ _ Hr) as [Hcsn Hck].
  assert (∀ p', ¬ trusted p' → responder_inv p' a r) as Hnew by (intros; by eapply new_responder_inv).
  destruct p as [[t|k]|]; repeat wp_step; (split; [done|]); try (by left); right; eexists; split_and!;
    try done; try (by apply Hnew; auto).
  by eapply new_trusted_responder_inv.
Qed.

Lemma process_new_responder_quiet a s : initiator_inv s → 2 ≤ addr a < 256 →
  wp (process_new_responder a) s (quiet initiator_inv s).
Proof.
  intros HI Ha. unfold process_new_responder. do 4 wp_step.
  eapply (wp_mono _ _ (λ o s', o = Ok tt ∧ s' = is_set_responders (delete a (is_responders s)) s)).
  { wp_step; wp_step; [done|]. split; [done|].
    apply bool_decide_eq_false, eq_None_not_Some in Hb. rewrite delete_id by done. by destruct s. }
  intros o s1 [-> ->]. wp_step. pose proof (ii_counter _ s HI) as Hw.
  unfold responder_counter_increment. destruct (checked_add 32 _ 1) as [n|] eqn:Hadd.
  2: { repeat wp_step. unfold quiet, handled. split_and!; try done. destruct (is_counter s) as [c] eqn:Hcs.
       apply (new_counter_inv a c); [done|by rewrite Hcs|done]. }
  apply checked_add_Some in Hadd as [-> Hlt]. assert (u32 (counter_value (is_counter s) + 1)) as Hw1.
  { unwidth. lia. }
  repeat wp_step. set (s2 := is_set_counter _ _).
  assert (initiator_inv s2) as HI2 by (apply new_counter_inv; [done|lia|done]).
  apply wp_responder_context_new; [|intros m Hm; unfold quiet, handled; split_and!; try done; by left].
  intros r Hr. wp_step. wp_step.
  eapply wp_mono; [by apply trust_new_responder|].
  intros o s' [-> [->|(r' & -> & Hr' & Hc & Hnew & _)]]; [by split_and!|].
  pose proof (insert_responder_inv a r' s HI Hr' Hc Hw1) as HI3.
  set (s3 := is_set_responders (<[a := r']> (is_responders s2)) s2).
  change (initiator_upto 253 s3) in HI3.
  repeat wp_step.
  - eapply wp_mono; [apply drop_oldest_quiet; [done|]|].
    + intros Ht. exists a, r'. split; [apply lookup_insert_eq|by apply Hnew].
    + intros o s' Hq. by destruct Hq as ((? & ? & ?) & ? & ?).
  - unfold quiet, handled. split_and!; try done. destruct HI3. split; try done. intros _.
    apply bool_decide_eq_false in Hb. lia.
Qed.

(** ** Server messages *)

Lemma mfor_quiet {A B} (f : B → A → M env (InitiatorSignaling T) SignalingError B) l :
  (∀ b s a, a ∈ l → initiator_inv s → wp (f b a) s (quiet initiator_inv s)) →
  ∀ acc s, initiator_inv s → wp (mfor f acc l) s (quiet initiator_inv s).
Proof.
  intros Hf. induction l as [|a l IH]; intros acc s HI; simpl; [wp_step; by apply quiet_refl|].
  apply quiet_bind; [apply Hf; [by left|done]|]. intros b s1 HI1 _. apply IH; [|done].
  intros b' s' a' Ha'. apply Hf. by right.
Qed.

Lemma is_handle_server_auth_impl_quiet msg s : initiator_inv s →
  wf_message (Message.ServerAuth msg) →
  wp (is_handle_server_auth_impl msg) s (quiet initiator_inv s).
Proof.
  intros HI (_ & _ & Hr). unfold is_handle_server_auth_impl.
  wp_step; [wp_step; by apply quiet_refl|].
  destruct (sa_responders msg) as [rs|]; simpl in Hr; [|wp_step; by apply quiet_refl].
  wp_step; [wp_step; by apply quiet_refl|]. wp_step; [wp_step; by apply quiet_refl|].
  do 3 wp_step. apply quiet_bind; [|intros; wp_step; by apply quiet_refl].
  apply mfor_quiet; [|done]. intros acc s1 a Ha HI1.
  apply quiet_bind; [|intros; wp_step; by apply quiet_refl].
  apply process_new_responder_quiet; [done|].
  rewrite hash_order_perm, elem_of_elements, elem_of_list_to_set in Ha.
  apply orb_false_iff in Hb0 as [Hz Ho]. apply bool_decide_eq_false in Hz, Ho.
  rewrite elem_of_list_to_set in Hz, Ho. rewrite Forall_forall in Hr. specialize (Hr a Ha).
  destruct a as [z]; unfold wf_address in Hr; simpl in *. unwidth.
  assert (z ≠ 0) by (by intros ->). assert (z ≠ 1) by (by intros ->). lia.
Qed.

Lemma is_handle_new_responder_handled msg s : initiator_inv s →
  wf_message (Message.NewResponder msg) →
  wp (is_handle_new_responder msg) s (handled initiator_inv s).
Proof.
  intros HI Hm. unfold is_handle_new_responder. wp_step; [by apply handled_throw|].
  apply handled_bind; [|intros; by apply handled_ret].
  eapply wp_mono; [apply process_new_responder_quiet; [done|]|by intros o s' []].
  unfold Address.is_responder in Hb. simpl in Hm. unfold wf_address in Hm. unwidth.
  apply negb_false_iff, bool_decide_eq_true in Hb. lia.
Qed.

Lemma is_handle_disconnected_handled msg s : initiator_inv s →
  wp (is_handle_disconnected msg) s (handled initiator_inv s).
Proof.
  intros HI. unfold is_handle_disconnected.
  wp_step; [by apply handled_throw|by apply handled_ret].
Qed.

Lemma drop_other_responders_quiet s : initiator_inv s →
  wp drop_other_responders s (quiet initiator_inv s).
Proof.
  intros HI. unfold drop_other_responders. do 4 wp_step; [wp_step; by apply quiet_refl|].
  do 3 wp_step. apply quiet_bind.
  - apply mfor_quiet; [|done]. intros acc s1 a _ HI1.
    apply quiet_bind; [|intros; wp_step; by apply quiet_refl].
    exact (draws_quiet _ _ _ (send_drop_responder_draws initiator_inv _ _) HI1).
  - intros acts s1 HI1 _. repeat wp_step. apply quiet_responders; [|done].
    apply inv_set_responders; [done|apply table_ok_empty|]. rewrite map_size_empty. lia.
Qed.

(** ** Peer messages *)

(** The last assignments of [handle_auth]. *)
Lemma enter_task_inv r t types s : initiator_inv s →
  c_signaling_state (is_common s) = SignalingState.PeerHandshake → chosen_inv r →
  let s' := is_set_responder (Some r) (is_set_common (with_signaling_state SignalingState.Task
    (with_task (Some t) (Some types) (is_common s))) s) in
  initiator_inv s' ∧ common_frame (is_common s) (is_common s').
Proof.
  intros [[?? Hdone ? Hass ??] ?????] Hst Hr. split.
  - split; try done. split; try done; simpl.
    + rewrite Hdone, Hst. by split.
    + intros _. apply Hass. by rewrite Hst.
  - split; try done. simpl. by rewrite Hst.
Qed.

Lemma chosen_inv_auth p a r ours' : responder_inv p a r →
  rsp_handshake_state r = ResponderHandshakeState.KeySent → wf_csn ours' →
  chosen_inv (rsp_set_handshake_state ResponderHandshakeState.AuthSent
    (advanced (rsp_set_handshake_state ResponderHandshakeState.AuthReceived r) ours')).
Proof.
  intros [Hrange Haddr Hwf Hkp Hk] Hks Hw. unfold responder_keys_fit in Hk. rewrite Hks in Hk.
  destruct Hk as (_ & ? & ?). split; try done.
  - simpl. by rewrite Haddr.
  - exact (wf_advanced r ours' Hwf Hw).
Qed.

Lemma is_finish_auth_handled r t s a : initiator_inv s →
  c_signaling_state (is_common s) = SignalingState.PeerHandshake →
  responder_inv (c_auth_provider (is_common s)) a r →
  rsp_handshake_state r = ResponderHandshakeState.KeySent →
  wp (is_finish_auth r t) s (handled initiator_inv s).
Proof.
  intros HI Hst Hr Hks. unfold is_finish_auth. wp_step.
  eapply wp_mono; [by apply drop_other_responders_quiet|].
  intros o s1 [Hh [Hst1 _]]. destruct o as [drops|e|m]; [|done..]. cbn [wp_then].
  assert (∀ A (o : outcome SignalingError A), no_surprise o → handled initiator_inv s o s1) as Hdone.
  { intros A o Ho. destruct Hh as (? & ? & _). by split_and!. }
  pose proof (ri_keys _ _ _ Hr) as Hk. unfold responder_keys_fit in Hk. rewrite Hks in Hk.
  destruct Hk as (_ & [sk Hsk] & [ck Hck]).
  repeat wp_step; [|by apply Hdone]. rewrite initiator_auth_spec. repeat wp_step.
  destruct Hh as (HI1 & Hf1 & _). destruct (identity_address s1 HI1) as [src ->].
  repeat wp_step. set (r1 := rsp_set_handshake_state _ r).
  destruct (peer_increment_cases r1) as (ours' & Hw & Hp & Hres); [apply Hr|].
  destruct (peer_increment r1) as [res r2]; simpl in Hp, Hres; subst r2.
  repeat wp_step. destruct res as [snap|e|m]; [|by apply Hdone|done].
  repeat wp_step; [|by apply Hdone]. wp_seal. repeat wp_step.
  simpl in Hst1. rewrite Hst in Hst1.
  unfold set_signaling_state. cbn [is_common is_set_common c_signaling_state with_task].
  rewrite Hst1. rewrite bool_decide_eq_false_2 by done. cbn [negb SignalingState.may_transition_to].
  repeat wp_step.
  match goal with |- handled _ _ _ (is_set_responder (Some ?r3) _) =>
    destruct (enter_task_inv r3 t (task_supported_types t) s1 HI1 Hst1) as [HI2 Hf2] end.
  { by eapply chosen_inv_auth. }
  split_and!; [exact HI2|by etrans|done].
Qed.

(** Taking the tasks out of the object. *)
Lemma inv_with_tasks ts s : initiator_inv s →
  initiator_inv (is_set_common (with_tasks ts (is_common s)) s).
Proof. intros [[] ?????]. by split. Qed.

Lemma seal_close_total c id (r : ResponderContext) src : wf_peer r → 2 ≤ addr (rsp_address r) < 256 →
  (∀ E, ClientIdentity.address_from_client_identity (E := E) id = Ok src) →
  is_panic (seal_close c id r).1 = false.
Proof.
  intros Hw Ha Hsrc.
  destruct (next_peer_nonce_cases id r src (rsp_address r) Hw Hsrc (responder_identity r Ha))
    as (ours' & _ & Hp & Hd). unfold seal_close.
  destruct (next_peer_nonce id r) as [[n|e|m] r']; simpl in *; [|done..].
  destruct (rsp_session_key r) as [k|]; [|done]. simpl.
  destruct (obox_encrypt_total (E := SignalingError) (mkOpenBox (Message.Close
    (close_from_close_code c)) n) (rsp_keypair r) k) as (b & -> & _). done.
Qed.

Lemma check_auth_fields_total msg m : check_auth_fields msg ≠ Panic m.
Proof. unfold check_auth_fields, mbind, outcome_bind. by repeat case_match; simplify_eq. Qed.

Lemma is_handle_auth_handled msg source s r : initiator_inv s →
  c_signaling_state (is_common s) = SignalingState.PeerHandshake →
  is_responders s !! source = Some r →
  rsp_handshake_state r = ResponderHandshakeState.KeySent →
  wp (is_handle_auth msg source) s (handled initiator_inv s).
Proof.
  intros HI Hst Hl Hks. pose proof (inv_lookup _ _ _ HI Hl) as Hr.
  unfold is_handle_auth. repeat wp_step; simplify_eq.
  pose proof (inv_delete source s HI) as HI1. set (s1 := is_set_responders _ s) in *.
  assert (∀ A (o : outcome SignalingError A), no_surprise o → handled initiator_inv s o s1) as Hdone.
  { by intros A o Ho'; split_and!. }
  unfold validate_repeated_cookie. case_bool_decide; [by apply Hdone|]. repeat wp_step.
  destruct (check_auth_fields msg) as [proposed|e|m] eqn:Hcheck;
    [|by apply Hdone|by apply check_auth_fields_total in Hcheck].
  pose proof (inv_with_tasks None s1 HI1) as HI2. repeat wp_step; [|by split_and!].
  assert (∀ A (o : outcome SignalingError A), no_surprise o → handled initiator_inv s o
    (is_set_common (with_tasks None (is_common s1)) s1)) as Hdone2.
  { intros A o Ho'. split_and!; [done|by split|done]. }
  destruct (choose_shared_task t proposed) as [chosen|].
  - repeat wp_step; [|by apply Hdone2]. destruct (task_init _ chosen) as [[[]|e] chosen'];
      [|wp_step; by apply Hdone2].
    eapply wp_mono; [by eapply is_finish_auth_handled|].
    intros o' s' Hh. eapply handled_trans; [|exact Hh]. by split.
  - destruct (identity_address s HI) as [src Hsrc].
    pose proof (seal_close_total CloseCode.NoSharedTask (identity s) r src) as Hsc.
    destruct (seal_close _ _ r) as [res r']. repeat wp_step.
    destruct res; repeat wp_step; try (by apply Hdone2). exfalso.
    specialize (Hsc (ri_wf _ _ _ Hr)). rewrite (ri_address _ _ _ Hr) in Hsc.
    by specialize (Hsc (ri_range _ _ _ Hr) Hsrc).
Qed.

(** A responder is found in the table before the task phase. *)
Lemma lookup_responder E a s : 2 ≤ addr a → c_signaling_state (is_common s) ≠ SignalingState.Task →
  is_get_peer_with_address_mut (E := E) a s = Ok (match is_responders s !! a with
    | Some r => Some (MkDynPeer r (λ r', is_set_responders (<[a := r']> (is_responders s)) s))
    | None => None
    end).
Proof.
  intros Ha Hst. unfold is_get_peer_with_address_mut. rewrite identity_from_responder by done.
  rewrite bool_decide_eq_false_2 by done. by destruct (is_responders s !! a).
Qed.

Lemma is_handle_peer_message_handled o s : initiator_inv s →
  c_signaling_state (is_common s) = SignalingState.PeerHandshake →
  Address.is_server (nonce_source (obox_nonce o)) = false →
  is_Some (sender_cookie (nonce_source (obox_nonce o)) s) →
  wp (is_handle_peer_message o) s (handled initiator_inv s).
Proof.
  intros HI Hst Hsrv Hck. unfold is_handle_peer_message. repeat wp_step; [|by split_and!].
  destruct (rsp_handshake_state r) eqn:Hs, (obox_message o) eqn:Hm; try (by apply handled_throw).
  - by eapply is_handle_token_handled.
  - eapply is_handle_key_handled; [done..|].
    pose proof (ri_range _ _ _ (inv_lookup _ _ _ HI Ho)) as Hrange.
    unfold sender_cookie in Hck. simpl in Hck.
    by rewrite lookup_responder, Ho in Hck by (try lia; by rewrite Hst).
  - by eapply is_handle_auth_handled.
Qed.

(** ** Senders *)

Lemma table_sender_ok a r s : initiator_inv s →
  c_signaling_state (is_common s) ≠ SignalingState.Task → is_responders s !! a = Some r →
  sender_ok initiator_inv a s r (λ r', is_set_responders (<[a := r']> (is_responders s)) s).
Proof.
  intros HI Hst Ha. pose proof (inv_lookup _ _ _ HI Ha) as Hr. split.
  - apply _.
  - apply Hr.
  - intros np cp Hnp Hno Hcp Hco Hpin. eapply inv_update; [done..|].
    destruct Hr as [???? Hk]. split; try done. unfold responder_keys_fit in *; simpl.
    destruct (rsp_handshake_state r); try done. destruct Hk as (? & ? & [c Hc]). split_and!; try done.
    exists c. by apply Hpin.
  - intros r' _. exists (λ r'', is_set_responders (<[a := r'']> (<[a := r']> (is_responders s))) s).
    split; [|intros q; by rewrite insert_insert_eq].
    simpl. rewrite lookup_responder; [|apply Hr|done]. simpl. by rewrite lookup_insert_eq.
Qed.

Lemma chosen_sender_ok a r s : initiator_inv s →
  c_signaling_state (is_common s) = SignalingState.Task → is_responder s = Some r →
  rsp_address r = a →
  sender_ok initiator_inv a s r (λ r', is_set_responder (Some r') s).
Proof.
  intros HI Hst Hs <-. pose proof (ii_chosen _ s HI) as Hc. rewrite Hs in Hc. destruct Hc as [_ Hc].
  split.
  - apply _.
  - apply Hc.
  - intros np cp Hnp Hno Hcp Hco Hpin. destruct HI. split; try done. split; [done|].
    destruct Hc as [????? [c Hck]]. split; try done. exists c. by apply Hpin.
  - intros r' Hid. exists (λ r'', is_set_responder (Some r'') s). split; [|done].
    simpl. unfold is_get_peer_with_address_mut. rewrite identity_from_responder by apply Hc.
    rewrite bool_decide_eq_true_2 by done. cbn [is_responder is_set_responder].
    rewrite Hid, responder_identity by apply Hc. simpl. by rewrite bool_decide_eq_true_2.
Qed.

Lemma initiator_sender a s : initiator_inv s → Address.is_server a = false →
  ∃ op, get_peer_with_address_mut (E := ValidationError) a s = Ok op
  ∧ match op with
    | Some (@MkDynPeer _ _ _ p put) => sender_ok initiator_inv a s p put
        ∧ ∀ p', common (put p') = common s
    | None => True
    end.
Proof.
  intros HI Ha. simpl. unfold is_get_peer_with_address_mut.
  destruct (Identity.identity_from_address a) as [| |z] eqn:Hid; [|by exists None|].
  - unfold Address.is_server in Ha. apply bool_decide_eq_false in Ha.
    destruct a as [[|[]|]]; done.
  - case_bool_decide as Hst.
    + pose proof (ii_chosen _ s HI) as Hc. destruct (is_responder s) as [r|] eqn:Hr; [|by exists None].
      destruct Hc as [_ Hc]. rewrite responder_identity by apply Hc. simpl.
      case_bool_decide; [|by exists None]. eexists. split; [done|]. split; [|done].
      by apply chosen_sender_ok.
    + destruct (is_responders s !! a) as [r|] eqn:Hr; [|by exists None].
      eexists. split; [done|]. split; [|done]. by apply table_sender_ok.
Qed.

(** ** Nonce destination and source *)

Lemma last_csn_identity i a s :
  last_csn a (is_set_common (with_identity i (is_common s)) s) = last_csn a s.
Proof.
  unfold last_csn. simpl. unfold is_get_peer_with_address_mut. simpl.
  destruct (Identity.identity_from_address a); [done..|]. case_bool_decide; [|by destruct (is_responders s !! a)].
  destruct (is_responder s) as [r|]; [|done]. unfold mbind, outcome_bind.
  by repeat case_bool_decide.
Qed.

Lemma initiator_destination n s : initiator_inv s →
  wp (is_validate_nonce_destination n) s (λ o s',
    initiator_inv s' ∧ is_panic o = false ∧ (∀ a, last_csn a s' = last_csn a s)
    ∧ ∃ i, common s' = with_identity i (common s)
      ∧ (identity s = ClientIdentity.Unknown ∨ i = identity s)).
Proof.
  intros HI. unfold is_validate_nonce_destination.
  assert (∀ (o : outcome ValidationError unit), is_panic o = false → initiator_inv s
    ∧ is_panic o = false ∧ (∀ a, last_csn a s = last_csn a s)
    ∧ ∃ i, common s = with_identity i (common s)
      ∧ (identity s = ClientIdentity.Unknown ∨ i = identity s)) as Hsame.
  { intros o Ho. split_and!; try done. exists (identity s). split; [|by right].
    unfold identity. by destruct (common s). }
  do 4 wp_step. wp_step.
  - apply andb_true_iff in Hb as [[Hu _]%andb_true_iff Hn].
    apply bool_decide_eq_true in Hu, Hn.
    wp_step; wp_step; [|by apply Hsame]. do 4 wp_step. simpl.
    assert (initiator_inv (is_set_common (with_identity ClientIdentity.Initiator (is_common s)) s)) as HI1.
    { destruct HI as [[] Hrole ????]. split; try done. split; try done. simpl. by rewrite Hrole. }
    repeat wp_step; (split_and!; [done|done|intros a; apply last_csn_identity|]; eexists; split; [done|by left]).
  - repeat wp_step. destruct (identity_address s HI) as [src Hsrc]. rewrite Hsrc.
    repeat wp_step; by apply Hsame.
Qed.

Lemma is_decode_peer_message_decoded b s : decoded b (is_decode_peer_message b s).
Proof.
  unfold is_decode_peer_message. case_match; [done|].
  destruct (is_responders s !! _) as [r|]; [|done]. simpl.
  destruct (rsp_handshake_state r); try done.
  - destruct (c_auth_provider _) as [[]|]; [|done..]. auto with salty.
  - unfold responder_permanent_key. destruct (rsp_permanent_key r); simpl; [|done]. auto with salty.
  - unfold responder_session_key. destruct (rsp_session_key r); simpl; [|done]. auto with salty.
Qed.

Lemma initiator_peer_ok s : initiator_inv s →
  c_signaling_state (common s) = SignalingState.Task →
  match get_peer s with
  | Some (@MkDynPeer _ _ _ p put) => peer_ok initiator_inv s p put
  | None => False
  end.
Proof.
  intros HI Hst. pose proof (ii_chosen _ s HI) as Hc. simpl. unfold is_get_peer.
  destruct (is_responder s) as [r|]; [|done]. destruct Hc as [_ Hc]. split; try done.
  - apply _.
  - apply Hc.
  - eexists. apply responder_identity, Hc.
  - intros ours' Hw. destruct HI. split; try done. split; [done|].
    destruct Hc. split; try done. by apply wf_advanced.
  - intros p'. by exists (λ q, is_set_responder (Some q) s).
Qed.

(** The initiator implements the interface. *)
#[export] Instance initiator_safe : SignalingSafe T (InitiatorSignaling T) initiator_inv.
Proof.
  split.
  - apply _.
  - intros s [???? Hch ?] Hst c Hc. split; try done. simpl. destruct (is_responder s); [|done].
    simpl in Hst. destruct Hch. congruence.
  - apply initiator_sender.
  - intros. by apply initiator_destination.
  - intros n s. simpl. unfold is_validate_nonce_source. do 3 wp_step.
    destruct (addr (nonce_source n)) as [|[]|]; repeat wp_step; done.
  - intros b s. apply is_decode_peer_message_decoded.
  - intros. by apply is_handle_peer_message_handled.
  - intros. by apply is_handle_server_auth_impl_quiet.
  - intros. by apply handled_throw.
  - intros. by apply is_handle_new_responder_handled.
  - intros. by apply is_handle_disconnected_handled.
  - apply initiator_peer_ok.
Qed.

(** A new initiator satisfies the invariant. *)
Lemma initiator_new_inv {S E} (s0 : S) kp tasks trusted_key server_key ping :
  wp (E := E) (initiator_signaling_new (T := T) kp tasks trusted_key server_key ping) s0
    (λ o _, constructed (λ s, initiator_inv s ∧ is_responders s = ∅ ∧ is_responder s = None
      ∧ configured Role.Initiator kp tasks server_key ping (is_common s)) o).
Proof.
  unfold initiator_signaling_new. wp_step.
  apply (wp_mono _ _ (λ (o : outcome E AuthProvider) (_ : S), constructed (λ _, True) o)).
  { destruct trusted_key; repeat wp_step; [done|]. unfold auth_token_new. wp_step.
    apply wp_init; [|done]. by repeat wp_step. }
  intros [p|e|m] s1; [intros _|done..]. repeat wp_step. apply wp_server_context_new; [|done].
  intros c [Hst _ Hk Hw]. repeat wp_step. split_and!; [|done..]. split; try done; simpl.
  - split; try done; simpl; by rewrite Hst.
  - intros _. rewrite map_size_empty. lia.
Qed.
End handlers.

(** ** Reachable states *)

Section initiator_reachable.
Context {T : Type} `{!Task T}.
Context `{!ByteOrder, !Sodium, !Rmps, !Env}.

(** An initiator as its constructor returns it, with any arguments. *)
Definition initiator_initial (s : InitiatorSignaling T) : Prop :=
  ∃ kp tasks trusted_key server_key ping w,
    out (initiator_signaling_new (S := unit) (E := SignalingError)
      kp tasks trusted_key server_key ping tt w) = Ok s.

(** A state some sequence of calls leads to. *)
Definition initiator_reachable (s : InitiatorSignaling T) : Prop :=
  ∃ s0, initiator_initial s0 ∧ rtc step s0 s.

Lemma initiator_reachable_step s s' :
  step s s' → initiator_reachable s → initiator_reachable s'.
Proof. intros Hs (s0 & Hi & Hr). exists s0. split; [done|by eapply rtc_r]. Qed.

Context `{!SodiumLaws, !RmpsLaws, !EnvLaws}.
Lemma initiator_reachable_inv s : initiator_reachable s → initiator_inv s.
Proof.
  intros (s0 & (kp & tasks & tk & sk & ping & w & Hnew) & Hrun).
  pose proof (initiator_new_inv (T := T) (E := SignalingError) tt kp tasks tk sk ping w) as Hi.
  rewrite Hnew in Hi. apply (steps_safe initiator_inv s0 s Hrun), Hi.
Qed.
End initiator_reachable.
