(* ===== verification/Responder.v ===== *)
(** * The responder

    [ResponderSignaling] of [src/protocol/mod.rs]: the state of a responder (the
    initiator context), its implementation of the signaling trait, and the
    messages it exchanges with the initiator. *)

From S2P Require Import Prelude Text External Errors Types Csn Cookie Nonce Crypto Tasks Messages.
From S2P Require Import Boxes Context Signaling Initiator.

Record ResponderSignaling (T : Type) := mkResponderSignaling {
  rs_common : Common T;
  rs_initiator : InitiatorContext;
}.
Arguments mkResponderSignaling {T}.
Arguments rs_common {T}.
Arguments rs_initiator {T}.

Section accessors.
Context {T : Type}.
Implicit Types s : ResponderSignaling T.

Definition rs_set_common (c : Common T) s : ResponderSignaling T :=
  mkResponderSignaling c (rs_initiator s).
Definition rs_set_initiator (i : InitiatorContext) s : ResponderSignaling T :=
  mkResponderSignaling (rs_common s) i.

Definition rs_get_peer s : option (DynPeer (ResponderSignaling T)) :=
  Some (MkDynPeer (rs_initiator s) (λ i, rs_set_initiator i s)).

Definition rs_get_peer_with_address_mut {E} (addr : Address) s
    : outcome E (option (DynPeer (ResponderSignaling T))) :=
  match Identity.identity_from_address addr with
  | Identity.Server =>
      Ok (Some (MkDynPeer (c_server (rs_common s))
        (λ c, rs_set_common (with_server c (rs_common s)) s)))
  | Identity.Initiator => Ok (Some (MkDynPeer (rs_initiator s) (λ i, rs_set_initiator i s)))
  | Identity.Responder _ => Ok None
  end.

#[export] Instance responder_base : SignalingBase T (ResponderSignaling T) := {|
  common := rs_common;
  set_common := rs_set_common;
  get_peer := rs_get_peer;
  get_peer_with_address_mut E := rs_get_peer_with_address_mut;
  initiator_pubkey s := ini_permanent_key (rs_initiator s);
|}.
End accessors.

Section responder.
Context {T : Type} `{!Task T}.
Context `{!ByteOrder, !Sodium, !Rmps, !Env}.
Abbreviation RM := (M env (ResponderSignaling T)).

(** [validate_nonce_destination]. *)
Definition rs_validate_nonce_destination (nonce : Nonce) : RM ValidationError unit :=
  s ← mget;
  _ ← (if bool_decide (identity s = ClientIdentity.Unknown)
          && negb (Address.is_unknown (nonce_destination nonce))
          && bool_decide (server_handshake_state s ≠ ServerHandshakeState.New) then
      if Address.is_responder (nonce_destination nonce) then
        mmodify (λ s, rs_set_common (with_identity
          (ClientIdentity.Responder (addr (nonce_destination nonce))) (rs_common s)) s)
      else
        throw (ValidationError.Fail ("cannot assign address "
          +:+ Address.address_to_string (nonce_destination nonce) +:+ " to a responder"))
    else mret tt);
  s ← mget;
  our ← mlift (ClientIdentity.address_from_client_identity (identity s));
  if bool_decide (nonce_destination nonce ≠ our) then
    throw (ValidationError.Fail ("Bad destination: "
      +:+ Address.address_to_string (nonce_destination nonce) +:+ " (our identity is "
      +:+ ClientIdentity.client_identity_to_string (identity s) +:+ ")"))
  else mret tt.

(** [validate_nonce_source]. *)
Definition rs_validate_nonce_source (nonce : Nonce) : RM ValidationError unit :=
  s ← mget;
  match addr (nonce_source nonce) with
  | 0 => mret tt
  | 1 =>
      match identity s with
      | ClientIdentity.Responder _ => mret tt
      | _ => throw (bad_source nonce (identity s))
      end
  | _ => throw (bad_source nonce (identity s))
  end.

(** [decode_peer_message]. *)
Definition rs_decode_peer_message (bbox : ByteBox) (s : ResponderSignaling T)
    : outcome SignalingError (OpenBox Message) :=
  if negb (Address.is_initiator (nonce_source (bbox_nonce bbox))) then
    Err (SignalingError.Crash "Received message from a responder")
  else
    match ini_handshake_state (rs_initiator s) with
    | InitiatorHandshakeState.KeySent =>
        obox_decrypt bbox (c_permanent_keypair (rs_common s)) (ini_permanent_key (rs_initiator s))
    | InitiatorHandshakeState.AuthSent =>
        initiator_session_key ← ok_or (ini_session_key (rs_initiator s))
          (SignalingError.Crash "Initiator session key not set");
        obox_decrypt bbox (ini_keypair (rs_initiator s)) initiator_session_key
    | other => Err (SignalingError.Crash ("Invalid initiator handshake state: "
        +:+ InitiatorHandshakeState.initiator_handshake_state_debug other))
    end.

(** The nonce of the next message to the initiator. *)
Definition next_initiator_nonce : RM SignalingError Nonce :=
  s ← mget;
  let '(r, initiator) := next_peer_nonce (identity s) (rs_initiator s) in
  _ ← mmodify (rs_set_initiator initiator);
  mlift r.

(** [send_token]. *)
Definition send_token (token : AuthToken) : RM SignalingError HandleAction :=
  s ← mget;
  let msg := Message.Token (mkToken (public_key (c_permanent_keypair (rs_common s)))) in
  nonce ← next_initiator_nonce;
  bbox ← mlift (obox_encrypt_token (mkOpenBox msg nonce) token);
  mret (HandleAction.Reply bbox).

(** [send_key]. *)
Definition send_key : RM SignalingError HandleAction :=
  s ← mget;
  let msg := Message.Key (mkKey (public_key (ini_keypair (rs_initiator s)))) in
  nonce ← next_initiator_nonce;
  bbox ← mlift (obox_encrypt (mkOpenBox msg nonce) (c_permanent_keypair (rs_common s))
    (ini_permanent_key (rs_initiator s)));
  mret (HandleAction.Reply bbox).

(** The token message, if any, at the start of the peer handshake: the shared
    part of [handle_server_auth_impl] and [handle_new_initiator]. *)
Definition send_token_if_any : RM SignalingError (list HandleAction) :=
  s ← mget;
  match c_auth_provider (rs_common s) with
  | Some (AuthProvider.Token token) =>
      _ ← mmodify (λ s, rs_set_common (with_auth_provider None (rs_common s)) s);
      action ← send_token token;
      mret [action]
  | Some (AuthProvider.TrustedKey _) => mret []
  | None => throw (SignalingError.Crash "No auth provider set")
  end.

Definition set_initiator_state (st : InitiatorHandshakeState) : RM SignalingError unit :=
  mmodify (λ s, rs_set_initiator (ini_set_handshake_state st (rs_initiator s)) s).

(** [handle_server_auth_impl]. *)
Definition rs_handle_server_auth_impl (msg : ServerAuth) : RM SignalingError (list HandleAction) :=
  if bool_decide (is_Some (sa_responders msg)) then
    throw (SignalingError.InvalidMessage
      "We're a responder, but the `responders` field in the server-auth message is set")
  else
    match sa_initiator_connected msg with
    | Some true =>
        token ← send_token_if_any;
        key ← send_key;
        _ ← set_initiator_state InitiatorHandshakeState.KeySent;
        mret (token ++ [key; HandleAction.Event (Event.ServerHandshakeDone true)])
    | Some false => mret [HandleAction.Event (Event.ServerHandshakeDone false)]
    | None => throw (SignalingError.InvalidMessage
        "We're a responder, but the `initiator_connected` field in the server-auth message is not set")
    end.

(** [handle_new_initiator]. *)
Definition rs_handle_new_initiator (msg : NewInitiator) : RM SignalingError (list HandleAction) :=
  s ← mget;
  initiator ← initiator_context_new (ini_permanent_key (rs_initiator s));
  _ ← mmodify (rs_set_initiator initiator);
  token ← send_token_if_any;
  key ← send_key;
  _ ← set_initiator_state InitiatorHandshakeState.KeySent;
  mret (token ++ [key]).

(** [handle_new_responder] and [handle_disconnected]. *)
Definition rs_handle_new_responder (msg : NewResponder) : RM SignalingError (list HandleAction) :=
  throw (SignalingError.Protocol "Received 'new-responder' message as responder").

Definition rs_handle_disconnected (msg : Disconnected) : RM SignalingError (list HandleAction) :=
  if negb (Address.is_initiator (disconnected_id msg)) then
    throw (SignalingError.Protocol "Received 'disconnected' message with non-initiator id")
  else mret [HandleAction.Event (Event.Disconnected (addr (disconnected_id msg)))].

(** [handle_key]. *)
Definition rs_handle_key (msg : Key) (nonce : Nonce) : RM SignalingError (list HandleAction) :=
  s ← mget;
  if bool_decide (is_Some (ini_session_key (rs_initiator s))) then
    throw (SignalingError.Crash "Initiator already has a session key set!")
  else if bool_decide (key_key msg = ini_permanent_key (rs_initiator s)) then
    throw (SignalingError.Protocol "Responder session key and permanent key are equal")
  else
    _ ← mmodify (λ s, rs_set_initiator
      (ini_set_handshake_state InitiatorHandshakeState.KeyReceived
        (ini_set_session_key (Some (key_key msg)) (rs_initiator s))) s);
    tasks ← mlift (ok_or (c_tasks (rs_common s)) (SignalingError.Crash "Tasks are not set"));
    auth ← mlift (b ← add_tasks tasks (responder_auth_new (nonce_cookie nonce));
                  responder_auth_build b);
    auth_nonce ← next_initiator_nonce;
    s ← mget;
    session_key ← mlift (ok_or (ini_session_key (rs_initiator s))
      (SignalingError.Crash "Initiator session key not set"));
    bbox ← mlift (obox_encrypt (mkOpenBox (Message.Auth auth) auth_nonce)
      (ini_keypair (rs_initiator s)) session_key);
    _ ← set_initiator_state InitiatorHandshakeState.AuthSent;
    mret [HandleAction.Reply bbox].

(** [handle_auth]. *)
Definition rs_handle_auth (msg : Auth) (source : Address) : RM SignalingError (list HandleAction) :=
  s ← mget;
  _ ← mlift (validate_repeated_cookie (auth_your_cookie msg)
    (cookie_ours (ini_cookie_pair (rs_initiator s))) (pc_identity (rs_initiator s)));
  if bool_decide (is_Some (auth_tasks msg)) then
    throw (SignalingError.InvalidMessage
      "We're a responder, but the `tasks` field in the auth message is set")
  else
    match auth_task msg with
    | None => throw (SignalingError.InvalidMessage
        "The `task` field in the auth message is not set")
    | Some task =>
        _ ← mmodify (λ s, rs_set_common (with_tasks None (rs_common s)) s);
        our_tasks ← mlift (ok_or (c_tasks (rs_common s))
          (SignalingError.Crash "No tasks defined"));
        chosen_task ← mlift (ok_or
          (snd <$> list_find (λ t, task_name t = task) (tasks_vec our_tasks))
          (SignalingError.Protocol
            "The `task` field in the auth message contains an unknown task"));
        if bool_decide (auth_data msg = ∅) then
          throw (SignalingError.Protocol "The `data` field in the auth message is empty")
        else if bool_decide (1 < size (auth_data msg))%nat then
          throw (SignalingError.Protocol
            "The `data` field in the auth message contains more than one entry")
        else
          task_data ← mlift (ok_or (auth_data msg !! task_name chosen_task)
            (SignalingError.Protocol
              "The task in the auth message does not have a corresponding data entry"));
          match task_init task_data chosen_task with
          | (inr e, _) => throw (SignalingError.TaskInitialization e)
          | (inl _, chosen_task) =>
              _ ← mmodify (λ s, rs_set_common (with_task (Some chosen_task)
                (Some (task_supported_types chosen_task)) (rs_common s)) s);
              _ ← set_initiator_state InitiatorHandshakeState.AuthReceived;
              s ← mget;
              let '(r, c) := set_signaling_state SignalingState.Task (rs_common s) in
              _ ← mput (rs_set_common c s);
              _ ← mlift r;
              mret [HandleAction.HandshakeDone]
          end
    end.

(** [handle_peer_handshake_close]. *)
Definition rs_handle_peer_handshake_close (msg : Close) : RM SignalingError (list HandleAction) :=
  match CloseCode.from_number (close_reason msg) with
  | CloseCode.NoSharedTask => throw SignalingError.NoSharedTask
  | _ => throw (SignalingError.Protocol ("Received unexpected close message with code "
      +:+ fmt_dec (close_reason msg) +:+ " during peer handshake"))
  end.

(** [handle_peer_message]. *)
Definition rs_handle_peer_message (obox : OpenBox Message) : RM SignalingError (list HandleAction) :=
  s ← mget;
  match ini_handshake_state (rs_initiator s), obox_message obox with
  | InitiatorHandshakeState.KeySent, Message.Key msg => rs_handle_key msg (obox_nonce obox)
  | InitiatorHandshakeState.AuthSent, Message.Auth msg =>
      rs_handle_auth msg (nonce_source (obox_nonce obox))
  | InitiatorHandshakeState.AuthSent, Message.Close msg => rs_handle_peer_handshake_close msg
  | st, message => throw (SignalingError.InvalidStateTransition
      ("Got " +:+ Message.get_type message +:+ " message from initiator in "
       +:+ InitiatorHandshakeState.initiator_handshake_state_debug st +:+ " state"))
  end.

#[export] Instance responder_signaling : Signaling T (ResponderSignaling T) := {|
  validate_nonce_destination := rs_validate_nonce_destination;
  validate_nonce_source := rs_validate_nonce_source;
  decode_peer_message := rs_decode_peer_message;
  handle_peer_message := rs_handle_peer_message;
  handle_server_auth_impl := rs_handle_server_auth_impl;
  handle_new_initiator := rs_handle_new_initiator;
  handle_new_responder := rs_handle_new_responder;
  handle_disconnected := rs_handle_disconnected;
|}.

(** [ResponderSignaling::new]. *)
Definition responder_signaling_new {S E} (permanent_keypair : KeyPair)
    (initiator_pubkey : PublicKey) (auth_token : option AuthToken)
    (server_public_permanent_key : option PublicKey) (tasks : Tasks T)
    (ping_interval : option Duration) : M env S E (ResponderSignaling T) :=
  let auth_provider :=
    match auth_token with
    | Some token => AuthProvider.Token token
    | None => AuthProvider.TrustedKey initiator_pubkey
    end in
  ctx ← server_context_new;
  initiator ← initiator_context_new initiator_pubkey;
  mret (mkResponderSignaling
    (mkCommon SignalingState.ServerHandshake permanent_keypair (Some auth_provider)
      Role.Responder ClientIdentity.Unknown
      (srv_set_permanent_key server_public_permanent_key ctx)
      (Some tasks) None None ping_interval)
    initiator).
End responder.
