(* ===== verification/ResponderSafe.v ===== *)
(** * Safety of the responder

    The invariant of [ResponderSignaling] and the proof that the responder
    implements the interface [SignalingSafe]. *)

From S2P Require Import Prelude Text External Errors Types Csn Cookie Nonce Crypto Tasks Messages.
From S2P Require Import Boxes Context Signaling SignalingSpec SignalingSafe Runs Initiator.
From S2P Require Import Responder.

(** ** The invariant *)

Section invariant.
Context `{!Sodium}.

(** The session key of the initiator is known from the key message on. *)
Definition initiator_keys_fit (i : InitiatorContext) : Prop :=
  match ini_handshake_state i with
  | InitiatorHandshakeState.New | InitiatorHandshakeState.KeySent => ini_session_key i = None
  | _ => is_Some (ini_session_key i)
  end.

Record responder_state_inv {T} `{!Task T} (s : ResponderSignaling T) : Prop := {
  rs_inv_common : common_inv (rs_common s);
  rs_inv_role : c_role (rs_common s) = Role.Responder;
  rs_inv_peer : wf_peer (rs_initiator s);
  rs_inv_keypair : wf_keypair (ini_keypair (rs_initiator s));
  rs_inv_keys : initiator_keys_fit (rs_initiator s);
  rs_inv_server : c_signaling_state (rs_common s) = SignalingState.ServerHandshake →
    ini_session_key (rs_initiator s) = None;
}.

Section updates.
Context {T : Type} `{!Task T}.
Implicit Types s : ResponderSignaling T.

Lemma rs_inv_set_initiator i s : responder_state_inv s → wf_peer i → wf_keypair (ini_keypair i) →
  initiator_keys_fit i → (is_Some (ini_session_key i) →
    c_signaling_state (rs_common s) ≠ SignalingState.ServerHandshake) →
  responder_state_inv (rs_set_initiator i s).
Proof.
  intros [] ??? Hs. split; try done. simpl. intros Hst. apply eq_None_not_Some. intros Hk.
  by apply Hs.
Qed.

Lemma rs_inv_advance ours' s : responder_state_inv s → wf_csn ours' →
  responder_state_inv (rs_set_initiator (advanced (rs_initiator s) ours') s).
Proof. intros [] Hw. split; try done. by apply wf_advanced. Qed.

Lemma rs_inv_set_common c s : responder_state_inv s → common_inv c → c_role c = Role.Responder →
  SignalingState.stage (c_signaling_state (rs_common s)) ≤ SignalingState.stage (c_signaling_state c) →
  responder_state_inv (rs_set_common c s).
Proof.
  intros [] ?? Hst. split; try done. simpl. intros Hc. rewrite Hc in Hst.
  destruct (c_signaling_state (rs_common s)); simpl in *; [auto|lia..].
Qed.
End updates.
End invariant.

#[export] Instance responder_base_laws {T} : SignalingBaseLaws T (ResponderSignaling T).
Proof.
  split; [done|by intros []|done|]. intros E a s Ha. destruct a as [z]. unfold Address.is_server in Ha.
  apply bool_decide_eq_true in Ha. simpl in Ha. by subst.
Qed.

#[export] Instance responder_core {T} `{!Sodium, !Task T} :
  SignalingCore T (ResponderSignaling T) responder_state_inv.
Proof. split; [apply _|by intros s []|]. intros c s [] Hc. by split. Qed.

(** ** The handlers *)

Section handlers.
Context {T : Type} `{!Task T}.
Context `{!ByteOrder, !Sodium, !SodiumLaws, !Rmps, !RmpsLaws, !Env, !EnvLaws}.
Implicit Types s : ResponderSignaling T.
Abbreviation I := (responder_state_inv (T := T)).

Lemma rs_identity_address s : I s → ∃ src,
  ∀ E, ClientIdentity.address_from_client_identity (E := E) (identity s) = Ok src.
Proof.
  intros HI.
  destruct (identity_fits_address _ _ (ci_identity _ (rs_inv_common s HI))) as (src & Hs & _).
  by exists src.
Qed.

(** A handler that only changes the context of the initiator. *)
Definition initiator_drawn s s' : Prop := ∃ ours', wf_csn ours'
  ∧ csn_number (csn_ours (ini_csn_pair (rs_initiator s))) ≤ csn_number ours'
  ∧ s' = rs_set_initiator (advanced (rs_initiator s) ours') s.

Lemma wp_next_initiator_nonce s (Q : outcome SignalingError Nonce → ResponderSignaling T → Prop) :
  I s → (∀ n s', initiator_drawn s s' → Q (Ok n) s') →
  (∀ e s', initiator_drawn s s' → Q (Err e) s') → wp next_initiator_nonce s Q.
Proof.
  intros HI HQ HE. unfold next_initiator_nonce. do 3 wp_step.
  destruct (rs_identity_address s HI) as [src Hsrc].
  destruct (next_peer_nonce_cases (identity s) (rs_initiator s) src (mkAddress 1))
    as (ours' & Hw & Hp & Hd); [apply HI|done|done|].
  destruct (next_peer_nonce _ _) as [r i']; simpl in Hp, Hd; subst i'. repeat wp_step.
  assert (initiator_drawn s (rs_set_initiator (advanced (rs_initiator s) ours') s))
    by (exists ours'; split_and!; [done|by eapply nonce_drawn_le|done]).
  destruct r; [by apply HQ|by apply HE|done].
Qed.

Lemma initiator_drawn_quiet s s' {A} (o : outcome SignalingError A) : I s →
  initiator_drawn s s' → no_surprise o → quiet I s o s'.
Proof.
  intros HI (ours' & Hw & _ & ->) Ho. unfold quiet, handled.
  split_and!; try done. by apply rs_inv_advance.
Qed.

Lemma send_token_quiet t s : I s → wp (send_token t) s (quiet I s).
Proof.
  intros HI. unfold send_token. do 4 wp_step. apply wp_next_initiator_nonce; [done| |].
  - intros n s' Hd. repeat wp_step. wp_seal. repeat wp_step. by apply initiator_drawn_quiet.
  - intros e s' Hd. by apply initiator_drawn_quiet.
Qed.
Lemma send_key_drawn s : I s → wp send_key s (λ o s', initiator_drawn s s' ∧ no_surprise o).
Proof.
  intros HI. unfold send_key. do 4 wp_step. apply wp_next_initiator_nonce; [done| |done].
  intros n s' Hd. repeat wp_step. wp_seal. by repeat wp_step.
Qed.

Lemma send_token_if_any_quiet s : I s → wp send_token_if_any s (λ o s', quiet I s o s'
  ∧ ini_session_key (rs_initiator s') = ini_session_key (rs_initiator s)).
Proof.
  intros HI. unfold send_token_if_any. do 3 wp_step.
  destruct (c_auth_provider (rs_common s)) as [[t|k]|]; [|wp_step; split; [by apply quiet_refl|done]..].
  set (s1 := rs_set_common (with_auth_provider None (rs_common s)) s).
  assert (I s1) as HI1 by (destruct HI as [[]]; by split).
  repeat wp_step. unfold send_token. do 4 wp_step.
  assert (∀ A (o : outcome SignalingError A) s', initiator_drawn s1 s' → no_surprise o →
    quiet I s o s' ∧ ini_session_key (rs_initiator s') = ini_session_key (rs_initiator s)) as Hdone.
  { intros A o s' Hd Ho. split; [|by destruct Hd as (? & _ & _ & ->)].
    eapply quiet_trans; [|by apply initiator_drawn_quiet, Ho].
    instantiate (1 := Ok tt). by split_and!. }
  apply wp_next_initiator_nonce; [done| |].
  - intros n s' Hd. repeat wp_step. wp_seal. repeat wp_step. by apply Hdone.
  - intros e s' Hd. by apply Hdone.
Qed.

(** The key message and the state it leads to, shared by the start of the
    handshake and its restart. *)
Lemma send_key_sent s : I s → ini_session_key (rs_initiator s) = None →
  ∀ (k : HandleAction → list HandleAction),
  wp (key ← send_key; _ ← set_initiator_state InitiatorHandshakeState.KeySent; mret (k key)) s
    (quiet I s).
Proof.
  intros HI Hk k. wp_step. eapply wp_mono; [by apply send_key_drawn|].
  intros o s1 [Hd Ho]. destruct o as [a|e|m]; [|by apply initiator_drawn_quiet..]. cbn [wp_then].
  destruct Hd as (ours' & Hw & _ & ->). unfold set_initiator_state. repeat wp_step.
  unfold quiet, handled. split_and!; try done.
  destruct (rs_inv_advance ours' s HI Hw). by split.
Qed.

Lemma rs_handle_server_auth_impl_quiet msg s : I s →
  srv_handshake_state (server s) ≠ ServerHandshakeState.Done →
  wp (rs_handle_server_auth_impl msg) s (quiet I s).
Proof.
  intros HI Hsrv. unfold rs_handle_server_auth_impl.
  wp_step; [wp_step; by apply quiet_refl|].
  destruct (sa_initiator_connected msg) as [[]|]; [|wp_step; by apply quiet_refl..].
  wp_step. eapply wp_mono; [by apply send_token_if_any_quiet|].
  intros o s1 [Hq Hk]. destruct o as [tok|e|m]; [|done..]. cbn [wp_then].
  eapply wp_mono; [|intros o s' Hq'; eapply quiet_trans; [exact Hq|exact Hq']].
  apply send_key_sent; [apply Hq|]. rewrite Hk. apply (rs_inv_server s HI).
  exact (server_new_handshake I s HI Hsrv).
Qed.

Lemma rs_handle_new_initiator_handled msg s : I s →
  wp (rs_handle_new_initiator msg) s (handled I s).
Proof.
  intros HI. unfold rs_handle_new_initiator. do 4 wp_step. apply wp_initiator_context_new.
  2: { intros m Hm. split_and!; try done. by left. }
  intros i [Hst _ Hk Hkp Hw _]. repeat wp_step.
  assert (I (rs_set_initiator i s)) as HI1.
  { apply rs_inv_set_initiator; try done; [unfold initiator_keys_fit; by rewrite Hst|].
    rewrite Hk. by intros []. }
  assert (quiet I s (Ok tt : outcome SignalingError unit) (rs_set_initiator i s)) as Hq0
    by by split_and!.
  eapply wp_mono; [by apply send_token_if_any_quiet|].
  intros o s1 [Hq Hk1]. eapply quiet_trans in Hq; [|exact Hq0].
  destruct o as [tok|e|m]; [|apply Hq..]. cbn [wp_then].
  eapply wp_mono; [apply send_key_sent; [apply Hq|by rewrite Hk1]|].
  intros o s' Hq'. eapply quiet_trans in Hq'; [|exact Hq]. apply Hq'.
Qed.

Lemma rs_key_received_inv k s : I s →
  c_signaling_state (rs_common s) = SignalingState.PeerHandshake →
  I (rs_set_initiator (ini_set_handshake_state InitiatorHandshakeState.KeyReceived
    (ini_set_session_key (Some k) (rs_initiator s))) s).
Proof.
  intros HI Hst.
  apply rs_inv_set_initiator; [done|apply HI|apply HI|by exists k|by rewrite Hst].
Qed.

Lemma rs_handle_key_handled msg n s : I s →
  c_signaling_state (rs_common s) = SignalingState.PeerHandshake →
  wp (rs_handle_key msg n) s (handled I s).
Proof.
  intros HI Hst. unfold rs_handle_key.
  do 4 wp_step; [by apply handled_throw|]. wp_step; [by apply handled_throw|].
  pose proof (rs_key_received_inv (key_key msg) s HI Hst) as HI1.
  set (i1 := ini_set_handshake_state InitiatorHandshakeState.KeyReceived
    (ini_set_session_key (Some (key_key msg)) (rs_initiator s))) in *.
  assert (∀ A (o : outcome SignalingError A), no_surprise o → handled I s o (rs_set_initiator i1 s))
    as Hdone by (by intros; split_and!).
  repeat wp_step; [|by apply Hdone]. rewrite responder_auth_spec.
  destruct (decide (tasks_vec t = [])); [by apply Hdone|].
  destruct (decide (NoDup _)); [|by apply Hdone]. repeat wp_step.
  fold i1.
  assert (∀ s', initiator_drawn (rs_set_initiator i1 s) s' → I s' ∧
    common_frame (rs_common s) (rs_common s') ∧ (∃ ours', wf_csn ours' ∧
      s' = rs_set_initiator (advanced i1 ours') s)) as Hdr.
  { intros s' (ours' & Hw & _ & ->). split_and!; [by apply rs_inv_advance|done|].
    by exists ours'. }
  apply wp_next_initiator_nonce; [done| |].
  - intros n' s' (HI2 & Hf & ours' & Hw & ->)%Hdr. repeat wp_step; [|by split_and!].
    wp_seal. unfold set_initiator_state. repeat wp_step. split_and!; [|by split|done].
    destruct HI2. by split.
  - intros e s' (HI2 & Hf & _)%Hdr. by split_and!.
Qed.

(** The last assignments of [handle_auth]. *)
Lemma rs_enter_task_ok t types s : I s →
  c_signaling_state (rs_common s) = SignalingState.PeerHandshake →
  is_Some (ini_session_key (rs_initiator s)) →
  let s' := rs_set_common (with_signaling_state SignalingState.Task
    (with_task (Some t) (Some types) (rs_common s)))
    (rs_set_initiator (ini_set_handshake_state InitiatorHandshakeState.AuthReceived (rs_initiator s)) s) in
  I s' ∧ common_frame (rs_common s) (rs_common s').
Proof.
  intros [[?? Hdone ? Hass ??] ?????] Hst Hk. split.
  - split; try done. split; try done; simpl.
    + rewrite Hdone, Hst. by split.
    + intros _. apply Hass. by rewrite Hst.
  - split; try done. simpl. by rewrite Hst.
Qed.

Lemma rs_handle_auth_handled msg src s : I s →
  c_signaling_state (rs_common s) = SignalingState.PeerHandshake →
  ini_handshake_state (rs_initiator s) = InitiatorHandshakeState.AuthSent →
  wp (rs_handle_auth msg src) s (handled I s).
Proof.
  intros HI Hst His. unfold rs_handle_auth. do 5 wp_step.
  unfold validate_repeated_cookie. destruct (bool_decide (auth_your_cookie msg ≠ _)); wp_step;
    [by split_and!|]. wp_step; [by apply handled_throw|]. destruct (auth_task msg) as [task|]; [|by apply handled_throw].
  set (s1 := rs_set_common (with_tasks None (rs_common s)) s).
  assert (I s1) as HI1 by (destruct HI as [[]]; by split).
  assert (∀ A (o : outcome SignalingError A), no_surprise o → handled I s o s1)
    as Hdone by (by intros; split_and!; [|split|]).
  repeat wp_step; try (by apply Hdone).
  destruct (task_init _ _) as [[[]|e] chosen]; [|wp_step; by apply Hdone].
  destruct (rs_enter_task_ok chosen (task_supported_types chosen) s1 HI1 Hst) as [HI2 Hf2].
  { pose proof (rs_inv_keys s HI) as Hk. unfold initiator_keys_fit in Hk. by rewrite His in Hk. }
  unfold set_initiator_state. repeat wp_step. unfold set_signaling_state. simpl. rewrite Hst.
  rewrite bool_decide_eq_false_2 by done. simpl. repeat wp_step.
  split_and!; [exact HI2| |done]. etrans; [|exact Hf2]. by split.
Qed.

Lemma rs_handle_peer_message_handled o s : I s →
  c_signaling_state (rs_common s) = SignalingState.PeerHandshake →
  wp (rs_handle_peer_message o) s (handled I s).
Proof.
  intros HI Hst. unfold rs_handle_peer_message. do 3 wp_step.
  destruct (ini_handshake_state (rs_initiator s)) eqn:His, (obox_message o) eqn:Hm;
    try (by apply handled_throw).
  - by apply rs_handle_key_handled.
  - by apply rs_handle_auth_handled.
  - unfold rs_handle_peer_handshake_close.
    destruct (CloseCode.from_number _); by apply handled_throw.
Qed.

(** ** Senders *)

Lemma responder_sender a s : I s → Address.is_server a = false →
  ∃ op, get_peer_with_address_mut (E := ValidationError) a s = Ok op
  ∧ match op with
    | Some (@MkDynPeer _ _ _ p put) => sender_ok I a s p put ∧ ∀ p', common (put p') = common s
    | None => True
    end.
Proof.
  intros HI Ha. simpl. unfold rs_get_peer_with_address_mut.
  destruct (Identity.identity_from_address a) as [| |z] eqn:Hid; [| |by exists None].
  - unfold Address.is_server in Ha. apply bool_decide_eq_false in Ha. by destruct a as [[|[]|]].
  - eexists. split; [done|]. split; [|done]. split.
    + apply _.
    + apply HI.
    + intros np cp Hnp _ Hcp _ _. destruct HI. by split.
    + intros i' _. exists (λ i, rs_set_initiator i s). split; [|done].
      simpl. unfold rs_get_peer_with_address_mut. by rewrite Hid.
Qed.

Lemma rs_last_csn_identity i a s :
  last_csn a (rs_set_common (with_identity i (rs_common s)) s) = last_csn a s.
Proof.
  unfold last_csn. simpl. unfold rs_get_peer_with_address_mut.
  by destruct (Identity.identity_from_address a).
Qed.

Lemma responder_destination n s : I s → wf_nonce n →
  wp (rs_validate_nonce_destination n) s (λ o s',
    I s' ∧ is_panic o = false ∧ (∀ a, last_csn a s' = last_csn a s)
    ∧ ∃ i, common s' = with_identity i (common s)
      ∧ (identity s = ClientIdentity.Unknown ∨ i = identity s)).
Proof.
  intros HI (_ & _ & Hwd & _). unfold rs_validate_nonce_destination.
  assert (∀ (o : outcome ValidationError unit), is_panic o = false → I s
    ∧ is_panic o = false ∧ (∀ a, last_csn a s = last_csn a s)
    ∧ ∃ i, common s = with_identity i (common s)
      ∧ (identity s = ClientIdentity.Unknown ∨ i = identity s)) as Hsame.
  { intros o Ho. split_and!; try done. exists (identity s). split; [|by right].
    unfold identity. by destruct (common s). }
  do 4 wp_step. wp_step.
  - apply andb_true_iff in Hb as [[Hu _]%andb_true_iff Hn].
    apply bool_decide_eq_true in Hu, Hn.
    wp_step; wp_step; [|by apply Hsame]. do 4 wp_step.
    unfold Address.is_responder in Hb. apply bool_decide_eq_true in Hb.
    unfold wf_address in Hwd. unwidth.
    set (i := ClientIdentity.Responder (addr (nonce_destination n))).
    assert (I (rs_set_common (with_identity i (rs_common s)) s)) as HI1.
    { destruct HI as [[] Hrole ????]. split; try done. split; try done. simpl. rewrite Hrole.
      simpl. lia. }
    cbn [identity common responder_base rs_common rs_set_common with_identity c_identity].
    unfold identity. simpl. rewrite (bool_decide_eq_true_2 (1 < _)) by lia.
    repeat wp_step; (split_and!; [done|done|intros a; apply rs_last_csn_identity|];
      eexists; split; [done|by left]).
  - repeat wp_step. destruct (rs_identity_address s HI) as [src Hsrc]. rewrite Hsrc.
    repeat wp_step; by apply Hsame.
Qed.

Lemma rs_decode_peer_message_decoded b s : decoded b (rs_decode_peer_message b s).
Proof.
  unfold rs_decode_peer_message. case_match; [done|].
  destruct (ini_handshake_state _); try done; [auto with salty|].
  destruct (ini_session_key _); [|done]. simpl. auto with salty.
Qed.

(** The responder implements the interface. *)
#[export] Instance responder_safe : SignalingSafe T (ResponderSignaling T) I.
Proof.
  split.
  - apply _.
  - intros s [] Hst c Hc. split; try done.
  - apply responder_sender.
  - apply responder_destination.
  - intros n s. simpl. unfold rs_validate_nonce_source. do 3 wp_step.
    destruct (addr (nonce_source n)) as [|[]|]; repeat wp_step; try done.
    destruct (identity s); by wp_step.
  - intros b s. apply rs_decode_peer_message_decoded.
  - intros. by apply rs_handle_peer_message_handled.
  - intros msg s HI Hs _ _. apply rs_handle_server_auth_impl_quiet; [done|].
    unfold server in *. simpl in *. congruence.
  - intros. by apply rs_handle_new_initiator_handled.
  - intros. by apply handled_throw.
  - intros msg s HI. simpl. unfold rs_handle_disconnected.
    wp_step; [by apply handled_throw|by apply handled_ret].
  - intros s HI Hst. simpl. split; try done.
    + apply _.
    + apply HI.
    + by exists (mkAddress 1).
    + intros ours' Hw. by apply rs_inv_advance.
    + intros p'. by exists (λ q, rs_set_initiator q s).
Qed.

(** A new responder satisfies the invariant. *)
Lemma responder_new_inv {S E} (s0 : S) kp ini_key token server_key tasks ping :
  wp (E := E) (responder_signaling_new (T := T) kp ini_key token server_key tasks ping) s0
    (λ o _, constructed (λ s, I s ∧ ini_permanent_key (rs_initiator s) = ini_key
      ∧ ini_session_key (rs_initiator s) = None
      ∧ configured Role.Responder kp tasks server_key ping (rs_common s)) o).
Proof.
  unfold responder_signaling_new. wp_step. apply wp_server_context_new; [|done].
  intros c [Hst _ Hk Hw]. repeat wp_step. apply wp_initiator_context_new; [|done].
  intros i [Hist Hpk Hik Hikp Hiw]. repeat wp_step. split_and!; try done. split; try done.
  - split; try done; simpl; by rewrite Hst.
  - unfold initiator_keys_fit. simpl. by rewrite Hist.
Qed.
End handlers.

(** ** Reachable states *)

Section responder_reachable.
Context {T : Type} `{!Task T}.
Context `{!ByteOrder, !Sodium, !Rmps, !Env}.

(** A responder as its constructor returns it, with any arguments. *)
Definition responder_initial (s : ResponderSignaling T) : Prop :=
  ∃ kp initiator_key token server_key tasks ping w,
    out (responder_signaling_new (S := unit) (E := SignalingError)
      kp initiator_key token server_key tasks ping tt w) = Ok s.
Definition responder_reachable (s : ResponderSignaling T) : Prop :=
  ∃ s0, responder_initial s0 ∧ rtc step s0 s.

Lemma responder_reachable_step s s' :
  step s s' → responder_reachable s → responder_reachable s'.
Proof. intros Hs (s0 & Hi & Hr). exists s0. split; [done|by eapply rtc_r]. Qed.

Context `{!SodiumLaws, !RmpsLaws, !EnvLaws}.
Lemma responder_reachable_inv s : responder_reachable s → responder_state_inv s.
Proof.
  intros (s0 & (kp & ik & tok & sk & tasks & ping & w & Hnew) & Hrun).
  pose proof (responder_new_inv (T := T) (E := SignalingError) tt kp ik tok sk tasks ping w) as Hi.
  rewrite Hnew in Hi. apply (steps_safe responder_state_inv s0 s Hrun), Hi.
Qed.
End responder_reachable.
