(* ===== verification/Channel.v ===== *)
(** * The channel between two clients

    In the task phase a client is one end of an encrypted channel.  An
    [Endpoint] collects what it knows of it: addresses, session keys, cookies
    and sequence numbers.  Sealing a message draws the next nonce of the
    endpoint, and a message with a fresh nonce is accepted and opened; both are
    proved against the interface [ChannelEnd], which the two roles implement.
    [channel e1 e2 bs vs] relates two ends and the boxes on their way; it is
    kept by sending and receiving in either direction. *)

From S2P Require Import Prelude Text External Errors Types Csn Cookie Nonce Crypto Tasks Messages.
From S2P Require Import Boxes Context Signaling SignalingSpec SignalingSafe Runs.
From S2P Require Import Initiator InitiatorSafe Responder ResponderSafe.

(** ** Endpoints *)

(** What a client knows of the channel to its peer in the task phase. *)
Record Endpoint := mkEndpoint {
  e_own : Address;
  e_peer : Address;
  e_keypair : KeyPair;
  e_session : PublicKey;
  e_cookies : CookiePair;
  e_csn : CombinedSequencePair;
  e_types : option (list string);
}.
Definition e_with_csn (p : CombinedSequencePair) (e : Endpoint) : Endpoint :=
  mkEndpoint (e_own e) (e_peer e) (e_keypair e) (e_session e) (e_cookies e) p (e_types e).
(** The own number has moved on, or a number of the peer has been accepted. *)
Definition e_advance (ours : CombinedSequence) (e : Endpoint) : Endpoint :=
  e_with_csn (mkCombinedSequencePair ours (csn_theirs (e_csn e))) e.
Definition e_accept (theirs : CombinedSequenceSnapshot) (e : Endpoint) : Endpoint :=
  e_with_csn (mkCombinedSequencePair (csn_ours (e_csn e)) (Some theirs)) e.

Definition ok_address (o : outcome SignalingError Address) : Address :=
  match o with Ok a => a | _ => mkAddress 0 end.

Section endpoint.
Context {T S : Type} `{!SignalingBase T S}.

Definition own_address (s : S) : Address :=
  ok_address (ClientIdentity.address_from_client_identity (identity s)).
Definition peer_address `{!PeerContext P} (p : P) : Address :=
  ok_address (Identity.address_from_identity (pc_identity p)).

Definition endpoint_of `{!PeerContext P} (s : S) (p : P) : option Endpoint :=
  match pc_keypair p, pc_session_key p with
  | Some keypair, Some session_key => Some (mkEndpoint (own_address s) (peer_address p)
      keypair session_key (pc_cookie_pair p) (pc_csn_pair p) (c_task_supported_types (common s)))
  | _, _ => None
  end.
Definition endpoint (s : S) : option Endpoint :=
  if bool_decide (c_signaling_state (common s) = SignalingState.Task) then
    match get_peer s with
    | Some (@MkDynPeer _ _ _ p _) => endpoint_of s p
    | None => None
    end
  else None.

Lemma endpoint_of_parts `{!PeerContext P} s (p : P) e : endpoint_of s p = Some e →
  e_own e = own_address s ∧ e_peer e = peer_address p ∧ pc_keypair p = Some (e_keypair e)
  ∧ pc_session_key p = Some (e_session e) ∧ e_cookies e = pc_cookie_pair p
  ∧ e_csn e = pc_csn_pair p ∧ e_types e = c_task_supported_types (common s).
Proof. unfold endpoint_of. destruct (pc_keypair p), (pc_session_key p); [|done..]. by intros [= <-]. Qed.
End endpoint.

(** What a role promises about its peer in the task phase: it is found under its
    address, which is not the server's, and a nonce between the two passes the
    address checks. *)
Record reaches {T S} `{!Env, !Signaling T S, !Sodium} (s : S) (o : option (DynPeer S))
    {P} {i : PeerContext P} (p : P) : Prop := {
  re_lookup : get_peer_with_address_mut (E := ValidationError) (peer_address p) s = Ok o;
  re_server : Address.is_server (peer_address p) = false;
  re_address : wf_address (peer_address p);
  re_keypair : from_option wf_keypair True (pc_keypair p);
  re_destination n w : nonce_destination n = own_address s →
    validate_nonce_destination n s w = (Ok tt, s, w);
  re_source n w : nonce_source n = peer_address p → validate_nonce_source n s w = (Ok tt, s, w);
}.
Class ChannelEnd (T S : Type) `{!Env, !Signaling T S, !Sodium} (I : S → Prop) : Prop := {
  ce_reaches s : I s → c_signaling_state (common s) = SignalingState.Task →
    match get_peer s with
    | Some (@MkDynPeer _ _ _ p put) => reaches s (Some (MkDynPeer p put)) p
    | None => True
    end;
}.

Section channel_end.
Context {T S : Type} `{!Task T, !Env, !Signaling T S}.
Context `{!ByteOrder, !Sodium, !SodiumLaws, !Rmps, !RmpsLaws}.
Context (I : S → Prop) `{!SignalingSafe T S I, !ChannelEnd T S I}.
Implicit Types s : S.

(** The parts of an endpoint. *)
Lemma endpoint_Some s e : I s → endpoint s = Some e →
  c_signaling_state (common s) = SignalingState.Task
  ∧ ∃ P (i : PeerContext P) (p : P) put, get_peer s = Some (MkDynPeer p put)
    ∧ peer_ok I s p put ∧ reaches s (Some (MkDynPeer p put)) p ∧ endpoint_of s p = Some e
    ∧ ∀ p', endpoint (put p') = endpoint_of s p'.
Proof.
  intros HI. unfold endpoint. case_bool_decide as Hst; [|done].
  pose proof (ss_peer s HI Hst) as Hok. pose proof (ce_reaches s HI Hst) as Hre.
  destruct (get_peer s) as [[P i p put]|]; [|done].
  intros He. split; [done|]. exists P, i, p, put. split_and!; [done..|]. intros p'.
  destruct (po_again _ _ _ _ Hok p') as (put' & Hg & _). pose proof (po_common _ _ _ _ Hok p') as Hc.
  rewrite Hc, Hst, Hg. unfold endpoint_of, own_address, identity. rewrite Hc.
  by rewrite bool_decide_eq_true_2.
Qed.

Lemma own_address_Ok s : I s → ∀ E,
  ClientIdentity.address_from_client_identity (E := E) (identity s) = Ok (own_address s).
Proof.
  intros HI E. destruct (identity_fits_address _ _ (ci_identity _ (ss_common s HI))) as (a & Ha & _).
  unfold own_address, identity. by rewrite !Ha.
Qed.

(** ** Sending *)

Lemma endpoint_of_set_csn s e `{!PeerContext P, !PeerContextLaws P} (p : P) pair :
  endpoint_of s p = Some e → endpoint_of s (pc_set_csn_pair pair p) = Some (e_with_csn pair e).
Proof.
  unfold endpoint_of, peer_address.
  rewrite pc_keypair_set_csn, pc_session_set_csn, pc_identity_set_csn, pc_cookie_set_csn, pc_csn_set_csn.
  destruct (pc_keypair p), (pc_session_key p); [|done..]. by intros [= <-].
Qed.

(** A sealed box: the nonce is the next one of the endpoint. *)
Definition drawn (e : Endpoint) (ours' : CombinedSequence) (n : Nonce) : Prop :=
  n = mkNonce (cookie_ours (e_cookies e)) (e_own e) (e_peer e) (snapshot_of ours')
  ∧ csn_number ours' = csn_number (csn_ours (e_csn e)) + 1.

(** What sealing for the peer does to the endpoint: it draws the next nonce, or
    the sequence numbers are used up and nothing changes. *)
Definition seals (e : Endpoint) (s' : S) (r : outcome SignalingError ByteBox)
    (sealed : Nonce → ByteBox → Prop) : Prop :=
  ∃ ours', wf_csn ours' ∧ I s' ∧ endpoint s' = Some (e_advance ours' e)
  ∧ match r with
    | Ok b => drawn e ours' (bbox_nonce b) ∧ sealed (bbox_nonce b) b
    | Err err => err = SignalingError.CsnOverflow ∧ ours' = csn_ours (e_csn e)
        ∧ CSN_LIMIT ≤ csn_number ours' + 1
    | Panic _ => False
    end.

(** Drawing a nonce for the peer, as an operation of the endpoint. *)
Lemma endpoint_draw s e : I s → endpoint s = Some e →
  ∃ P (i : PeerContext P) (p : P) put r ours', get_peer s = Some (MkDynPeer p put)
  ∧ c_signaling_state (common s) = SignalingState.Task
  ∧ pc_keypair p = Some (e_keypair e) ∧ pc_session_key p = Some (e_session e)
  ∧ next_peer_nonce (identity s) p = (r, advanced p ours')
  ∧ wf_csn ours' ∧ I (put (advanced p ours'))
  ∧ endpoint (put (advanced p ours')) = Some (e_advance ours' e)
  ∧ nonce_drawn (cookie_ours (e_cookies e)) (e_own e) (e_peer e) (csn_ours (e_csn e)) ours' r.
Proof.
  intros HI He. destruct (endpoint_Some s e HI He) as (Hst & P & i & p & put & Hg & Hok & Hre & Hep & Hput).
  pose proof Hok as [Hl Hw _ [dst Hdst] Hadv _ _].
  destruct (next_peer_nonce_cases (identity s) p (own_address s) dst Hw (own_address_Ok s HI) Hdst)
    as (ours' & Ho' & Hp' & Hd).
  destruct (next_peer_nonce (identity s) p) as [r p'] eqn:Hnp. simpl in Hp', Hd. subst p'.
  exists P, i, p, put, r, ours'.
  assert (endpoint (put (advanced p ours')) = Some (e_advance ours' e)) as He'.
  { rewrite Hput. unfold advanced. rewrite (endpoint_of_set_csn s e) by done.
    apply endpoint_of_parts in Hep as (_ & _ & _ & _ & _ & Hs & _). unfold e_advance. by rewrite Hs. }
  apply endpoint_of_parts in Hep as (-> & Hpa & Hkp & Hk & -> & -> & _).
  split_and!; try done; [by apply Hadv|]. rewrite Hpa. unfold peer_address. by rewrite Hdst.
Qed.

Lemma encode_task_message_seals v s w e : I s → endpoint s = Some e →
  ∃ r s', encode_task_message v s w = (r, s', w) ∧ seals e s' r (λ n b,
    value_encrypt (E := SignalingError) (mkOpenBox v n) (e_keypair e) (e_session e) = Ok b).
Proof.
  intros HI He. destruct (endpoint_draw s e HI He) as (P & i & p & put & r & ours' & Hg & Hst & Hkp & Hk &
    Hn & Hw & HI' & He' & Hd).
  unfold encode_task_message. mred. rewrite bool_decide_eq_false_2 by (by intros []). rewrite Hg. mred.
  rewrite Hn. mred. rewrite Hkp, Hk. destruct r as [n|err|m]; mred; [| |done].
  - destruct (value_encrypt_total (E := SignalingError) (mkOpenBox v n) (e_keypair e) (e_session e))
      as (b & Hb & Hbn). rewrite Hb. do 2 eexists. split; [done|]. exists ours'. rewrite Hbn. by split_and!.
  - do 2 eexists. split; [done|]. exists ours'. by destruct Hd as (-> & -> & ?).
Qed.
Lemma encode_close_message_seals c s w e : I s → endpoint s = Some e →
  ∃ r s', encode_close_message c s w = (r, s', w) ∧ seals e s' r (λ n b,
    obox_encrypt (E := SignalingError) (mkOpenBox (Message.Close (close_from_close_code c)) n)
      (e_keypair e) (e_session e) = Ok b).
Proof.
  intros HI He. destruct (endpoint_draw s e HI He) as (P & i & p & put & r & ours' & Hg & Hst & Hkp & Hk &
    Hn & Hw & HI' & He' & Hd).
  unfold encode_close_message, seal_close. mred. rewrite bool_decide_eq_false_2 by (by intros []).
  rewrite Hg. mred. rewrite Hn. mred. rewrite Hkp, Hk. destruct r as [n|err|m]; mred; [| |done].
  - destruct (obox_encrypt_total (E := SignalingError) (mkOpenBox (Message.Close
      (close_from_close_code c)) n) (e_keypair e) (e_session e)) as (b & Hb & Hbn).
    rewrite Hb. do 2 eexists. split; [done|]. exists ours'. rewrite Hbn. by split_and!.
  - do 2 eexists. split; [done|]. exists ours'. by destruct Hd as (-> & -> & ?).
Qed.

(** ** Receiving *)

(** A nonce the endpoint accepts next. *)
Record fresh_nonce (e : Endpoint) (n : Nonce) : Prop := {
  fn_cookie : cookie_theirs (e_cookies e) = Some (nonce_cookie n);
  fn_source : nonce_source n = e_peer e;
  fn_destination : nonce_destination n = e_own e;
  fn_csn : match csn_theirs (e_csn e) with
    | Some prev => combined_sequence_number prev < combined_sequence_number (nonce_csn n)
    | None => overflow_number (nonce_csn n) = 0
    end;
}.

Lemma check_csn_fresh id cur pair :
  match csn_theirs pair with
  | Some prev => combined_sequence_number prev < combined_sequence_number cur
  | None => overflow_number cur = 0
  end → check_csn id cur pair = Ok (mkCombinedSequencePair (csn_ours pair) (Some cur)).
Proof.
  unfold check_csn, snapshot_lt, snapshot_cmp. destruct (csn_theirs pair) as [prev|].
  - intros Hlt. rewrite (proj2 (Z.compare_gt_iff _ _)) by lia.
    rewrite bool_decide_eq_false_2; [done|]. intros ->. lia.
  - intros ->. by rewrite bool_decide_eq_false_2 by lia.
Qed.

Lemma validate_nonce_fresh n s w e : I s → endpoint s = Some e → wf_nonce n → fresh_nonce e n →
  ∃ s', validate_nonce n s w = (Ok tt, s', w) ∧ I s' ∧ endpoint s' = Some (e_accept (nonce_csn n) e)
  ∧ common s' = common s.
Proof.
  intros HI He Hn [Hck' Hsrc' Hdst' Hcsn'].
  destruct (endpoint_Some s e HI He) as (Hst & P & i & p & put & Hg & Hok & Hre & Hep & Hput).
  pose proof (endpoint_of_parts _ _ _ Hep) as (Ho & Hp & _ & _ & Hc & Hs & _).
  assert (nonce_source n = peer_address p) as Hsrc by congruence.
  assert (nonce_destination n = own_address s) as Hdst by congruence.
  pose proof Hck' as Hck. rewrite Hc in Hck. pose proof Hcsn' as Hcsn. rewrite Hs in Hcsn.
  pose proof Hre as [Hl Hns _ _ Hvd Hvs].
  destruct (ss_sender (peer_address p) s HI Hns) as (op & Hop & Hsnd). rewrite Hl in Hop.
  injection Hop as <-. destruct Hsnd as [[Hlaws Hwf Hupd Hagain] Hcom].
  set (p1 := pc_set_csn_pair (mkCombinedSequencePair (csn_ours (pc_csn_pair p))
    (Some (nonce_csn n))) p).
  exists (put p1). unfold validate_nonce, validate_nonce_csn, validate_nonce_cookie, find_sender. mred.
  rewrite Hvd, Hvs by done.
  rewrite Hsrc, Hl. mred. rewrite check_csn_fresh by done. mred. fold p1.
  destruct (Hagain p1) as (put1 & Hl1 & Hp1); [apply pc_identity_set_csn|]. rewrite Hl1. mred.
  unfold check_cookie. assert (pc_cookie_pair p1 = pc_cookie_pair p) as Hc1 by apply pc_cookie_set_csn.
  rewrite Hc1, Hck, bool_decide_eq_false_2 by (intros []; done). mred.
  rewrite Hp1, <- Hc1, pc_set_cookie_same. split_and!; [done| | |apply Hcom].
  - rewrite <- (pc_set_cookie_same p1), Hc1. apply Hupd; try done; [|by destruct Hwf].
    destruct Hwf as [[? _] _]. split; [done|apply Hn].
  - rewrite Hput. unfold p1, e_accept. rewrite Hs. by apply endpoint_of_set_csn.
Qed.

Lemma handle_message_fresh b s w e v : I s → endpoint s = Some e → wf_nonce (bbox_nonce b) →
  fresh_nonce e (bbox_nonce b) →
  value_decrypt b (e_keypair e) (e_session e) = Ok (mkOpenBox v (bbox_nonce b)) →
  ∃ s', handle_message b s w = (process_task_message v (e_types e), s', w)
  ∧ I s' ∧ endpoint s' = Some (e_accept (nonce_csn (bbox_nonce b)) e).
Proof.
  intros HI He Hn Hf Hd. destruct (validate_nonce_fresh _ s w e HI He Hn Hf) as (s' & Hv & HI' & He' & _).
  exists s'. split; [|done]. unfold handle_message, dispatch_message. mred. rewrite Hv. mred.
  destruct (endpoint_Some s' _ HI' He') as (Hst & P & i & p & put & Hg & _ & [_ Hns _ _ _ _] & Hep & _).
  apply endpoint_of_parts in Hep as (_ & Hpa & Hkp & Hk & _ & _ & Hty). simpl in Hpa, Hkp, Hk, Hty.
  assert (nonce_source (bbox_nonce b) = peer_address p) as Hsrc by by rewrite <- Hpa, (fn_source _ _ Hf).
  rewrite Hsrc, Hns, Hst. unfold handle_task_peer_message. rewrite Hsrc, Hns. mred.
  unfold decode_task_message. rewrite Hg, Hkp, Hk. simpl. rewrite Hd. mred. by rewrite <- Hty.
Qed.

Record wf_endpoint (e : Endpoint) : Prop := {
  we_own : wf_address (e_own e);
  we_peer : wf_address (e_peer e);
  we_server : Address.is_server (e_peer e) = false;
  we_keypair : wf_keypair (e_keypair e);
  we_csn : wf_csn_pair (e_csn e);
  we_cookies : wf_cookie_pair (e_cookies e);
}.
Lemma endpoint_wf s e : I s → endpoint s = Some e → wf_endpoint e.
Proof.
  intros HI He. destruct (endpoint_Some s e HI He)
    as (Hst & P & i & p & put & Hg & Hok & [_ Hns Hwa Hkp _ _] & Hep & _).
  destruct (identity_fits_address _ _ (ci_identity _ (ss_common s HI))) as (a & Ha & Hwo).
  pose proof (po_wf _ _ _ _ Hok) as [? ?].
  apply endpoint_of_parts in Hep as (Ho & Hp & Hk & _ & Hc & Hs & _). rewrite Hk in Hkp.
  split; rewrite ?Ho, ?Hp, ?Hc, ?Hs; try done. unfold own_address, identity. by rewrite Ha.
Qed.
End channel_end.

(** ** Two endpoints and the messages between them *)

Section link.
Context `{!ByteOrder, !ByteOrderLaws, !Sodium, !SodiumLaws, !Rmps, !RmpsLaws}.

(** [e1] and [e2] are the two ends of one session. *)
Record facing (e1 e2 : Endpoint) : Prop := {
  fa_own : e_own e1 = e_peer e2;
  fa_peer : e_peer e1 = e_own e2;
  fa_session1 : e_session e1 = public_key (e_keypair e2);
  fa_session2 : e_session e2 = public_key (e_keypair e1);
  fa_cookie : cookie_theirs (e_cookies e2) = Some (cookie_ours (e_cookies e1));
}.

Definition box_csn (b : ByteBox) : Z := combined_sequence_number (nonce_csn (bbox_nonce b)).

(** A box from [e1] that [e2] opens to the value [v]. *)
Record carries (e1 e2 : Endpoint) (b : ByteBox) (v : Value) : Prop := {
  ca_cookie : nonce_cookie (bbox_nonce b) = cookie_ours (e_cookies e1);
  ca_source : nonce_source (bbox_nonce b) = e_own e1;
  ca_destination : nonce_destination (bbox_nonce b) = e_peer e1;
  ca_wf : wf_nonce (bbox_nonce b);
  ca_payload : bbox_bytes b ≠ [];
  ca_opens : value_decrypt b (e_keypair e2) (e_session e2) = Ok (mkOpenBox v (bbox_nonce b));
}.

(** The boxes [bs] are on their way from [e1] to [e2] and carry the values [vs]:
    their numbers grow, above the last one accepted and up to the last one
    drawn. *)
Record channel (e1 e2 : Endpoint) (bs : list ByteBox) (vs : list Value) : Prop := {
  ch_facing : facing e1 e2;
  ch_carries : Forall2 (carries e1 e2) bs vs;
  ch_sorted : StronglySorted Z.lt (map box_csn bs);
  ch_bounds : ∃ prev, csn_theirs (e_csn e2) = Some prev
    ∧ combined_sequence_number prev ≤ csn_number (csn_ours (e_csn e1))
    ∧ Forall (λ b, combined_sequence_number prev < box_csn b
        ≤ csn_number (csn_ours (e_csn e1))) bs;
}.

Lemma channel_send e1 e2 bs vs b v ours' : channel e1 e2 bs vs → drawn e1 ours' (bbox_nonce b) →
  carries e1 e2 b v → channel (e_advance ours' e1) e2 (bs ++ [b]) (vs ++ [v]).
Proof.
  intros [Hf Hc Hs (prev & Hp & Hle & Hb)] [Hn Hcsn] Hv.
  assert (box_csn b = csn_number ours') as Hbc by (unfold box_csn; by rewrite Hn).
  split; [by destruct Hf; split| | |].
  - apply Forall2_app; [|constructor; [by destruct Hv; split|constructor]]. eapply Forall2_impl; [exact Hc|].
    intros ? ? []. by split.
  - rewrite map_app. apply StronglySorted_app_2; [|done|by repeat constructor].
    intros x y Hx Hy. apply list_elem_of_fmap in Hx as (b' & -> & Hb').
    apply list_elem_of_fmap in Hy as (b'' & -> & ->%list_elem_of_singleton).
    rewrite Forall_forall in Hb. specialize (Hb b' Hb'). lia.
  - exists prev. split_and!; [done|simpl; lia|]. apply Forall_app. split.
    + eapply Forall_impl; [exact Hb|]. simpl. intros. lia.
    + repeat constructor; simpl; lia.
Qed.
Lemma channel_recv e1 e2 b bs v vs : channel e1 e2 (b :: bs) (v :: vs) →
  fresh_nonce e2 (bbox_nonce b) ∧ carries e1 e2 b v
  ∧ channel e1 (e_accept (nonce_csn (bbox_nonce b)) e2) bs vs.
Proof.
  intros [Hf Hc Hs (prev & Hp & Hle & Hb)]. inversion Hc as [|? ? ? ? Hv Hc']; subst.
  inversion Hs as [|? ? Hs' Hlt]; subst. inversion Hb as [|? ? Hpb Hb']; subst.
  split_and!; [|done|].
  - destruct Hv, Hf. split; [congruence..|]. rewrite Hp. unfold box_csn in Hpb. lia.
  - split; [by destruct Hf; split| |done|].
    + eapply Forall2_impl; [exact Hc'|]. intros ? ? []. by split.
    + exists (nonce_csn (bbox_nonce b)). split_and!; [done|unfold box_csn in Hpb; lia|].
      rewrite Forall_map in Hlt. rewrite Forall_forall in *. intros b' Hin.
      specialize (Hlt b' Hin). specialize (Hb' b' Hin). unfold box_csn in *. lia.
Qed.
(** Traffic in the other direction does not matter. *)
Lemma channel_sender_accepts e1 e2 bs vs theirs : channel e1 e2 bs vs →
  channel (e_accept theirs e1) e2 bs vs.
Proof.
  intros [Hf Hc Hs Hb]. split; [by destruct Hf; split| |done|done].
  eapply Forall2_impl; [exact Hc|]. intros ? ? []. by split.
Qed.
Lemma channel_receiver_advances e1 e2 bs vs ours : channel e1 e2 bs vs →
  channel e1 (e_advance ours e2) bs vs.
Proof.
  intros [Hf Hc Hs Hb]. split; [by destruct Hf; split| |done|done].
  eapply Forall2_impl; [exact Hc|]. intros ? ? []. by split.
Qed.

(** What either end seals for the other is carried. *)
Lemma drawn_wf e n ours' : wf_endpoint e → wf_csn ours' → drawn e ours' n → wf_nonce n.
Proof. intros [] Hw [-> _]. destruct we_cookies0. by split_and!. Qed.

Lemma value_carries e1 e2 ours' v b : facing e1 e2 → wf_endpoint e1 → wf_endpoint e2 → wf_csn ours' →
  wf_value v = true → drawn e1 ours' (bbox_nonce b) →
  value_encrypt (E := SignalingError) (mkOpenBox v (bbox_nonce b)) (e_keypair e1) (e_session e1) = Ok b →
  carries e1 e2 b v.
Proof.
  intros Hf He1 He2 Hw Hv Hd He. pose proof (drawn_wf _ _ _ He1 Hw Hd) as Hn.
  destruct (value_encrypt_decrypt (E := SignalingError) (e_keypair e1) (e_keypair e2) v (bbox_nonce b)
    (we_keypair _ He1) (we_keypair _ He2) Hv) as (b' & He' & _ & Hopen).
  rewrite <- (fa_session1 _ _ Hf), He in He'. injection He' as <-.
  rewrite <- (fa_session2 _ _ Hf) in Hopen.
  destruct Hd as [Hd _]. split; try done; try (by rewrite Hd). by apply value_encrypt_payload in He.
Qed.
Lemma close_carries e1 e2 ours' c b : facing e1 e2 → wf_endpoint e1 → wf_endpoint e2 → wf_csn ours' →
  drawn e1 ours' (bbox_nonce b) → u16 (CloseCode.as_number c) →
  obox_encrypt (E := SignalingError) (mkOpenBox (Message.Close (close_from_close_code c)) (bbox_nonce b))
    (e_keypair e1) (e_session e1) = Ok b →
  carries e1 e2 b (close_value (CloseCode.as_number c)).
Proof.
  intros Hf He1 He2 Hw Hd Hc He. pose proof (drawn_wf _ _ _ He1 Hw Hd) as Hn.
  pose proof (obox_encrypt_payload _ _ _ _ He) as Hp. unfold obox_encrypt in He.
  destruct (to_msgpack_total (Message.Close (close_from_close_code c))) as (bs & Hbs & Hto).
  simpl in He. rewrite Hto in He. simpl in He. injection He as Hb.
  destruct Hd as [Hd _]. split; try done; try (by rewrite Hd).
  unfold value_decrypt. rewrite <- Hb at 1. simpl. rewrite (fa_session1 _ _ Hf), (fa_session2 _ _ Hf).
  rewrite keypair_roundtrip by (apply we_keypair; done). simpl.
  by rewrite (rmps_close_as_value (CloseCode.as_number c) bs Hc Hbs).
Qed.

(** Each box survives the wire. *)
Lemma carries_wire e1 e2 b v : carries e1 e2 b v →
  byte_box_from_slice (byte_box_into_bytes b) = Ok b.
Proof. intros []. by apply byte_box_roundtrip. Qed.
End link.

(** ** The two roles *)

Section roles.
Context {T : Type} `{!Task T}.
Context `{!ByteOrder, !Sodium, !SodiumLaws, !Rmps, !RmpsLaws, !Env, !EnvLaws}.

#[export] Instance initiator_channel_end : ChannelEnd T (InitiatorSignaling T) initiator_inv.
Proof.
  split. intros s HI Hst. simpl. unfold is_get_peer.
  pose proof (ii_chosen _ _ HI) as Hch. destruct (is_responder s) as [r|] eqn:Hr; [|done].
  destruct Hch as [_ [_ Hrange Hw Hkp Hk Hck]].
  assert (c_identity (is_common s) = ClientIdentity.Initiator) as Hi.
  { pose proof (ss_common s HI) as [_ _ _ _ Hid Hfit _]. simpl in *.
    rewrite (ii_role _ _ HI) in Hfit. specialize (Hid ltac:(by rewrite Hst)).
    by destruct (c_identity (is_common s)). }
  assert (peer_address r = rsp_address r) as Ha.
  { unfold peer_address. simpl. rewrite bool_decide_eq_true_2 by lia. by destruct (rsp_address r). }
  split; rewrite ?Ha.
  - simpl. unfold is_get_peer_with_address_mut. rewrite identity_from_responder by lia.
    rewrite bool_decide_eq_true_2, Hr by done. simpl. rewrite bool_decide_eq_true_2 by lia. simpl.
    rewrite bool_decide_eq_true_2; [done|]. by destruct (rsp_address r).
  - unfold Address.is_server. apply bool_decide_eq_false_2. lia.
  - unfold wf_address. unwidth. lia.
  - done.
  - intros n w Hn. change (is_validate_nonce_destination n s w = (Ok tt, s, w)).
    unfold is_validate_nonce_destination, identity in *. mred. rewrite Hi. simpl.
    rewrite Hn. unfold own_address, identity. simpl. rewrite Hi. by mred.
  - intros n w Hn. change (is_validate_nonce_source n s w = (Ok tt, s, w)).
    unfold is_validate_nonce_source, identity. rewrite Hn. mred. rewrite Hi.
    destruct (addr (rsp_address r)) as [|[q|q|]|]; try lia; by mred.
Qed.

#[export] Instance responder_channel_end : ChannelEnd T (ResponderSignaling T) responder_state_inv.
Proof.
  split. intros s HI Hst. simpl.
  assert (∃ a, c_identity (rs_common s) = ClientIdentity.Responder a ∧ 2 ≤ a < 256) as (a & Hi & Ha).
  { pose proof (ss_common s HI) as [_ _ _ _ Hid Hfit _]. simpl in *.
    rewrite (rs_inv_role _ HI) in Hfit. specialize (Hid ltac:(by rewrite Hst)).
    destruct (c_identity (rs_common s)) as [| |a]; [done..|]. by exists a. }
  assert (peer_address (rs_initiator s) = mkAddress 1) as Hp by done. split; rewrite ?Hp.
  - done.
  - done.
  - unfold wf_address. simpl. unwidth. lia.
  - apply (rs_inv_keypair _ HI).
  - intros n w Hn. change (rs_validate_nonce_destination n s w = (Ok tt, s, w)).
    unfold rs_validate_nonce_destination, identity in *. mred. rewrite Hi. simpl.
    rewrite Hn. unfold own_address, identity. simpl. rewrite Hi. simpl.
    rewrite bool_decide_eq_true_2 by lia. mred.
    rewrite bool_decide_eq_false_2 by (intros Hne; by apply Hne). done.
  - intros n w Hn. change (rs_validate_nonce_source n s w = (Ok tt, s, w)).
    unfold rs_validate_nonce_source, identity. rewrite Hn. mred. by rewrite Hi.
Qed.
End roles.
