(* ===== verification/Handshake.v ===== *)
(** * A complete handshake, executed

    An initiator and a responder, joined by a scripted server, run from their
    constructors to the task phase and exchange a task message.  The run uses
    the reference instances of the external code; it shows that the states the
    theorems speak about are reached, and supplies the concrete states their
    witnesses start from. *)

From S2P Require Import Prelude Text External Errors Types Csn Cookie Nonce Crypto Tasks Messages.
From S2P Require Import ReferenceCodec Boxes Context Signaling SignalingSpec SignalingSafe Runs.
From S2P Require Import Initiator InitiatorSafe Responder ResponderSafe.
Import Reference ReferenceCodec.

Module Handshake.

Definition key_pair (b : Z) : KeyPair :=
  mkKeyPair (mkPublicKey (replicate 32 b)) (mkPrivateKey (replicate 32 b)).

Definition initiator_keys : KeyPair := key_pair 10.
Definition responder_keys : KeyPair := key_pair 20.
Definition server_keys : KeyPair := key_pair 30.
Definition server_cookie : Cookie := mkCookie (replicate 16 99).

Abbreviation istate := (InitiatorSignaling string).
Abbreviation rstate := (ResponderSignaling string).

(** ** The two clients *)

Definition initiator_run :=
  initiator_signaling_new (T := string) (S := unit) (E := SignalingError)
    initiator_keys (mkTasks ["webrtc"; "chat"]) None None None tt 0.
Definition token : AuthToken :=
  match initiator_run with
  | (Ok s, _, _) => default (mkAuthToken (mkSecretKey [])) (auth_token s)
  | _ => mkAuthToken (mkSecretKey [])
  end.
Definition responder_run :=
  responder_signaling_new (T := string) (S := unit) (E := SignalingError)
    responder_keys (public_key initiator_keys) (Some token) None (mkTasks ["chat"; "relay"]) None
    tt 100.

(** ** The network *)

(** A box from the server, in clear or sealed with its session key. *)
Definition server_nonce (dst csn : Z) : Nonce :=
  mkNonce server_cookie (mkAddress 0) (mkAddress dst) (mkCombinedSequenceSnapshot 0 csn).
Definition clear_box (m : Message) (dst csn : Z) : outcome SignalingError ByteBox :=
  obox_encode (mkOpenBox m (server_nonce dst csn)).
Definition sealed_box (m : Message) (dst csn : Z) (client : KeyPair)
    : outcome SignalingError ByteBox :=
  obox_encrypt (mkOpenBox m (server_nonce dst csn)) server_keys (public_key client).

(** Deliver a box to a client; the boxes it answers with. *)
Definition deliver {T S} `{!Task T, !Signaling T S} (b : outcome SignalingError ByteBox)
    (c : outcome SignalingError S * env) : outcome SignalingError (S * list HandleAction) * env :=
  match b, c with
  | Ok b, (Ok s, w) =>
      match handle_message b s w with
      | (Ok actions, s', w') => (Ok (s', actions), w')
      | (Err e, _, w') => (Err e, w')
      | (Panic m, _, w') => (Panic m, w')
      end
  | Err e, (_, w) => (Err e, w)
  | Panic m, (_, w) => (Panic m, w)
  | _, (Err e, w) => (Err e, w)
  | _, (Panic m, w) => (Panic m, w)
  end.
Definition state_of {S A} (r : outcome SignalingError (S * A) * env) : outcome SignalingError S * env :=
  (fst <$> r.1, r.2).
Definition actions_of {S} (r : outcome SignalingError (S * list HandleAction) * env)
    : list HandleAction := match r.1 with Ok (_, a) => a | _ => [] end.
Definition reply (n : nat) {S} (r : outcome SignalingError (S * list HandleAction) * env)
    : outcome SignalingError ByteBox :=
  ok_or (replies (actions_of r) !! n) (SignalingError.Crash "no such reply").

(** The cookie a client uses towards the server, to be repeated to it. *)
Definition our_server_cookie {T S} `{!SignalingBase T S} (c : outcome SignalingError S * env)
    : Cookie :=
  match c.1 with Ok s => cookie_ours (srv_cookie_pair (server s)) | _ => server_cookie end.

(** ** The run *)

Definition i0 : outcome SignalingError istate * env := (out initiator_run, world_of initiator_run).
Definition r0 : outcome SignalingError rstate * env := (out responder_run, world_of responder_run).

Definition server_hello : Message := Message.ServerHello (mkServerHello (public_key server_keys)).

(** The initiator's server handshake. *)
Definition i1 := deliver (clear_box server_hello 0 1) i0.
Definition i2 := deliver (sealed_box (Message.ServerAuth (mkServerAuth
  (our_server_cookie (state_of i1)) None (Some []) None)) 1 2 initiator_keys) (state_of i1).

(** The responder's server handshake: it sends its token and key. *)
Definition r1 := deliver (clear_box server_hello 0 1) r0.
Definition r2 := deliver (sealed_box (Message.ServerAuth (mkServerAuth
  (our_server_cookie (state_of r1)) None None (Some true))) 2 2 responder_keys) (state_of r1).

(** The peer handshake. *)
Definition i3 := deliver (sealed_box (Message.NewResponder (mkNewResponder (mkAddress 2))) 1 3
  initiator_keys) (state_of i2).
Definition i4 := deliver (reply 0 r2) (state_of i3).
Definition i5 := deliver (reply 1 r2) (state_of i4).
Definition r3 := deliver (reply 0 i5) (state_of r2).
Definition i6 := deliver (reply 0 r3) (state_of i5).
Definition r4 := deliver (reply 0 i6) (state_of r3).

(** A task message in each direction. *)
Definition send {S} `{!Signaling string S} (v : Value) (c : outcome SignalingError S * env)
    : outcome SignalingError ByteBox :=
  match c with
  | (Ok s, w) => out (encode_task_message v s w)
  | (Err e, _) => Err e
  | (Panic m, _) => Panic m
  end.
Definition greeting : Value := Value.Map
  [(Value.from_string "type", Value.from_string "candidates");
   (Value.from_string "n", Value.Integer 7)].
Definition greeted_responder := deliver (send greeting (state_of i6)) (state_of r4).
Definition greeted_initiator := deliver (send greeting (state_of r4)) (state_of i6).

(** A second responder joins after the token has been used. *)
Definition i4b := deliver (sealed_box (Message.NewResponder (mkNewResponder (mkAddress 3))) 1 4
  initiator_keys) (state_of i4).

(** An initiator that trusts a key, with two responders on its path. *)
Definition trusting_run :=
  initiator_signaling_new (T := string) (S := unit) (E := SignalingError)
    initiator_keys (mkTasks ["chat"]) (Some (public_key responder_keys)) None None tt 0.
Definition t0 : outcome SignalingError istate * env := (out trusting_run, world_of trusting_run).
Definition t1 := deliver (clear_box server_hello 0 1) t0.
Definition t2 := deliver (sealed_box (Message.ServerAuth (mkServerAuth
  (our_server_cookie (state_of t1)) None (Some [mkAddress 2; mkAddress 3]) None)) 1 2
  initiator_keys) (state_of t1).

(** A responder that trusts the initiator's key, up to the key message. *)
Definition trusting_responder_run :=
  responder_signaling_new (T := string) (S := unit) (E := SignalingError)
    responder_keys (public_key initiator_keys) None None (mkTasks ["chat"]) None tt 100.
Definition q0 : outcome SignalingError rstate * env :=
  (out trusting_responder_run, world_of trusting_responder_run).
Definition q1 := deliver (clear_box server_hello 0 1) q0.
Definition q2 := deliver (sealed_box (Message.ServerAuth (mkServerAuth
  (our_server_cookie (state_of q1)) None None (Some true))) 2 2 responder_keys) (state_of q1).
Definition t3 := deliver (reply 0 q2) (state_of t2).
Definition q3 := deliver (reply 0 t3) (state_of q2).
Definition t4 := deliver (reply 0 q3) (state_of t3).
Definition q4 := deliver (reply (length (replies (actions_of t4)) - 1) t4) (state_of q3).

(** ** Concrete states

    The states of the run, for the theorems that need one. *)

Definition default_context : ServerContext :=
  mkServerContext ServerHandshakeState.New None None
    (mkCombinedSequencePair (mkCombinedSequence 0 0) None) (mkCookiePair server_cookie None).
Definition default_common {T} (r : Role) : Common T :=
  mkCommon SignalingState.ServerHandshake initiator_keys None r ClientIdentity.Unknown
    default_context None None None None.
Definition get_initiator {T} (c : outcome SignalingError (InitiatorSignaling T) * env)
    : InitiatorSignaling T :=
  match c.1 with
  | Ok s => s
  | _ => mkInitiatorSignaling (default_common Role.Initiator) ∅ None responder_counter_new
  end.
Definition get_responder {T} (c : outcome SignalingError (ResponderSignaling T) * env)
    : ResponderSignaling T :=
  match c.1 with
  | Ok s => s
  | _ => mkResponderSignaling (default_common Role.Responder)
      (mkInitiatorContext InitiatorHandshakeState.New (public_key initiator_keys) None
        responder_keys (mkCombinedSequencePair (mkCombinedSequence 0 0) None)
        (mkCookiePair server_cookie None))
  end.
Definition get_box (b : outcome SignalingError ByteBox) : ByteBox :=
  match b with Ok b => b | _ => mkByteBox [] (server_nonce 0 0) end.

(** ** The outcome *)

(** What the two applications see of the run. *)
Definition summary {S} `{!SignalingBase string S} (c : outcome SignalingError S * env)
    : option (SignalingState * option string) :=
  match c.1 with
  | Ok s => Some (c_signaling_state (common s), c_task (common s))
  | _ => None
  end.

(** ** The states of the run are reachable *)

Definition good {S} (P : S → Prop) (c : outcome SignalingError S * env) : Prop :=
  match c.1 with Ok s => P s | _ => True end.

(** Delivering a box is a step. *)
Lemma deliver_good {T S} `{!Task T, !Signaling T S} (P : S → Prop) b c :
  (∀ s s', step s s' → P s → P s') → wf_nonce (bbox_nonce (get_box b)) → good P c →
  good P (state_of (deliver b c)).
Proof.
  unfold good, deliver. intros HP Hn Hc. destruct b as [b|e|m], c as [[s|e'|m'] w]; try done.
  cbn [fst get_box] in *. specialize (HP s _ (step_message s b w Hn) Hc). unfold post in HP.
  by destruct (handle_message b s w) as [[[acts|e|m] s'] w'].
Qed.

Lemma good_i0 : good initiator_reachable i0.
Proof.
  unfold good, i0. cbn [fst]. destruct (out initiator_run) as [s|e|m] eqn:Hr; [|done..].
  exists s. split; [|done]. unfold initiator_run in Hr. do 6 eexists. exact Hr.
Qed.
Lemma good_r0 : good responder_reachable r0.
Proof.
  unfold good, r0. cbn [fst]. destruct (out responder_run) as [s|e|m] eqn:Hr; [|done..].
  exists s. split; [|done]. unfold responder_run in Hr. do 7 eexists. exact Hr.
Qed.

(** A computed key pair is one. *)
Ltac by_keypair := split; [apply (@bool_decide_unpack _ (wf_array_dec _ _))|]; by vm_compute.
Ltac delivered := apply deliver_good;
  [apply initiator_reachable_step || apply responder_reachable_step|by_compute|].
Lemma good_i1 : good initiator_reachable (state_of i1). Proof. delivered. apply good_i0. Qed.
Lemma good_i2 : good initiator_reachable (state_of i2). Proof. delivered. apply good_i1. Qed.
Lemma good_i3 : good initiator_reachable (state_of i3). Proof. delivered. apply good_i2. Qed.
Lemma good_i4 : good initiator_reachable (state_of i4). Proof. delivered. apply good_i3. Qed.
Lemma good_i5 : good initiator_reachable (state_of i5). Proof. delivered. apply good_i4. Qed.
Lemma good_i6 : good initiator_reachable (state_of i6). Proof. delivered. apply good_i5. Qed.
Lemma good_r1 : good responder_reachable (state_of r1). Proof. delivered. apply good_r0. Qed.
Lemma good_r2 : good responder_reachable (state_of r2). Proof. delivered. apply good_r1. Qed.
Lemma good_r3 : good responder_reachable (state_of r3). Proof. delivered. apply good_r2. Qed.
Lemma good_r4 : good responder_reachable (state_of r4). Proof. delivered. apply good_r3. Qed.

Lemma good_i4b : good initiator_reachable (state_of i4b). Proof. delivered. apply good_i4. Qed.

Lemma good_t0 : good initiator_reachable t0.
Proof.
  unfold good, t0. cbn [fst]. destruct (out trusting_run) as [s|e|m] eqn:Hr; [|done..].
  exists s. split; [|done]. unfold trusting_run in Hr. do 6 eexists. exact Hr.
Qed.
Lemma good_t1 : good initiator_reachable (state_of t1). Proof. delivered. apply good_t0. Qed.
Lemma good_t2 : good initiator_reachable (state_of t2). Proof. delivered. apply good_t1. Qed.
Lemma good_q0 : good responder_reachable q0.
Proof.
  unfold good, q0. cbn [fst]. destruct (out trusting_responder_run) as [s|e|m] eqn:Hr; [|done..].
  exists s. split; [|done]. unfold trusting_responder_run in Hr. do 7 eexists. exact Hr.
Qed.
Lemma good_q1 : good responder_reachable (state_of q1). Proof. delivered. apply good_q0. Qed.
Lemma good_q2 : good responder_reachable (state_of q2). Proof. delivered. apply good_q1. Qed.
Lemma good_q3 : good responder_reachable (state_of q3). Proof. delivered. apply good_q2. Qed.
Lemma good_q4 : good responder_reachable (state_of q4). Proof. delivered. apply good_q3. Qed.

Lemma get_initiator_reachable {T} `{!Task T} (c : outcome SignalingError (InitiatorSignaling T) * env) :
  is_ok c.1 = true → good initiator_reachable c →
  initiator_reachable (get_initiator c).
Proof. unfold good, get_initiator. by destruct c.1. Qed.
Lemma get_responder_reachable {T} `{!Task T} (c : outcome SignalingError (ResponderSignaling T) * env) :
  is_ok c.1 = true → good responder_reachable c →
  responder_reachable (get_responder c).
Proof. unfold good, get_responder. by destruct c.1. Qed.

Lemma get_initiator_inv {T} `{!Task T} (c : outcome SignalingError (InitiatorSignaling T) * env) :
  is_ok c.1 = true → good initiator_reachable c →
  initiator_inv (get_initiator c).
Proof. intros. by apply initiator_reachable_inv, get_initiator_reachable. Qed.
Lemma get_responder_inv {T} `{!Task T} (c : outcome SignalingError (ResponderSignaling T) * env) :
  is_ok c.1 = true → good responder_reachable c →
  responder_state_inv (get_responder c).
Proof. intros. by apply responder_reachable_inv, get_responder_reachable. Qed.
End Handshake.
