(* ===== verification/InitiatorProps.v ===== *)
(** * Properties of the initiator

    The functional behaviour of the initiator's handlers on every branch: the
    outcome of the auth message, path cleaning, the registration of responders
    after the server handshake, and the behaviours that differ from the
    documentation. *)

From S2P Require Import Prelude Text External Errors Types Csn Cookie Nonce Crypto Tasks Messages.
From S2P Require Import ReferenceCodec Boxes Context Signaling SignalingSpec SignalingSafe Runs.
From S2P Require Import Initiator InitiatorSafe Responder ResponderSafe Handshake.

#[local] Set Warnings "-clear-no-such-hyp".

(** Replacing an entry adds its key. *)
Lemma dom_insert_delete_L {V} (m : gmap Address V) a v :
  dom (<[a := v]> (delete a m)) = {[a]} ∪ dom m.
Proof.
  rewrite dom_insert_L, dom_delete_L. apply set_eq. intros b.
  rewrite !elem_of_union, elem_of_difference, elem_of_singleton. destruct (decide (b = a)); tauto.
Qed.

Section outcomes.
Context {T : Type} `{!Task T}.
Context `{!ByteOrder, !Sodium, !SodiumLaws, !Rmps, !RmpsLaws, !Env, !EnvLaws}.
Implicit Types s : InitiatorSignaling T.

(** ** The auth message *)

(** The message that tells the server to drop a responder. *)
Definition drop_notice (c : Common T) (a : Address) (b : ByteBox) : Prop := ∃ sk,
  srv_session_key (c_server c) = Some sk ∧ nonce_destination (bbox_nonce b) = mkAddress 0
  ∧ sealed_with (WithKeys (c_permanent_keypair c) sk) (AMessage (Message.DropResponder
      (drop_responder_with_reason a DropReason.DroppedByInitiator))) b.

(** One such message per address of the loop. *)
Lemma mfor_drops l : ∀ acc s, initiator_inv s →
  wp (mfor (λ acc a, drop_responder ← send_drop_responder a DropReason.DroppedByInitiator;
      mret (acc ++ [drop_responder])) acc l) s (λ o _, match o with
    | Ok drops => ∃ bs, drops = acc ++ map HandleAction.Reply bs ∧ Forall2 (drop_notice (is_common s)) l bs
    | _ => True
    end).
Proof.
  induction l as [|a l IH]; intros acc s HI; simpl.
  { wp_step. exists []. by rewrite app_nil_r. }
  wp_step. wp_step. eapply wp_mono; [apply wp_and; [by apply (send_drop_responder_sealed initiator_inv)|
    exact (draws_quiet _ _ s (send_drop_responder_draws initiator_inv _ _) HI)]|].
  intros [act|e|m] s1 [Hs Hq]; [|done..]. destruct Hs as (b & -> & sk & src & ours' & Hsk & -> & _ & Hn & Hb).
  repeat wp_step. eapply wp_mono; [apply IH, Hq|]. intros [drops|e|m] s2; [|done..].
  intros (bs & -> & Hl). exists (b :: bs). rewrite <- app_assoc. split; [done|]. constructor; [|exact Hl].
  exists sk. split_and!; [done|by rewrite Hn|exact Hb].
Qed.

Lemma drop_other_responders_spec s : initiator_inv s →
  wp drop_other_responders s (λ o s', match o with
    | Ok drops => is_responders s' = ∅ ∧ ∃ addrs bs, drops = map HandleAction.Reply bs
        ∧ addrs ≡ₚ elements (dom (is_responders s)) ∧ Forall2 (drop_notice (is_common s)) addrs bs
    | _ => True
    end).
Proof.
  intros HI. unfold drop_other_responders. do 4 wp_step.
  { apply bool_decide_eq_true in Hb. wp_step. rewrite Hb. split; [done|].
    exists [], []. by rewrite dom_empty_L, elements_empty. }
  do 4 wp_step. eapply wp_mono; [by apply mfor_drops|]. intros [drops|e|m] s1; [|done..].
  intros (bs & -> & Hl). repeat wp_step. split; [done|]. eexists _, bs. split_and!; [done| |exact Hl].
  apply hash_order_perm.
Qed.

(** A task is shared: [t] is the first of the initiator's tasks that the
    responder proposes.  It is initialized with the responder's data for it and
    takes over; each other responder is dropped, and the responder at [source],
    which becomes the peer, gets the auth message. *)
Definition task_agreed (msg : Auth) (source : Address) (r : ResponderContext) (ts : Tasks T)
    (proposed : list string) s (acts : list HandleAction) (s' : InitiatorSignaling T) : Prop :=
  ∃ before t after data t' addrs drops auth cookie sk r',
    tasks_vec ts = before ++ t :: after ∧ task_name t ∈ proposed
    ∧ Forall (λ t, task_name t ∉ proposed) before
    ∧ auth_data msg !! task_name t = Some data ∧ task_init data t = (inl tt, t')
    ∧ acts = map HandleAction.Reply drops ++ [HandleAction.Reply auth; HandleAction.HandshakeDone]
    ∧ addrs ≡ₚ elements (dom (is_responders s) ∖ {[source]})
    ∧ Forall2 (drop_notice (is_common s)) addrs drops
    ∧ cookie_theirs (rsp_cookie_pair r) = Some cookie ∧ rsp_session_key r = Some sk
    ∧ nonce_destination (bbox_nonce auth) = source
    ∧ sealed_with (WithKeys (rsp_keypair r) sk) (AMessage (Message.Auth
        (mkAuth cookie None (Some (task_name t')) {[task_name t' := task_data t']}))) auth
    ∧ c_signaling_state (is_common s') = SignalingState.Task
    ∧ c_task (is_common s') = Some t' ∧ is_responders s' = ∅
    ∧ is_responder s' = Some r' ∧ rsp_address r' = source ∧ rsp_keypair r' = rsp_keypair r
    ∧ rsp_session_key r' = Some sk.

(** No task is shared: the handshake fails, and the responder is told with a
    close message if one can be sealed. *)
Definition no_task_agreed (source : Address) (r : ResponderContext) (ts : Tasks T)
    (proposed : list string) s (acts : list HandleAction) (s' : InitiatorSignaling T) : Prop :=
  Forall (λ t, task_name t ∉ proposed) (tasks_vec ts)
  ∧ c_signaling_state (is_common s') = c_signaling_state (is_common s)
  ∧ is_responders s' = delete source (is_responders s)
  ∧ ∃ close, acts = map HandleAction.Reply close ++ [HandleAction.HandshakeError SaltyError.NoSharedTask]
    ∧ (close = [] ∨ ∃ b sk, close = [b] ∧ rsp_session_key r = Some sk
      ∧ nonce_destination (bbox_nonce b) = source
      ∧ sealed_with (WithKeys (rsp_keypair r) sk)
          (AMessage (Message.Close (close_from_close_code CloseCode.NoSharedTask))) b).

Definition auth_outcome (msg : Auth) (source : Address) s (acts : list HandleAction)
    (s' : InitiatorSignaling T) : Prop :=
  ∃ r ts proposed, is_responders s !! source = Some r
  ∧ auth_your_cookie msg = cookie_ours (rsp_cookie_pair r)
  ∧ c_tasks (is_common s) = Some ts ∧ check_auth_fields msg = Ok proposed
  ∧ (task_agreed msg source r ts proposed s acts s' ∨ no_task_agreed source r ts proposed s acts s').

Lemma is_finish_auth_spec r t s : initiator_inv s →
  c_signaling_state (is_common s) = SignalingState.PeerHandshake →
  wp (is_finish_auth r t) s (λ o s', match o with
    | Ok acts => ∃ addrs drops auth cookie sk r',
        acts = map HandleAction.Reply drops ++ [HandleAction.Reply auth; HandleAction.HandshakeDone]
        ∧ addrs ≡ₚ elements (dom (is_responders s)) ∧ Forall2 (drop_notice (is_common s)) addrs drops
        ∧ cookie_theirs (rsp_cookie_pair r) = Some cookie ∧ rsp_session_key r = Some sk
        ∧ nonce_destination (bbox_nonce auth) = rsp_address r
        ∧ sealed_with (WithKeys (rsp_keypair r) sk) (AMessage (Message.Auth
            (mkAuth cookie None (Some (task_name t)) {[task_name t := task_data t]}))) auth
        ∧ c_signaling_state (is_common s') = SignalingState.Task
        ∧ c_task (is_common s') = Some t ∧ is_responders s' = ∅
        ∧ is_responder s' = Some r' ∧ rsp_address r' = rsp_address r ∧ rsp_keypair r' = rsp_keypair r
        ∧ rsp_session_key r' = Some sk
    | _ => True
    end).
Proof.
  intros HI Hst. unfold is_finish_auth. wp_step.
  eapply wp_mono; [apply wp_and; [by apply drop_other_responders_spec|
    by apply drop_other_responders_quiet]|].
  intros [drops|e|m] s1; [|done..]. intros [(Hemp & addrs & bs & -> & Ha & Hbs) (_ & Hst1 & _)].
  repeat wp_step; [|done]. rewrite initiator_auth_spec. repeat wp_step.
  destruct (ClientIdentity.address_from_client_identity _) as [src|e|m]; [|done..]. repeat wp_step.
  destruct (peer_increment _) as [[csn|e|m] r1] eqn:Hinc; repeat wp_step; try done.
  wp_seal. repeat wp_step. destruct (set_signaling_state _ _) as [[[]|e|m] com] eqn:Hss;
    repeat wp_step; try done.
  unfold set_signaling_state in Hss. simpl in *. rewrite Hst1, Hst in Hss.
  rewrite bool_decide_eq_false_2 in Hss by done. injection Hss as <-.
  unfold peer_increment in Hinc. destruct (increment _) as [? ?]. injection Hinc as _ <-. simpl in *.
  eexists addrs, bs, bbox, _, _, _. by rewrite Hnonce; split_and!.
Qed.

(** The close message for a responder. *)
Lemma seal_close_spec c id r b : wf_peer r → 2 ≤ addr (rsp_address r) < 256 →
  (∃ src, ∀ E, ClientIdentity.address_from_client_identity (E := E) id = Ok src) →
  (seal_close c id r).1 = Ok b → ∃ sk, rsp_session_key r = Some sk
  ∧ nonce_destination (bbox_nonce b) = rsp_address r
  ∧ sealed_with (WithKeys (rsp_keypair r) sk) (AMessage (Message.Close (close_from_close_code c))) b.
Proof.
  intros Hw Ha [src Hsrc].
  destruct (next_peer_nonce_cases id r src (rsp_address r) Hw Hsrc (responder_identity r Ha))
    as (ours' & _ & Hp & Hd). unfold seal_close.
  destruct (next_peer_nonce id r) as [[n|e|m] r']; simpl in *; [|done..].
  destruct (rsp_session_key r) as [k|]; [|done]. simpl.
  destruct (obox_encrypt_total (E := SignalingError) (mkOpenBox (Message.Close
    (close_from_close_code c)) n) (rsp_keypair r) k) as (b' & Hb & Hn).
  rewrite Hb. intros [= ->]. exists k. simpl in Hn. rewrite Hn. destruct Hd as [-> _]. by split_and!.
Qed.

Lemma is_handle_auth_spec msg source s : initiator_inv s →
  c_signaling_state (is_common s) = SignalingState.PeerHandshake →
  wp (is_handle_auth msg source) s (λ o s', match o with
    | Ok acts => auth_outcome msg source s acts s'
    | _ => True
    end).
Proof.
  intros HI Hst. unfold is_handle_auth. repeat wp_step; [|done].
  pose proof (inv_delete source s HI) as HI1. pose proof (inv_lookup _ _ _ HI Ho) as Hr.
  unfold validate_repeated_cookie. case_bool_decide as Hck; [done|]. repeat wp_step.
  destruct (check_auth_fields msg) as [proposed|e|m] eqn:Hcheck; repeat wp_step; try done.
  pose proof (choose_from_spec (tasks_vec t) proposed) as Hch. fold (choose_shared_task t proposed) in Hch.
  destruct (choose_shared_task t proposed) as [chosen|].
  - destruct Hch as (before & after & Hts & Hin & Hbef).
    repeat wp_step; [|done]. destruct (task_init o chosen) as [[[]|e] chosen'] eqn:Hinit;
      [|by repeat wp_step].
    eapply wp_mono; [apply is_finish_auth_spec; [by apply inv_with_tasks|done]|].
    intros [acts|e|m] s'; [|done..]. intros (addrs & drops & auth & cookie & sk & r' & Hacts & Ha & Hrest).
    rewrite (ri_address _ _ _ Hr) in Hrest. exists r, t, proposed. split_and!; [done..|].
    left. exists before, chosen, after, o, chosen', addrs, drops, auth, cookie, sk, r'.
    simpl in Ha. rewrite dom_delete_L in Ha. destruct_and! Hrest. by split_and!.
  - destruct (seal_close _ _ _) as [[b|e|m] r'] eqn:Hsc; repeat wp_step; try done;
      exists r, t, proposed; (split_and!; [done..|]); right;
      (split_and!; [done..|]); [exists [b]; split; [done|right]|exists []; split; [done|by left]].
    destruct (seal_close_spec CloseCode.NoSharedTask (identity s) r b) as (sk & Hsk & Hd & Hb).
    { apply (ri_wf _ _ _ Hr). }
    { rewrite (ri_address _ _ _ Hr). apply (ri_range _ _ _ Hr). }
    { apply identity_address, HI. }
    { by rewrite Hsc. }
    exists b, sk. rewrite (ri_address _ _ _ Hr) in Hd. by split_and!.
Qed.

(** ** Path cleaning *)

Lemma drop_oldest_spec k s : initiator_upto (S k) s → (k ≤ 252)%nat →
  wp drop_oldest_inactive_responder s (λ o s', match o with
    | Ok None => s' = s ∧ ∀ a r, is_responders s !! a = Some r →
        rsp_handshake_state r ≠ ResponderHandshakeState.New
    | Ok (Some act) => ∃ a b, act = HandleAction.Reply b ∧ oldest_inactive (is_responders s) a
        ∧ is_responders s' = delete a (is_responders s)
        ∧ sealed_for_server (Message.DropResponder (drop_responder_with_reason a
            DropReason.DroppedByInitiator))
            (is_set_responders (delete a (is_responders s)) s) s' b
    | Err _ => ∃ a, oldest_inactive (is_responders s) a
        ∧ is_responders s' = delete a (is_responders s)
    | Panic _ => False
    end).
Proof.
  intros HI Hk. unfold drop_oldest_inactive_responder. repeat wp_step.
  pose proof (drop_candidate_spec _ _ _ w (ii_table _ s HI)) as Hc.
  destruct (drop_candidate _) as [a|]; repeat wp_step; [|by destruct Hc as (r & Hr & _); congruence|done].
  rewrite (ri_address _ _ _ (proj1 (proj1 (ii_table _ s HI) a r Ho))).
  assert (initiator_inv (is_set_responders (delete a (is_responders s)) s)) as HI1.
  { destruct (inv_drop k a s HI ltac:(by eexists)) as [????? Hp]. split; try done.
    intros Ht. specialize (Hp Ht). lia. }
  eapply wp_mono; [apply wp_and; [by apply (send_drop_responder_sealed initiator_inv)|
    by apply (send_drop_responder_draws initiator_inv)]|].
  intros o s1 [Hs [(ours' & _ & _ & ->) Ho1]].
  destruct o as [act|e|m]; repeat wp_step.
  - destruct Hs as (b & -> & Hb). by exists a, b.
  - by exists a.
  - done.
Qed.

(** With a trusted key no responder is ever inactive, so none is dropped. *)
Lemma trusted_no_candidate s : initiator_inv s → trusted (c_auth_provider (is_common s)) →
  ∀ a r, is_responders s !! a = Some r → rsp_handshake_state r ≠ ResponderHandshakeState.New.
Proof.
  intros HI Ht a r Ha Hn. pose proof (ri_keys _ _ _ (inv_lookup _ _ _ HI Ha)) as Hk.
  unfold responder_keys_fit in Hk. rewrite Hn in Hk. by destruct Hk as (_ & _ & ?).
Qed.

(** ** Registration of responders *)

Lemma process_new_responder_run a s : initiator_inv s → 2 ≤ addr a < 256 →
  (size ({[a]} ∪ dom (is_responders s)) ≤ 252)%nat →
  wp (process_new_responder a) s (λ o s', match o with
    | Ok act => act = None ∧ is_common s' = is_common s
        ∧ ∃ r, is_responders s' = <[a := r]> (delete a (is_responders s))
        ∧ registered (c_auth_provider (is_common s)) r
    | _ => True
    end).
Proof.
  intros HI Ha Hsz. unfold process_new_responder. do 4 wp_step.
  apply (wp_mono _ _ (λ (o : outcome SignalingError unit) s',
    s' = is_set_responders (delete a (is_responders s)) s ∧ o = Ok tt)).
  { wp_step; wp_step; [done|]. split; [|done].
    apply bool_decide_eq_false, eq_None_not_Some in Hb. rewrite delete_id by done. by destruct s. }
  intros o s1 [-> ->]. wp_step. destruct (responder_counter_increment _) as [res c'].
  repeat wp_step. destruct res as [n|e|m]; [|done..]. repeat wp_step.
  apply wp_responder_context_new; [|done]. intros r Hr. repeat wp_step.
  eapply wp_mono; [by eapply trust_new_responder|].
  intros o s' [-> [->|(r' & -> & _ & _ & _ & Hreg)]]; [done|].
  repeat wp_step; [|split_and!; [done..|by exists r']]. exfalso. apply bool_decide_eq_true in Hb. simpl in Hb.
  rewrite <- size_dom in Hb. change (dom _) with (dom (<[a := r']> (delete a (is_responders s)))) in Hb.
  rewrite dom_insert_delete_L in Hb. lia.
Qed.
Lemma process_new_responder_registers a s : initiator_inv s → 2 ≤ addr a < 256 →
  (size ({[a]} ∪ dom (is_responders s)) ≤ 252)%nat →
  wp (process_new_responder a) s (λ o s', match o with
    | Ok act => act = None ∧ dom (is_responders s') = {[a]} ∪ dom (is_responders s)
    | _ => True
    end).
Proof.
  intros HI Ha Hsz. eapply wp_mono; [by apply process_new_responder_run|].
  intros [act|e|m] s'; [|done..]. intros (-> & _ & r & -> & _). split; [done|apply dom_insert_delete_L].
Qed.

Lemma register_all l : ∀ acc s, initiator_inv s → Forall (λ a, 2 ≤ addr a < 256) l →
  (size (list_to_set l ∪ dom (is_responders s) : gset Address) ≤ 252)%nat →
  wp (mfor (λ acc address, drop_responder ← process_new_responder address;
      mret (acc ++ option_list drop_responder)) acc l) s (λ o s', match o with
    | Ok acts => acts = acc ∧ dom (is_responders s') = list_to_set l ∪ dom (is_responders s)
    | _ => True
    end).
Proof.
  induction l as [|a l IH]; intros acc s HI Hl Hsz; simpl.
  { wp_step. split; [done|]. by rewrite union_empty_l_L. }
  apply Forall_cons in Hl as [Ha Hl]. simpl in Hsz. do 2 wp_step.
  eapply wp_mono; [apply wp_and; [apply process_new_responder_registers; [done..|]|
    by apply process_new_responder_quiet]|].
  { etrans; [|exact Hsz]. apply subseteq_size. set_solver. }
  intros [act|e|m] s1; [|done..]. intros [[-> Hdom] Hq]. repeat wp_step. rewrite app_nil_r.
  eapply wp_mono; [apply IH; [apply Hq|done|]|].
  { rewrite Hdom. etrans; [|exact Hsz]. apply subseteq_size. set_solver. }
  intros [acts|e|m] s2; [|done..]. intros [-> Hd2]. split; [done|]. rewrite Hd2, Hdom. set_solver.
Qed.

Lemma server_auth_registers msg rs s : initiator_inv s →
  sa_responders msg = Some rs → Forall wf_address rs →
  (size (list_to_set rs ∪ dom (is_responders s) : gset Address) ≤ 252)%nat →
  wp (is_handle_server_auth_impl msg) s (λ o s', match o with
    | Ok acts => dom (is_responders s') = list_to_set rs ∪ dom (is_responders s)
        ∧ acts = [HandleAction.Event (Event.ServerHandshakeDone (bool_decide (rs = [])))]
    | _ => True
    end).
Proof.
  intros HI Hrs Hwf Hlen. unfold is_handle_server_auth_impl. wp_step; [by wp_step|].
  rewrite Hrs. wp_step; [by wp_step|]. wp_step; [by wp_step|]. repeat wp_step.
  apply orb_false_iff in Hb0 as [Hz Ho]. apply bool_decide_eq_false in Hz, Ho.
  pose proof (hash_order_perm (list_to_set rs : gset Address) w) as Hperm.
  assert (list_to_set (hash_order (list_to_set rs : gset Address) w).1 = (list_to_set rs : gset Address))
    as Hset by (rewrite Hperm; apply list_to_set_elements_L).
  eapply wp_mono; [apply register_all; [done| |]|].
  - rewrite Hperm, Forall_forall. intros a. rewrite elem_of_elements, elem_of_list_to_set. intros Hin.
    rewrite Forall_forall in Hwf. specialize (Hwf a Hin). unfold wf_address in Hwf. unwidth.
    rewrite elem_of_list_to_set in Hz, Ho. destruct a as [z]. simpl in *.
    assert (z ≠ 0) by (by intros ->). assert (z ≠ 1) by (by intros ->). lia.
  - by rewrite Hset.
  - intros [acts|e|m] s'; [|done..]. intros [-> Hdom]. repeat wp_step. split; [|done].
    by rewrite Hdom, Hset.
Qed.
End outcomes.

(** ** Properties *)

Section properties.
Context {T : Type} `{!Task T}.
Context `{!ByteOrder, !Sodium, !SodiumLaws, !Rmps, !RmpsLaws, !Env, !EnvLaws}.
Implicit Types s : InitiatorSignaling T.

(** The path after the oldest inactive responder has been dropped. *)
Definition cleaned_path s w : Prop :=
  let '(o, s', _) := drop_oldest_inactive_responder s w in
  match o with
  | Ok (Some act) => ∃ a b, act = HandleAction.Reply b ∧ oldest_inactive (is_responders s) a
      ∧ is_responders s' = delete a (is_responders s)
      ∧ sealed_for_server (Message.DropResponder (drop_responder_with_reason a
          DropReason.DroppedByInitiator)) (is_set_responders (delete a (is_responders s)) s) s' b
  | Ok None => s' = s ∧ ∀ a r, is_responders s !! a = Some r →
      rsp_handshake_state r ≠ ResponderHandshakeState.New
  | Err _ => ∃ a, oldest_inactive (is_responders s) a
      ∧ is_responders s' = delete a (is_responders s)
  | Panic _ => False
  end.

(** C16: a successful auth message repeats the initiator's cookie and leads to
    one of two outcomes.  If a task is shared, the first of the initiator's
    tasks that the responder proposes is initialized with the responder's data
    and stored; for every other responder of the table, and no other address,
    the server gets one drop-responder message, sealed with its session key; the
    responder becomes the peer and gets an auth message that repeats its cookie
    and names the task, sealed with the session keys of the two; and the
    signaling enters the task phase with an empty table.  If none of the
    initiator's tasks is proposed, the handshake fails with [NoSharedTask], which
    a close message under the same keys may tell the responder, and the phase
    stays. *)
Theorem auth_message_outcome msg source s w acts s' w' : initiator_inv s →
  c_signaling_state (is_common s) = SignalingState.PeerHandshake →
  is_handle_auth msg source s w = (Ok acts, s', w') → auth_outcome msg source s acts s'.
Proof.
  intros HI Hst Hrun. pose proof (is_handle_auth_spec msg source s HI Hst w) as Hs.
  by rewrite Hrun in Hs.
Qed.

(** C31: path cleaning drops the inactive responder with the least counter,
    whatever the iteration order of the hash table, tells the server about it
    under the next nonce, and drops nothing when every responder is active. *)
Theorem path_cleaning_drops_oldest s w : initiator_inv s → cleaned_path s w.
Proof.
  intros HI. assert (initiator_upto 253 s) as HI'.
  { destruct HI as [????? Hp]. split; try done. intros Ht. specialize (Hp Ht). lia. }
  pose proof (drop_oldest_spec 252 s HI' ltac:(done) w) as Hs. unfold cleaned_path.
  by destruct (drop_oldest_inactive_responder s w) as [[o s'] w'].
Qed.

(** C38: with a trusted key a responder starts in [TokenReceived], so path
    cleaning finds no candidate, whatever the number of responders that have
    not sent anything. *)
Theorem path_never_cleaned_with_trusted_key s w : initiator_inv s →
  trusted (c_auth_provider (is_common s)) →
  drop_oldest_inactive_responder s w
  = (Ok None, s, world_of (drop_oldest_inactive_responder s w)).
Proof.
  intros HI Ht. pose proof (trusted_no_candidate s HI Ht) as Hno.
  unfold drop_oldest_inactive_responder. mred.
  pose proof (drop_candidate_spec _ _ _ w (ii_table _ s HI)) as Hc.
  destruct (hash_order (dom (is_responders s)) w) as [addrs w'].
  simpl in Hc. destruct (drop_candidate _) as [a|]; [|done].
  destruct Hc as (r & Hr & Hn & _). by destruct (Hno a r Hr).
Qed.

(** C32: while the path has room for them, that is for at most 252 responders in
    all, a server-auth message that is accepted registers exactly the responders
    it lists, besides those known before, and drops none; the event it raises
    carries [true] exactly if the list is empty, that is if no responder is
    connected. *)
Theorem server_auth_registers_responders msg rs s w acts s' w' : initiator_inv s →
  sa_responders msg = Some rs → Forall wf_address rs →
  (size (list_to_set rs ∪ dom (is_responders s) : gset Address) ≤ 252)%nat →
  is_handle_server_auth_impl msg s w = (Ok acts, s', w') →
  dom (is_responders s') = list_to_set rs ∪ dom (is_responders s)
  ∧ acts = [HandleAction.Event (Event.ServerHandshakeDone (bool_decide (rs = [])))].
Proof.
  intros HI Hrs Hwf Hl Hrun. pose proof (server_auth_registers msg rs s HI Hrs Hwf Hl w) as Hs.
  by rewrite Hrun in Hs.
Qed.

(** Once the token has been used, the next message of any other responder
    fails with a crash error: its context is new and no auth provider is left. *)
Theorem used_token_is_fatal b r s w : c_auth_provider (is_common s) = None →
  c_signaling_state (is_common s) = SignalingState.PeerHandshake →
  2 ≤ addr (nonce_source (bbox_nonce b)) →
  is_responders s !! nonce_source (bbox_nonce b) = Some r →
  rsp_handshake_state r = ResponderHandshakeState.New →
  dispatch_message b s w = (Err (SignalingError.Crash ("Handshake state is " +:+ dquote +:+ "New"
    +:+ dquote +:+ " without an auth provider available")), s, w).
Proof.
  intros Hp Hst Ha Hr Hnew.
  assert (Address.is_server (nonce_source (bbox_nonce b)) = false) as Hsrv
    by (apply bool_decide_eq_false; lia).
  assert (Address.is_responder (nonce_source (bbox_nonce b)) = true) as Hresp
    by (apply bool_decide_eq_true; lia).
  unfold dispatch_message, handle_handshake_peer_message. mred. rewrite Hsrv, Hst. mred.
  unfold is_decode_peer_message. by rewrite Hresp, Hr; simpl; rewrite Hnew, Hp.
Qed.

(** In the task phase the initiator can always send: a task message is
    sealed for the chosen responder unless the sequence numbers are used up. *)
Theorem initiator_can_send v s w : initiator_inv s →
  c_signaling_state (is_common s) = SignalingState.Task →
  (∃ b, out (encode_task_message v s w) = Ok b)
  ∨ out (encode_task_message v s w) = Err SignalingError.CsnOverflow.
Proof.
  intros HI Hst. pose proof (ii_chosen _ s HI) as Hc.
  destruct (is_responder s) as [r|] eqn:Hr; [|done]. destruct Hc as [_ Hc].
  destruct (identity_address s HI) as [src Hsrc].
  destruct (next_peer_nonce_cases (identity s) r src (rsp_address r)) as (ours' & _ & Hp & Hd);
    [apply Hc|done|apply responder_identity, Hc|].
  unfold encode_task_message. mred. rewrite bool_decide_eq_false_2 by (simpl; rewrite Hst; auto).
  unfold is_get_peer. rewrite Hr. unfold identity in Hd, Hp. simpl in Hd, Hp.
  unfold identity. simpl.
  destruct (next_peer_nonce _ r) as [[n|e|m] r']; mred; [|right; by destruct Hd as [-> _]|done].
  destruct (ch_session _ Hc) as [k Hk]. rewrite Hk. mred.
  destruct (value_encrypt_total (E := SignalingError) (mkOpenBox v n) (rsp_keypair r) k)
    as (b & -> & _). left. by exists b.
Qed.
End properties.

(** ** Witnesses *)

Module Witnesses.
Import Reference ReferenceCodec Handshake.

Definition s3 : istate := get_initiator (state_of i3).
Definition s5 : istate := get_initiator (state_of i5).
Definition s6 : istate := get_initiator (state_of i6).
Lemma s3_inv : initiator_inv s3.
Proof. apply get_initiator_inv; [by_compute|apply good_i3]. Qed.
Lemma s5_inv : initiator_inv s5.
Proof. apply get_initiator_inv; [by_compute|apply good_i5]. Qed.
Lemma s6_inv : initiator_inv s6.
Proof. apply get_initiator_inv; [by_compute|apply good_i6]. Qed.

(** The auth message of the responder of the run. *)
Definition sample_auth : Auth :=
  mkAuth (match is_responders s5 !! mkAddress 2 with
          | Some r => cookie_ours (rsp_cookie_pair r)
          | None => server_cookie
          end)
    (Some ["chat"; "relay"]) None (<["chat" := None]> (<["relay" := None]> ∅)).
Definition auth_run := is_handle_auth sample_auth (mkAddress 2) s5 (7 : env).
Definition run_actions {A} (r : outcome SignalingError (list A) * istate * env) : list A :=
  match out r with Ok acts => acts | _ => [] end.

Lemma auth_message_outcome_witness :
  auth_outcome sample_auth (mkAddress 2) s5 (run_actions auth_run) (post auth_run).
Proof.
  refine (auth_message_outcome sample_auth (mkAddress 2) s5 (7 : env) _ _ (world_of auth_run) _ _ _).
  - exact s5_inv.
  - vm_compute. reflexivity.
  - vm_compute. reflexivity.
Defined.

Lemma path_cleaning_witness : size (is_responders s3) = 1%nat ∧ cleaned_path s3 (7 : env).
Proof.
  split; [vm_compute; reflexivity|].
  refine (path_cleaning_drops_oldest s3 (7 : env) _). exact s3_inv.
Defined.

Definition trusting : istate := get_initiator (state_of t2).
Lemma trusting_inv : initiator_inv trusting.
Proof. apply get_initiator_inv; [by_compute|apply good_t2]. Qed.

Lemma trusted_path_witness : size (is_responders trusting) = 2%nat
  ∧ drop_oldest_inactive_responder trusting (7 : env)
    = (Ok None, trusting, world_of (drop_oldest_inactive_responder trusting (7 : env))).
Proof.
  split; [vm_compute; reflexivity|].
  refine (path_never_cleaned_with_trusted_key trusting (7 : env) _ _).
  - exact trusting_inv.
  - vm_compute. exact I.
Defined.

(** A server-auth message that lists two responders. *)
Definition s1 : istate := get_initiator (state_of i1).
Lemma s1_inv : initiator_inv s1.
Proof. apply get_initiator_inv; [by_compute|apply good_i1]. Qed.
Definition two_responders : list Address := [mkAddress 2; mkAddress 5].
Definition sample_server_auth : ServerAuth :=
  mkServerAuth server_cookie None (Some two_responders) None.
Definition register_run := is_handle_server_auth_impl sample_server_auth s1 (7 : env).

Lemma server_auth_registers_witness :
  dom (is_responders (post register_run)) = list_to_set two_responders ∪ dom (is_responders s1)
  ∧ run_actions register_run = [HandleAction.Event (Event.ServerHandshakeDone false)].
Proof.
  refine (server_auth_registers_responders sample_server_auth two_responders s1 (7 : env)
    _ _ (world_of register_run) _ _ _ _ _).
  - exact s1_inv.
  - reflexivity.
  - by_compute.
  - by_compute.
  - vm_compute. reflexivity.
Defined.

(** A message of the second responder, after the first has used the token. *)
Definition s4b : istate := get_initiator (state_of i4b).
Definition late_box : ByteBox := mkByteBox [1; 2; 3] (mkNonce (mkCookie (replicate 16 42))
  (mkAddress 3) (mkAddress 1) (mkCombinedSequenceSnapshot 0 9)).
Definition late_responder : { r | is_responders s4b !! nonce_source (bbox_nonce late_box) = Some r
  ∧ rsp_handshake_state r = ResponderHandshakeState.New }.
Proof. eexists. split; [vm_compute; reflexivity|reflexivity]. Qed.

Lemma used_token_witness :
  dispatch_message late_box s4b (7 : env)
  = (Err (SignalingError.Crash ("Handshake state is " +:+ dquote +:+ "New" +:+ dquote
      +:+ " without an auth provider available")), s4b, 7 : env).
Proof.
  refine (used_token_is_fatal late_box (`late_responder) s4b (7 : env) _ _ _ _ _).
  - vm_compute. reflexivity.
  - vm_compute. reflexivity.
  - by_compute.
  - exact (proj1 (proj2_sig late_responder)).
  - exact (proj2 (proj2_sig late_responder)).
Defined.

Lemma initiator_can_send_witness :
  (∃ b, out (encode_task_message greeting s6 (7 : env)) = Ok b)
  ∨ out (encode_task_message greeting s6 (7 : env)) = Err SignalingError.CsnOverflow.
Proof.
  refine (initiator_can_send greeting s6 (7 : env) _ _).
  - exact s6_inv.
  - vm_compute. reflexivity.
Defined.
End Witnesses.
