(* ===== verification/ResponderProps.v ===== *)
(** * The responder's properties

    What the handlers of [ResponderSignaling] (src/protocol/mod.rs) do on a
    successful key, auth or new-initiator message, stated on the states that
    satisfy the invariant of [ResponderSafe], with instances on the states of
    the executed handshake. *)

From S2P Require Import Prelude Text External Errors Types Csn Cookie Nonce Crypto Tasks Messages.
From S2P Require Import ReferenceCodec Boxes Context Signaling SignalingSpec SignalingSafe Runs.
From S2P Require Import Initiator InitiatorSafe Responder ResponderSafe Handshake.

Section outcomes.
Context {T : Type} `{!Task T}.
Context `{!ByteOrder, !Sodium, !SodiumLaws, !Rmps, !RmpsLaws, !Env, !EnvLaws}.
Implicit Types s : ResponderSignaling T.
Abbreviation I := (responder_state_inv (T := T)).

(** ** The key and auth messages *)

(** The auth message a responder answers the initiator's key with. *)
Definition responder_auth (cookie : Cookie) (ts : Tasks T) : Auth :=
  mkAuth cookie (Some (task_name <$> tasks_vec ts)) None
    (foldl (λ d t, <[task_name t := task_data t]> d) ∅ (tasks_vec ts)).

Lemma rs_handle_key_spec msg n s : I s →
  c_signaling_state (rs_common s) = SignalingState.PeerHandshake →
  wp (rs_handle_key msg n) s (λ o s', match o with
    | Ok acts => ∃ ts b, c_tasks (rs_common s) = Some ts ∧ wf_tasks ts
        ∧ acts = [HandleAction.Reply b]
        ∧ key_key msg ≠ ini_permanent_key (rs_initiator s)
        ∧ ini_handshake_state (rs_initiator s') = InitiatorHandshakeState.AuthSent
        ∧ ini_session_key (rs_initiator s') = Some (key_key msg)
        ∧ ini_keypair (rs_initiator s') = ini_keypair (rs_initiator s)
        ∧ obox_encrypt (E := SignalingError)
            (mkOpenBox (Message.Auth (responder_auth (nonce_cookie n) ts)) (bbox_nonce b))
            (ini_keypair (rs_initiator s)) (key_key msg) = Ok b
    | _ => True
    end).
Proof.
  intros HI Hst. unfold rs_handle_key. do 4 wp_step; [by wp_step|]. wp_step; [by wp_step|].
  apply bool_decide_eq_false in Hb0. repeat wp_step; [|done]. rewrite responder_auth_spec.
  destruct (decide (tasks_vec t = [])) as [|Hne]; [done|].
  destruct (decide (NoDup _)) as [Hnd|]; [|done]. repeat wp_step.
  apply wp_next_initiator_nonce; [by apply rs_key_received_inv| |done].
  intros n' s' (ours' & _ & _ & ->). unfold set_initiator_state. repeat wp_step; [|done].
  simpl in Ho0. injection Ho0 as <-. wp_seal. repeat wp_step.
  exists t, bbox. split_and!; try done. by rewrite Hnonce.
Qed.

(** The outcome of a successful auth message. *)
Lemma rs_handle_auth_spec msg src s : I s →
  c_signaling_state (rs_common s) = SignalingState.PeerHandshake →
  wp (rs_handle_auth msg src) s (λ o s', match o with
    | Ok acts => ∃ ts t t' data, c_tasks (rs_common s) = Some ts ∧ t ∈ tasks_vec ts
        ∧ auth_task msg = Some (task_name t) ∧ auth_data msg = {[task_name t := data]}
        ∧ auth_your_cookie msg = cookie_ours (ini_cookie_pair (rs_initiator s))
        ∧ task_init data t = (inl tt, t') ∧ acts = [HandleAction.HandshakeDone]
        ∧ c_signaling_state (rs_common s') = SignalingState.Task
        ∧ c_task (rs_common s') = Some t'
        ∧ c_task_supported_types (rs_common s') = Some (task_supported_types t')
    | _ => True
    end).
Proof.
  intros HI Hst. unfold rs_handle_auth. do 5 wp_step.
  unfold validate_repeated_cookie.
  destruct (bool_decide (auth_your_cookie msg ≠ _)) eqn:Hck; wp_step; [done|].
  apply bool_decide_eq_false, dec_stable in Hck.
  wp_step; [by wp_step|]. destruct (auth_task msg) as [task|] eqn:Htask; [|by wp_step].
  repeat wp_step; try done.
  apply fmap_Some in Ho0 as ([i t'] & [Hi [Hname _]]%list_find_Some & ->). simpl in *.
  destruct (task_init _ _) as [[[]|e] chosen] eqn:Hinit; [|by wp_step].
  unfold set_initiator_state. repeat wp_step. unfold set_signaling_state. simpl. rewrite Hst.
  rewrite bool_decide_eq_false_2 by done. simpl. repeat wp_step.
  exists t, t', chosen, o. split_and!; try done.
  - by eapply list_elem_of_lookup_2.
  - by rewrite Hname.
  - apply bool_decide_eq_false in Hb1. apply map_size_1_singleton; [done|lia].
Qed.

(** ** A new initiator *)

(** What a new initiator always does to the context. *)
Lemma rs_handle_new_initiator_resets msg s : I s →
  wp (rs_handle_new_initiator msg) s (λ o s', (∃ m, unlucky m ∧ o = Panic m)
    ∨ ini_session_key (rs_initiator s') = None
      ∧ c_signaling_state (rs_common s') = c_signaling_state (rs_common s)).
Proof.
  intros HI. unfold rs_handle_new_initiator. do 4 wp_step.
  apply wp_initiator_context_new; [|intros m Hm; left; by exists m]. intros i [Hst _ Hk Hkp Hw _]. repeat wp_step.
  assert (I (rs_set_initiator i s)) as HI1.
  { apply rs_inv_set_initiator; try done; [unfold initiator_keys_fit; by rewrite Hst|].
    rewrite Hk. by intros []. }
  eapply wp_mono; [by apply send_token_if_any_quiet|]. intros o s1 [((HI2 & _ & _) & Hst1 & _) Hk1].
  simpl in Hk1. rewrite Hk in Hk1. destruct o as [tok|e|m]; [|by right..]. cbn [wp_then]. wp_step.
  eapply wp_mono; [by apply send_key_drawn|]. intros o s2 [(ours' & _ & _ & ->) _].
  unfold set_initiator_state. destruct o; cbn [wp_then]; repeat wp_step; by right.
Qed.

(** Without an auth provider the new initiator is refused. *)
Lemma rs_handle_new_initiator_refused msg s : c_auth_provider (rs_common s) = None →
  wp (rs_handle_new_initiator msg) s (λ o _, (∃ m, unlucky m ∧ o = Panic m)
    ∨ o = Err (SignalingError.Crash "No auth provider set")).
Proof.
  intros Hp. unfold rs_handle_new_initiator. do 4 wp_step.
  apply wp_initiator_context_new; [|intros m Hm; left; by exists m]. intros i _. repeat wp_step.
  unfold send_token_if_any. do 3 wp_step. simpl. rewrite Hp. wp_step. by right.
Qed.

Lemma no_session_key_no_message v s w b : ini_session_key (rs_initiator s) = None →
  out (encode_task_message v s w) ≠ Ok b.
Proof.
  intros Hk. unfold encode_task_message. mred. case_bool_decide; [done|]. simpl.
  destruct (next_peer_nonce _ _) as [[n|e|m] p]; mred; [|done..]. by rewrite Hk.
Qed.
End outcomes.

(** ** Properties *)

Section properties.
Context {T : Type} `{!Task T}.
Context `{!ByteOrder, !Sodium, !SodiumLaws, !Rmps, !RmpsLaws, !Env, !EnvLaws}.
Implicit Types s : ResponderSignaling T.

(** The answer to the initiator's key message: one auth message that repeats
    the initiator's cookie, lists the responder's tasks in order with their
    data, and is sealed with the session keys. *)
Definition key_answered (msg : Key) (n : Nonce) s (acts : list HandleAction)
    (s' : ResponderSignaling T) : Prop :=
  ∃ ts b, c_tasks (rs_common s) = Some ts ∧ wf_tasks ts
    ∧ acts = [HandleAction.Reply b]
    ∧ key_key msg ≠ ini_permanent_key (rs_initiator s)
    ∧ ini_handshake_state (rs_initiator s') = InitiatorHandshakeState.AuthSent
    ∧ ini_session_key (rs_initiator s') = Some (key_key msg)
    ∧ ini_keypair (rs_initiator s') = ini_keypair (rs_initiator s)
    ∧ obox_encrypt (E := SignalingError)
        (mkOpenBox (Message.Auth (responder_auth (nonce_cookie n) ts)) (bbox_nonce b))
        (ini_keypair (rs_initiator s)) (key_key msg) = Ok b.

(** The end of the responder's handshake: the initiator repeats the responder's
    cookie, names one of the responder's tasks with exactly its data, and that
    task is initialized with it and takes over. *)
Definition handshake_finished (msg : Auth) s (acts : list HandleAction)
    (s' : ResponderSignaling T) : Prop :=
  ∃ ts t t' data, c_tasks (rs_common s) = Some ts ∧ t ∈ tasks_vec ts
    ∧ auth_task msg = Some (task_name t) ∧ auth_data msg = {[task_name t := data]}
    ∧ auth_your_cookie msg = cookie_ours (ini_cookie_pair (rs_initiator s))
    ∧ task_init data t = (inl tt, t') ∧ acts = [HandleAction.HandshakeDone]
    ∧ c_signaling_state (rs_common s') = SignalingState.Task
    ∧ c_task (rs_common s') = Some t'
    ∧ c_task_supported_types (rs_common s') = Some (task_supported_types t').

(** C18: the responder answers the initiator's key message with its auth
    message under the session keys, or fails. *)
Theorem key_message_outcome msg n s w acts s' w' : responder_state_inv s →
  c_signaling_state (rs_common s) = SignalingState.PeerHandshake →
  rs_handle_key msg n s w = (Ok acts, s', w') → key_answered msg n s acts s'.
Proof.
  intros HI Hst Hrun. pose proof (rs_handle_key_spec msg n s HI Hst w) as Hs.
  by rewrite Hrun in Hs.
Qed.

(** C17: a successful auth message of the initiator finishes the handshake with
    the task the initiator chose among the responder's. *)
Theorem responder_handshake_outcome msg src s w acts s' w' : responder_state_inv s →
  c_signaling_state (rs_common s) = SignalingState.PeerHandshake →
  rs_handle_auth msg src s w = (Ok acts, s', w') → handshake_finished msg s acts s'.
Proof.
  intros HI Hst Hrun. pose proof (rs_handle_auth_spec msg src s HI Hst w) as Hs.
  by rewrite Hrun in Hs.
Qed.

(** Once the responder has sent its token, a new initiator is refused with
    a crash error, so the handshake cannot be restarted. *)
Theorem new_initiator_after_token_refused msg s w o s' w' : c_auth_provider (rs_common s) = None →
  rs_handle_new_initiator msg s w = (o, s', w') →
  (∃ m, unlucky m ∧ o = Panic m) ∨ o = Err (SignalingError.Crash "No auth provider set").
Proof.
  intros Hp Hrun. pose proof (rs_handle_new_initiator_refused msg s Hp w) as Hs.
  by rewrite Hrun in Hs.
Qed.

(** C39: a new initiator in the task phase leaves the responder in the task
    phase without a session key, where no task message can be sent any more. *)
Theorem new_initiator_breaks_task msg s w o s' w' : responder_state_inv s →
  c_signaling_state (rs_common s) = SignalingState.Task →
  rs_handle_new_initiator msg s w = (o, s', w') → is_panic o = false →
  c_signaling_state (rs_common s') = SignalingState.Task
  ∧ ∀ v w2 b, out (encode_task_message v s' w2) ≠ Ok b.
Proof.
  intros HI Hst Hrun Ho. pose proof (rs_handle_new_initiator_resets msg s HI w) as Hs.
  rewrite Hrun in Hs. destruct Hs as [(m & _ & Hm)|[Hk Hst']]; [by destruct o|]. split; [exact (eq_trans Hst' Hst)|].
  intros v w2 b. by apply no_session_key_no_message.
Qed.
End properties.

(** ** Witnesses *)

Module ResponderWitnesses.
Import Reference ReferenceCodec Handshake.

Definition keyed : rstate := get_responder (state_of r2).
Definition authed : rstate := get_responder (state_of r3).
Definition ready : rstate := get_responder (state_of r4).
Lemma keyed_inv : responder_state_inv keyed.
Proof. apply get_responder_inv; [by_compute|apply good_r2]. Qed.
Lemma authed_inv : responder_state_inv authed.
Proof. apply get_responder_inv; [by_compute|apply good_r3]. Qed.
Lemma ready_inv : responder_state_inv ready.
Proof. apply get_responder_inv; [by_compute|apply good_r4]. Qed.
Definition responder_actions (r : outcome SignalingError (list HandleAction) * rstate * env) :
  list HandleAction := match out r with Ok acts => acts | _ => [] end.

(** The initiator's session key, from the run. *)
Definition sample_key : Key := mkKey (public_key (key_pair 77)).
Definition key_run := rs_handle_key sample_key (server_nonce 2 9) keyed (7 : env).
Lemma key_message_outcome_witness : length (responder_actions key_run) = 1%nat
  ∧ key_answered sample_key (server_nonce 2 9) keyed (responder_actions key_run) (post key_run).
Proof.
  split; [vm_compute; reflexivity|].
  refine (key_message_outcome sample_key (server_nonce 2 9) keyed (7 : env) _ _ (world_of key_run) _ _ _).
  - exact keyed_inv.
  - vm_compute. reflexivity.
  - vm_compute. reflexivity.
Defined.

Definition final_auth : Auth := mkAuth (cookie_ours (ini_cookie_pair (rs_initiator authed))) None
  (Some "chat") {["chat" := None]}.
Definition final_run := rs_handle_auth final_auth (mkAddress 1) authed (7 : env).
Lemma responder_handshake_outcome_witness :
  handshake_finished final_auth authed (responder_actions final_run) (post final_run).
Proof.
  refine (responder_handshake_outcome final_auth (mkAddress 1) authed (7 : env) _ _
    (world_of final_run) _ _ _).
  - exact authed_inv.
  - vm_compute. reflexivity.
  - vm_compute. reflexivity.
Defined.

Definition restart_run := rs_handle_new_initiator mkNewInitiator ready (7 : env).
Lemma new_initiator_refused_witness : (∃ m, unlucky m ∧ out restart_run = Panic m)
  ∨ out restart_run = Err (SignalingError.Crash "No auth provider set").
Proof.
  refine (new_initiator_after_token_refused mkNewInitiator ready (7 : env) (out restart_run) (post restart_run)
    (world_of restart_run) _ _).
  - vm_compute. reflexivity.
  - vm_compute. reflexivity.
Defined.

(** With a trusted key the new initiator is greeted, in the task phase. *)
Definition trusting_responder : rstate := get_responder (state_of q4).
Lemma trusting_responder_inv : responder_state_inv trusting_responder.
Proof. apply get_responder_inv; [by_compute|apply good_q4]. Qed.
Definition greeted_run := rs_handle_new_initiator mkNewInitiator trusting_responder (7 : env).
Lemma new_initiator_breaks_task_witness : is_ok (out greeted_run) = true
  ∧ c_signaling_state (rs_common (post greeted_run)) = SignalingState.Task
  ∧ ∀ v w2 b, out (encode_task_message v (post greeted_run) w2) ≠ Ok b.
Proof.
  split; [vm_compute; reflexivity|].
  refine (new_initiator_breaks_task mkNewInitiator trusting_responder (7 : env) (out greeted_run) (post greeted_run)
    (world_of greeted_run) _ _ _ _).
  - exact trusting_responder_inv.
  - vm_compute. reflexivity.
  - vm_compute. reflexivity.
  - vm_compute. reflexivity.
Defined.
End ResponderWitnesses.
