(* ===== verification/HandshakeRuns.v ===== *)
(** * The handlers of the peer handshake, run

    What each handler of the peer handshake does, exactly, when the other side
    is honest: the nonce is accepted, the box opens and the fields are the ones
    the other role sends. One equation per handler and role, with the answer and
    the state it leaves, for every key, cookie, counter and task list. *)

From S2P Require Import Prelude Text External Errors Types Csn Cookie Nonce Crypto Tasks Messages.
From S2P Require Import ReferenceCodec Boxes Context Signaling SignalingSpec SignalingSafe Runs.
From S2P Require Import Initiator InitiatorSafe Responder ResponderSafe Channel Handshake.
From S2P Require Import InitiatorProps ResponderProps.

(** ** Drawing and accepting *)

Section contexts.
Context `{!PeerContext P, !PeerContextLaws P}.
Implicit Types p : P.

(** With a number left, a nonce is drawn. *)
Lemma draw_nonce id p src dst : wf_peer p →
  (∀ E, ClientIdentity.address_from_client_identity (E := E) id = Ok src) →
  (∀ E, Identity.address_from_identity (E := E) (pc_identity p) = Ok dst) →
  csn_number (csn_ours (pc_csn_pair p)) + 1 < CSN_LIMIT →
  ∃ ours', wf_csn ours' ∧ csn_number ours' = csn_number (csn_ours (pc_csn_pair p)) + 1
  ∧ next_peer_nonce id p
    = (Ok (mkNonce (cookie_ours (pc_cookie_pair p)) src dst (snapshot_of ours')), advanced p ours').
Proof.
  intros Hp Hs Hd Hl. destruct (peer_increment_cases p Hp) as (ours' & Hw & Hp2 & Hp1).
  exists ours'. unfold next_peer_nonce. rewrite Hs, Hd.
  destruct (peer_increment p) as [[snap|e|m] p']; simpl in *; [|lia|done].
  destruct Hp1 as [-> Hn]. by rewrite Hp2.
Qed.

Lemma wf_accept n p : wf_nonce n → wf_peer p → wf_peer (accept n p).
Proof.
  intros (Hc & _ & _ & Hs) [[Ho _] [Hco _]]. unfold wf_peer, accept.
  rewrite pc_csn_set_cookie, pc_csn_set_csn, pc_cookie_set_cookie. done.
Qed.

Lemma check_cookie_fresh id c pair :
  match cookie_theirs pair with Some theirs => c = theirs | None => c ≠ cookie_ours pair end →
  check_cookie id c pair = Ok (mkCookiePair (cookie_ours pair) (Some c)).
Proof.
  unfold check_cookie. destruct pair as [ours [theirs|]]; simpl.
  - intros ->. by rewrite bool_decide_eq_false_2 by (intros []; done).
  - intros Hn. by rewrite bool_decide_eq_false_2.
Qed.
End contexts.

(** A number below [2^32] has not overflowed. *)
Lemma low_overflow c : wf_csn c → csn_number c < 2 ^ 32 → overflow_number (snapshot_of c) = 0.
Proof. intros Hw. rewrite csn_number_eq by done. destruct Hw. unfold snapshot_of. simpl. unwidth. lia. Qed.

(** ** The initiator's side *)

Section initiator_side.
Context {T : Type} `{!Task T}.
Context `{!ByteOrder, !Sodium, !SodiumLaws, !Rmps, !RmpsLaws, !Env, !EnvLaws}.
Implicit Types s : InitiatorSignaling T.

Definition peer_phase (c : Common T) (i : ClientIdentity) : Prop :=
  c_signaling_state c = SignalingState.PeerHandshake ∧ c_identity c = i.

(** A message on its way to the initiator from the responder at [a]. *)
Record arrives (b : ByteBox) s (a : Address) (c : ResponderContext) : Prop := {
  ar_phase : peer_phase (is_common s) ClientIdentity.Initiator;
  ar_sender : is_responders s !! a = Some c;
  ar_range : 2 ≤ addr a < 256;
  ar_source : nonce_source (bbox_nonce b) = a;
  ar_destination : nonce_destination (bbox_nonce b) = mkAddress 1;
  ar_wf : wf_nonce (bbox_nonce b);
  ar_fresh : acceptable (bbox_nonce b) c;
}.

Lemma is_destination_accepted n s w : c_identity (is_common s) = ClientIdentity.Initiator →
  nonce_destination n = mkAddress 1 → is_validate_nonce_destination n s w = (Ok tt, s, w).
Proof.
  intros Hid Hd. unfold is_validate_nonce_destination, identity. mred. rewrite Hid. simpl.
  rewrite Hid, Hd. by mred.
Qed.
Lemma is_source_accepted n s w a : c_identity (is_common s) = ClientIdentity.Initiator →
  nonce_source n = a → 2 ≤ addr a → is_validate_nonce_source n s w = (Ok tt, s, w).
Proof.
  intros Hid Hs Ha. unfold is_validate_nonce_source, identity. mred. rewrite Hs, Hid.
  destruct (addr a) as [|[q|q|]|]; try lia; by mred.
Qed.

(** A message from a known responder reaches its handler. *)
Lemma is_receive b m s w a c : arrives b s a c →
  let s1 := is_set_responders (<[a := accept (bbox_nonce b) c]> (is_responders s)) s in
  is_decode_peer_message b s1 = Ok (mkOpenBox m (bbox_nonce b)) →
  handle_message b s w = is_handle_peer_message (mkOpenBox m (bbox_nonce b)) s1 w.
Proof.
  intros [[Hst Hid] Hc [Ha _] Hsrc Hdst _ [Hcsn Hck]] s1 Hd.
  assert (Address.is_server a = false) as Hns by (apply bool_decide_eq_false_2; lia).
  assert (validate_nonce (bbox_nonce b) s w = (Ok tt, s1, w)) as Hv.
  { unfold validate_nonce. simpl. mred. rewrite is_destination_accepted by done.
    rewrite (is_source_accepted _ _ _ a) by done. unfold validate_nonce_csn, validate_nonce_cookie, find_sender. mred.
    rewrite Hsrc. simpl. rewrite lookup_responder by (try lia; simpl; by rewrite Hst). rewrite Hc. mred.
    rewrite check_csn_fresh by done. mred. simpl.
    rewrite lookup_responder by (try lia; simpl; by rewrite Hst). simpl. rewrite lookup_insert_eq. mred.
    rewrite check_cookie_fresh by done. mred. simpl. by rewrite insert_insert_eq. }
  unfold handle_message, dispatch_message. mred. rewrite Hv. mred. rewrite Hsrc, Hns. simpl. rewrite Hst.
  unfold handle_handshake_peer_message. rewrite Hsrc, Hns. mred. simpl. rewrite Hd. mred.
  rewrite Hst. by rewrite Hsrc, Hns.
Qed.

Lemma is_receive_token b s w a c t pk : arrives b s a c →
  rsp_handshake_state c = ResponderHandshakeState.New → rsp_permanent_key c = None →
  c_auth_provider (is_common s) = Some (AuthProvider.Token t) →
  obox_decrypt_token b t = Ok (mkOpenBox (Message.Token (mkToken pk)) (bbox_nonce b)) →
  handle_message b s w = (Ok [], is_set_common (with_auth_provider None (is_common s))
    (is_set_responders (<[a := rsp_set_handshake_state ResponderHandshakeState.TokenReceived
      (rsp_set_permanent_key (Some pk) (accept (bbox_nonce b) c))]> (is_responders s)) s), w).
Proof.
  intros Har Hst Hpk Hap Hdec. pose proof Har as [_ _ [Ha _] Hs _ _ _].
  rewrite (is_receive b (Message.Token (mkToken pk)) s w a c); [|done|].
  - unfold is_handle_peer_message, is_handle_token. mred. rewrite Hs, lookup_insert_eq. mred.
    rewrite Hst. mred. rewrite lookup_insert_eq. mred. rewrite Hpk. mred. rewrite Hap. mred.
    by rewrite insert_insert_eq.
  - unfold is_decode_peer_message. rewrite Hs. unfold Address.is_responder.
    rewrite bool_decide_eq_true_2 by lia. simpl. rewrite lookup_insert_eq. simpl. by rewrite Hst, Hap.
Qed.

Lemma is_receive_key b s w a c pk k : arrives b s a c →
  rsp_handshake_state c = ResponderHandshakeState.TokenReceived → rsp_permanent_key c = Some pk →
  obox_decrypt b (c_permanent_keypair (is_common s)) pk = Ok (mkOpenBox (Message.Key k) (bbox_nonce b)) →
  handle_message b s w = is_handle_key k a
    (is_set_responders (<[a := accept (bbox_nonce b) c]> (is_responders s)) s) w.
Proof.
  intros Har Hst Hpk Hdec. pose proof Har as [_ _ [Ha _] Hs _ _ _].
  rewrite (is_receive b (Message.Key k) s w a c); [|done|].
  - unfold is_handle_peer_message. mred. rewrite Hs, lookup_insert_eq. mred. by rewrite Hst.
  - unfold is_decode_peer_message. rewrite Hs. unfold Address.is_responder.
    rewrite bool_decide_eq_true_2 by lia. simpl. rewrite lookup_insert_eq. simpl.
    rewrite Hst. unfold responder_permanent_key. simpl. rewrite Hpk. simpl. by rewrite Hdec.
Qed.
Lemma is_receive_auth b s w a c sk m : arrives b s a c →
  rsp_handshake_state c = ResponderHandshakeState.KeySent → rsp_session_key c = Some sk →
  obox_decrypt b (rsp_keypair c) sk = Ok (mkOpenBox (Message.Auth m) (bbox_nonce b)) →
  handle_message b s w = is_handle_auth m a
    (is_set_responders (<[a := accept (bbox_nonce b) c]> (is_responders s)) s) w.
Proof.
  intros Har Hst Hsk Hdec. pose proof Har as [_ _ [Ha _] Hs _ _ _].
  rewrite (is_receive b (Message.Auth m) s w a c); [|done|].
  - unfold is_handle_peer_message. mred. rewrite Hs, lookup_insert_eq. mred. by rewrite Hst.
  - unfold is_decode_peer_message. rewrite Hs. unfold Address.is_responder.
    rewrite bool_decide_eq_true_2 by lia. simpl. rewrite lookup_insert_eq. simpl.
    rewrite Hst. unfold responder_session_key. simpl. by rewrite Hsk.
Qed.

(** The key message, for a responder [c] whose nonce has been accepted. *)
Lemma is_handle_key_run s w a c pk sk : c_identity (is_common s) = ClientIdentity.Initiator →
  is_responders s !! a = Some c → 2 ≤ addr a < 256 → rsp_address c = a → wf_peer c →
  rsp_permanent_key c = Some pk → rsp_session_key c = None → pk ≠ sk →
  csn_number (csn_ours (rsp_csn_pair c)) + 1 < CSN_LIMIT →
  ∃ ours' bk, wf_csn ours' ∧ csn_number ours' = csn_number (csn_ours (rsp_csn_pair c)) + 1
  ∧ obox_encrypt (E := SignalingError) (mkOpenBox (Message.Key (mkKey (public_key (rsp_keypair c))))
      (mkNonce (cookie_ours (rsp_cookie_pair c)) (mkAddress 1) a (snapshot_of ours')))
      (c_permanent_keypair (is_common s)) pk = Ok bk
  ∧ is_handle_key (mkKey sk) a s w = (Ok [HandleAction.Reply bk], is_set_responders
      (<[a := rsp_set_handshake_state ResponderHandshakeState.KeySent
         (advanced (rsp_set_session_key (Some sk) c) ours')]> (is_responders s)) s, w).
Proof.
  intros Hid Hl Ha Hadr Hwf Hpk Hsk Hne Hlow.
  destruct (draw_nonce ClientIdentity.Initiator
    (rsp_set_handshake_state ResponderHandshakeState.KeyReceived (rsp_set_session_key (Some sk) c))
    (mkAddress 1) a) as (ours' & Hw & Hn & Hdraw); [exact Hwf|done| |done|].
  { simpl. intros E. rewrite Hadr, bool_decide_eq_true_2 by lia. by destruct a. }
  destruct (obox_encrypt_total (E := SignalingError)
    (mkOpenBox (Message.Key (mkKey (public_key (rsp_keypair c))))
      (mkNonce (cookie_ours (rsp_cookie_pair c)) (mkAddress 1) a (snapshot_of ours')))
    (c_permanent_keypair (is_common s)) pk) as (bk & Hbk & _).
  exists ours', bk. split_and!; [done..|]. unfold is_handle_key, identity. mred. rewrite Hl, Hid. mred.
  rewrite Hsk. mred. rewrite Hpk. mred. rewrite bool_decide_eq_false_2 by done. 
  unfold next_peer_nonce in *. mred. rewrite Hdraw. mred. rewrite Hpk. mred. rewrite Hbk. mred.
  by rewrite !insert_insert_eq.
Qed.

(** ** Dropping the other responders *)

(** The server can be sent [n] more messages. *)
Record server_ready (n : Z) (c : Common T) : Prop := {
  sr_role : c_role c = Role.Initiator;
  sr_identity : c_identity c = ClientIdentity.Initiator;
  sr_session : is_Some (srv_session_key (c_server c));
  sr_wf : wf_peer (c_server c);
  sr_room : csn_number (csn_ours (srv_csn_pair (c_server c))) + n < CSN_LIMIT;
}.

Lemma send_drop_run a r n s w : server_ready (n + 1) (is_common s) → 0 ≤ n →
  ∃ b srv, send_drop_responder a r s w
      = (Ok (HandleAction.Reply b), is_set_common (with_server srv (is_common s)) s, w)
    ∧ server_ready n (with_server srv (is_common s)).
Proof.
  intros [Hr Hi [k Hk] Hw Hroom] Hn.
  destruct (peer_increment_cases _ Hw) as (ours' & Ho & Hp2 & Hp1).
  destruct (peer_increment (c_server (is_common s))) as [[snap|e|m] srv] eqn:Hp; simpl in *; [|lia|done].
  destruct Hp1 as [-> Hnum]. subst srv.
  unfold send_drop_responder, next_server_nonce, role, identity, server. mred. rewrite Hr. mred.
  rewrite Hi. mred. unfold peer_increment in *. mred. rewrite Hp. mred. rewrite Hk. mred.
  destruct (obox_encrypt_total (E := SignalingError)
    (mkOpenBox (Message.DropResponder (drop_responder_with_reason a r))
      (mkNonce (cookie_ours (srv_cookie_pair (c_server (is_common s)))) (mkAddress 1) (mkAddress 0)
        (snapshot_of ours'))) (c_permanent_keypair (is_common s)) k) as (b & Hb & _).
  rewrite Hb. mred. do 2 eexists. split; [done|].
  split; simpl; [done..|by eexists|exact (wf_advanced _ _ Hw Ho)|lia].
Qed.

Lemma mfor_cons_run {W St E A B} (f : B → A → M W St E B) acc a l (x : St) w acc' x' w' :
  f acc a x w = (Ok acc', x', w') → mfor f acc (a :: l) x w = mfor f acc' l x' w'.
Proof. intros Hf. simpl. unfold mbind, M_bind. by rewrite Hf. Qed.
Lemma drop_all_run r l : ∀ acc s w, server_ready (Z.of_nat (length l)) (is_common s) →
  ∃ bs srv, mfor (λ acc a, drop_responder ← send_drop_responder a r; mret (acc ++ [drop_responder]))
      acc l s w = (Ok (acc ++ map HandleAction.Reply bs), is_set_common (with_server srv (is_common s)) s, w)
    ∧ length bs = length l.
Proof.
  induction l as [|a l IH]; intros acc s w Hs.
  { exists [], (c_server (is_common s)). simpl. mred. rewrite app_nil_r. by destruct s as [[]]. }
  destruct (send_drop_run a r (Z.of_nat (length l)) s w) as (b & srv & Hd & Hs'); [|lia|].
  { simpl in Hs. by rewrite Nat2Z.inj_succ in Hs. }
  destruct (IH (acc ++ [HandleAction.Reply b])
    (is_set_common (with_server srv (is_common s)) s) w Hs') as (bs & srv' & Hf & Hl).
  exists (b :: bs), srv'. split; [|by simpl; rewrite Hl]. 
  erewrite mfor_cons_run; [rewrite Hf; by rewrite <- app_assoc|]. unfold mbind, M_bind. by rewrite Hd.
Qed.

Lemma drop_others_run s w : server_ready (Z.of_nat (size (is_responders s))) (is_common s) →
  ∃ bs srv w', drop_other_responders s w = (Ok (map HandleAction.Reply bs),
      is_set_responders ∅ (is_set_common (with_server srv (is_common s)) s), w')
    ∧ length bs = size (is_responders s).
Proof.
  intros Hs. unfold drop_other_responders. unfold mbind, M_bind, mget at 1.
  destruct (bool_decide (is_responders s = ∅)) eqn:Hb.
  - apply bool_decide_eq_true in Hb. exists [], (c_server (is_common s)), w. rewrite Hb.
    split; [|by rewrite map_size_empty]. mred. destruct s as [[] m]; simpl in *. by subst.
  - unfold mworld. pose proof (hash_order_perm (dom (is_responders s)) w) as Hp.
    destruct (hash_order _ w) as [l w'] eqn:Hh. simpl in Hp.
    assert (length l = size (is_responders s)) as Hl by (by rewrite Hp, <- size_dom).
    rewrite <- Hl in Hs |- *.
    destruct (drop_all_run DropReason.DroppedByInitiator l [] s w' Hs) as (bs & srv & Hf & Hlen).
    exists bs, srv, w'. split; [|done]. change (@mbind) with (@mbind) in *. unfold mbind, M_bind in Hf.
    rewrite Hf. by mred.
Qed.

(** ** The auth message *)

(** The fields a responder with distinct tasks proposes are accepted. *)
Abbreviation proposes := (foldl (λ (d : gmap string (option (gmap string Value))) t,
  <[task_name t := task_data t]> d)).
Lemma proposes_other (l : list T) : ∀ d n, n ∉ task_name <$> l → proposes d l !! n = d !! n.
Proof.
  induction l as [|t l IH]; intros d n Hn; [done|].
  rewrite fmap_cons, not_elem_of_cons in Hn. destruct Hn as [Hne Hn]. simpl.
  rewrite IH by done. by apply lookup_insert_ne.
Qed.
Lemma proposes_data (l : list T) : ∀ d t, NoDup (task_name <$> l) → t ∈ l →
  proposes d l !! task_name t = Some (task_data t).
Proof.
  induction l as [|u l IH]; intros d t Hnd Ht; [by apply elem_of_nil in Ht|].
  rewrite fmap_cons, NoDup_cons in Hnd. destruct Hnd as [Hu Hnd]. simpl.
  apply elem_of_cons in Ht as [->|Ht]; [|by apply IH]. rewrite proposes_other by done.
  apply lookup_insert_eq.
Qed.
Lemma proposes_size (l : list T) : ∀ d,
  NoDup (task_name <$> l) → (∀ t, t ∈ l → d !! task_name t = None) →
  size (proposes d l) = (size d + length l)%nat.
Proof.
  induction l as [|u l IH]; intros d Hnd Hd; simpl; [lia|].
  rewrite fmap_cons, NoDup_cons in Hnd. destruct Hnd as [Hu Hnd]. rewrite IH; [|done|].
  - rewrite map_size_insert_None by (apply Hd; by left). lia.
  - intros t Ht. rewrite lookup_insert_ne; [apply Hd; by right|]. intros He. apply Hu. rewrite He.
    by apply list_elem_of_fmap_2.
Qed.
Lemma check_proposal c ts : wf_tasks ts →
  check_auth_fields (responder_auth c ts) = Ok (task_name <$> tasks_vec ts).
Proof.
  intros [Hne Hnd]. unfold check_auth_fields, responder_auth. cbn [auth_task auth_tasks auth_data].
  rewrite bool_decide_eq_false_2 by (by intros [? ?]).
  assert (size (proposes ∅ (tasks_vec ts)) = length (task_name <$> tasks_vec ts)) as Hsize.
  { rewrite proposes_size, map_size_empty, length_fmap; [done..|]. by intros; apply lookup_empty. }
  assert (list_find (λ n, proposes ∅ (tasks_vec ts) !! n = None) (task_name <$> tasks_vec ts) = None)
    as Hfind.
  { apply list_find_None, Forall_forall. intros n Hn.
    apply list_elem_of_fmap in Hn as (u & -> & Hu). by rewrite proposes_data. }
  destruct (task_name <$> tasks_vec ts) as [|n names] eqn:Hnames; [by apply fmap_nil_inv in Hnames|].
  unfold mbind, outcome_bind. rewrite Hsize, Hfind. by rewrite bool_decide_eq_false_2 by (by intros []).
Qed.

Lemma finish_auth_run c t s w a sk theirs : peer_phase (is_common s) ClientIdentity.Initiator →
  server_ready (Z.of_nat (size (is_responders s))) (is_common s) → wf_peer c → rsp_address c = a →
  rsp_session_key c = Some sk → cookie_theirs (rsp_cookie_pair c) = Some theirs →
  csn_number (csn_ours (rsp_csn_pair c)) + 1 < CSN_LIMIT →
  ∃ ours' ba drops srv w', wf_csn ours'
  ∧ csn_number ours' = csn_number (csn_ours (rsp_csn_pair c)) + 1
  ∧ obox_encrypt (E := SignalingError)
      (mkOpenBox (Message.Auth (mkAuth theirs None (Some (task_name t)) {[task_name t := task_data t]}))
        (mkNonce (cookie_ours (rsp_cookie_pair c)) (mkAddress 1) a (snapshot_of ours')))
      (rsp_keypair c) sk = Ok ba
  ∧ is_finish_auth c t s w = (Ok (map HandleAction.Reply drops
        ++ [HandleAction.Reply ba; HandleAction.HandshakeDone]),
      mkInitiatorSignaling
        (with_signaling_state SignalingState.Task (with_task (Some t) (Some (task_supported_types t))
          (with_server srv (is_common s)))) ∅
        (Some (rsp_set_handshake_state ResponderHandshakeState.AuthSent (advanced c ours')))
        (is_counter s), w').
Proof.
  intros [Hst Hid] Hready Hwf Ha Hsk Hck Hroom.
  destruct (drop_others_run s w Hready) as (drops & srv & w' & Hdrop & _).
  destruct (peer_increment_cases _ Hwf) as (ours' & Ho & Hp2 & Hp1). simpl in Hp1, Hp2.
  destruct (peer_increment c) as [[snap|e|m] c1] eqn:Hp; simpl in *; [|lia|done].
  destruct Hp1 as [-> Hnum]. subst c1.
  destruct (obox_encrypt_total (E := SignalingError)
    (mkOpenBox (Message.Auth (mkAuth theirs None (Some (task_name t)) {[task_name t := task_data t]}))
        (mkNonce (cookie_ours (rsp_cookie_pair c)) (mkAddress 1) a (snapshot_of ours')))
    (rsp_keypair c) sk) as (ba & Hba & _).
  exists ours', ba, drops, srv, w'. split_and!; [done..|].
  unfold is_finish_auth, identity. unfold mbind, M_bind at 1. rewrite Hdrop. mred. rewrite Hck. mred.
  unfold peer_increment in *. mred. rewrite Hid. mred.
  destruct (increment _) as [r0 ours0]. injection Hp as -> ->. rewrite Hsk. simpl.
  rewrite <- (insert_empty (task_name t)) in Hba. subst a. rewrite Hba. mred. unfold set_signaling_state.
  simpl. rewrite Hst. by rewrite bool_decide_eq_false_2.
Qed.

Lemma handle_auth_run s w a c ours ts t tr t' sk theirs :
  peer_phase (is_common s) ClientIdentity.Initiator → is_responders s !! a = Some c →
  server_ready (Z.of_nat (size (is_responders s) - 1)) (is_common s) → wf_peer c → rsp_address c = a →
  rsp_session_key c = Some sk → cookie_theirs (rsp_cookie_pair c) = Some theirs →
  csn_number (csn_ours (rsp_csn_pair c)) + 1 < CSN_LIMIT →
  c_tasks (is_common s) = Some ours → wf_tasks ts →
  choose_shared_task ours (task_name <$> tasks_vec ts) = Some t →
  tr ∈ tasks_vec ts → task_name tr = task_name t → task_init (task_data tr) t = (inl tt, t') →
  ∃ ours' ba drops srv w', wf_csn ours'
  ∧ csn_number ours' = csn_number (csn_ours (rsp_csn_pair c)) + 1
  ∧ obox_encrypt (E := SignalingError)
      (mkOpenBox (Message.Auth (mkAuth theirs None (Some (task_name t')) {[task_name t' := task_data t']}))
        (mkNonce (cookie_ours (rsp_cookie_pair c)) (mkAddress 1) a (snapshot_of ours')))
      (rsp_keypair c) sk = Ok ba
  ∧ is_handle_auth (responder_auth (cookie_ours (rsp_cookie_pair c)) ts) a s w
    = (Ok (map HandleAction.Reply drops ++ [HandleAction.Reply ba; HandleAction.HandshakeDone]),
      mkInitiatorSignaling
        (with_signaling_state SignalingState.Task (with_task (Some t') (Some (task_supported_types t'))
          (with_server srv (with_tasks None (is_common s))))) ∅
        (Some (rsp_set_handshake_state ResponderHandshakeState.AuthSent (advanced c ours')))
        (is_counter s), w').
Proof.
  intros Hph Hl Hready Hwf Ha Hsk Hck Hroom Hours Hts Hch Htr Hname Hinit.
  destruct (finish_auth_run c t' (is_set_common (with_tasks None (is_common s))
    (is_set_responders (delete a (is_responders s)) s)) w a sk theirs) as (ours' & ba & drops & srv & w' &
    Hwo & Hn & Hb & Hrun); try done.
  { simpl. rewrite map_size_delete_Some by eauto. rewrite <- Nat.sub_1_r. destruct Hready. by split. }
  exists ours', ba, drops, srv, w'. split_and!; [done..|].
  unfold is_handle_auth. mred. rewrite Hl. mred. unfold validate_repeated_cookie.
  rewrite bool_decide_eq_false_2 by (intros Hx; by apply Hx). mred.
  rewrite check_proposal by done. mred. rewrite Hours. mred. rewrite Hch.
  assert (proposes ∅ (tasks_vec ts) !! task_name t = Some (task_data tr)) as Hdata.
  { rewrite <- Hname. apply proposes_data; [apply Hts|done]. }
  rewrite Hdata. mred. rewrite Hinit. mred. by rewrite Hrun.
Qed.
End initiator_side.

(** ** The responder's side *)

Section responder_side.
Context {T : Type} `{!Task T}.
Context `{!ByteOrder, !Sodium, !SodiumLaws, !Rmps, !RmpsLaws, !Env, !EnvLaws}.
Implicit Types s : ResponderSignaling T.

(** A message on its way to the responder at [a] from the initiator. *)
Record answers (b : ByteBox) s (a : Address) : Prop := {
  an_phase : peer_phase (rs_common s) (ClientIdentity.Responder (addr a));
  an_range : 2 ≤ addr a < 256;
  an_source : nonce_source (bbox_nonce b) = mkAddress 1;
  an_destination : nonce_destination (bbox_nonce b) = a;
  an_wf : wf_nonce (bbox_nonce b);
  an_fresh : acceptable (bbox_nonce b) (rs_initiator s);
}.

Lemma rs_receive b m s w a : answers b s a →
  let s1 := rs_set_initiator (accept (bbox_nonce b) (rs_initiator s)) s in
  rs_decode_peer_message b s1 = Ok (mkOpenBox m (bbox_nonce b)) →
  handle_message b s w = rs_handle_peer_message (mkOpenBox m (bbox_nonce b)) s1 w.
Proof.
  intros [[Hst Hid] Ha Hsrc Hdst _ [Hcsn Hck]] s1 Hd.
  assert (validate_nonce (bbox_nonce b) s w = (Ok tt, s1, w)) as Hv.
  { unfold validate_nonce. simpl. unfold rs_validate_nonce_destination, rs_validate_nonce_source, identity.
    mred. rewrite Hid. simpl. rewrite Hid. simpl. rewrite bool_decide_eq_true_2 by lia. mred.
    rewrite bool_decide_eq_false_2 by (rewrite Hdst; intros Hx; apply Hx; by destruct a).
    rewrite Hsrc. simpl. rewrite Hid.
    unfold validate_nonce_csn, validate_nonce_cookie, find_sender. mred. rewrite Hsrc. simpl.
    rewrite check_csn_fresh by done. mred. rewrite check_cookie_fresh by done. by mred. }
  unfold handle_message, dispatch_message. mred. rewrite Hv. mred. rewrite Hsrc. simpl. rewrite Hst.
  unfold handle_handshake_peer_message. rewrite Hsrc. mred. simpl. rewrite Hd. mred.
  rewrite Hst. by rewrite Hsrc.
Qed.

Lemma rs_receive_key b s w a k : answers b s a →
  ini_handshake_state (rs_initiator s) = InitiatorHandshakeState.KeySent →
  obox_decrypt b (c_permanent_keypair (rs_common s)) (ini_permanent_key (rs_initiator s))
    = Ok (mkOpenBox (Message.Key k) (bbox_nonce b)) →
  handle_message b s w = rs_handle_key k (bbox_nonce b)
    (rs_set_initiator (accept (bbox_nonce b) (rs_initiator s)) s) w.
Proof.
  intros Han Hst Hdec. rewrite (rs_receive b (Message.Key k) s w a); [|done|].
  - unfold rs_handle_peer_message. mred. by rewrite Hst.
  - unfold rs_decode_peer_message. rewrite (an_source _ _ _ Han). simpl. by rewrite Hst.
Qed.
Lemma rs_receive_auth b s w a sk m : answers b s a →
  ini_handshake_state (rs_initiator s) = InitiatorHandshakeState.AuthSent →
  ini_session_key (rs_initiator s) = Some sk →
  obox_decrypt b (ini_keypair (rs_initiator s)) sk
    = Ok (mkOpenBox (Message.Auth m) (bbox_nonce b)) →
  handle_message b s w = rs_handle_auth m (mkAddress 1)
    (rs_set_initiator (accept (bbox_nonce b) (rs_initiator s)) s) w.
Proof.
  intros Han Hst Hsk Hdec. rewrite (rs_receive b (Message.Auth m) s w a); [|done|].
  - unfold rs_handle_peer_message. mred. rewrite Hst. by rewrite (an_source _ _ _ Han).
  - unfold rs_decode_peer_message. rewrite (an_source _ _ _ Han). simpl. rewrite Hst, Hsk. by simpl.
Qed.

Lemma rs_handle_key_run s w a ts n sk : peer_phase (rs_common s) (ClientIdentity.Responder (addr a)) →
  2 ≤ addr a < 256 → wf_peer (rs_initiator s) → ini_session_key (rs_initiator s) = None →
  sk ≠ ini_permanent_key (rs_initiator s) → c_tasks (rs_common s) = Some ts → wf_tasks ts →
  csn_number (csn_ours (ini_csn_pair (rs_initiator s))) + 1 < CSN_LIMIT →
  ∃ ours' ba, wf_csn ours'
  ∧ csn_number ours' = csn_number (csn_ours (ini_csn_pair (rs_initiator s))) + 1
  ∧ obox_encrypt (E := SignalingError)
      (mkOpenBox (Message.Auth (responder_auth (nonce_cookie n) ts))
        (mkNonce (cookie_ours (ini_cookie_pair (rs_initiator s))) a (mkAddress 1) (snapshot_of ours')))
      (ini_keypair (rs_initiator s)) sk = Ok ba
  ∧ rs_handle_key (mkKey sk) n s w = (Ok [HandleAction.Reply ba], rs_set_initiator
      (ini_set_handshake_state InitiatorHandshakeState.AuthSent
        (advanced (ini_set_session_key (Some sk) (rs_initiator s)) ours')) s, w).
Proof.
  intros [_ Hid] Ha Hwf Hsk Hne Hts [Htn Htd] Hroom.
  destruct (draw_nonce (ClientIdentity.Responder (addr a))
    (ini_set_handshake_state InitiatorHandshakeState.KeyReceived
      (ini_set_session_key (Some sk) (rs_initiator s))) a (mkAddress 1))
    as (ours' & Hw & Hn & Hdraw); [exact Hwf| |done..|].
  { intros E. simpl. rewrite bool_decide_eq_true_2 by lia. by destruct a. }
  destruct (obox_encrypt_total (E := SignalingError)
    (mkOpenBox (Message.Auth (responder_auth (nonce_cookie n) ts))
      (mkNonce (cookie_ours (ini_cookie_pair (rs_initiator s))) a (mkAddress 1) (snapshot_of ours')))
    (ini_keypair (rs_initiator s)) sk) as (ba & Hba & _).
  exists ours', ba. split_and!; [done..|].
  assert ((b ← add_tasks ts (responder_auth_new (nonce_cookie n)); responder_auth_build b)
    = Ok (responder_auth (nonce_cookie n) ts)) as Hauth.
  { rewrite responder_auth_spec. by rewrite decide_False, decide_True. }
  unfold rs_handle_key, next_initiator_nonce, identity, set_initiator_state. mred. rewrite Hsk. mred.
  rewrite bool_decide_eq_false_2 by done. mred. rewrite Hts. mred.
  unfold mbind, outcome_bind in *. rewrite Hauth. mred. unfold next_peer_nonce in *. mred. rewrite Hid.
  mred. rewrite Hdraw. mred. by rewrite Hba.
Qed.

Lemma find_by_name (l : list T) t n : NoDup (task_name <$> l) → t ∈ l → task_name t = n →
  snd <$> list_find (λ u, task_name u = n) l = Some t.
Proof.
  intros Hnd Ht Hn. induction l as [|u l IH]; [by apply elem_of_nil in Ht|].
  rewrite fmap_cons, NoDup_cons in Hnd. destruct Hnd as [Hu Hnd]. simpl.
  apply elem_of_cons in Ht as [->|Ht]; [by rewrite decide_True|].
  rewrite decide_False; [|intros He; apply Hu; rewrite He, <- Hn; by apply list_elem_of_fmap_2].
  specialize (IH Hnd Ht). destruct (list_find _ l) as [[i v]|]; [|done]. exact IH.
Qed.

Lemma rs_handle_auth_run s w ts tr t t' src : c_signaling_state (rs_common s) = SignalingState.PeerHandshake →
  c_tasks (rs_common s) = Some ts → wf_tasks ts → tr ∈ tasks_vec ts → task_name tr = task_name t →
  task_init (task_data t) tr = (inl tt, t') →
  rs_handle_auth (mkAuth (cookie_ours (ini_cookie_pair (rs_initiator s))) None (Some (task_name t))
      {[task_name t := task_data t]}) src s w
  = (Ok [HandleAction.HandshakeDone], mkResponderSignaling
      (with_signaling_state SignalingState.Task (with_task (Some t') (Some (task_supported_types t'))
        (with_tasks None (rs_common s))))
      (ini_set_handshake_state InitiatorHandshakeState.AuthReceived (rs_initiator s)), w).
Proof.
  intros Hst Hts [_ Hnd] Htr Hname Hinit.
  assert (snd <$> list_find (λ u, task_name u = task_name t) (tasks_vec ts) = Some tr) as Hfind.
  { by apply find_by_name. }
  unfold rs_handle_auth, validate_repeated_cookie, set_initiator_state. mred.
  rewrite bool_decide_eq_false_2 by (intros Hx; by apply Hx). mred. rewrite Hts. mred. rewrite Hfind. mred.
  rewrite bool_decide_eq_false_2 by apply map_non_empty_singleton. rewrite map_size_singleton. mred.
  rewrite Hname, lookup_singleton_eq. mred. rewrite Hinit. mred. unfold set_signaling_state. simpl.
  rewrite Hst. by rewrite bool_decide_eq_false_2.
Qed.
End responder_side.
