(* ===== verification/PeerSession.v ===== *)
(** * The peer handshake of two honest clients

    The peer handshake as a whole: from a responder that has sent its token and
    key messages and an initiator that knows the responder by its address, the
    four answers are exchanged and both clients reach the task phase with the
    task they share and the two ends of one session, for all keys, cookies,
    counters and tasks. The starting states are the ones the handlers of the
    server's messages leave behind. *)

From S2P Require Import Prelude Text External Errors Types Csn Cookie Nonce Crypto Tasks Messages.
From S2P Require Import ReferenceCodec Boxes Context Signaling SignalingSpec SignalingSafe Runs.
From S2P Require Import Initiator InitiatorSafe Responder ResponderSafe Channel Handshake.
From S2P Require Import InitiatorProps ResponderProps HandshakeRuns.

Section session.
Context {T : Type} `{!Task T}.
Context `{!ByteOrder, !ByteOrderLaws, !Sodium, !SodiumLaws, !Rmps, !RmpsLaws, !Env, !EnvLaws}.
Implicit Types si : InitiatorSignaling T.
Implicit Types sr : ResponderSignaling T.

(** ** The two sides before the exchange *)

Abbreviation initiator_keys si := (c_permanent_keypair (is_common si)).
Abbreviation responder_keys sr := (c_permanent_keypair (rs_common sr)).

(** The nonces between the responder at [a] and the initiator. *)
Definition to_initiator (a : Address) sr (c : CombinedSequence) : Nonce :=
  mkNonce (cookie_ours (ini_cookie_pair (rs_initiator sr))) a (mkAddress 1) (snapshot_of c).
Definition to_responder (a : Address) (r : ResponderContext) (c : CombinedSequence) : Nonce :=
  mkNonce (cookie_ours (rsp_cookie_pair r)) (mkAddress 1) a (snapshot_of c).

(** The responder at [a] has sent [bs]: its token message, if it has a token,
    and its key message. *)
Record offered (a : Address) (token : option AuthToken) (bs : list ByteBox) sr : Prop := {
  of_inv : responder_state_inv sr;
  of_range : 2 ≤ addr a < 256;
  of_phase : peer_phase (rs_common sr) (ClientIdentity.Responder (addr a));
  of_state : ini_handshake_state (rs_initiator sr) = InitiatorHandshakeState.KeySent;
  of_csn : csn_theirs (ini_csn_pair (rs_initiator sr)) = None;
  of_cookie : cookie_theirs (ini_cookie_pair (rs_initiator sr)) = None;
  of_room : csn_number (csn_ours (ini_csn_pair (rs_initiator sr))) < 2 ^ 32;
  of_sent : ∃ bk, obox_encrypt (E := SignalingError)
      (mkOpenBox (Message.Key (mkKey (public_key (ini_keypair (rs_initiator sr)))))
        (to_initiator a sr (csn_ours (ini_csn_pair (rs_initiator sr)))))
      (responder_keys sr) (ini_permanent_key (rs_initiator sr)) = Ok bk
    ∧ match token with
      | Some t => ∃ ct bt, wf_csn ct
          ∧ csn_number ct < csn_number (csn_ours (ini_csn_pair (rs_initiator sr)))
          ∧ obox_encrypt_token (E := SignalingError)
              (mkOpenBox (Message.Token (mkToken (public_key (responder_keys sr)))) (to_initiator a sr ct))
              t = Ok bt
          ∧ bs = [bt; bk]
      | None => bs = [bk]
      end;
}.

(** The initiator knows the responder at [a] by a new context [c], and either
    shares the token or trusts the key [pk]. *)
Record awaits (a : Address) (token : option AuthToken) (pk : PublicKey) (c : ResponderContext) si
    : Prop := {
  aw_inv : initiator_inv si;
  aw_phase : peer_phase (is_common si) ClientIdentity.Initiator;
  aw_sender : is_responders si !! a = Some c;
  aw_csn : csn_theirs (rsp_csn_pair c) = None;
  aw_cookie : cookie_theirs (rsp_cookie_pair c) = None;
  aw_room : csn_number (csn_ours (rsp_csn_pair c)) + 1 < 2 ^ 32;
  aw_server : csn_number (csn_ours (srv_csn_pair (c_server (is_common si))))
    + Z.of_nat (size (is_responders si) - 1) < CSN_LIMIT;
  aw_provider : match token with
    | Some t => rsp_handshake_state c = ResponderHandshakeState.New
        ∧ c_auth_provider (is_common si) = Some (AuthProvider.Token t)
    | None => rsp_handshake_state c = ResponderHandshakeState.TokenReceived
        ∧ rsp_permanent_key c = Some pk
    end;
}.

(** The values drawn or configured independently by the two sides: the keys are
    key pairs, the initiator's key is the one the responder was given, and no
    two of the random values coincide. *)
Record distinct_secrets (c : ResponderContext) si sr : Prop := {
  ds_initiator : wf_keypair (initiator_keys si);
  ds_responder : wf_keypair (responder_keys sr);
  ds_known : ini_permanent_key (rs_initiator sr) = public_key (initiator_keys si);
  ds_initiator_session : public_key (rsp_keypair c) ≠ public_key (initiator_keys si);
  ds_responder_session : public_key (responder_keys sr) ≠ public_key (ini_keypair (rs_initiator sr));
  ds_cookies : cookie_ours (ini_cookie_pair (rs_initiator sr)) ≠ cookie_ours (rsp_cookie_pair c);
}.

(** The names and data of a task, and of a list of tasks, can be sent. *)
Definition wire_task (t : T) : Prop :=
  wf_string (task_name t) ∧ from_option wf_map True (task_data t).
Definition wire_tasks (ts : Tasks T) : Prop :=
  short (tasks_vec ts) ∧ Forall wire_task (tasks_vec ts).

(** The two task lists share [ti] (the initiator's) and [tr] (the responder's),
    each accepts the other's data, and what is told of them can be sent. *)
Record shared_task (ti ti' tr tr' : T) si sr : Prop := {
  st_lists : ∃ its rts, c_tasks (is_common si) = Some its ∧ c_tasks (rs_common sr) = Some rts
    ∧ wf_tasks rts ∧ wire_tasks rts ∧ tr ∈ tasks_vec rts
    ∧ choose_shared_task its (task_name <$> tasks_vec rts) = Some ti;
  st_name : task_name tr = task_name ti;
  st_initiator : task_init (task_data tr) ti = (inl tt, ti') ∧ task_name ti' = task_name ti;
  st_responder : task_init (task_data ti') tr = (inl tt, tr');
  st_wire : wire_task ti';
}.

(** ** Sealed boxes open on the other side *)

Lemma sealed_opens k1 k2 m n b : wf_keypair k1 → wf_keypair k2 → peer_message m = true → wf_message m →
  wire_message m → obox_encrypt (E := SignalingError) (mkOpenBox m n) k1 (public_key k2) = Ok b →
  bbox_nonce b = n ∧ obox_decrypt b k2 (public_key k1) = Ok (mkOpenBox m n).
Proof.
  intros Hk1 Hk2 Hp Hm Hwi Hb.
  destruct (obox_encrypt_decrypt (E := SignalingError) k1 k2 m n Hk1 Hk2 Hp Hm Hwi)
    as (b' & Hb' & Hn & Hd). rewrite Hb in Hb'. by injection Hb' as ->.
Qed.
Lemma sealed_nonce m n k pk b : obox_encrypt (E := SignalingError) (mkOpenBox m n) k pk = Ok b →
  bbox_nonce b = n.
Proof. unfold obox_encrypt. destruct (to_msgpack _); [|done..]. by intros [= <-]. Qed.
Lemma token_opens t m n b : peer_message m = true → wf_message m → wire_message m →
  obox_encrypt_token (E := SignalingError) (mkOpenBox m n) t = Ok b →
  bbox_nonce b = n ∧ obox_decrypt_token b t = Ok (mkOpenBox m n).
Proof.
  intros Hp Hm Hwi Hb. destruct (obox_encrypt_token_decrypt (E := SignalingError) t m n Hp Hm Hwi)
    as (b' & Hb' & Hn & Hd). rewrite Hb in Hb'. by injection Hb' as ->.
Qed.
(** What the auth messages tell of the tasks can be sent. *)
Lemma proposes_wire (l : list T) (d : gmap string (option (gmap string Value))) :
  map_Forall (λ k o, wf_string k ∧ from_option wf_map True o) d → Forall wire_task l →
  map_Forall (λ k o, wf_string k ∧ from_option wf_map True o)
    (foldl (λ d t, <[task_name t := task_data t]> d) d l).
Proof.
  intros Hd Hl. revert d Hd. induction Hl as [|t l Ht _ IH]; intros d Hd; [done|].
  apply IH. by apply map_Forall_insert_2.
Qed.
Lemma wire_proposal c ts : wf_tasks ts → wire_tasks ts →
  wire_message (Message.Auth (responder_auth c ts)).
Proof.
  intros [_ Hnd] [Hs Ht]. split_and!; cbn [auth_tasks auth_task auth_data responder_auth]; [|done|split].
  - split; [unfold short; by rewrite length_fmap|]. apply Forall_fmap. eapply Forall_impl; [exact Ht|].
    by intros ? [].
  - rewrite proposes_size, map_size_empty by (done || by intros; apply lookup_empty). done.
  - by apply proposes_wire.
Qed.
Lemma wire_choice c (t : T) : wire_task t →
  wire_message (Message.Auth (mkAuth c None (Some (task_name t)) {[task_name t := task_data t]})).
Proof.
  intros [Hn Hd]. split_and!; [done|done|]. split; simpl; [by rewrite map_size_singleton|].
  by apply map_Forall_singleton.
Qed.

Lemma to_initiator_wf a sr c : 2 ≤ addr a < 256 → wf_peer (rs_initiator sr) → wf_csn c →
  wf_nonce (to_initiator a sr c).
Proof.
  intros Ha [_ [Hc _]] Hw. unfold to_initiator, wf_nonce, wf_address. simpl.
  split_and!; [done|unwidth; lia|unwidth; lia|by apply snapshot_of_wf].
Qed.
Lemma to_responder_wf a r c : 2 ≤ addr a < 256 → wf_peer r → wf_csn c → wf_nonce (to_responder a r c).
Proof.
  intros Ha [_ [Hc _]] Hw. unfold to_responder, wf_nonce, wf_address. simpl.
  split_and!; [done|unwidth; lia|unwidth; lia|by apply snapshot_of_wf].
Qed.

(** ** The messages of the exchange *)

(** Handling a list of boxes, one after the other. *)
Fixpoint receive_all {S} `{!Signaling T S} (bs : list ByteBox)
    : M env S SignalingError (list HandleAction) :=
  match bs with
  | [] => mret []
  | b :: bs' => acts ← handle_message b; rest ← receive_all bs'; mret (acts ++ rest)
  end.

Lemma receive_all_cons {S} `{!Signaling T S} b bs (s : S) w s' w' :
  handle_message b s w = (Ok [], s', w') → receive_all (b :: bs) s w = receive_all bs s' w'.
Proof.
  intros Hb. simpl. unfold mbind, M_bind. rewrite Hb.
  by destruct (receive_all bs s' w') as [[[acts|e|m] s2] w2].
Qed.

(** The initiator is about to take the responder's key message [bk]. *)
Record prepared (a : Address) (bk : ByteBox) (c : ResponderContext) si (c0 : ResponderContext)
    (si0 : InitiatorSignaling T) sr : Prop := {
  pr_inv : initiator_inv si0;
  pr_arrives : arrives bk si0 a c0;
  pr_nonce : bbox_nonce bk = to_initiator a sr (csn_ours (ini_csn_pair (rs_initiator sr)));
  pr_opens : obox_decrypt bk (initiator_keys si) (public_key (responder_keys sr)) = Ok (mkOpenBox
    (Message.Key (mkKey (public_key (ini_keypair (rs_initiator sr))))) (bbox_nonce bk));
  pr_state : rsp_handshake_state c0 = ResponderHandshakeState.TokenReceived;
  pr_permanent : rsp_permanent_key c0 = Some (public_key (responder_keys sr));
  pr_keypair : rsp_keypair c0 = rsp_keypair c;
  pr_cookie : cookie_ours (rsp_cookie_pair c0) = cookie_ours (rsp_cookie_pair c);
  pr_csn : csn_ours (rsp_csn_pair c0) = csn_ours (rsp_csn_pair c);
  pr_keys : initiator_keys si0 = initiator_keys si;
  pr_tasks : c_tasks (is_common si0) = c_tasks (is_common si);
  pr_server : c_server (is_common si0) = c_server (is_common si);
  pr_size : size (is_responders si0) = size (is_responders si);
}.

Lemma key_opens a bk c si sr : responder_state_inv sr → distinct_secrets c si sr →
  obox_encrypt (E := SignalingError)
    (mkOpenBox (Message.Key (mkKey (public_key (ini_keypair (rs_initiator sr)))))
      (to_initiator a sr (csn_ours (ini_csn_pair (rs_initiator sr)))))
    (responder_keys sr) (ini_permanent_key (rs_initiator sr)) = Ok bk →
  bbox_nonce bk = to_initiator a sr (csn_ours (ini_csn_pair (rs_initiator sr)))
  ∧ obox_decrypt bk (initiator_keys si) (public_key (responder_keys sr)) = Ok (mkOpenBox
    (Message.Key (mkKey (public_key (ini_keypair (rs_initiator sr))))) (bbox_nonce bk)).
Proof.
  intros HI [Hki Hkr Hknown _ _ _] Hbk. rewrite Hknown in Hbk.
  apply sealed_opens in Hbk as [-> Hd]; try done. apply wf_keypair_public, HI.
Qed.

(** The responder's first message is accepted, with or without a token. *)
Lemma first_arrives a b ct c si sr : awaits a None (public_key (responder_keys sr)) c si ∨
    (∃ t, awaits a (Some t) (public_key (responder_keys sr)) c si) →
  2 ≤ addr a < 256 → wf_peer (rs_initiator sr) → distinct_secrets c si sr → wf_csn ct →
  csn_number ct < 2 ^ 32 → bbox_nonce b = to_initiator a sr ct → arrives b si a c.
Proof.
  intros Haw Ha Hwf [_ _ _ _ _ Hck] Hct Hlow Hn.
  assert (peer_phase (is_common si) ClientIdentity.Initiator ∧ is_responders si !! a = Some c
    ∧ csn_theirs (rsp_csn_pair c) = None ∧ cookie_theirs (rsp_cookie_pair c) = None)
    as (Hph & Hl & Hcsn & Hcookie) by (by destruct Haw as [[]|[t []]]).
  split; rewrite ?Hn; try done; [by apply to_initiator_wf|].
  split; simpl; [rewrite Hcsn|by rewrite Hcookie]. by apply low_overflow.
Qed.

Lemma offer_received a token bs sr c si w : offered a token bs sr → distinct_secrets c si sr →
  awaits a token (public_key (responder_keys sr)) c si →
  ∃ bk c0 si0, prepared a bk c si c0 si0 sr
  ∧ receive_all bs si w = receive_all [bk] si0 w.
Proof.
  intros [HIr Ha Hphr Hst Hcsnr Hckr Hroomr (bk & Hbk & Hbs)] Hds Haw.
  destruct (key_opens _ _ _ _ _ HIr Hds Hbk) as [Hn Hopen].
  pose proof (rs_inv_peer _ HIr) as Hwr. pose proof Hwr as [[Hwo _] _]. destruct token as [t|].
  - destruct Hbs as (ct & bt & Hct & Hlt & Hbt & ->).
    apply token_opens in Hbt as [Hnt Hopent]; [|done|by apply wf_keypair_public, Hds|done].
    assert (arrives bt si a c) as Har.
    { apply (first_arrives a bt ct c si sr); try done; [right; by exists t|lia]. }
    pose proof Haw as [HI Hph Hl Hcsn Hck Hroom _ [Hnew Hprov]].
    pose proof (inv_lookup _ _ _ HI Hl) as Hri. pose proof (ri_keys _ _ _ Hri) as Hkeys.
    unfold responder_keys_fit in Hkeys. rewrite Hnew in Hkeys. destruct Hkeys as (Hpk & Hsk & _).
    rewrite <- Hnt in Hopent.
    pose proof (is_receive_token bt si w a c t _ Har Hnew Hpk Hprov Hopent) as Hrun.
    pose proof (handle_message_safe initiator_inv bt si HI (ar_wf _ _ _ _ Har) w) as (HI' & _).
    rewrite Hrun in HI'. unfold post in HI'. simpl in HI'.
    exists bk, (rsp_set_handshake_state ResponderHandshakeState.TokenReceived
      (rsp_set_permanent_key (Some (public_key (responder_keys sr))) (accept (bbox_nonce bt) c))).
    eexists. split; cycle 1; [by apply receive_all_cons|].
    split; try done; simpl; [|by rewrite map_size_insert_Some].
    split; simpl; try done; [by rewrite lookup_insert_eq|by rewrite Hn..| |].
    + rewrite Hn. by apply to_initiator_wf.
    + rewrite Hn, Hnt. split; simpl; [|done]. rewrite !snapshot_of_number. done.
  - subst bs. exists bk, c, si. split; [|done]. pose proof Haw as [HI Hph Hl Hcsn Hck Hroom _ [Htr Hpk]].
    split; try done. apply (first_arrives a bk (csn_ours (ini_csn_pair (rs_initiator sr))) c si sr); try done.
    by left.
Qed.

(** *** The responder's key *)

(** The context of the responder once the initiator has answered its key. *)
Definition keyed_context (n : Z) (a : Address) (c : ResponderContext) sr (ours : CombinedSequence)
    : ResponderContext :=
  mkResponderContext ResponderHandshakeState.KeySent n a (Some (public_key (responder_keys sr)))
    (Some (public_key (ini_keypair (rs_initiator sr)))) (rsp_keypair c)
    (mkCombinedSequencePair ours (Some (snapshot_of (csn_ours (ini_csn_pair (rs_initiator sr))))))
    (mkCookiePair (cookie_ours (rsp_cookie_pair c))
      (Some (cookie_ours (ini_cookie_pair (rs_initiator sr))))).

Record keyed (a : Address) (c : ResponderContext) si sr (ours : CombinedSequence)
    (si1 : InitiatorSignaling T) : Prop := {
  ky_inv : initiator_inv si1;
  ky_phase : peer_phase (is_common si1) ClientIdentity.Initiator;
  ky_sender : ∃ n, is_responders si1 !! a = Some (keyed_context n a c sr ours);
  ky_tasks : c_tasks (is_common si1) = c_tasks (is_common si);
  ky_server : c_server (is_common si1) = c_server (is_common si);
  ky_size : size (is_responders si1) = size (is_responders si);
}.

Lemma key_taken a bk c si c0 si0 sr w : prepared a bk c si c0 si0 sr → distinct_secrets c si sr →
  csn_number (csn_ours (rsp_csn_pair c)) + 1 < 2 ^ 32 →
  ∃ ours b si1, wf_csn ours ∧ csn_number ours = csn_number (csn_ours (rsp_csn_pair c)) + 1
  ∧ obox_encrypt (E := SignalingError) (mkOpenBox (Message.Key (mkKey (public_key (rsp_keypair c))))
      (to_responder a c ours)) (initiator_keys si) (public_key (responder_keys sr)) = Ok b
  ∧ handle_message bk si0 w = (Ok [HandleAction.Reply b], si1, w)
  ∧ keyed a c si sr ours si1.
Proof.
  intros [HI Har Hn Hopen Hst Hpk Hkp Hco Hcsn Hki Hts Hsrv Hsz] Hds Hroom.
  pose proof Har as [[Hst0 Hid] Hl Ha _ _ Hwn _]. pose proof (inv_lookup _ _ _ HI Hl) as [_ Hadr Hwf _ Hfit].
  unfold responder_keys_fit in Hfit. rewrite Hst in Hfit. destruct Hfit as [_ Hsk].
  rewrite <- Hki in Hopen.
  destruct (is_handle_key_run (is_set_responders (<[a := accept (bbox_nonce bk) c0]> (is_responders si0)) si0)
    w a (accept (bbox_nonce bk) c0) (public_key (responder_keys sr))
    (public_key (ini_keypair (rs_initiator sr)))) as (ours & b & Hw & Hnum & Hb & Hrun); try done.
  { apply lookup_insert_eq. }
  { by apply wf_accept. }
  { apply Hds. }
  { simpl. rewrite Hcsn. unfold CSN_LIMIT. lia. }
  rewrite <- (is_receive_key bk si0 w a c0 _ _ Har Hst Hpk Hopen) in Hrun.
  cbn [is_responders is_set_responders] in Hrun. rewrite insert_insert_eq in Hrun.
  simpl in Hnum, Hb. rewrite Hcsn in Hnum. rewrite Hkp, Hco, Hki in Hb.
  pose proof (handle_message_safe initiator_inv bk si0 HI Hwn w) as (HI' & _).
  rewrite Hrun in HI'. unfold post in HI'. simpl in HI'.
  exists ours, b. eexists. split_and!; [done..|exact Hrun|]. split; try done.
  - exists (rsp_counter c0). simpl. rewrite lookup_insert_eq. unfold keyed_context.
    by rewrite Hn, Hkp, Hco, Hpk, Hadr.
  - simpl. by rewrite map_size_insert_Some.
Qed.

(** *** The initiator's key *)

(** The context of the initiator once the responder has answered its key. *)
Definition authed_context (c : ResponderContext) sr (theirs ours : CombinedSequence) : InitiatorContext :=
  mkInitiatorContext InitiatorHandshakeState.AuthSent (ini_permanent_key (rs_initiator sr))
    (Some (public_key (rsp_keypair c))) (ini_keypair (rs_initiator sr))
    (mkCombinedSequencePair ours (Some (snapshot_of theirs)))
    (mkCookiePair (cookie_ours (ini_cookie_pair (rs_initiator sr)))
      (Some (cookie_ours (rsp_cookie_pair c)))).

Lemma key_returned a token bs c si sr rts ours b w : offered a token bs sr → distinct_secrets c si sr →
  wf_peer c → wf_keypair (rsp_keypair c) → c_tasks (rs_common sr) = Some rts → wf_tasks rts →
  wf_csn ours → csn_number ours < 2 ^ 32 →
  obox_encrypt (E := SignalingError) (mkOpenBox (Message.Key (mkKey (public_key (rsp_keypair c))))
      (to_responder a c ours)) (initiator_keys si) (public_key (responder_keys sr)) = Ok b →
  ∃ next ba, wf_csn next
  ∧ csn_number next = csn_number (csn_ours (ini_csn_pair (rs_initiator sr))) + 1
  ∧ obox_encrypt (E := SignalingError)
      (mkOpenBox (Message.Auth (responder_auth (cookie_ours (rsp_cookie_pair c)) rts))
        (to_initiator a sr next)) (ini_keypair (rs_initiator sr)) (public_key (rsp_keypair c)) = Ok ba
  ∧ handle_message b sr w = (Ok [HandleAction.Reply ba],
      rs_set_initiator (authed_context c sr ours next) sr, w).
Proof.
  intros [HI Ha Hph Hst Hcsn Hck Hroom _] [Hki Hkr Hknown Hsi _ Hcook] Hwc Hkc Hts Hwts Hwo Hlow Hb.
  apply sealed_opens in Hb as [Hn Hopen]; [|done..|by apply wf_keypair_public|done].
  pose proof (rs_inv_keys _ HI) as Hfit. unfold initiator_keys_fit in Hfit. rewrite Hst in Hfit.
  assert (answers b sr a) as Han.
  { split; rewrite ?Hn; try done; [by apply to_responder_wf|]. split; simpl.
    - rewrite Hcsn. by apply low_overflow.
    - rewrite Hck. by intros Heq. }
  destruct (rs_handle_key_run (rs_set_initiator (accept (bbox_nonce b) (rs_initiator sr)) sr) w a rts
    (bbox_nonce b) (public_key (rsp_keypair c))) as (next & ba & Hw & Hnum & Hba & Hrun); try done.
  { apply wf_accept; [apply Han|apply HI]. }
  { simpl. by rewrite Hknown. }
  { simpl. unfold CSN_LIMIT. lia. }
  simpl in Hnum, Hba. exists next, ba. rewrite Hn in Hba. split_and!; [done..|].
  rewrite <- Hn in Hopen. rewrite <- Hknown in Hopen.
  rewrite (rs_receive_key b sr w a _ Han Hst Hopen), Hrun. rewrite Hn. done.
Qed.

(** *** The responder's auth *)

(** What the initiator holds after the handshake. *)
Record session_opened (a : Address) (c : ResponderContext) sr (t : T) (theirs ours : CombinedSequence)
    (si2 : InitiatorSignaling T) : Prop := {
  so_inv : initiator_inv si2;
  so_state : c_signaling_state (is_common si2) = SignalingState.Task;
  so_identity : c_identity (is_common si2) = ClientIdentity.Initiator;
  so_task : c_task (is_common si2) = Some t;
  so_types : c_task_supported_types (is_common si2) = Some (task_supported_types t);
  so_context : ∃ st n pk, is_responder si2 = Some (mkResponderContext st n a pk
    (Some (public_key (ini_keypair (rs_initiator sr)))) (rsp_keypair c)
    (mkCombinedSequencePair ours (Some (snapshot_of theirs)))
    (mkCookiePair (cookie_ours (rsp_cookie_pair c))
      (Some (cookie_ours (ini_cookie_pair (rs_initiator sr))))));
}.

Lemma auth_taken a c si sr si1 ours next ba ti ti' tr rts w :
  2 ≤ addr a < 256 → keyed a c si sr ours si1 → wf_keypair (rsp_keypair c) →
  responder_state_inv sr → wf_peer c →
  csn_number (csn_ours (srv_csn_pair (c_server (is_common si))))
    + Z.of_nat (size (is_responders si) - 1) < CSN_LIMIT →
  csn_number ours < 2 ^ 32 → wf_csn next →
  csn_number (csn_ours (ini_csn_pair (rs_initiator sr))) < csn_number next →
  obox_encrypt (E := SignalingError)
      (mkOpenBox (Message.Auth (responder_auth (cookie_ours (rsp_cookie_pair c)) rts))
        (to_initiator a sr next)) (ini_keypair (rs_initiator sr)) (public_key (rsp_keypair c)) = Ok ba →
  wf_tasks rts → wire_tasks rts → tr ∈ tasks_vec rts → task_name tr = task_name ti →
  (∃ its, c_tasks (is_common si) = Some its
    ∧ choose_shared_task its (task_name <$> tasks_vec rts) = Some ti) →
  task_init (task_data tr) ti = (inl tt, ti') →
  ∃ last bb drops si2 w', wf_csn last ∧ csn_number last = csn_number ours + 1
  ∧ obox_encrypt (E := SignalingError)
      (mkOpenBox (Message.Auth (mkAuth (cookie_ours (ini_cookie_pair (rs_initiator sr))) None
          (Some (task_name ti')) {[task_name ti' := task_data ti']}))
        (to_responder a c last)) (rsp_keypair c) (public_key (ini_keypair (rs_initiator sr))) = Ok bb
  ∧ handle_message ba si1 w = (Ok (map HandleAction.Reply drops
      ++ [HandleAction.Reply bb; HandleAction.HandshakeDone]), si2, w')
  ∧ session_opened a c sr ti' next last si2.
Proof.
  intros Ha [HI [Hst Hid] (n & Hl) Hts Hsrv Hsz] Hkc HIr Hwc Hroom Hlow Hwn Hlt Hba Hwts Hwire Htr Hname
    (its & Hits & Hch) Hinit.
  apply sealed_opens in Hba as [Hn Hopen]; [|apply HIr|done|done|apply Hwc|by apply wire_proposal].
  assert (arrives ba si1 a (keyed_context n a c sr ours)) as Har.
  { split; rewrite ?Hn; try done. apply to_initiator_wf; [done|apply HIr|done]. }
  rewrite <- Hn in Hopen.
  pose proof (is_receive_auth ba si1 w a _ _ _ Har eq_refl eq_refl Hopen) as Hrecv.
  pose proof (ii_common _ _ HI) as Hci. pose proof (inv_lookup _ _ _ HI Hl) as [_ _ Hwk _ _].
  destruct (handle_auth_run (is_set_responders
      (<[a := accept (bbox_nonce ba) (keyed_context n a c sr ours)]> (is_responders si1)) si1) w a
    (accept (bbox_nonce ba) (keyed_context n a c sr ours)) its rts ti tr ti'
    (public_key (ini_keypair (rs_initiator sr))) (cookie_ours (ini_cookie_pair (rs_initiator sr))))
    as (last & bb & drops & srv & w' & Hwl & Hnl & Hbb & Hrun); try done.
  { apply lookup_insert_eq. }
  { assert (srv_handshake_state (c_server (is_common si1)) = ServerHandshakeState.Done) as Hdone
      by (apply (ci_done _ Hci); by rewrite Hst).
    split; simpl; [apply HI|done| |apply Hci|].
    - apply (ci_info _ Hci). by rewrite Hdone.
    - rewrite map_size_insert_Some by eauto. by rewrite Hsrv, Hsz. }
  { by apply wf_accept; [apply Har|]. }
  { simpl. by rewrite Hn. }
  { simpl. unfold CSN_LIMIT. lia. }
  { simpl. congruence. }
  apply (eq_trans Hrecv) in Hrun.
  pose proof (handle_message_safe initiator_inv ba si1 HI (ar_wf _ _ _ _ Har) w) as (HI' & _).
  rewrite Hrun in HI'. unfold post in HI'. simpl in HI'.
  exists last, bb, drops. do 2 eexists. split_and!; [done..|exact Hrun|].
  split; try done. simpl. do 3 eexists. by rewrite Hn.
Qed.

(** *** The initiator's auth *)

Record session_joined (a : Address) (c : ResponderContext) sr (t : T) (theirs ours : CombinedSequence)
    (sr2 : ResponderSignaling T) : Prop := {
  sj_inv : responder_state_inv sr2;
  sj_state : c_signaling_state (rs_common sr2) = SignalingState.Task;
  sj_identity : c_identity (rs_common sr2) = ClientIdentity.Responder (addr a);
  sj_task : c_task (rs_common sr2) = Some t;
  sj_types : c_task_supported_types (rs_common sr2) = Some (task_supported_types t);
  sj_context : ∃ st pk, rs_initiator sr2 = mkInitiatorContext st pk
    (Some (public_key (rsp_keypair c))) (ini_keypair (rs_initiator sr))
    (mkCombinedSequencePair ours (Some (snapshot_of theirs)))
    (mkCookiePair (cookie_ours (ini_cookie_pair (rs_initiator sr)))
      (Some (cookie_ours (rsp_cookie_pair c))));
}.

Lemma auth_returned a c sr ours next last bb ti' tr tr' rts w :
  let sr1 := rs_set_initiator (authed_context c sr ours next) sr in
  2 ≤ addr a < 256 → peer_phase (rs_common sr) (ClientIdentity.Responder (addr a)) →
  responder_state_inv sr1 → wf_peer c → wf_keypair (rsp_keypair c) →
  wf_csn last → csn_number ours < csn_number last →
  obox_encrypt (E := SignalingError)
      (mkOpenBox (Message.Auth (mkAuth (cookie_ours (ini_cookie_pair (rs_initiator sr))) None
          (Some (task_name ti')) {[task_name ti' := task_data ti']}))
        (to_responder a c last)) (rsp_keypair c) (public_key (ini_keypair (rs_initiator sr))) = Ok bb →
  wire_task ti' →
  c_tasks (rs_common sr) = Some rts → wf_tasks rts → tr ∈ tasks_vec rts → task_name tr = task_name ti' →
  task_init (task_data ti') tr = (inl tt, tr') →
  ∃ sr2, handle_message bb sr1 w = (Ok [HandleAction.HandshakeDone], sr2, w)
  ∧ session_joined a c sr tr' last next sr2.
Proof.
  intros sr1 Ha [Hst Hid] HI Hwc Hkc Hwl Hlt Hbb Hwire Hts Hwts Htr Hname Hinit.
  apply sealed_opens in Hbb as [Hn Hopen]; [|done|apply HI|done|apply (rs_inv_peer _ HI)|by apply wire_choice].
  assert (answers bb sr1 a) as Han.
  { split; rewrite ?Hn; try done. by apply to_responder_wf. }
  rewrite <- Hn in Hopen.
  pose proof (rs_receive_auth bb sr1 w a _ _ Han eq_refl eq_refl Hopen) as Hrecv.
  pose proof (rs_handle_auth_run (rs_set_initiator (accept (bbox_nonce bb) (rs_initiator sr1)) sr1) w rts tr
    ti' tr' (mkAddress 1) Hst Hts Hwts Htr Hname Hinit) as Hrun. apply (eq_trans Hrecv) in Hrun.
  pose proof (handle_message_safe responder_state_inv bb sr1 HI (an_wf _ _ _ Han) w) as (HI' & _).
  rewrite Hrun in HI'. unfold post in HI'. simpl in HI'.
  eexists. split; [exact Hrun|]. split; try done. do 2 eexists. simpl. by rewrite Hn.
Qed.

Lemma channel_empty e1 e2 prev : facing e1 e2 → csn_theirs (e_csn e2) = Some prev →
  combined_sequence_number prev ≤ csn_number (csn_ours (e_csn e1)) → channel e1 e2 [] [].
Proof. intros Hf Hp Hle. split; [done|constructor..|]. by exists prev. Qed.
Lemma session_channel a c si2 sr sr2 t t' n1 n2 : 2 ≤ addr a < 256 →
  session_opened a c sr t n1 n2 si2 → session_joined a c sr t' n2 n1 sr2 →
  ∃ e1 e2, endpoint si2 = Some e1 ∧ endpoint sr2 = Some e2 ∧ channel e1 e2 [] [] ∧ channel e2 e1 [] [].
Proof.
  intros Ha [_ Hst1 Hid1 _ _ (st1 & n & pk1 & Hc1)] [_ Hst2 Hid2 _ _ (st2 & pk2 & Hc2)].
  do 2 eexists. split_and!.
  - unfold endpoint. simpl. rewrite Hst1. unfold is_get_peer. by rewrite Hc1.
  - unfold endpoint. simpl. rewrite Hst2. unfold rs_get_peer. by rewrite Hc2.
  - apply (channel_empty _ _ (snapshot_of n2)); [|done|by rewrite snapshot_of_number].
    unfold own_address, peer_address, identity. simpl. rewrite Hid1, Hid2. simpl.
    rewrite !bool_decide_eq_true_2 by lia. by destruct a; split.
  - apply (channel_empty _ _ (snapshot_of n1)); [|done|by rewrite snapshot_of_number].
    unfold own_address, peer_address, identity. simpl. rewrite Hid1, Hid2. simpl.
    rewrite !bool_decide_eq_true_2 by lia. by destruct a; split.
Qed.

(** ** The whole exchange *)

(** The exchange: the initiator answers the offer [bs] with its key, the
    responder the key with its auth message, the initiator drops every other
    responder, answers with its own auth message and is done, and so is the
    responder. Each handler runs in a world of its own. *)
Definition exchange (bs : list ByteBox) si sr (w1 w2 w3 w4 : env) si2 sr2 : Prop :=
  ∃ key auth final drops si1 sr1 w',
    receive_all bs si w1 = (Ok [HandleAction.Reply key], si1, w1)
  ∧ handle_message key sr w2 = (Ok [HandleAction.Reply auth], sr1, w2)
  ∧ handle_message auth si1 w3
    = (Ok (map HandleAction.Reply drops ++ [HandleAction.Reply final; HandleAction.HandshakeDone]), si2, w')
  ∧ handle_message final sr1 w4 = (Ok [HandleAction.HandshakeDone], sr2, w4).

Lemma exchange_succeeds a token bs sr c si ti ti' tr tr' w1 w2 w3 w4 :
  offered a token bs sr → awaits a token (public_key (responder_keys sr)) c si →
  distinct_secrets c si sr → shared_task ti ti' tr tr' si sr →
  ∃ n1 n2 si2 sr2, exchange bs si sr w1 w2 w3 w4 si2 sr2
  ∧ session_opened a c sr ti' n1 n2 si2 ∧ session_joined a c sr tr' n2 n1 sr2.
Proof.
  intros Hof Haw Hds [(its & rts & Hits & Hrts & Hwts & Hwire & Htr & Hch) Hname [Hinit Hname'] Hinit' Hwire'].
  destruct (offer_received a token bs sr c si w1 Hof Hds Haw) as (bk & c0 & si0 & Hpr & Hrecv).
  destruct (key_taken a bk c si c0 si0 sr w1 Hpr Hds (aw_room _ _ _ _ _ Haw))
    as (ours & key & si1 & Hwo & Hno & Hkey & Hrun1 & Hky).
  pose proof (inv_lookup _ _ _ (aw_inv _ _ _ _ _ Haw) (aw_sender _ _ _ _ _ Haw)) as [_ _ Hwc Hkc _].
  pose proof (of_inv _ _ _ _ Hof) as HIr. pose proof (aw_room _ _ _ _ _ Haw) as Hroom.
  destruct (key_returned a token bs c si sr rts ours key w2) as (next & auth & Hwn & Hnn & Hauth & Hrun2);
    try done; [lia|].
  destruct (auth_taken a c si sr si1 ours next auth ti ti' tr rts w3)
    as (last & final & drops & si2 & w' & Hwl & Hnl & Hfinal & Hrun3 & Hopened); try done;
    [apply Hof|apply Haw|lia|lia|by exists its|].
  destruct (auth_returned a c sr ours next last final ti' tr tr' rts w4) as (sr2 & Hrun4 & Hjoined);
    try done; [apply Hof|apply Hof| |lia|congruence|].
  { pose proof (handle_message_safe responder_state_inv key sr HIr) as Hsafe.
    apply sealed_nonce in Hkey. rewrite Hkey in Hsafe.
    specialize (Hsafe (to_responder_wf _ _ _ (of_range _ _ _ _ Hof) Hwc Hwo) w2) as (HI' & _).
    by rewrite Hrun2 in HI'. }
  exists next, last, si2, sr2. split_and!; [|done..]. exists key, auth, final, drops, si1. do 2 eexists.
  split_and!; [|done..]. rewrite Hrecv. simpl. unfold mbind, M_bind. by rewrite Hrun1.
Qed.

(** C6: the peer handshake succeeds under these conditions.  A responder has sent
    its token and key messages, or its key message to an initiator that trusts
    it ([offered], [awaits]); the sequence numbers the two have drawn for each
    other leave room below [2 ^ 32], since a first message whose number carries
    into the overflow number is refused, and the initiator's numbers for the
    server suffice to drop the other responders; the random keys and cookies of
    the two differ ([distinct_secrets]); and they have a task in common that
    accepts the other's data ([shared_task]).  Then the four messages are
    exchanged, both clients are in the task phase with the shared task, and they
    hold the two ends of one session with nothing in transit. *)
Theorem peer_handshake_succeeds a token bs sr c si ti ti' tr tr' w1 w2 w3 w4 :
  offered a token bs sr → awaits a token (public_key (responder_keys sr)) c si →
  distinct_secrets c si sr → shared_task ti ti' tr tr' si sr →
  ∃ si2 sr2, exchange bs si sr w1 w2 w3 w4 si2 sr2
  ∧ initiator_inv si2 ∧ responder_state_inv sr2
  ∧ c_task (is_common si2) = Some ti' ∧ c_task (rs_common sr2) = Some tr'
  ∧ ∃ e1 e2, endpoint si2 = Some e1 ∧ endpoint sr2 = Some e2
    ∧ channel e1 e2 [] [] ∧ channel e2 e1 [] [].
Proof.
  intros Hof Haw Hds Hst.
  destruct (exchange_succeeds a token bs sr c si ti ti' tr tr' w1 w2 w3 w4 Hof Haw Hds Hst)
    as (n1 & n2 & si2 & sr2 & Hex & Ho & Hj).
  exists si2, sr2. split_and!; [done|apply Ho|apply Hj|apply Ho|apply Hj|].
  by eapply session_channel; [apply Hof|..].
Qed.
End session.

(** ** Where the exchange starts *)

Section start.
Context {T : Type} `{!Task T}.
Context `{!ByteOrder, !ByteOrderLaws, !Sodium, !SodiumLaws, !Rmps, !RmpsLaws, !Env, !EnvLaws}.
Implicit Types si : InitiatorSignaling T.
Implicit Types sr : ResponderSignaling T.

Lemma next_initiator_nonce_run a sr w n s' w' : responder_state_inv sr → 2 ≤ addr a < 256 →
  c_identity (rs_common sr) = ClientIdentity.Responder (addr a) →
  next_initiator_nonce sr w = (Ok n, s', w') →
  ∃ ours, wf_csn ours ∧ csn_number ours = csn_number (csn_ours (ini_csn_pair (rs_initiator sr))) + 1
  ∧ n = to_initiator a sr ours ∧ s' = rs_set_initiator (advanced (rs_initiator sr) ours) sr.
Proof.
  intros HI Ha Hid Hrun.
  destruct (next_peer_nonce_cases (identity sr) (rs_initiator sr) a (mkAddress 1))
    as (ours & Hw & Hp & Hd); [apply HI| |done|].
  { unfold identity. simpl. rewrite Hid. intros E. simpl. rewrite bool_decide_eq_true_2 by lia. by destruct a. }
  unfold next_initiator_nonce in Hrun. unfold mbind, M_bind, mget at 1 in Hrun.
  destruct (next_peer_nonce _ _) as [r i']. simpl in Hp, Hd. subst i'. mred.
  destruct r as [n'|e|m]; [|done..]. injection Hrun as <- <- <-. destruct Hd as [-> Hn].
  by exists ours.
Qed.

(** The responder's initiator context as a new one, but for our own counter. *)
Definition untouched sr : Prop := ini_session_key (rs_initiator sr) = None
  ∧ csn_theirs (ini_csn_pair (rs_initiator sr)) = None
  ∧ cookie_theirs (ini_cookie_pair (rs_initiator sr)) = None.

Lemma send_key_run a sr w act s' w' : responder_state_inv sr → 2 ≤ addr a < 256 →
  c_identity (rs_common sr) = ClientIdentity.Responder (addr a) →
  send_key sr w = (Ok act, s', w') →
  ∃ ours b, wf_csn ours ∧ csn_number ours = csn_number (csn_ours (ini_csn_pair (rs_initiator sr))) + 1
  ∧ s' = rs_set_initiator (advanced (rs_initiator sr) ours) sr ∧ act = HandleAction.Reply b
  ∧ obox_encrypt (E := SignalingError)
      (mkOpenBox (Message.Key (mkKey (public_key (ini_keypair (rs_initiator sr))))) (to_initiator a sr ours))
      (c_permanent_keypair (rs_common sr)) (ini_permanent_key (rs_initiator sr)) = Ok b.
Proof.
  intros HI Ha Hid Hrun. unfold send_key in Hrun. unfold mbind, M_bind, mget at 1 in Hrun.
  destruct (next_initiator_nonce sr w) as [[[n|e|m] s1] w1] eqn:Hn; [|done..].
  apply (next_initiator_nonce_run a) in Hn as (ours & Hw & Hnum & -> & ->); [|done..].
  unfold mlift in Hrun. destruct (obox_encrypt _ _ _) as [b|e|m] eqn:Hb; [|done..].
  injection Hrun as <- <- _. by exists ours, b.
Qed.
Lemma send_token_run a t sr w act s' w' : responder_state_inv sr → 2 ≤ addr a < 256 →
  c_identity (rs_common sr) = ClientIdentity.Responder (addr a) →
  send_token t sr w = (Ok act, s', w') →
  ∃ ours b, wf_csn ours ∧ csn_number ours = csn_number (csn_ours (ini_csn_pair (rs_initiator sr))) + 1
  ∧ s' = rs_set_initiator (advanced (rs_initiator sr) ours) sr ∧ act = HandleAction.Reply b
  ∧ obox_encrypt_token (E := SignalingError)
      (mkOpenBox (Message.Token (mkToken (public_key (c_permanent_keypair (rs_common sr)))))
        (to_initiator a sr ours)) t = Ok b.
Proof.
  intros HI Ha Hid Hrun. unfold send_token in Hrun. unfold mbind, M_bind, mget at 1 in Hrun.
  destruct (next_initiator_nonce sr w) as [[[n|e|m] s1] w1] eqn:Hn; [|done..].
  apply (next_initiator_nonce_run a) in Hn as (ours & Hw & Hnum & -> & ->); [|done..].
  unfold mlift in Hrun. destruct (obox_encrypt_token _ _) as [b|e|m] eqn:Hb; [|done..].
  injection Hrun as <- <- _. by exists ours, b.
Qed.

(** What the token and key messages leave behind. *)
Lemma offer_run a sr w toks s1 w1 key s2 w2 : responder_state_inv sr → 2 ≤ addr a < 256 →
  c_identity (rs_common sr) = ClientIdentity.Responder (addr a) →
  send_token_if_any sr w = (Ok toks, s1, w1) → send_key s1 w1 = (Ok key, s2, w2) →
  ∃ p ck bk, s2 = mkResponderSignaling (with_auth_provider p (rs_common sr)) (advanced (rs_initiator sr) ck)
  ∧ key = HandleAction.Reply bk
  ∧ obox_encrypt (E := SignalingError)
      (mkOpenBox (Message.Key (mkKey (public_key (ini_keypair (rs_initiator sr))))) (to_initiator a sr ck))
      (c_permanent_keypair (rs_common sr)) (ini_permanent_key (rs_initiator sr)) = Ok bk
  ∧ match auth_token sr with
    | Some t => ∃ ct bt, wf_csn ct ∧ csn_number ct < csn_number ck
        ∧ obox_encrypt_token (E := SignalingError)
            (mkOpenBox (Message.Token (mkToken (public_key (c_permanent_keypair (rs_common sr)))))
              (to_initiator a sr ct)) t = Ok bt
        ∧ toks = [HandleAction.Reply bt]
    | None => toks = []
    end.
Proof.
  intros HI Ha Hid Htok Hkey.
  unfold send_token_if_any in Htok. unfold mbind, M_bind, mget at 1 in Htok. unfold auth_token. simpl.
  destruct (c_auth_provider (rs_common sr)) as [[t|k]|] eqn:Hap; [|injection Htok as <- <- <-|done].
  - unfold mmodify in Htok. set (s0 := rs_set_common (with_auth_provider None (rs_common sr)) sr) in Htok.
    assert (responder_state_inv s0) as HI0 by (destruct HI as [[]]; by split).
    destruct (send_token t s0 w) as [[[act|e|m] s0'] w0'] eqn:Ht; [|done..].
    apply (send_token_run a) in Ht as (ct & bt & Hwt & Hnt & -> & -> & Hbt); [|done..].
    injection Htok as <- <- <-.
    apply (send_key_run a) in Hkey as (ck & bk & Hwk & Hnk & -> & -> & Hbk);
      [|exact (rs_inv_advance ct s0 HI0 Hwt)|done..].
    exists None, ck, bk. split_and!; [done..|exact Hbk|]. exists ct, bt. split_and!; [done| |exact Hbt|done].
    simpl in *. lia.
  - apply (send_key_run a) in Hkey as (ck & bk & Hwk & Hnk & -> & -> & Hbk); [|done..].
    exists (c_auth_provider (rs_common sr)), ck, bk. split_and!; [|done..]. destruct sr as [[] ?]. done.
Qed.

(** The offer, when the handler ends in a peer handshake. *)
Lemma offer_made a sr w toks s1 w1 key s2 w2 com : responder_state_inv sr → untouched sr →
  2 ≤ addr a < 256 → c_identity (rs_common sr) = ClientIdentity.Responder (addr a) →
  send_token_if_any sr w = (Ok toks, s1, w1) → send_key s1 w1 = (Ok key, s2, w2) →
  csn_number (csn_ours (ini_csn_pair (rs_initiator s2))) < 2 ^ 32 →
  c_signaling_state com = SignalingState.PeerHandshake → c_identity com = c_identity (rs_common s2) →
  c_permanent_keypair com = c_permanent_keypair (rs_common s2) →
  let s3 := mkResponderSignaling com
    (ini_set_handshake_state InitiatorHandshakeState.KeySent (rs_initiator s2)) in
  responder_state_inv s3 → offered a (auth_token sr) (replies (toks ++ [key])) s3.
Proof.
  intros HI (Hsk & Hcsn & Hck) Ha Hid Htok Hkey Hroom Hst Hid' Hperm s3 HI3.
  destruct (offer_run a sr w toks s1 w1 key s2 w2 HI Ha Hid Htok Hkey) as (p & ck & bk & -> & -> & Hbk & Ht).
  simpl in Hid', Hperm.
  split; try done; [split; [done|by rewrite <- Hid]|].
  exists bk. split; [simpl; rewrite Hperm; exact Hbk|]. destruct (auth_token sr) as [t|]; [|by rewrite Ht].
  destruct Ht as (ct & bt & Hwt & Hlt & Hbt & ->). exists ct, bt.
  split_and!; [done..|simpl; rewrite Hperm; exact Hbt|done].
Qed.

(** A responder that has handled new-initiator has made its offer. *)
Lemma new_initiator_offers a msg sr w acts s' w' : responder_state_inv sr → 2 ≤ addr a < 256 →
  peer_phase (rs_common sr) (ClientIdentity.Responder (addr a)) →
  rs_handle_new_initiator msg sr w = (Ok acts, s', w') →
  csn_number (csn_ours (ini_csn_pair (rs_initiator s'))) < 2 ^ 32 →
  offered a (auth_token sr) (replies acts) s'.
Proof.
  intros HI Ha [Hst Hid] Hrun Hroom.
  pose proof (rs_handle_new_initiator_handled msg sr HI) as Hsafe. specialize (Hsafe w).
  rewrite Hrun in Hsafe. destruct Hsafe as (HI' & _). unfold post in HI'. simpl in HI'.
  unfold rs_handle_new_initiator in Hrun. apply bind_Ok in Hrun as (sr0 & s0 & w0 & [= <- <- <-] & Hrun).
  apply bind_Ok in Hrun as (i & s1 & w1 & Hi & Hrun).
  apply bind_Ok in Hrun as ([] & s2 & w2 & [= <- <-] & Hrun).
  apply bind_Ok in Hrun as (toks & s3 & w3 & Htok & Hrun).
  apply bind_Ok in Hrun as (key & s4 & w4 & Hkey & Hrun).
  apply bind_Ok in Hrun as ([] & s5 & w5 & [= <- <-] & [= <- <- <-]).
  assert (s1 = sr ∧ fresh_initiator (ini_permanent_key (rs_initiator sr)) i) as [-> Hfi].
  { pose proof (wp_initiator_context_new (ini_permanent_key (rs_initiator sr)) sr
      (λ (o : outcome SignalingError _) s, s = sr ∧ ∀ i, o = Ok i →
        fresh_initiator (ini_permanent_key (rs_initiator sr)) i)) as Hnew.
    destruct (Hnew ltac:(intros j Hj; split; [done|by intros ? [= <-]]) ltac:(done) w) as [Hs Hf].
    rewrite Hi in Hs, Hf. split; [exact Hs|exact (Hf i eq_refl)]. }
  destruct Hfi as [Hnst _ Hnsk Hnkp Hnw [Hncsn Hnck]].
  assert (responder_state_inv (rs_set_initiator i sr)) as HI1.
  { apply rs_inv_set_initiator; try done; [unfold initiator_keys_fit; by rewrite Hnst|].
    rewrite Hnsk. by intros []. }
  destruct (offer_run a _ _ _ _ _ _ _ _ HI1 Ha Hid Htok Hkey) as (p & ck & bk & Hs4 & _).
  refine (offer_made a (rs_set_initiator i sr) w1 toks s3 w3 key s4 w4 (rs_common s4) HI1 _ Ha Hid Htok Hkey
    Hroom _ eq_refl eq_refl HI'); [done|by rewrite Hs4].
Qed.

(** So has one that has handled a server-auth message that announces the
    initiator. *)
Lemma server_auth_offers a msg nonce sr w acts s' w' : responder_state_inv sr → 2 ≤ addr a < 256 →
  untouched sr → c_identity (rs_common sr) = ClientIdentity.Responder (addr a) →
  c_signaling_state (rs_common sr) = SignalingState.ServerHandshake →
  sa_initiator_connected msg = Some true → handle_server_auth msg nonce sr w = (Ok acts, s', w') →
  responder_state_inv s' → csn_number (csn_ours (ini_csn_pair (rs_initiator s'))) < 2 ^ 32 →
  offered a (auth_token sr) (replies acts) s'.
Proof.
  intros HI Ha Hun Hid Hst Hconn Hrun HI' Hroom. unfold handle_server_auth in Hrun.
  apply bind_Ok in Hrun as (sr0 & s0 & w0 & [= <- <- <-] & Hrun).
  destruct (bool_decide _); [done|]. apply bind_Ok in Hrun as ([] & s1 & w1 & Hv & Hrun).
  injection Hv as _ <- <-. apply bind_Ok in Hrun as ([] & s2 & w2 & Hv & Hrun). injection Hv as _ <- <-.
  apply bind_Ok in Hrun as (acts' & s3 & w3 & Himpl & Hrun).
  change (rs_handle_server_auth_impl msg sr w = (Ok acts', s3, w3)) in Himpl.
  unfold rs_handle_server_auth_impl in Himpl. destruct (bool_decide _); [done|]. rewrite Hconn in Himpl.
  apply bind_Ok in Himpl as (toks & s4 & w4 & Htok & Himpl).
  apply bind_Ok in Himpl as (key & s5 & w5 & Hkey & Himpl).
  apply bind_Ok in Himpl as ([] & s6 & w6 & [= <- <-] & [= <- <- <-]).
  destruct (offer_run a _ _ _ _ _ _ _ _ HI Ha Hid Htok Hkey) as (p & ck & bk & Hs5 & Hkb & _).
  mred. unfold set_signaling_state in Hrun. rewrite Hs5 in Hrun. simpl in Hrun. rewrite Hst in Hrun.
  rewrite bool_decide_eq_false_2 in Hrun by done. simpl in Hrun. injection Hrun as <- <- <-.
  assert (replies (toks ++ [key; HandleAction.Event (Event.ServerHandshakeDone true)])
    = replies (toks ++ [key])) as ->.
  { unfold replies. rewrite !omap_app. by rewrite Hkb. }
  rewrite Hs5 in Hkey.
  by refine (offer_made a sr w toks s4 w4 key _ w5 _ HI Hun Ha Hid Htok Hkey Hroom _ _ _ HI').
Qed.

(** An initiator that has handled new-responder awaits the offer, if it has a
    token left or trusts the responder's key. *)
Lemma new_responder_awaited a si w acts s' w' pk : initiator_inv si → 2 ≤ addr a < 256 →
  (size ({[a]} ∪ dom (is_responders si)) ≤ 252)%nat →
  peer_phase (is_common si) ClientIdentity.Initiator →
  match c_auth_provider (is_common si) with
  | Some (AuthProvider.TrustedKey k) => k = pk
  | p => is_Some p
  end → is_handle_new_responder (mkNewResponder a) si w = (Ok acts, s', w') →
  acts = [] ∧ ∃ c, is_responders s' !! a = Some c
  ∧ (csn_number (csn_ours (rsp_csn_pair c)) + 1 < 2 ^ 32 →
     csn_number (csn_ours (srv_csn_pair (c_server (is_common s'))))
       + Z.of_nat (size (is_responders s') - 1) < CSN_LIMIT →
     awaits a (auth_token si) pk c s').
Proof.
  intros HI Ha Hsz [Hst Hid] Hprov Hrun.
  pose proof (is_handle_new_responder_handled (mkNewResponder a) si HI) as Hsafe.
  specialize (Hsafe ltac:(simpl; unfold wf_address; unwidth; lia) w). rewrite Hrun in Hsafe. destruct Hsafe as (HI' & _).
  unfold post in HI'. simpl in HI'.
  unfold is_handle_new_responder in Hrun. simpl in Hrun. unfold Address.is_responder in Hrun.
  rewrite bool_decide_eq_true_2 in Hrun by lia. simpl in Hrun.
  apply bind_Ok in Hrun as (act & s1 & w1 & Hp & [= <- <- <-]).
  pose proof (process_new_responder_run a si HI Ha Hsz w) as Hreg. rewrite Hp in Hreg.
  destruct Hreg as (-> & Hcom & r & Hrs & Hcsn & Hck & Hkeys). unfold post in *. simpl in *.
  split; [done|]. exists r. rewrite Hrs. split; [apply lookup_insert_eq|]. rewrite <- Hrs. intros Hroom Hsrv.
  split; try done; [by split; rewrite Hcom|by rewrite Hrs, lookup_insert_eq|].
  unfold auth_token. simpl. rewrite Hcom.
  by destruct (c_auth_provider (is_common si)) as [[t|k]|]; simpl in *; subst; [..|destruct Hprov].
Qed.
End start.

(** ** Witness *)

Module SessionWitnesses.
Import Reference ReferenceCodec Handshake.

(** The two clients of the executed handshake, before the peer handshake. *)
Definition awaiting : istate := get_initiator (state_of i3).
Definition offering : rstate := get_responder (state_of r2).
Definition offers : list ByteBox := replies (actions_of r2).
Definition no_context : ResponderContext := mkResponderContext ResponderHandshakeState.New 0 (mkAddress 2)
  None None initiator_keys (mkCombinedSequencePair (mkCombinedSequence 0 0) None)
  (mkCookiePair server_cookie None).
Definition known : ResponderContext := default no_context (is_responders awaiting !! mkAddress 2).
Definition world : env := 7.

Lemma awaiting_inv : initiator_inv awaiting.
Proof. apply get_initiator_inv; [by_compute|apply good_i3]. Qed.
Lemma offering_inv : responder_state_inv offering.
Proof. apply get_responder_inv; [by_compute|apply good_r2]. Qed.

Lemma offering_offered : offered (mkAddress 2) (Some token) offers offering.
Proof.
  split; [exact offering_inv|done|by split; vm_compute|by vm_compute..|].
  exists (get_box (reply 1 r2)). split; [vm_compute; reflexivity|].
  exists (csn_of_snapshot (nonce_csn (bbox_nonce (get_box (reply 0 r2))))), (get_box (reply 0 r2)).
  split_and!; by vm_compute.
Qed.
Lemma awaiting_awaits :
  awaits (mkAddress 2) (Some token) (public_key (c_permanent_keypair (rs_common offering))) known awaiting.
Proof. split; [exact awaiting_inv|by split; vm_compute|by vm_compute..|by split; vm_compute]. Qed.
Lemma secrets_distinct : distinct_secrets known awaiting offering.
Proof.
  split; [by_keypair..|by vm_compute| | |];
    apply (bool_decide_eq_true_1 (¬ _)); by vm_compute.
Qed.
Lemma chat_shared : shared_task "chat" "chat" "chat" "chat" awaiting offering.
Proof.
  split; [|done..|by split; vm_compute]. exists (mkTasks ["webrtc"; "chat"]), (mkTasks ["chat"; "relay"]).
  split_and!; [by vm_compute..| |by split; [|repeat constructor]; vm_compute|by left|by vm_compute].
  split; [done|]. apply (bool_decide_eq_true_1 (NoDup ["chat"; "relay"])). by vm_compute.
Qed.

Lemma peer_handshake_witness : ∃ si2 sr2,
  exchange offers awaiting offering world world world world si2 sr2
  ∧ initiator_inv si2 ∧ responder_state_inv sr2
  ∧ c_task (is_common si2) = Some "chat" ∧ c_task (rs_common sr2) = Some "chat"
  ∧ ∃ e1 e2, endpoint si2 = Some e1 ∧ endpoint sr2 = Some e2
    ∧ channel e1 e2 [] [] ∧ channel e2 e1 [] [].
Proof.
  refine (peer_handshake_succeeds (mkAddress 2) (Some token) offers offering known awaiting
    "chat" "chat" "chat" "chat" world world world world _ _ _ _).
  - exact offering_offered.
  - exact awaiting_awaits.
  - exact secrets_distinct.
  - exact chat_shared.
Defined.
End SessionWitnesses.
