(* ===== verification/Protocol.v ===== *)
(** * Properties of the protocol

    What holds along every run of a client, for both roles: the invariants, the
    absence of unexpected panics on arbitrary input, the one-way evolution of a
    session, replay protection, the authentication of the server, the freshness
    of outgoing nonces and the delivery of task messages; and a complete
    handshake, executed. *)

From S2P Require Import Prelude Text External Errors Types Csn Cookie Nonce Crypto Tasks Messages.
From S2P Require Import ReferenceCodec Boxes Context Signaling SignalingSpec SignalingSafe Runs.
From S2P Require Import Initiator InitiatorSafe Responder ResponderSafe Handshake.

(** ** Every run *)

Section runs.
Context {T : Type} `{!Task T}.
Context `{!ByteOrder, !ByteOrderLaws, !Sodium, !SodiumLaws, !Rmps, !RmpsLaws, !Env, !EnvLaws}.

(** C3: every state an initiator reaches satisfies the invariant: the table of
    responders is keyed by their addresses with distinct counters, holds at most
    252 entries unless a trusted key is set, the keys a context holds fit its
    handshake state, and the chosen responder is set exactly in the task phase. *)
Theorem initiator_invariant (s : InitiatorSignaling T) : initiator_reachable s → initiator_inv s.
Proof. apply initiator_reachable_inv. Qed.

(** C4: every state a responder reaches satisfies the invariant: the keys of the
    initiator's context fit its handshake state, no session key of the
    initiator is known before the server handshake ends, and the common state is
    consistent. *)
Theorem responder_invariant (s : ResponderSignaling T) :
  responder_reachable s → responder_state_inv s.
Proof. apply responder_reachable_inv. Qed.

(** C1: whatever bytes arrive at an initiator in a reachable state, they are
    either not a box or are handled, and the only panics left are the failed
    assertion on the random source, the unimplemented drop-responder and, in a
    process where libsodium has not been initialised, its initialisation. *)
Theorem initiator_panic_free (s : InitiatorSignaling T) bs w : initiator_reachable s → wf_bytes bs →
  match byte_box_from_slice bs with
  | Ok b => no_surprise (out (handle_message b s w))
  | Err _ => True
  | Panic _ => False
  end.
Proof.
  intros HI%initiator_reachable_inv Hw.
  destruct (byte_box_from_slice bs) as [b|e|m] eqn:Hb; [|done|].
  - apply byte_box_from_slice_Ok in Hb as (_ & Hn & _); [|done].
    by apply (handle_message_safe initiator_inv b s HI Hn w).
  - by apply byte_box_from_slice_total in Hb.
Qed.

(** C2: whatever bytes arrive at a responder in a reachable state, they are
    either not a box or are handled, and the only panics left are the failed
    assertion on the random source, the unimplemented drop-responder and, in a
    process where libsodium has not been initialised, its initialisation. *)
Theorem responder_panic_free (s : ResponderSignaling T) bs w : responder_reachable s → wf_bytes bs →
  match byte_box_from_slice bs with
  | Ok b => no_surprise (out (handle_message b s w))
  | Err _ => True
  | Panic _ => False
  end.
Proof.
  intros HI%responder_reachable_inv Hw.
  destruct (byte_box_from_slice bs) as [b|e|m] eqn:Hb; [|done|].
  - apply byte_box_from_slice_Ok in Hb as (_ & Hn & _); [|done].
    by apply (handle_message_safe responder_state_inv b s HI Hn w).
  - by apply byte_box_from_slice_total in Hb.
Qed.
End runs.

(** ** Both roles at once *)

Section roles.
Context {T S : Type} `{!Task T, !Env, !Signaling T S}.
Context `{!ByteOrder, !Sodium, !SodiumLaws, !Rmps, !RmpsLaws}.
Context (I : S → Prop) `{!SignalingSafe T S I}.
Implicit Types s : S.

(** What a client knows after the server-auth message: the server has repeated
    its cookie and, if the server's permanent key is configured, has signed the
    session key in use and the client's permanent key under the message's nonce. *)
Definition server_authenticated (msg : ServerAuth) (nonce : option Nonce) s : Prop :=
  sa_your_cookie msg = cookie_ours (srv_cookie_pair (server s))
  ∧ ∀ pk, srv_permanent_key (server s) = Some pk →
    ∃ n signed k, nonce = Some n ∧ sa_signed_keys msg = Some signed
    ∧ srv_session_key (server s) = Some k
    ∧ signed_keys_decrypt signed (c_permanent_keypair (common s)) pk n
      = Ok (mkUnsignedKeys k (public_key (c_permanent_keypair (common s)))).

Lemma verify_signed_keys_authenticated msg nonce s :
  sa_your_cookie msg = cookie_ours (srv_cookie_pair (server s)) →
  verify_signed_keys msg nonce s = Ok tt → server_authenticated msg nonce s.
Proof.
  intros Hc. unfold verify_signed_keys. intros Hv. split; [done|]. intros pk Hpk.
  rewrite Hpk in Hv. destruct nonce as [n|]; [|done]. destruct (sa_signed_keys msg) as [k|]; [|done].
  simpl in Hv. destruct (signed_keys_decrypt _ _ _ _) as [[sk ck]|e|m] eqn:Hd; [|done..].
  simpl in Hv. destruct (srv_session_key (server s)) as [k'|]; [|done]. simpl in Hv.
  do 2 (case_bool_decide; [done|]; subst). by exists n, k, k'.
Qed.

Lemma handle_server_auth_verified msg nonce s : I s →
  srv_handshake_state (server s) = ServerHandshakeState.ClientInfoSent →
  wf_message (Message.ServerAuth msg) →
  wp (handle_server_auth msg nonce) s (λ o s', match o with
    | Ok _ => server_authenticated msg nonce s
        ∧ srv_handshake_state (server s') = ServerHandshakeState.Done
        ∧ c_signaling_state (common s') = SignalingState.PeerHandshake
    | _ => True
    end).
Proof.
  intros HI Hsrv Hm. unfold handle_server_auth. do 4 wp_step; [by wp_step|].
  apply bool_decide_eq_false in Hb. do 2 wp_step. unfold validate_repeated_cookie.
  case_bool_decide as Hck; [done|]. do 3 wp_step.
  destruct (verify_signed_keys msg nonce s) as [[]|e|m] eqn:Hv; [|done..].
  apply verify_signed_keys_authenticated in Hv; [|done].
  do 2 wp_step. eapply wp_mono; [by apply ss_server_auth_impl|].
  intros [actions|e|m] s1 ((HI1 & Hf1 & Ho1) & Hst1 & Hsrv1); [|done..]. cbn [wp_then].
  assert (identity s1 ≠ ClientIdentity.Unknown) as Hid1.
  { unfold identity. by rewrite (cf_identity _ _ Hf1). }
  rewrite Hsrv in Hsrv1. pose proof (server_new_handshake I s1 HI1) as Hst.
  rewrite Hsrv1 in Hst. specialize (Hst ltac:(done)).
  repeat wp_step. rewrite (common_set_server I). unfold set_signaling_state; simpl. rewrite Hst.
  rewrite bool_decide_eq_false_2 by done. simpl. repeat wp_step. unfold server.
  by rewrite common_set_common.
Qed.

(** C13: along every run the keys, the role and our cookie never change, the
    server's session key and cookie are pinned once set, the identity is
    assigned once, the sequence numbers of both directions and the stage of the
    handshake never move back. *)
Theorem session_never_regresses s s' : I s → rtc step s s' → common_step (common s) (common s').
Proof. intros HI Hr. by apply (steps_safe I s s' Hr). Qed.

(** C11: the sequence numbers a client accepts from the server increase strictly
    along every run, so no message of the server is accepted twice. *)
Theorem server_replay_impossible bs s w : I s → Forall (λ b, wf_nonce (bbox_nonce b)) bs →
  StronglySorted Z.lt (map (λ n, combined_sequence_number (nonce_csn n))
    (accepted (mkAddress 0) bs s w)).
Proof. intros HI Hbs. by apply (accepted_server_increasing I bs s w HI Hbs). Qed.

(** C12: a message from any sender whose sequence number is not above the last
    one recorded for that sender causes no action: it is dropped or refused,
    and the number on record stays. *)
Theorem replayed_message_ignored b s w prev : I s → wf_nonce (bbox_nonce b) →
  last_csn (nonce_source (bbox_nonce b)) s = Some prev →
  combined_sequence_number (nonce_csn (bbox_nonce b)) ≤ combined_sequence_number prev →
  (out (handle_message b s w) = Ok [] ∨ ∃ e, out (handle_message b s w) = Err e)
  ∧ last_csn (nonce_source (bbox_nonce b)) (post (handle_message b s w)) = Some prev.
Proof.
  intros HI Hn Hl Hle. by destruct (handle_message_replay I b s prev HI Hn Hl Hle w) as (_ & _ & ? & ?).
Qed.

(** C15: the task messages a client sends carry consecutive sequence numbers:
    from the number [z] recorded for the peer, one box per message with the
    numbers [z + 1], [z + 2] and so on.  So no two of them share a nonce. *)
Theorem task_nonces_distinct vs s w bs s' w' z : I s → peer_csn s = Some z →
  encode_all vs s w = (Ok bs, s', w') →
  map (λ b, combined_sequence_number (nonce_csn (bbox_nonce b))) bs
    = map (λ k, z + 1 + Z.of_nat k) (seq 0 (length vs))
  ∧ length bs = length vs ∧ NoDup (map bbox_nonce bs).
Proof.
  intros HI Hz Hrun. pose proof (encode_all_csns I vs s w bs s' w' z HI Hz Hrun) as Hm.
  split_and!; [done|apply (f_equal length) in Hm; by rewrite !length_map, length_seq in Hm|].
  apply (NoDup_fmap_1 (λ n, combined_sequence_number (nonce_csn n))).
  change (NoDup (map (λ n, combined_sequence_number (nonce_csn n)) (map bbox_nonce bs))).
  assert (Inj (=) (=) (λ k, z + 1 + Z.of_nat k)) by (intros k k' ?; lia).
  rewrite map_map, Hm. apply (NoDup_fmap_2 _), NoDup_seq.
Qed.

(** C14: the server handshake ends only with an authenticated server, and then
    the peer handshake begins. *)
Theorem server_auth_verified msg nonce s w acts s' w' : I s →
  srv_handshake_state (server s) = ServerHandshakeState.ClientInfoSent →
  wf_message (Message.ServerAuth msg) →
  handle_server_auth msg nonce s w = (Ok acts, s', w') →
  server_authenticated msg nonce s
  ∧ srv_handshake_state (server s') = ServerHandshakeState.Done
  ∧ c_signaling_state (common s') = SignalingState.PeerHandshake.
Proof.
  intros HI Hsrv Hm Hrun.
  pose proof (handle_server_auth_verified msg nonce s HI Hsrv Hm w) as Hs. by rewrite Hrun in Hs.
Qed.

(** A task message sealed by one client is opened by the other, unchanged,
    when their session keys match. *)
Theorem task_message_delivered {S2} `{!Signaling T S2} {P P2} `{!PeerContext P, !PeerContext P2}
    (s2 : S2) (p : P) put (p2 : P2) put2 kp kp2 v s w b s' w' :
  get_peer s = Some (MkDynPeer p put) → get_peer s2 = Some (MkDynPeer p2 put2) →
  pc_keypair p = Some kp → pc_session_key p = Some (public_key kp2) →
  pc_keypair p2 = Some kp2 → pc_session_key p2 = Some (public_key kp) →
  wf_keypair kp → wf_keypair kp2 → wf_value v = true → encode_task_message v s w = (Ok b, s', w') →
  decode_task_message b s2 = Ok (mkOpenBox v (bbox_nonce b)).
Proof.
  intros Hg Hg2 Hkp Hk Hkp2 Hk2 Hw Hw2 Hv Hrun. unfold encode_task_message in Hrun. mred.
  case_bool_decide; [done|]. rewrite Hg in Hrun. mred.
  destruct (next_peer_nonce _ _) as [[n|e|m] p']; [|done..]. mred. rewrite Hkp in Hrun. mred.
  rewrite Hk in Hrun. mred.
  destruct (value_encrypt_decrypt (E := SignalingError) kp kp2 v n Hw Hw2 Hv) as (bb & He & Hn & Hd).
  rewrite He in Hrun. injection Hrun as <- _ _. unfold decode_task_message.
  rewrite Hg2, Hk2, Hkp2. simpl. by rewrite Hn.
Qed.
End roles.

(** ** A complete run *)

Module Executed.
Import Reference ReferenceCodec Handshake.

(** The greeting as the task receives it. *)
Definition received : list HandleAction := [HandleAction.TaskMessage (TaskMessage.Value
  (<["type" := Value.from_string "candidates"]> (<["n" := Value.Integer 7]> ∅)))].

(** An initiator and a responder that share one task, joined by a server
    and started from their constructors, reach the task phase with that task
    after the messages of the two handshakes, with a token as with a trusted
    key; a task message then sent by either is delivered to the other. *)
Theorem handshake_completes :
  summary (state_of i6) = Some (SignalingState.Task, Some "chat")
  ∧ summary (state_of r4) = Some (SignalingState.Task, Some "chat")
  ∧ summary (state_of t4) = Some (SignalingState.Task, Some "chat")
  ∧ summary (state_of q4) = Some (SignalingState.Task, Some "chat")
  ∧ actions_of greeted_responder = received ∧ actions_of greeted_initiator = received.
Proof. by split_and!; vm_compute. Qed.
End Executed.

(** ** Witnesses *)

Module ProtocolWitnesses.
Import Reference ReferenceCodec Handshake.

Definition started : istate := get_initiator i0.
Definition done_initiator : istate := get_initiator (state_of i6).
Definition done_responder : rstate := get_responder (state_of r4).
Lemma done_reachable : initiator_reachable done_initiator.
Proof. apply get_initiator_reachable; [by_compute|apply good_i6]. Qed.
Lemma done_responder_reachable : responder_reachable done_responder.
Proof. apply get_responder_reachable; [by_compute|apply good_r4]. Qed.

Lemma initiator_invariant_witness : initiator_inv done_initiator.
Proof. refine (initiator_invariant done_initiator _). exact done_reachable. Defined.

Lemma responder_invariant_witness : responder_state_inv done_responder.
Proof. refine (responder_invariant done_responder _). exact done_responder_reachable. Defined.

(** The bytes of a task message, as they travel. *)
Definition wire (b : outcome SignalingError ByteBox) : bytes := byte_box_into_bytes (get_box b).
Definition to_initiator : bytes := wire (send greeting (state_of r4)).
Definition to_responder : bytes := wire (send greeting (state_of i6)).

Lemma initiator_panic_free_witness : is_ok (byte_box_from_slice to_initiator) = true
  ∧ match byte_box_from_slice to_initiator with
    | Ok b => no_surprise (out (handle_message b done_initiator (7 : env)))
    | Err _ => True
    | Panic _ => False
    end.
Proof.
  split; [vm_compute; reflexivity|].
  refine (initiator_panic_free done_initiator to_initiator (7 : env) _ _); [exact done_reachable|by_compute].
Defined.
Lemma responder_panic_free_witness : is_ok (byte_box_from_slice to_responder) = true
  ∧ match byte_box_from_slice to_responder with
    | Ok b => no_surprise (out (handle_message b done_responder (7 : env)))
    | Err _ => True
    | Panic _ => False
    end.
Proof.
  split; [vm_compute; reflexivity|].
  refine (responder_panic_free done_responder to_responder (7 : env) _ _); [exact done_responder_reachable|by_compute].
Defined.

(** The whole run of the initiator. *)
Lemma run_from_start : rtc step started done_initiator.
Proof.
  assert (good (rtc step started) (state_of i6)) as Hg.
  { do 6 (apply deliver_good; [by intros; eapply rtc_r|by_compute|]).
    unfold good, started, get_initiator. by destruct i0.1. }
  revert Hg. unfold good, done_initiator, get_initiator. assert (is_ok (state_of i6).1 = true) by by_compute.
  by destruct (state_of i6).1.
Qed.
Lemma started_inv : initiator_inv started.
Proof. apply get_initiator_inv; [by_compute|apply good_i0]. Qed.

Lemma session_never_regresses_witness :
  c_signaling_state (is_common done_initiator) = SignalingState.Task ∧ common_step (common started) (common done_initiator).
Proof.
  split; [vm_compute; reflexivity|].
  refine (session_never_regresses initiator_inv started done_initiator _ _); [exact started_inv|exact run_from_start].
Defined.

(** The server-hello message twice, then another message of the server. *)
Definition server_boxes : list ByteBox :=
  let hello := get_box (clear_box server_hello 0 1) in
  [hello; hello; get_box (clear_box server_hello 0 5)].
Lemma server_replay_witness :
  length (accepted (mkAddress 0) server_boxes started (7 : env)) = 2%nat
  ∧ StronglySorted Z.lt (map (λ n, combined_sequence_number (nonce_csn n))
      (accepted (mkAddress 0) server_boxes started (7 : env))).
Proof.
  split; [vm_compute; reflexivity|].
  refine (server_replay_impossible initiator_inv server_boxes started (7 : env) _ _);
    [exact started_inv|by_compute].
Defined.

(** The responder's auth message, once more. *)
Definition replayed : ByteBox := get_box (reply 0 r3).
Definition done_inv : initiator_inv done_initiator := initiator_reachable_inv done_initiator done_reachable.
Lemma replayed_message_witness :
  (out (handle_message replayed done_initiator (7 : env)) = Ok []
   ∨ ∃ e, out (handle_message replayed done_initiator (7 : env)) = Err e)
  ∧ last_csn (S := istate) (nonce_source (bbox_nonce replayed)) (post (handle_message replayed done_initiator (7 : env)))
    = Some (nonce_csn (bbox_nonce replayed)).
Proof.
  refine (replayed_message_ignored initiator_inv replayed done_initiator (7 : env)
    (nonce_csn (bbox_nonce replayed)) _ _ _ _).
  - exact done_inv.
  - by_compute.
  - vm_compute. reflexivity.
  - by_compute.
Defined.

(** Two task messages in a row. *)
Definition two_messages := encode_all [greeting; greeting] done_initiator (7 : env).
Definition sent : list ByteBox := match out two_messages with Ok bs => bs | _ => [] end.
Definition last_number : Z := default 0 (peer_csn done_initiator).
Lemma task_nonces_distinct_witness :
  map (λ b, combined_sequence_number (nonce_csn (bbox_nonce b))) sent = [last_number + 1 + 0; last_number + 1 + 1]
  ∧ length sent = 2%nat ∧ NoDup (map bbox_nonce sent).
Proof.
  refine (task_nonces_distinct initiator_inv [greeting; greeting] done_initiator (7 : env) sent
    (post two_messages) (world_of two_messages) last_number _ _ _).
  - exact done_inv.
  - vm_compute. reflexivity.
  - vm_compute. reflexivity.
Defined.

(** An initiator that knows the server's permanent key, after the server-hello
    message and the validation of the server-auth message's nonce. *)
Definition server_permanent : KeyPair := key_pair 40.
Definition knowing_run :=
  initiator_signaling_new (T := string) (S := unit) (E := SignalingError)
    initiator_keys (mkTasks ["chat"]) None (Some (public_key server_permanent)) None tt 0.
Definition k0 : outcome SignalingError istate * env := (out knowing_run, world_of knowing_run).
Definition k1 : istate := get_initiator (state_of (deliver (clear_box server_hello 0 1) k0)).
Definition auth_nonce : Nonce := server_nonce 1 2.
Definition k2 : istate := post (validate_nonce auth_nonce k1 (7 : env)).
Lemma k2_inv : initiator_inv k2.
Proof.
  apply (validate_nonce_validated initiator_inv auth_nonce k1); [|by_compute].
  apply get_initiator_inv; [by_compute|]. delivered. unfold good, k0. cbn [fst].
  destruct (out knowing_run) as [s|e|m] eqn:Hr; [|done..]. unfold knowing_run in Hr.
  exists s. split; [|done]. do 6 eexists. exact Hr.
Qed.

Definition signed_auth : ServerAuth :=
  mkServerAuth (cookie_ours (srv_cookie_pair (server k1)))
    (Some (mkSignedKeys (box_seal (pk_bytes (public_key server_keys)
        ++ pk_bytes (public_key initiator_keys)) (nonce_into_bytes auth_nonce)
      (pk_bytes (public_key initiator_keys)) (sk_bytes (private_key server_permanent)))))
    (Some [mkAddress 2]) None.
Definition signed_run := handle_server_auth signed_auth (Some auth_nonce) k2 (7 : env).

Lemma server_auth_verified_witness : server_authenticated signed_auth (Some auth_nonce) k2
  ∧ srv_handshake_state (server (post signed_run)) = ServerHandshakeState.Done
  ∧ c_signaling_state (common (post signed_run)) = SignalingState.PeerHandshake.
Proof.
  refine (server_auth_verified initiator_inv signed_auth (Some auth_nonce) k2 (7 : env)
    (match out signed_run with Ok acts => acts | _ => [] end) (post signed_run)
    (world_of signed_run) _ _ _ _).
  - exact k2_inv.
  - vm_compute. reflexivity.
  - by_compute.
  - vm_compute. reflexivity.
Defined.

(** The chosen peers at the end of the run hold each other's session keys. *)
Definition chosen : { r | is_responder done_initiator = Some r
  ∧ rsp_session_key r = Some (public_key (ini_keypair (rs_initiator done_responder)))
  ∧ ini_session_key (rs_initiator done_responder) = Some (public_key (rsp_keypair r))
  ∧ wf_keypair (rsp_keypair r) ∧ wf_keypair (ini_keypair (rs_initiator done_responder)) }.
Proof.
  eexists. split; [vm_compute; reflexivity|]. split; [vm_compute; reflexivity|].
  split; [vm_compute; reflexivity|].
  split; by_keypair.
Qed.
Definition greeting_run := encode_task_message greeting done_initiator (7 : env).
Definition greeting_box : ByteBox := get_box (out greeting_run).

Lemma task_message_delivered_witness :
  decode_task_message greeting_box done_responder = Ok (mkOpenBox greeting (bbox_nonce greeting_box)).
Proof.
  destruct chosen as (r & Hr & Hk & Hk2 & Hw & Hw2).
  refine (task_message_delivered done_responder r (λ p', is_set_responder (Some p') done_initiator)
    (rs_initiator done_responder) (λ i, rs_set_initiator i done_responder) (rsp_keypair r)
    (ini_keypair (rs_initiator done_responder)) greeting done_initiator (7 : env) greeting_box (post greeting_run)
    (world_of greeting_run) _ _ _ _ _ _ _ _ _ _).
  - change (is_get_peer done_initiator = Some (MkDynPeer r (λ p', is_set_responder (Some p') done_initiator))).
    unfold is_get_peer. by rewrite Hr.
  - reflexivity.
  - reflexivity.
  - exact Hk.
  - reflexivity.
  - exact Hk2.
  - exact Hw.
  - exact Hw2.
  - reflexivity.
  - vm_compute. reflexivity.
Defined.
End ProtocolWitnesses.
