(* ===== verification/Actions.v ===== *)
(** * The actions a message causes

    Outside the task phase a handled message causes replies and events, or ends
    the handshake: with the actions [HandshakeDone] and the task phase, or with
    the error that no task is shared.  The statement is proved once against the
    interface [SignalingActions], which the two roles implement. *)

From S2P Require Import Prelude Text External Errors Types Csn Cookie Nonce Crypto Tasks Messages.
From S2P Require Import Boxes Context Signaling SignalingSpec SignalingSafe Runs Initiator.
From S2P Require Import InitiatorSafe Responder ResponderSafe InitiatorProps ResponderProps.

(** An action that neither ends the handshake nor belongs to a task. *)
Definition plain (a : HandleAction) : Prop :=
  match a with HandleAction.Reply _ | HandleAction.Event _ => True | _ => False end.

(** The actions of the message that ends the handshake, and the state after it. *)
Definition ended {T} (acts : list HandleAction) (c : Common T) : Prop := ∃ bs,
  acts = map HandleAction.Reply bs ++ [HandleAction.HandshakeError SaltyError.NoSharedTask]
  ∨ acts = map HandleAction.Reply bs ++ [HandleAction.HandshakeDone]
    ∧ c_signaling_state c = SignalingState.Task.

(** What a computation returns when it succeeds, from any state. *)
Definition yields {W S E A} (m : M W S E A) (P : A → Prop) : Prop :=
  ∀ s w a s' w', m s w = (Ok a, s', w') → P a.

Section yields.
Context {W S E : Type}.

Lemma yields_bind {A B} (m : M W S E A) (k : A → M W S E B) (P : A → Prop) (Q : B → Prop) :
  yields m P → (∀ a, P a → yields (k a) Q) → yields (x ← m; k x) Q.
Proof.
  intros Hm Hk s w b s' w' (a & s1 & w1 & Ha & Hb)%bind_Ok. eapply Hk; [|done]. by eapply Hm.
Qed.
Lemma yields_then {A B} (m : M W S E A) (k : A → M W S E B) (Q : B → Prop) :
  (∀ a, yields (k a) Q) → yields (x ← m; k x) Q.
Proof. intros Hk. by apply (yields_bind m k (λ _, True)). Qed.
Lemma yields_ret {A} (a : A) (P : A → Prop) : P a → yields (mret a : M W S E A) P.
Proof. by intros Ha s w b s' w' [= <- _ _]. Qed.
Lemma yields_throw {A} e (P : A → Prop) : yields (throw e : M W S E A) P.
Proof. by intros s w b s' w'. Qed.
Lemma yields_panic {A} msg (P : A → Prop) : yields (panic msg : M W S E A) P.
Proof. by intros s w b s' w'. Qed.
Lemma yields_for {A B} (f : B → A → M W S E B) (P : B → Prop) l : ∀ acc,
  P acc → (∀ acc a, P acc → yields (f acc a) P) → yields (mfor f acc l) P.
Proof.
  induction l as [|a l IH]; intros acc Hacc Hf; simpl; [by apply yields_ret|].
  eapply yields_bind; [by apply Hf|]. intros acc' Hacc'. by apply IH.
Qed.
End yields.

Ltac yields_step :=
  lazymatch goal with
  | |- yields (mbind _ _) _ => apply yields_then; intros ?
  | |- yields (mret _) _ => apply yields_ret
  | |- yields (throw _) _ => apply yields_throw
  | |- yields (panic _) _ => apply yields_panic
  | |- yields (if ?b then _ else _) _ => destruct b
  | |- yields (match ?x with _ => _ end) _ => destruct x
  end.

(** ** The shared handlers *)

Section shared.
Context {T S : Type} `{!Task T, !Env, !SignalingBase T S}.
Context `{!ByteOrder, !Sodium, !Rmps}.

Lemma send_drop_responder_yields a r : yields (send_drop_responder (S := S) a r) plain.
Proof. unfold send_drop_responder. by repeat yields_step. Qed.

Lemma handle_server_hello_yields msg : yields (handle_server_hello (S := S) msg) (Forall plain).
Proof.
  unfold handle_server_hello. do 3 yields_step.
  apply (yields_bind _ _ (Forall plain)).
  { unfold send_client_hello. repeat yields_step; by repeat constructor. }
  intros hello Hh. apply (yields_bind _ _ plain); [unfold send_client_auth; by repeat yields_step|].
  intros auth Ha. repeat yields_step. apply Forall_app. split; [done|by constructor].
Qed.
End shared.

(** ** The interface *)

Class SignalingActions (T S : Type) `{!Task T, !Env, !Signaling T S} (I : S → Prop) : Prop := {
  act_peer_message o s w acts s' w' : I s →
    c_signaling_state (common s) = SignalingState.PeerHandshake →
    handle_peer_message o s w = (Ok acts, s', w') → Forall plain acts ∨ ended acts (common s');
  act_server_auth_impl msg : yields (handle_server_auth_impl msg) (Forall plain);
  act_new_initiator msg : yields (handle_new_initiator msg) (Forall plain);
  act_new_responder msg : yields (handle_new_responder msg) (Forall plain);
  act_disconnected msg : yields (handle_disconnected msg) (Forall plain);
}.

Section dispatch.
Context {T S : Type} `{!Task T, !Env, !Signaling T S}.
Context `{!ByteOrder, !Sodium, !SodiumLaws, !Rmps, !RmpsLaws}.
Context (I : S → Prop) `{!SignalingSafe T S I, !SignalingActions T S I}.
Implicit Types s : S.

Lemma handle_server_message_yields o nc : yields (handle_server_message o nc) (Forall plain).
Proof.
  unfold handle_server_message. yields_step.
  destruct (server_handshake_state _), (obox_message o); try apply yields_throw.
  - apply handle_server_hello_yields.
  - unfold handle_server_auth. do 4 yields_step.
    eapply yields_bind; [apply act_server_auth_impl|]. intros acts Ha. do 2 yields_step.
    destruct (set_signaling_state _ _). by repeat yields_step.
  - apply act_new_initiator.
  - apply act_new_responder.
  - apply yields_panic.
  - apply act_disconnected.
Qed.

Lemma handle_handshake_actions b s w acts s' w' : I s →
  c_signaling_state (common s) ≠ SignalingState.Task →
  handle_handshake_peer_message b s w = (Ok acts, s', w') →
  Forall plain acts ∨ ended acts (common s').
Proof.
  intros HI Hst Hrun. unfold handle_handshake_peer_message in Hrun.
  destruct (Address.is_server _); [done|].
  apply bind_Ok in Hrun as (? & ? & ? & [= <- <- <-] & Hrun).
  apply bind_Ok in Hrun as (d & s1 & w2 & Hd & Hrun). unfold mtry, mlift in Hd.
  destruct (decode_peer_message b s) as [o|e|m]; [| |done]; injection Hd as <- <- <-.
  - destruct (c_signaling_state (common s)) eqn:Hph; [done| |done].
    destruct (Address.is_server _); [left; by eapply handle_server_message_yields|].
    by eapply act_peer_message.
  - destruct e; try done. left. apply bind_Ok in Hrun as (a & ? & ? & Ha & [= <- _ _]).
    apply send_drop_responder_yields in Ha. by constructor.
Qed.

(** Outside the task phase a message causes replies and events, or ends the
    handshake. *)
Lemma handle_message_actions b s w acts s' w' : I s → wf_nonce (bbox_nonce b) →
  c_signaling_state (common s) ≠ SignalingState.Task →
  handle_message b s w = (Ok acts, s', w') → Forall plain acts ∨ ended acts (common s').
Proof.
  intros HI Hn Hst Hrun. pose proof (validate_nonce_validated I _ s HI Hn w) as (HI1 & [_ Hst1] & _).
  unfold handle_message in Hrun. apply bind_Ok in Hrun as (v & s1 & w1 & Hv & Hrun).
  unfold mtry in Hv. destruct (validate_nonce (bbox_nonce b) s w) as [[o s1'] w1'].
  unfold post in HI1, Hst1. simpl in HI1, Hst1.
  destruct o as [[]|[]|]; [|..|done]; injection Hv as <- <- <-; try done;
    [|injection Hrun as <- _ _; by left].
  rewrite <- Hst1 in Hst. clear s HI Hst1. rename s1' into s, HI1 into HI.
  unfold dispatch_message in Hrun. apply bind_Ok in Hrun as (? & ? & ? & [= <- <- <-] & Hrun).
  destruct (Address.is_server _) eqn:Hsrv.
  - left. apply bind_Ok in Hrun as (? & ? & ? & _ & Hrun). by eapply handle_server_message_yields.
  - destruct (c_signaling_state (common s)) eqn:Hph; [| |done];
      by eapply handle_handshake_actions; [..|done]; [|rewrite Hph].
Qed.
End dispatch.

(** ** The initiator *)

Section initiator.
Context {T : Type} `{!Task T}.
Context `{!ByteOrder, !Sodium, !SodiumLaws, !Rmps, !RmpsLaws, !Env, !EnvLaws}.

Lemma process_new_responder_yields a :
  yields (process_new_responder (T := T) a) (λ o, Forall plain (option_list o)).
Proof.
  unfold process_new_responder. do 2 yields_step. destruct (responder_counter_increment _).
  do 7 yields_step; [|apply yields_ret; constructor].
  unfold drop_oldest_inactive_responder. do 2 yields_step.
  destruct (drop_candidate _); [|apply yields_ret; constructor]. do 2 yields_step.
  eapply yields_bind; [apply send_drop_responder_yields|]. intros x Hx. yields_step. by constructor.
Qed.

Lemma is_handle_auth_actions msg src s w acts s' w' : initiator_inv s →
  c_signaling_state (is_common s) = SignalingState.PeerHandshake →
  is_handle_auth msg src s w = (Ok acts, s', w') → ended acts (is_common s').
Proof.
  intros HI Hst Hrun. pose proof (is_handle_auth_spec msg src s HI Hst w) as Hs.
  rewrite Hrun in Hs. destruct Hs as (r & ts & proposed & _ & _ & _ & _ & [Ho|Ho]).
  - destruct Ho as (? & ? & ? & ? & ? & ? & drops & auth & ? & ? & ? & _ & _ & _ & _ & _ & -> & _ & _
      & _ & _ & _ & _ & Ht & _).
    exists (drops ++ [auth]). right. split; [|done]. by rewrite map_app, <- app_assoc.
  - destruct Ho as (_ & _ & _ & close & -> & _). exists close. by left.
Qed.

Lemma is_handle_token_yields msg src : yields (is_handle_token (T := T) msg src) (Forall plain).
Proof. unfold is_handle_token. by repeat yields_step. Qed.
Lemma is_handle_key_yields msg src : yields (is_handle_key (T := T) msg src) (Forall plain).
Proof.
  unfold is_handle_key. do 2 yields_step. yields_step; [yields_step|]. yields_step; [|yields_step].
  yields_step; [yields_step|]. cbv zeta. yields_step. destruct (next_peer_nonce _ _).
  repeat yields_step. by repeat constructor.
Qed.

#[export] Instance initiator_actions : SignalingActions T (InitiatorSignaling T) initiator_inv.
Proof.
  split.
  - intros o s w acts s' w' HI Hst Hrun. change (is_handle_peer_message o s w = (Ok acts, s', w')) in Hrun.
    unfold is_handle_peer_message in Hrun. apply bind_Ok in Hrun as (? & ? & ? & [= <- <- <-] & Hrun).
    apply bind_Ok in Hrun as (r & ? & ? & Hr & Hrun). unfold mlift in Hr. injection Hr as Hr <- <-.
    destruct (rsp_handshake_state r), (obox_message o); try done.
    + left. by apply is_handle_token_yields in Hrun.
    + left. by apply is_handle_key_yields in Hrun.
    + right. by apply is_handle_auth_actions in Hrun.
  - intros msg. change (yields (is_handle_server_auth_impl (T := T) msg) (Forall plain)).
    unfold is_handle_server_auth_impl. do 5 (yields_step; try apply yields_throw).
    apply (yields_bind _ _ (Forall plain)).
    + apply yields_for; [constructor|]. intros acc x Hacc.
      eapply yields_bind; [apply process_new_responder_yields|]. intros o Ho. yields_step.
      by apply Forall_app.
    + intros acts Ha. yields_step. apply Forall_app. split; [done|by repeat constructor].
  - intros msg. apply yields_throw.
  - intros msg. change (yields (is_handle_new_responder (T := T) msg) (Forall plain)).
    unfold is_handle_new_responder. yields_step; [apply yields_throw|].
    eapply yields_bind; [apply process_new_responder_yields|]. intros o Ho. by yields_step.
  - intros msg. change (yields (is_handle_disconnected (T := T) msg) (Forall plain)).
    unfold is_handle_disconnected. repeat yields_step. by repeat constructor.
Qed.
End initiator.

(** ** The responder *)

Section responder.
Context {T : Type} `{!Task T}.
Context `{!ByteOrder, !Sodium, !SodiumLaws, !Rmps, !RmpsLaws, !Env, !EnvLaws}.

Lemma send_token_if_any_yields : yields (send_token_if_any (T := T)) (Forall plain).
Proof.
  unfold send_token_if_any. yields_step. destruct (c_auth_provider _) as [[]|]; [| |apply yields_throw].
  - yields_step. apply (yields_bind _ _ plain); [unfold send_token; by repeat yields_step|].
    intros act Hact. yields_step. by constructor.
  - by yields_step.
Qed.
Lemma send_key_yields : yields (send_key (T := T)) plain.
Proof. unfold send_key. by repeat yields_step. Qed.
Lemma rs_handle_key_yields msg n : yields (rs_handle_key (T := T) msg n) (Forall plain).
Proof. unfold rs_handle_key. repeat yields_step. by repeat constructor. Qed.

#[export] Instance responder_actions :
  SignalingActions T (ResponderSignaling T) responder_state_inv.
Proof.
  split.
  - intros o s w acts s' w' HI Hst Hrun. change (rs_handle_peer_message o s w = (Ok acts, s', w')) in Hrun.
    unfold rs_handle_peer_message in Hrun. apply bind_Ok in Hrun as (? & ? & ? & [= <- <- <-] & Hrun).
    destruct (ini_handshake_state _), (obox_message o); try done.
    + left. by apply rs_handle_key_yields in Hrun.
    + right. pose proof (rs_handle_auth_spec m (nonce_source (obox_nonce o)) s HI Hst w) as Hs.
      rewrite Hrun in Hs. destruct Hs as (? & ? & ? & ? & _ & _ & _ & _ & _ & _ & -> & Ht & _).
      exists []. by right.
    + revert Hrun. unfold rs_handle_peer_handshake_close. by destruct (CloseCode.from_number _).
  - intros msg. change (yields (rs_handle_server_auth_impl (T := T) msg) (Forall plain)).
    unfold rs_handle_server_auth_impl. yields_step; [apply yields_throw|].
    destruct (sa_initiator_connected msg) as [[]|]; [| |apply yields_throw].
    + eapply yields_bind; [apply send_token_if_any_yields|]. intros tok Htok.
      eapply yields_bind; [apply send_key_yields|]. intros key Hkey. repeat yields_step.
      apply Forall_app. split; [done|by repeat constructor].
    + yields_step. by repeat constructor.
  - intros msg. change (yields (rs_handle_new_initiator (T := T) msg) (Forall plain)).
    unfold rs_handle_new_initiator. do 3 yields_step.
    eapply yields_bind; [apply send_token_if_any_yields|]. intros tok Htok.
    eapply yields_bind; [apply send_key_yields|]. intros key Hkey. repeat yields_step.
    apply Forall_app. split; [done|by constructor].
  - intros msg. apply yields_throw.
  - intros msg. change (yields (rs_handle_disconnected (T := T) msg) (Forall plain)).
    unfold rs_handle_disconnected. repeat yields_step. by repeat constructor.
Qed.
End responder.
