(* ===== verification/Typing.v ===== *)
(** * Typing of the client's state and of what it sends

    Rust's types say that a sequence number fits its width, that a key has 32
    bytes, that an address is one byte.  The model keeps them as unbounded
    numbers and lists, so that the types are theorems: [initiator_typed] and
    [responder_typed] collect what the types of a client's fields say, every handler keeps it, and
    every message sent is the encoding of a well-typed message in a packet that
    a receiver can parse.  Proved once for the trait against the interface
    [SignalingTyped], which the two roles implement. *)

From S2P Require Import Prelude Text External Errors Types Csn Cookie Nonce Crypto Tasks Messages.
From S2P Require Import Boxes Context Signaling SignalingSpec Initiator InitiatorSafe.
From S2P Require Import Responder ResponderSafe ReferenceCodec Handshake.

(** ** Typed computations

    From a typed state [m] leaves a typed state on every path, and a success
    has the type [P]. *)

Definition typed {W S E A} (J : S → Prop) (m : M W S E A) (P : A → Prop) : Prop :=
  ∀ s, J s → wp m s (λ o s', J s' ∧ match o with Ok a => P a | _ => True end).

Section typed.
Context {W S E : Type} (J : S → Prop).

Lemma typed_ret {A} (a : A) (P : A → Prop) : P a → typed J (mret a : M W S E A) P.
Proof. intros Ha s Hs. by apply wp_ret. Qed.
Lemma typed_throw {A} e (P : A → Prop) : typed J (throw e : M W S E A) P.
Proof. intros s Hs. by apply wp_throw. Qed.
Lemma typed_panic {A} msg (P : A → Prop) : typed J (panic msg : M W S E A) P.
Proof. intros s Hs. by apply wp_panic. Qed.
Lemma typed_lift {A} (o : outcome E A) (P : A → Prop) :
  (∀ a, o = Ok a → P a) → typed J (mlift o : M W S E A) P.
Proof. intros Ho s Hs. apply wp_lift. split; [done|]. destruct o; auto. Qed.
Lemma typed_some {A} (o : option A) e : typed J (mlift (ok_or o e) : M W S E A) (λ a, o = Some a).
Proof. apply typed_lift. intros a. by destruct o; intros [= <-]. Qed.
Lemma typed_get P : (∀ s, J s → P s) → typed J (mget : M W S E S) P.
Proof. intros HP s Hs. apply wp_get. auto. Qed.
Lemma typed_put s' : J s' → typed J (mput s' : M W S E unit) (λ _, True).
Proof. intros Hs' s Hs. by apply wp_put. Qed.
Lemma typed_modify f : (∀ s, J s → J (f s)) → typed J (mmodify f : M W S E unit) (λ _, True).
Proof. intros Hf s Hs. apply wp_modify. auto. Qed.
Lemma typed_world {A} (f : W → A * W) (P : A → Prop) :
  (∀ w, P (f w).1) → typed J (mworld f : M W S E A) P.
Proof. intros HP s Hs. apply wp_world. auto. Qed.
Lemma typed_bind {A B} (m : M W S E A) (k : A → M W S E B) (P : A → Prop) (Q : B → Prop) :
  typed J m P → (∀ a, P a → typed J (k a) Q) → typed J (x ← m; k x) Q.
Proof.
  intros Hm Hk s Hs. apply wp_bind. eapply wp_mono; [by apply Hm|].
  intros [a|e|msg] s' [Hs' Ha]; simpl; [by apply Hk|done|done].
Qed.
Lemma typed_try {E' A} (m : M W S E' A) (P : A → Prop) : typed J m P →
  typed J (mtry m : M W S E (A + E')) (λ r, match r with inl a => P a | inr _ => True end).
Proof.
  intros Hm s Hs. apply wp_try. eapply wp_mono; [by apply Hm|].
  by intros [a|e|msg] s' [Hs' Ha].
Qed.
Lemma typed_for {A B} (f : B → A → M W S E B) (P : B → Prop) (l : list A) : ∀ acc,
  P acc → (∀ acc a, a ∈ l → P acc → typed J (f acc a) P) → typed J (mfor f acc l) P.
Proof.
  induction l as [|a l IH]; intros acc Hacc Hf; simpl; [by apply typed_ret|].
  eapply typed_bind; [apply Hf; [by left|done]|]. intros acc' Hacc'.
  apply IH; [done|]. intros acc0 a0 Ha0. apply Hf. by right.
Qed.
Lemma typed_mono {A} (m : M W S E A) (P Q : A → Prop) :
  typed J m P → (∀ a, P a → Q a) → typed J m Q.
Proof.
  intros Hm HPQ s Hs. eapply wp_mono; [by apply Hm|]. intros [a|e|msg] s' [Hs' Ha]; auto.
Qed.
End typed.

(** One step through a computation; the primitives are taken as they are, any
    other first part of a sequence is left to a typing lemma. *)
Ltac typed_step :=
  lazymatch goal with
  | |- typed _ (mbind _ mget) _ =>
      eapply typed_bind; [by apply typed_get|]; intros ? ?; cbv beta in *
  | |- typed _ (mbind _ (mlift (ok_or _ _))) _ =>
      eapply typed_bind; [apply typed_some|]; intros ? ?; cbv beta in *
  | |- typed _ (mbind _ (mlift _)) _ =>
      eapply typed_bind; [apply typed_lift; intros ? Hlift; exact Hlift|]; intros ? ?; cbv beta in *
  | |- typed _ (mbind _ (mput _)) _ => eapply typed_bind; [apply typed_put|intros [] _]
  | |- typed _ (mbind _ (mmodify _)) _ => eapply typed_bind; [apply typed_modify; intros ? ?|intros [] _]
  | |- typed _ (mret _) _ => apply typed_ret
  | |- typed _ (throw _) _ => apply typed_throw
  | |- typed _ (panic _) _ => apply typed_panic
  | |- typed _ (if ?b then _ else _) _ => destruct b eqn:?
  end.

(** ** Types *)

Definition wf_key_option : option PublicKey → Prop := from_option wf_public_key True.
Definition wf_auth_token (t : AuthToken) : Prop := wf_array 32 (secret_key_bytes t).
Definition wf_auth_provider (p : AuthProvider) : Prop :=
  match p with AuthProvider.Token t => wf_auth_token t | AuthProvider.TrustedKey k => wf_public_key k end.
Definition wf_identity (i : Identity) : Prop :=
  match i with Identity.Responder id => u8 id | _ => True end.

Section types.
Context `{!ByteOrder, !ByteOrderLaws, !Sodium, !SodiumLaws, !Rmps, !RmpsLaws}.

(** A packet: the encoding of a well-typed message, in the clear, or sealed with
    a key pair or with the token. *)
Definition carries (b : ByteBox) : Prop := ∃ bs,
  ((∃ m, wf_message m ∧ rmps_message_to_vec m = Some bs) ∨ ∃ v, rmps_value_to_vec v = Some bs)
  ∧ (bbox_bytes b = bs
     ∨ (∃ k pk, bbox_bytes b = keypair_encrypt k bs (bbox_nonce b) pk)
     ∨ ∃ t, bbox_bytes b = auth_token_encrypt t bs (bbox_nonce b)).
Definition wf_packet (b : ByteBox) : Prop := wf_nonce (bbox_nonce b) ∧ carries b.

Lemma carries_bytes b : carries b → wf_bytes (bbox_bytes b) ∧ bbox_bytes b ≠ [].
Proof.
  intros (bs & Hm & Hb). assert (wf_bytes bs ∧ bs ≠ []) as [Hbs Hne].
  { destruct Hm as [(m & _ & Hm)|[v Hv]];
      [by eapply rmps_message_to_vec_bytes|by eapply rmps_value_to_vec_bytes]. }
  destruct Hb as [->|[(k & pk & ->)|[t ->]]]; [done|split..].
  - by apply box_seal_wf.
  - intros Hl%(f_equal length). unfold keypair_encrypt in Hl. rewrite box_seal_length in Hl.
    unfold MACBYTES in Hl. simpl in Hl. lia.
  - by apply secretbox_seal_wf.
  - intros Hl%(f_equal length). unfold auth_token_encrypt in Hl.
    rewrite secretbox_seal_length in Hl. unfold MACBYTES in Hl. simpl in Hl. lia.
Qed.

(** A packet is bytes, and a receiver parses it. *)
Lemma packet_parses b : wf_packet b →
  wf_bytes (byte_box_into_bytes b) ∧ byte_box_from_slice (byte_box_into_bytes b) = Ok b.
Proof.
  intros [Hn Hc]. destruct (carries_bytes b Hc) as [Hb Hne]. split.
  - apply Forall_app. split; [apply (nonce_bytes_wf _ Hn)|done].
  - by apply byte_box_roundtrip.
Qed.

Lemma to_msgpack_vec {E} m bs : to_msgpack (E := E) m = Ok bs → rmps_message_to_vec m = Some bs.
Proof. unfold to_msgpack. destruct (rmps_message_to_vec m); simpl; congruence. Qed.

Lemma obox_encode_packet {E} o b : obox_encode (E := E) o = Ok b →
  wf_message (obox_message o) → wf_nonce (obox_nonce o) → wf_packet b.
Proof.
  unfold obox_encode. destruct (to_msgpack _) as [bs|e|m] eqn:Hm; [|done..]. intros [= <-] Hw Hn.
  apply to_msgpack_vec in Hm. split; [done|]. exists bs. split; [by eauto|by left].
Qed.
Lemma obox_encrypt_packet {E} o k pk b : obox_encrypt (E := E) o k pk = Ok b →
  wf_message (obox_message o) → wf_nonce (obox_nonce o) → wf_packet b.
Proof.
  unfold obox_encrypt. destruct (to_msgpack _) as [bs|e|m] eqn:Hm; [|done..]. intros [= <-] Hw Hn.
  apply to_msgpack_vec in Hm. split; [done|]. exists bs. split; [by eauto|]. right; left. by exists k, pk.
Qed.
Lemma obox_encrypt_token_packet {E} o t b : obox_encrypt_token (E := E) o t = Ok b →
  wf_message (obox_message o) → wf_nonce (obox_nonce o) → wf_packet b.
Proof.
  unfold obox_encrypt_token. destruct (to_msgpack _) as [bs|e|m] eqn:Hm; [|done..].
  intros [= <-] Hw Hn.
  apply to_msgpack_vec in Hm. split; [done|]. exists bs. split; [by eauto|]. right; right. by exists t.
Qed.
Lemma value_encrypt_packet {E} o k pk b : value_encrypt (E := E) o k pk = Ok b →
  wf_nonce (obox_nonce o) → wf_packet b.
Proof.
  unfold value_encrypt. destruct (rmps_value_to_vec _) as [bs|] eqn:Hm; [|done]. intros [= <-] Hn.
  split; [done|]. exists bs. split; [by eauto|]. right; left. by exists k, pk.
Qed.

(** What a handler returns. *)
Definition wf_task_message (m : TaskMessage) : Prop :=
  match m with
  | TaskMessage.Value map => map_Forall (λ _ v, typed_value v) map
  | TaskMessage.Application v => typed_value v
  | TaskMessage.Close reason => u16 (CloseCode.as_number reason)
  end.
Definition wf_action (a : HandleAction) : Prop :=
  match a with
  | HandleAction.Reply b => wf_packet b
  | HandleAction.Event (Event.Disconnected id) => u8 id
  | HandleAction.TaskMessage m => wf_task_message m
  | _ => True
  end.
Abbreviation wf_actions := (Forall wf_action).

(** The contexts and the common part of a client. *)
Definition typed_peer `{!PeerContext P} (p : P) : Prop :=
  wf_peer p ∧ wf_identity (pc_identity p).
Record server_typed (c : ServerContext) : Prop := {
  svt_permanent : wf_key_option (srv_permanent_key c);
  svt_session : wf_key_option (srv_session_key c);
  svt_peer : wf_peer c;
}.
Record responder_context_typed (r : ResponderContext) : Prop := {
  rct_counter : u32 (rsp_counter r);
  rct_address : wf_address (rsp_address r);
  rct_permanent : wf_key_option (rsp_permanent_key r);
  rct_session : wf_key_option (rsp_session_key r);
  rct_keypair : wf_keypair (rsp_keypair r);
  rct_peer : wf_peer r;
}.
Record initiator_context_typed (i : InitiatorContext) : Prop := {
  ict_permanent : wf_public_key (ini_permanent_key i);
  ict_session : wf_key_option (ini_session_key i);
  ict_keypair : wf_keypair (ini_keypair i);
  ict_peer : wf_peer i;
}.
Record common_typed {T} (c : Common T) : Prop := {
  ct_keypair : wf_keypair (c_permanent_keypair c);
  ct_provider : from_option wf_auth_provider True (c_auth_provider c);
  ct_identity : ClientIdentity.wf_client_identity (c_identity c);
  ct_server : server_typed (c_server c);
  ct_ping : from_option wf_duration True (c_ping_interval c);
}.
End types.
#[export] Hint Resolve wf_keypair_public : salty.

(** ** The shared part of the trait *)

(** A borrowed peer context: writing typed sequence numbers and cookies through
    it leaves a typed object. *)
Definition typed_dyn {S} (J : S → Prop) (d : DynPeer S) : Prop :=
  match d with
  | @MkDynPeer _ _ _ p put => typed_peer p ∧ J (put p)
      ∧ (∀ c, wf_csn_pair c → J (put (pc_set_csn_pair c p)))
      ∧ (∀ c, wf_cookie_pair c → J (put (pc_set_cookie_pair c p)))
  end.

Lemma identity_address_wf {E} i a : wf_identity i →
  Identity.address_from_identity (E := E) i = Ok a → wf_address a.
Proof.
  destruct i as [| |id]; simpl; [by intros _ [= <-]..|]. case_bool_decide; [|done].
  by intros Hi [= <-].
Qed.
Lemma client_identity_address_wf {E} i a : ClientIdentity.wf_client_identity i →
  ClientIdentity.address_from_client_identity (E := E) i = Ok a → wf_address a.
Proof.
  intros Hi Ha. destruct (client_identity_address_ok (E := E) i Hi) as (a' & Ha' & Hw). congruence.
Qed.

(** The own sequence number moves within its type. *)
Lemma peer_increment_typed `{!PeerContext P} (p : P) : wf_peer p → ∃ r c,
  peer_increment p = (r, pc_set_csn_pair c p) ∧ wf_csn_pair c
  ∧ ∀ snap, r = Ok snap → wf_snapshot snap.
Proof.
  intros [[Ho Ht] _]. unfold peer_increment. destruct (increment _) as [r ours'] eqn:Hi.
  pose proof (increment_wf _ Ho) as Hw. rewrite Hi in Hw.
  eexists _, _. split; [done|]. split; [by split|]. intros snap ->.
  apply increment_Ok in Hi as [-> _]; [|done]. by apply snapshot_of_wf.
Qed.

Lemma next_peer_nonce_typed `{!PeerContext P} id (p : P) :
  ClientIdentity.wf_client_identity id → typed_peer p →
  (∃ c, wf_csn_pair c ∧ (next_peer_nonce id p).2 = pc_set_csn_pair c p
    ∨ (next_peer_nonce id p).2 = p)
  ∧ ∀ n, (next_peer_nonce id p).1 = Ok n → wf_nonce n.
Proof.
  intros Hid [Hp Hi]. unfold next_peer_nonce.
  destruct (ClientIdentity.address_from_client_identity id) as [src|e|m] eqn:Hs.
  2,3: by split; [exists (pc_csn_pair p); right|].
  destruct (Identity.address_from_identity _) as [dst|e|m] eqn:Hd.
  2,3: by split; [exists (pc_csn_pair p); right|].
  destruct (peer_increment_typed p Hp) as (r & c & -> & Hc & Hr). simpl. split.
  - exists c. by left.
  - intros n. destruct r as [csn|e|m]; [|done..]. simpl. intros [= <-].
    apply client_identity_address_wf in Hs; [|done]. apply identity_address_wf in Hd; [|done].
    split_and!; [apply Hp|done|done|by apply Hr].
Qed.

(** The writer of a borrowed peer, after a nonce has been drawn from it. *)
Lemma typed_dyn_drawn {S} (J : S → Prop) `{!PeerContext P} id (p : P) (put : P → S) :
  ClientIdentity.wf_client_identity id → typed_dyn J (MkDynPeer p put) →
  J (put (next_peer_nonce id p).2).
Proof.
  intros Hid (Hp & Hput & Hcsn & _). destruct (next_peer_nonce_typed id p Hid Hp) as [[c H] _].
  destruct H as [[Hc ->]| ->]; auto.
Qed.

Class BaseTyped (T S : Type) `{!SignalingBase T S, !Sodium} (J : S → Prop) : Prop := {
  bt_common s : J s → common_typed (common s);
  bt_set_common c s : J s → common_typed c → J (set_common c s);
  bt_get_peer s d : J s → get_peer s = Some d → typed_dyn J d;
  bt_sender {E} a s d : J s → get_peer_with_address_mut (E := E) a s = Ok (Some d) → typed_dyn J d;
}.

Section updates.
Context {T : Type} `{!Sodium}.
Implicit Types c : Common T.

Lemma common_with_state st c : common_typed c → common_typed (with_signaling_state st c).
Proof. by intros []. Qed.
Lemma common_without_provider c : common_typed c → common_typed (with_auth_provider None c).
Proof. by intros []. Qed.
Lemma common_with_identity i c : ClientIdentity.wf_client_identity i →
  common_typed c → common_typed (with_identity i c).
Proof. by intros ? []. Qed.
Lemma common_with_server sv c : server_typed sv → common_typed c → common_typed (with_server sv c).
Proof. by intros ? []. Qed.
Lemma common_with_tasks ts c : common_typed c → common_typed (with_tasks ts c).
Proof. by intros []. Qed.
Lemma common_with_task t types c : common_typed c → common_typed (with_task t types c).
Proof. by intros []. Qed.
Lemma set_signaling_state_typed st c : common_typed c → common_typed (set_signaling_state st c).2.
Proof. intros Hc. unfold set_signaling_state. repeat case_match; simpl; auto using common_with_state. Qed.

Lemma server_with_state st sv : server_typed sv → server_typed (srv_set_handshake_state st sv).
Proof. by intros []. Qed.
Lemma server_with_session k sv : wf_public_key k → server_typed sv →
  server_typed (srv_set_session_key (Some k) sv).
Proof. by intros ? []. Qed.
Lemma server_set_csn p sv : wf_csn_pair p → server_typed sv → server_typed (pc_set_csn_pair p sv).
Proof. intros ? [? ? []]. by split; [..|split]. Qed.
Lemma server_set_cookie p sv : wf_cookie_pair p → server_typed sv →
  server_typed (pc_set_cookie_pair p sv).
Proof. intros ? [? ? []]. by split; [..|split]. Qed.

Lemma responder_with_state st r : responder_context_typed r →
  responder_context_typed (rsp_set_handshake_state st r).
Proof. by intros []. Qed.
Lemma responder_with_permanent k r : wf_public_key k → responder_context_typed r →
  responder_context_typed (rsp_set_permanent_key (Some k) r).
Proof. by intros ? []. Qed.
Lemma responder_with_session k r : wf_public_key k → responder_context_typed r →
  responder_context_typed (rsp_set_session_key (Some k) r).
Proof. by intros ? []. Qed.
Lemma responder_set_csn p r : wf_csn_pair p → responder_context_typed r →
  responder_context_typed (pc_set_csn_pair p r).
Proof. intros ? [? ? ? ? ? []]. by split; [..|split]. Qed.
Lemma responder_set_cookie p r : wf_cookie_pair p → responder_context_typed r →
  responder_context_typed (pc_set_cookie_pair p r).
Proof. intros ? [? ? ? ? ? []]. by split; [..|split]. Qed.
Lemma responder_typed_peer r : responder_context_typed r → typed_peer r.
Proof. by intros []. Qed.

Lemma initiator_with_state st i : initiator_context_typed i →
  initiator_context_typed (ini_set_handshake_state st i).
Proof. by intros []. Qed.
Lemma initiator_with_session k i : wf_public_key k → initiator_context_typed i →
  initiator_context_typed (ini_set_session_key (Some k) i).
Proof. by intros ? []. Qed.
Lemma initiator_set_csn p i : wf_csn_pair p → initiator_context_typed i →
  initiator_context_typed (pc_set_csn_pair p i).
Proof. intros ? [? ? ? []]. by split; [..|split]. Qed.
Lemma initiator_set_cookie p i : wf_cookie_pair p → initiator_context_typed i →
  initiator_context_typed (pc_set_cookie_pair p i).
Proof. intros ? [? ? ? []]. by split; [..|split]. Qed.
Lemma initiator_typed_peer i : initiator_context_typed i → typed_peer i.
Proof. by intros []. Qed.
End updates.
#[export] Hint Resolve common_with_state common_without_provider common_with_identity : salty.
#[export] Hint Resolve common_with_server common_with_tasks common_with_task : salty.
#[export] Hint Resolve set_signaling_state_typed server_with_state server_with_session : salty.
#[export] Hint Resolve server_set_csn server_set_cookie responder_with_state : salty.
#[export] Hint Resolve responder_with_permanent responder_with_session responder_set_csn : salty.
#[export] Hint Resolve responder_set_cookie responder_typed_peer initiator_with_state : salty.
#[export] Hint Resolve initiator_with_session initiator_set_csn initiator_set_cookie : salty.
#[export] Hint Resolve initiator_typed_peer ct_keypair ct_identity ct_server : salty.

Section shared.
Context {T S : Type} `{!Task T, !SignalingBase T S}.
Context `{!ByteOrder, !ByteOrderLaws, !Sodium, !SodiumLaws, !Rmps, !RmpsLaws, !Env, !EnvLaws}.
Context (J : S → Prop) `{!BaseTyped T S J}.
Implicit Types s : S.

Lemma set_server_typed sv s : J s → server_typed sv → J (set_server sv s).
Proof. intros Hs Hsv. apply bt_set_common; [done|]. eauto using bt_common with salty. Qed.

Lemma next_server_nonce_typed : typed J next_server_nonce wf_nonce.
Proof.
  unfold next_server_nonce. do 3 typed_step. rename a into s, a0 into src, a1 into dst.
  pose proof (bt_common s ltac:(done)) as Hc. pose proof (ct_server _ Hc) as Hsv.
  destruct (peer_increment_typed (server s) (svt_peer _ Hsv)) as (r & c & -> & Hp & Hr).
  typed_step; [by eauto using set_server_typed with salty|]. typed_step. apply typed_ret.
  split_and!.
  - apply (svt_peer _ Hsv).
  - eapply client_identity_address_wf; [|done]. by apply ct_identity.
  - by eapply identity_address_wf; [|done].
  - by apply Hr.
Qed.

Lemma send_drop_responder_typed a reason : wf_address a →
  typed J (send_drop_responder a reason) wf_action.
Proof.
  intros Ha. unfold send_drop_responder. do 2 typed_step; [typed_step|].
  eapply typed_bind; [apply next_server_nonce_typed|]. intros n Hn. do 2 typed_step.
  apply typed_ret. eapply obox_encrypt_packet; [done| |done]. split; [done|]. by destruct reason.
Qed.

Lemma ping_interval_u32 i : from_option wf_duration True i → u32 (ping_interval_secs i).
Proof.
  unfold ping_interval_secs. destruct i as [[secs ns]|]; simpl; [|by unwidth].
  intros [Hs _]. simpl in Hs. case_bool_decide; unwidth; lia.
Qed.

Lemma send_client_hello_typed : typed J send_client_hello (Forall wf_action).
Proof.
  unfold send_client_hello. do 2 typed_step; [|by apply typed_ret].
  eapply typed_bind; [apply next_server_nonce_typed|]. intros n Hn. typed_step. apply typed_ret.
  constructor; [|done]. eapply obox_encode_packet; [done| |done].
  simpl. eauto using bt_common with salty.
Qed.

Lemma send_client_auth_typed : typed J send_client_auth wf_action.
Proof.
  unfold send_client_auth. typed_step. rename a into s. typed_step.
  pose proof (bt_common s ltac:(done)) as Hc. pose proof (ct_server _ Hc) as Hsv.
  eapply typed_bind; [apply next_server_nonce_typed|]. intros n Hn. do 2 typed_step.
  apply typed_ret. eapply obox_encrypt_packet; [done| |done]. simpl. split_and!.
  - destruct (svt_peer _ Hsv) as [_ [_ Ht]]. unfold pc_cookie_pair in Ht. simpl in Ht.
    unfold server in *. destruct (cookie_theirs _); simplify_eq/=. done.
  - by apply ping_interval_u32, ct_ping.
  - apply (svt_permanent _ Hsv).
Qed.

Lemma handle_server_hello_typed msg : wf_public_key (sh_key msg) →
  typed J (handle_server_hello msg) (Forall wf_action).
Proof.
  intros Hk. unfold handle_server_hello. do 2 typed_step; [typed_step|]. typed_step.
  { apply set_server_typed; [done|]. eauto using bt_common with salty. }
  eapply typed_bind; [apply send_client_hello_typed|]. intros hello Hh.
  eapply typed_bind; [apply send_client_auth_typed|]. intros auth Ha. typed_step.
  { apply set_server_typed; [done|]. eauto using bt_common with salty. }
  apply typed_ret, Forall_app. by split; [|constructor].
Qed.
End shared.

(** ** The interface *)

Class SignalingTyped (T S : Type) `{!Env, !Signaling T S, !ByteOrder, !Sodium, !Rmps}
    (J : S → Prop) : Prop := {
  st_base :: BaseTyped T S J;
  st_destination n : wf_nonce n → typed J (validate_nonce_destination n) (λ _, True);
  st_source n : typed J (validate_nonce_source n) (λ _, True);
  st_decode b s : decoded b (decode_peer_message b s);
  st_peer_message o : wf_message (obox_message o) → wf_nonce (obox_nonce o) →
    typed J (handle_peer_message o) (Forall wf_action);
  st_server_auth_impl msg : wf_message (Message.ServerAuth msg) →
    typed J (handle_server_auth_impl msg) (Forall wf_action);
  st_new_initiator msg : typed J (handle_new_initiator msg) (Forall wf_action);
  st_new_responder msg : wf_address (nr_id msg) →
    typed J (handle_new_responder msg) (Forall wf_action);
  st_disconnected msg : wf_address (disconnected_id msg) →
    typed J (handle_disconnected msg) (Forall wf_action);
}.

Lemma check_csn_typed i cur pair pair' : check_csn i cur pair = Ok pair' →
  wf_snapshot cur → wf_csn_pair pair → wf_csn_pair pair'.
Proof.
  unfold check_csn. intros Hr Hc [Ho Ht]. repeat case_match; simplify_eq; by split.
Qed.
Lemma check_cookie_typed i c pair pair' : check_cookie i c pair = Ok pair' →
  wf_cookie c → wf_cookie_pair pair → wf_cookie_pair pair'.
Proof.
  unfold check_cookie. destruct pair as [o [t|]]; intros Hr Hc [Ho Ht]; simpl in *;
    case_bool_decide; simplify_eq; by split.
Qed.

Lemma value_decrypt_typed `{!ByteOrder, !Sodium, !Rmps, !RmpsLaws} b k pk o :
  value_decrypt b k pk = Ok o → typed_value (obox_message o).
Proof.
  unfold value_decrypt. destruct (keypair_decrypt _ _ _ _) as [bs|e|m]; [|done..]. simpl.
  destruct (rmps_value_from_slice bs) as [v|] eqn:Hv; [|done]. intros [= <-].
  by eapply rmps_value_from_slice_typed.
Qed.

(** The entries of a map read from the wire are typed. *)
Lemma pairs_to_map_typed pairs : ∀ map map', Forall (λ kv, typed_value kv.2) pairs →
  map_Forall (λ _ v, typed_value v) map → pairs_to_map pairs map = Ok map' →
  map_Forall (λ _ v, typed_value v) map'.
Proof.
  induction pairs as [|[k v] pairs IH]; intros map map' Hp Hm; simpl; [by intros [= <-]|].
  apply Forall_cons in Hp as [Hv Hp]. destruct (Value.as_str k); [|done]. simpl.
  apply IH; [done|]. by apply map_Forall_insert_2.
Qed.
Lemma value_to_map_typed v map : typed_value v → value_to_map v = Ok map →
  map_Forall (λ _ v, typed_value v) map.
Proof.
  intros Hv. destruct v; try done. apply typed_map in Hv. simpl.
  apply pairs_to_map_typed; [done|]. apply map_Forall_empty.
Qed.

Lemma process_task_message_typed `{!ByteOrder, !Sodium, !Rmps} v types acts : typed_value v →
  process_task_message v types = Ok acts → Forall wf_action acts.
Proof.
  intros Hv. unfold process_task_message.
  destruct (value_to_map v) as [map|e|m] eqn:Hm; [|done..]. simpl.
  apply value_to_map_typed in Hm; [|done].
  destruct (map !! "type") as [ty|]; [|done]. simpl. destruct (Value.as_str ty) as [name|]; [|done].
  simpl. case_bool_decide.
  { destruct (map !! "data") as [d|] eqn:Hd; [|done]. intros [= <-]. constructor; [|done].
    by eapply Hm. }
  case_bool_decide.
  { unfold close_reason_of. destruct (map !! "reason") as [r|]; [|done]. simpl.
    destruct (Value.as_u64 r) as [val|]; [|done]. simpl. case_bool_decide; [done|].
    intros [= <-]. constructor; [|done]. simpl. rewrite CloseCode.as_number_from_number.
    apply u16_iff, Z.mod_pos_bound. lia. }
  destruct types as [l|]; [|done]. simpl. case_match; intros [= <-]; by repeat constructor.
Qed.

Section dispatch.
Context {T S : Type} `{!Task T, !ByteOrder, !ByteOrderLaws, !Sodium, !SodiumLaws}.
Context `{!Rmps, !RmpsLaws, !Env, !EnvLaws, !Signaling T S}.
Context (J : S → Prop) `{!SignalingTyped T S J}.
Implicit Types s : S.

Lemma find_sender_typed n : typed J (find_sender n) (typed_dyn J).
Proof.
  unfold find_sender. do 2 typed_step. rename a0 into op. destruct op as [d|].
  - apply typed_ret. by eapply bt_sender.
  - by do 2 typed_step.
Qed.

Lemma validate_nonce_typed n : wf_nonce n → typed J (validate_nonce n) (λ _, True).
Proof.
  intros Hn. unfold validate_nonce.
  eapply typed_bind; [by apply st_destination|]. intros _ _.
  eapply typed_bind; [apply st_source|]. intros _ _. destruct Hn as (Hck & _ & _ & Hcs).
  eapply typed_bind; [|intros _ _; eapply typed_bind; [|by intros _ _; apply typed_ret]].
  - unfold validate_nonce_csn. eapply typed_bind; [apply find_sender_typed|].
    intros [P inst p put] (Hp & _ & Hcsn & _). typed_step. apply typed_put, Hcsn.
    eapply check_csn_typed; [done..|]. apply Hp.
  - unfold validate_nonce_cookie. eapply typed_bind; [apply find_sender_typed|].
    intros [P inst p put] (Hp & _ & _ & Hco). typed_step. apply typed_put, Hco.
    eapply check_cookie_typed; [done..|]. apply Hp.
Qed.

Lemma handle_server_auth_typed msg nc : wf_message (Message.ServerAuth msg) →
  typed J (handle_server_auth msg nc) (Forall wf_action).
Proof.
  intros Hm. unfold handle_server_auth. do 2 typed_step; [typed_step|]. do 2 typed_step.
  eapply typed_bind; [by apply st_server_auth_impl|]. intros acts Ha. typed_step.
  { apply set_server_typed; [apply _|done|]. by apply server_with_state, ct_server, bt_common. }
  typed_step. rename a into s'. destruct (set_signaling_state _ _) as [r c] eqn:Hst. typed_step.
  { apply bt_set_common; [done|]. change c with (r, c).2. rewrite <- Hst.
    by apply set_signaling_state_typed, bt_common. }
  typed_step. by apply typed_ret.
Qed.

Lemma handle_server_message_typed o nc : wf_message (obox_message o) →
  typed J (handle_server_message o nc) (Forall wf_action).
Proof.
  intros Hm. unfold handle_server_message. typed_step.
  destruct (server_handshake_state _), (obox_message o); simpl in Hm;
    try apply typed_throw; try apply typed_panic.
  - by apply handle_server_hello_typed; [apply _|].
  - by apply handle_server_auth_typed.
  - apply st_new_initiator.
  - by apply st_new_responder.
  - by apply st_disconnected.
Qed.

Lemma handle_handshake_peer_message_typed b : wf_nonce (bbox_nonce b) →
  typed J (handle_handshake_peer_message b) (Forall wf_action).
Proof.
  intros Hn. unfold handle_handshake_peer_message. typed_step; [typed_step|]. typed_step.
  rename a into s. pose proof (st_decode b s) as Hd.
  eapply typed_bind.
  { apply typed_try, (typed_lift _ _ (λ o, wf_message (obox_message o) ∧ obox_nonce o = bbox_nonce b)).
    intros o Ho. by rewrite Ho in Hd. }
  intros [o|e].
  - intros [Hm Ho]. destruct (c_signaling_state _); [typed_step| |typed_step].
    typed_step; [by apply handle_server_message_typed|]. apply st_peer_message; [done|by rewrite Ho].
  - intros _. destruct e; try typed_step.
    eapply typed_bind; [apply send_drop_responder_typed; [apply _|apply Hn]|]. intros a Ha. apply typed_ret.
    by constructor.
Qed.

Lemma handle_task_peer_message_typed b :
  typed J (handle_task_peer_message b) (Forall wf_action).
Proof.
  unfold handle_task_peer_message. typed_step; [typed_step|]. typed_step. typed_step.
  rename a into s, a0 into o. apply typed_lift. intros acts. apply process_task_message_typed.
  unfold decode_task_message in *. destruct (get_peer s) as [[P inst p put]|]; [|done].
  destruct (pc_session_key p), (pc_keypair p); try done. simpl in *.
  by eapply value_decrypt_typed.
Qed.

Lemma handle_message_typed b : wf_nonce (bbox_nonce b) →
  typed J (handle_message b) (Forall wf_action).
Proof.
  intros Hn. unfold handle_message.
  eapply typed_bind; [by eapply typed_try, validate_nonce_typed|].
  intros [[]|[]] _; [|by apply typed_ret|typed_step|typed_step].
  unfold dispatch_message. typed_step. rename a into s. typed_step.
  - eapply typed_bind.
    { apply (typed_lift _ _ (λ o, wf_message (obox_message o))). intros o Ho.
      assert (decoded b (decode_server_message b s)) as Hd.
      { unfold decode_server_message. repeat case_match;
          auto using obox_decode_decoded, obox_decrypt_decoded; done. }
      rewrite Ho in Hd. apply Hd. }
    intros o Ho. by apply handle_server_message_typed.
  - destruct (c_signaling_state _);
      auto using handle_handshake_peer_message_typed, handle_task_peer_message_typed.
Qed.

(** The messages the client sends on its own account. *)
Lemma encode_task_message_typed v : typed J (encode_task_message v) wf_packet.
Proof.
  unfold encode_task_message. do 2 typed_step; [typed_step|]. rename a into s.
  destruct (get_peer s) as [[P inst p put]|] eqn:Hg; [|typed_step].
  apply (bt_get_peer (J := J)) in Hg; [|done].
  assert (ClientIdentity.wf_client_identity (identity s)) as Hid by (by apply ct_identity, bt_common).
  pose proof (typed_dyn_drawn J _ p put Hid Hg) as HJ.
  destruct (next_peer_nonce_typed _ p Hid ltac:(apply Hg)) as [_ Hn].
  destruct (next_peer_nonce _ p) as [r p']. typed_step; [done|]. do 3 typed_step.
  apply typed_lift. intros b Hb. eapply value_encrypt_packet; [done|]. by apply Hn.
Qed.

Lemma seal_close_packet `{!PeerContext P} reason id (p : P) b : CloseCode.wf reason →
  ClientIdentity.wf_client_identity id → typed_peer p →
  (seal_close reason id p).1 = Ok b → wf_packet b.
Proof.
  intros Hr Hid Hp. unfold seal_close. destruct (next_peer_nonce_typed _ p Hid Hp) as [_ Hn].
  destruct (next_peer_nonce id p) as [[n|e|m] p']; [|done..]. simpl in *.
  destruct (pc_keypair p); [|done]. destruct (pc_session_key p); [|done]. simpl.
  intros Hb. eapply obox_encrypt_packet; [done| |by apply Hn]. by apply CloseCode.as_number_u16.
Qed.

Lemma encode_close_message_typed reason : CloseCode.wf reason →
  typed J (encode_close_message reason) wf_packet.
Proof.
  intros Hr. unfold encode_close_message. do 2 typed_step; [typed_step|]. rename a into s.
  destruct (get_peer s) as [[P inst p put]|] eqn:Hg; [|typed_step].
  apply (bt_get_peer (J := J)) in Hg; [|done].
  assert (ClientIdentity.wf_client_identity (identity s)) as Hid by (by apply ct_identity, bt_common).
  pose proof (typed_dyn_drawn J _ p put Hid Hg) as HJ.
  pose proof (λ b, seal_close_packet reason _ p b Hr Hid ltac:(apply Hg)) as Hb.
  unfold seal_close in *. destruct (next_peer_nonce _ p) as [r p']. typed_step; [done|].
  apply typed_lift. intros b. apply Hb.
Qed.
End dispatch.

(** ** The initiator *)

Section initiator.
Context {T : Type} `{!Task T, !ByteOrder, !ByteOrderLaws, !Sodium, !SodiumLaws}.
Context `{!Rmps, !RmpsLaws, !Env, !EnvLaws}.
Implicit Types s : InitiatorSignaling T.

Record initiator_typed s : Prop := {
  it_common : common_typed (is_common s);
  it_responders :
    map_Forall (λ a r, wf_address a ∧ responder_context_typed r) (is_responders s);
  it_responder : from_option responder_context_typed True (is_responder s);
  it_counter : u32 (counter_value (is_counter s));
}.

Lemma it_set_common c s : initiator_typed s → common_typed c → initiator_typed (is_set_common c s).
Proof. by intros []. Qed.
Lemma it_set_responders m s : initiator_typed s →
  map_Forall (λ a r, wf_address a ∧ responder_context_typed r) m →
  initiator_typed (is_set_responders m s).
Proof. by intros []. Qed.
Lemma it_insert a r s : initiator_typed s → wf_address a → responder_context_typed r →
  initiator_typed (is_set_responders (<[a := r]> (is_responders s)) s).
Proof.
  intros Hs Ha Hr. apply it_set_responders; [done|]. apply map_Forall_insert_2; [done|].
  by apply it_responders.
Qed.
Lemma it_delete a s : initiator_typed s →
  initiator_typed (is_set_responders (delete a (is_responders s)) s).
Proof.
  intros Hs. apply it_set_responders; [done|]. by apply map_Forall_delete, it_responders.
Qed.
Lemma it_set_responder r s : initiator_typed s → responder_context_typed r →
  initiator_typed (is_set_responder (Some r) s).
Proof. by intros []. Qed.
Lemma it_set_counter c s : initiator_typed s → u32 (counter_value c) →
  initiator_typed (is_set_counter c s).
Proof. by intros []. Qed.
Lemma it_lookup a r s : initiator_typed s → is_responders s !! a = Some r →
  wf_address a ∧ responder_context_typed r.
Proof. intros Hs Hr. by apply (it_responders s Hs a r). Qed.

#[export] Instance initiator_base_typed : BaseTyped T (InitiatorSignaling T) initiator_typed.
Proof.
  split.
  - apply it_common.
  - intros c s. apply it_set_common.
  - intros s d Hs. simpl. unfold is_get_peer. destruct (is_responder s) as [r|] eqn:Hr; [|done].
    intros [= <-]. pose proof (it_responder s Hs) as Ht. rewrite Hr in Ht.
    split_and!; intros; eauto using it_set_responder with salty.
  - intros E a s d Hs. simpl. unfold is_get_peer_with_address_mut.
    destruct (Identity.identity_from_address a) as [| |id] eqn:Hi.
    + intros [= <-]. pose proof (it_common s Hs) as Hc.
      split_and!; intros; eauto 6 using it_set_common with salty. by split; [apply ct_server|].
    + done.
    + case_bool_decide.
      * destruct (is_responder s) as [r|] eqn:Hr; [|done].
        pose proof (it_responder s Hs) as Ht. rewrite Hr in Ht.
        destruct (Identity.address_from_identity _); [|done..]. simpl. case_bool_decide; [|done].
        intros [= <-]. split_and!; intros; eauto using it_set_responder with salty.
      * destruct (is_responders s !! a) as [r|] eqn:Hr; [|done]. intros [= <-].
        apply it_lookup in Hr as [Ha Ht]; [|done].
        split_and!; intros; eauto using it_insert with salty.
Qed.
End initiator.

Section initiator_handlers.
Context {T : Type} `{!Task T, !ByteOrder, !ByteOrderLaws, !Sodium, !SodiumLaws}.
Context `{!Rmps, !RmpsLaws, !Env, !EnvLaws}.
Abbreviation J := (initiator_typed (T := T)).

Lemma is_validate_nonce_destination_typed n : wf_nonce n →
  typed J (is_validate_nonce_destination n) (λ _, True).
Proof.
  intros Hn. unfold is_validate_nonce_destination. typed_step.
  apply (typed_bind _ _ _ (λ _, True)).
  - repeat typed_step; [|done]. apply typed_modify. intros s Hs.
    apply it_set_common; [done|]. apply common_with_identity; [done|]. by apply it_common.
  - intros _ _. by repeat typed_step.
Qed.
Lemma is_validate_nonce_source_typed n : typed J (is_validate_nonce_source n) (λ _, True).
Proof. unfold is_validate_nonce_source. typed_step. repeat case_match; by typed_step. Qed.

Lemma is_handle_token_typed msg source : wf_public_key (token_key msg) →
  typed J (is_handle_token msg source) (Forall wf_action).
Proof.
  intros Hk. unfold is_handle_token. do 2 typed_step. rename a into s, a0 into r.
  destruct (it_lookup source r s) as [Ha Hr]; [done..|]. typed_step; [typed_step|].
  typed_step; [by eauto using it_insert with salty|]. typed_step.
  destruct (c_auth_provider _) as [[]|]; try apply typed_throw. typed_step; [|by apply typed_ret].
  eauto using it_set_common, it_common with salty.
Qed.

Lemma next_responder_nonce_typed id r : ClientIdentity.wf_client_identity id →
  responder_context_typed r →
  responder_context_typed (next_peer_nonce id r).2
  ∧ rsp_keypair (next_peer_nonce id r).2 = rsp_keypair r
  ∧ ∀ n, (next_peer_nonce id r).1 = Ok n → wf_nonce n.
Proof.
  intros Hid Hr. destruct (next_peer_nonce_typed id r Hid) as [[c Hc] Hn]; [by eauto with salty|].
  destruct Hc as [[Hc ->]| ->]; split_and!; eauto with salty.
Qed.

Lemma is_handle_key_typed msg source : wf_public_key (key_key msg) →
  typed J (is_handle_key msg source) (Forall wf_action).
Proof.
  intros Hk. unfold is_handle_key. do 2 typed_step. rename a into s, a0 into r.
  destruct (it_lookup source r s) as [Ha Hr]; [done..|]. typed_step; [typed_step|].
  destruct (rsp_permanent_key r) as [pk|]; [|typed_step]. typed_step; [typed_step|].
  typed_step; [by eauto using it_insert with salty|].
  set (r1 := rsp_set_handshake_state _ _).
  assert (responder_context_typed r1) as Hr1 by (subst r1; eauto with salty).
  destruct (next_responder_nonce_typed (identity s) r1) as (Hr2 & _ & Hn); [|done|].
  { by apply ct_identity, it_common. }
  destruct (next_peer_nonce _ r1) as [o r2]. simpl in *. typed_step; [by eauto using it_insert|].
  do 3 typed_step. typed_step; [by eauto using it_insert with salty|]. apply typed_ret.
  constructor; [|done]. eapply obox_encrypt_packet; [done| |by apply Hn].
  apply wf_keypair_public, (rct_keypair _ Hr1).
Qed.

Lemma drop_other_responders_typed : typed J drop_other_responders (Forall wf_action).
Proof.
  unfold drop_other_responders. do 2 typed_step; [by apply typed_ret|]. rename a into s.
  eapply typed_bind; [apply (typed_world _ _ (Forall wf_address))|].
  { intros w. rewrite hash_order_perm. apply Forall_forall. intros a Ha%elem_of_elements.
    apply elem_of_dom in Ha as [r Hr]. by eapply it_lookup. }
  intros addrs Ha. rewrite Forall_forall in Ha.
  eapply typed_bind; [apply (typed_for _ _ (Forall wf_action)); [done|]|].
  { intros acc a Hin Hacc. eapply typed_bind; [by apply send_drop_responder_typed; [apply _|auto]|].
    intros act Hact. apply typed_ret, Forall_app. by split; [|constructor]. }
  intros acts Hacts. typed_step; [|by apply typed_ret]. apply it_set_responders; [done|].
  apply map_Forall_empty.
Qed.

Lemma is_finish_auth_typed r t : responder_context_typed r →
  typed J (is_finish_auth r t) (Forall wf_action).
Proof.
  intros Hr. unfold is_finish_auth. eapply typed_bind; [apply drop_other_responders_typed|].
  intros drops Hd. set (r1 := rsp_set_handshake_state _ _).
  assert (responder_context_typed r1) as Hr1 by (subst r1; eauto with salty).
  clearbody r1. typed_step. rename a into cookie. do 3 typed_step. rename a into auth, a0 into s, a1 into src.
  destruct (peer_increment_typed r1 (rct_peer _ Hr1)) as (o & c & -> & Hc & Ho).
  do 3 typed_step. typed_step; [by eauto using it_set_common, it_common with salty|].
  typed_step. destruct (set_signaling_state _ _) as [r2 c2] eqn:Hst. typed_step.
  { apply it_set_common; [done|]. change c2 with (r2, c2).2. rewrite <- Hst.
    by apply set_signaling_state_typed, it_common. }
  typed_step. typed_step; [by eauto using it_set_responder with salty|]. apply typed_ret.
  apply Forall_app. split; [done|]. constructor; [|by constructor].
  eapply obox_encrypt_packet; [done|..].
  - unfold initiator_auth_build in *. repeat case_match; simplify_eq/=.
    destruct (rct_peer _ Hr1) as [_ [_ Hw]]. unfold pc_cookie_pair in Hw. simpl in Hw.
    destruct (cookie_theirs _); by simplify_eq/=.
  - split_and!; [apply (rct_peer _ Hr1)| |apply (rct_address _ Hr1)|by apply Ho].
    eapply client_identity_address_wf; [|done]. by apply ct_identity, it_common.
Qed.

Lemma is_handle_auth_typed msg source : typed J (is_handle_auth msg source) (Forall wf_action).
Proof.
  unfold is_handle_auth. do 2 typed_step. rename a into s, a0 into r.
  destruct (it_lookup source r s) as [Ha Hr]; [done..|].
  typed_step; [by apply it_delete|]. do 2 typed_step.
  typed_step; [by eauto using it_set_common, it_common with salty|]. typed_step.
  destruct (choose_shared_task _ _) as [t|].
  - typed_step. destruct (task_init _ _) as [[]]; [by apply is_finish_auth_typed|typed_step].
  - destruct (seal_close _ _ r) as [o r'] eqn:Hc. eapply typed_bind.
    { apply typed_try, (typed_lift _ _ wf_packet). intros b ->.
      eapply (seal_close_packet CloseCode.NoSharedTask (identity s) r);
        [done| |by eauto with salty|by rewrite Hc]. by apply ct_identity, it_common. }
    intros [b|e] Hb; apply typed_ret; [constructor; [done|]|]; by constructor.
Qed.

Lemma is_handle_peer_message_typed o : wf_message (obox_message o) →
  typed J (is_handle_peer_message o) (Forall wf_action).
Proof.
  intros Hm. unfold is_handle_peer_message. do 2 typed_step.
  destruct (rsp_handshake_state _), (obox_message o); simpl in Hm; try apply typed_throw;
    auto using is_handle_token_typed, is_handle_key_typed, is_handle_auth_typed.
Qed.
End initiator_handlers.

(** New contexts are typed. *)
Section fresh.
Context `{!Sodium, !Env, !EnvLaws} {S : Type} (J : S → Prop).

Lemma responder_context_new_typed {E} a n : wf_address a → u32 n →
  typed (E := E) J (responder_context_new a n) responder_context_typed.
Proof.
  intros Ha Hn s Hs. apply wp_responder_context_new; [|done]. intros r Hr. split; [done|].
  destruct Hr as [_ Hc Had Hp Hse Hk Hw _].
  split; [by rewrite Hc|by rewrite Had|by rewrite Hp|by rewrite Hse|done|done].
Qed.
Lemma initiator_context_new_typed {E} k : wf_public_key k →
  typed (E := E) J (initiator_context_new k) initiator_context_typed.
Proof.
  intros Hk s Hs. apply wp_initiator_context_new; [|done]. intros i Hi. split; [done|].
  destruct Hi as [_ Hp Hse Hkp Hw _]. split; [by rewrite Hp|by rewrite Hse|done|done].
Qed.
Lemma server_context_new_typed {E} : typed (E := E) J server_context_new server_typed.
Proof.
  intros s Hs. apply wp_server_context_new; [|done]. intros c Hc. split; [done|].
  destruct Hc as [_ Hp Hse Hw]. split; [by rewrite Hp|by rewrite Hse|done].
Qed.
Lemma auth_token_new_typed {E} : typed (E := E) J auth_token_new wf_auth_token.
Proof.
  intros s Hs. unfold auth_token_new. wp_step. apply wp_init; [|done]. repeat wp_step.
  split; [done|].
  apply secretbox_gen_key_wf.
Qed.
End fresh.

Section initiator_paths.
Context {T : Type} `{!Task T, !ByteOrder, !ByteOrderLaws, !Sodium, !SodiumLaws}.
Context `{!Rmps, !RmpsLaws, !Env, !EnvLaws}.
Abbreviation J := (initiator_typed (T := T)).

Lemma drop_oldest_inactive_responder_typed :
  typed J drop_oldest_inactive_responder (from_option wf_action True).
Proof.
  unfold drop_oldest_inactive_responder. typed_step. rename a into s.
  eapply typed_bind; [by apply (typed_world _ _ (λ _, True))|]. intros addrs _.
  destruct (drop_candidate _) as [a|]; [|by apply typed_ret]. typed_step. rename a0 into r.
  destruct (it_lookup a r s) as [_ Hr]; [done..|]. typed_step; [by apply it_delete|].
  eapply typed_bind; [apply send_drop_responder_typed; [apply _|apply (rct_address _ Hr)]|].
  intros act Hact. by apply typed_ret.
Qed.

Lemma responder_counter_increment_typed c : u32 (counter_value c) →
  u32 (counter_value (responder_counter_increment c).2)
  ∧ ∀ n, (responder_counter_increment c).1 = Ok n → u32 n.
Proof.
  intros Hc. unfold responder_counter_increment.
  destruct (checked_add 32 _ 1) as [v|] eqn:Hv; simpl; [|done].
  apply checked_add_Some in Hv as [-> Hv]. split; [unwidth; lia|]. by intros n [= <-].
Qed.

Lemma process_new_responder_typed a : wf_address a →
  typed J (process_new_responder a) (from_option wf_action True).
Proof.
  intros Ha. unfold process_new_responder. typed_step. rename a0 into s.
  apply (typed_bind _ _ _ (λ _, True)).
  { typed_step; [|by apply typed_ret]. apply typed_modify. intros s' Hs'. by apply it_delete. }
  intros _ _. destruct (responder_counter_increment_typed (is_counter s)) as [Hc Hn].
  { by apply it_counter. }
  destruct (responder_counter_increment _) as [o c]. simpl in *.
  typed_step; [by apply it_set_counter|].
  typed_step. eapply typed_bind; [apply responder_context_new_typed; [done|by apply Hn]|].
  intros r Hr. apply (typed_bind _ _ _ responder_context_typed).
  { destruct (c_auth_provider (is_common s)) as [[t|k]|] eqn:Hp; try by apply typed_ret.
    typed_step; [typed_step|]. apply typed_ret.
    pose proof (ct_provider _ (it_common s ltac:(done))) as Hk. rewrite Hp in Hk.
    eauto with salty. }
  intros r1 Hr1. typed_step; [by apply it_insert|]. do 2 typed_step; [|by apply typed_ret].
  apply drop_oldest_inactive_responder_typed.
Qed.

Lemma option_list_typed o : from_option wf_action True o → Forall wf_action (option_list o).
Proof. destruct o; simpl; intros; by repeat constructor. Qed.

Lemma is_handle_server_auth_impl_typed msg : wf_message (Message.ServerAuth msg) →
  typed J (is_handle_server_auth_impl msg) (Forall wf_action).
Proof.
  intros (_ & _ & Hr). unfold is_handle_server_auth_impl. typed_step; [typed_step|].
  destruct (sa_responders msg) as [l|]; [|typed_step]. simpl in Hr.
  do 2 (typed_step; [typed_step|]).
  eapply typed_bind; [apply (typed_world _ _ (Forall wf_address))|].
  { intros w. rewrite hash_order_perm. apply Forall_forall. intros a Ha.
    rewrite elem_of_elements, elem_of_list_to_set in Ha. by eapply Forall_forall in Hr. }
  intros addrs Ha. rewrite Forall_forall in Ha.
  eapply typed_bind; [apply (typed_for _ _ (Forall wf_action)); [done|]|].
  { intros acc a Hin Hacc. eapply typed_bind; [by apply process_new_responder_typed; auto|].
    intros o Ho. apply typed_ret, Forall_app. split; [done|by apply option_list_typed]. }
  intros acts Hacts. apply typed_ret, Forall_app. split; [done|by repeat constructor].
Qed.

#[export] Instance initiator_signaling_typed :
  SignalingTyped T (InitiatorSignaling T) initiator_typed.
Proof.
  split.
  - apply _.
  - apply is_validate_nonce_destination_typed.
  - apply is_validate_nonce_source_typed.
  - apply is_decode_peer_message_decoded.
  - intros o Hm _. by apply is_handle_peer_message_typed.
  - apply is_handle_server_auth_impl_typed.
  - intros msg. apply typed_throw.
  - intros msg Hm. simpl. unfold is_handle_new_responder. typed_step; [typed_step|].
    eapply typed_bind; [by apply process_new_responder_typed|]. intros o Ho. apply typed_ret.
    by apply option_list_typed.
  - intros msg Hm. simpl. unfold is_handle_disconnected. typed_step; [typed_step|]. apply typed_ret.
    by constructor.
Qed.
End initiator_paths.

(** ** The responder *)

Section responder.
Context {T : Type} `{!Task T, !ByteOrder, !ByteOrderLaws, !Sodium, !SodiumLaws}.
Context `{!Rmps, !RmpsLaws, !Env, !EnvLaws}.
Implicit Types s : ResponderSignaling T.

Record responder_typed s : Prop := {
  rt_common : common_typed (rs_common s);
  rt_initiator : initiator_context_typed (rs_initiator s);
}.
Abbreviation J := responder_typed.

Lemma rt_set_common c s : J s → common_typed c → J (rs_set_common c s).
Proof. by intros []. Qed.
Lemma rt_set_initiator i s : J s → initiator_context_typed i → J (rs_set_initiator i s).
Proof. by intros []. Qed.

#[export] Instance responder_base_typed : BaseTyped T (ResponderSignaling T) J.
Proof.
  split.
  - apply rt_common.
  - intros c s. apply rt_set_common.
  - intros s d Hs [= <-]. pose proof (rt_initiator s Hs).
    split_and!; intros; eauto using rt_set_initiator with salty.
  - intros E a s d Hs. simpl. unfold rs_get_peer_with_address_mut.
    pose proof (rt_initiator s Hs). pose proof (rt_common s Hs).
    destruct (Identity.identity_from_address a); intros [= <-].
    + split_and!; intros; eauto 6 using rt_set_common with salty. by split; [apply ct_server|].
    + split_and!; intros; eauto using rt_set_initiator with salty.
Qed.

Lemma rs_validate_nonce_destination_typed n : wf_nonce n →
  typed J (rs_validate_nonce_destination n) (λ _, True).
Proof.
  intros (_ & _ & Hd & _). unfold rs_validate_nonce_destination. typed_step.
  apply (typed_bind _ _ _ (λ _, True)).
  - repeat typed_step; [|done]. apply typed_modify. intros s Hs. apply rt_set_common; [done|].
    apply common_with_identity; [|by apply rt_common]. unfold Address.is_responder in *.
    case_bool_decide; [|done]. unfold wf_address in Hd. simpl. unwidth. lia.
  - intros _ _. by repeat typed_step.
Qed.
Lemma rs_validate_nonce_source_typed n : typed J (rs_validate_nonce_source n) (λ _, True).
Proof. unfold rs_validate_nonce_source. typed_step. repeat case_match; by typed_step. Qed.

Lemma next_initiator_nonce_typed : typed J next_initiator_nonce wf_nonce.
Proof.
  unfold next_initiator_nonce. typed_step. rename a into s.
  assert (initiator_context_typed (rs_initiator s)) as Hi by (by apply rt_initiator).
  destruct (next_peer_nonce_typed (identity s) (rs_initiator s)) as [[c Hc] Hn].
  { by apply ct_identity, rt_common. }
  { by eauto with salty. }
  destruct (next_peer_nonce _ _) as [o i]. simpl in *. typed_step; [|by apply typed_lift].
  apply rt_set_initiator; [done|]. destruct Hc as [[Hc ->]| ->]; [|done].
  by apply initiator_set_csn.
Qed.

Lemma send_token_typed t : typed J (send_token t) wf_action.
Proof.
  unfold send_token. typed_step. rename a into s.
  eapply typed_bind; [apply next_initiator_nonce_typed|]. intros n Hn. typed_step.
  apply typed_ret. eapply obox_encrypt_token_packet; [done| |done].
  by apply wf_keypair_public, ct_keypair, rt_common.
Qed.
Lemma send_key_typed : typed J send_key wf_action.
Proof.
  unfold send_key. typed_step. rename a into s.
  eapply typed_bind; [apply next_initiator_nonce_typed|]. intros n Hn. typed_step.
  apply typed_ret. eapply obox_encrypt_packet; [done| |done].
  apply wf_keypair_public, ict_keypair. by apply rt_initiator.
Qed.
Lemma send_token_if_any_typed : typed J send_token_if_any (Forall wf_action).
Proof.
  unfold send_token_if_any. typed_step. rename a into s.
  destruct (c_auth_provider _) as [[t|k]|]; [|by apply typed_ret|apply typed_throw].
  typed_step; [by eauto using rt_set_common, rt_common with salty|].
  eapply typed_bind; [apply send_token_typed|]. intros a Ha. apply typed_ret. by constructor.
Qed.
Lemma set_initiator_state_typed st : typed J (set_initiator_state st) (λ _, True).
Proof.
  apply typed_modify. intros s Hs. apply rt_set_initiator; [done|].
  eauto using rt_initiator with salty.
Qed.

(** The token, if any, and the key, at the start of the peer handshake. *)
Lemma start_handshake_typed (post : list HandleAction) : Forall wf_action post →
  typed J (token ← send_token_if_any; key ← send_key;
    _ ← set_initiator_state InitiatorHandshakeState.KeySent; mret (token ++ key :: post))
    (Forall wf_action).
Proof.
  intros Hpost. eapply typed_bind; [apply send_token_if_any_typed|]. intros token Ht.
  eapply typed_bind; [apply send_key_typed|]. intros key Hk.
  eapply typed_bind; [apply set_initiator_state_typed|]. intros _ _. apply typed_ret, Forall_app.
  split; [done|by constructor].
Qed.

Lemma rs_handle_key_typed msg n : wf_public_key (key_key msg) → wf_nonce n →
  typed J (rs_handle_key msg n) (Forall wf_action).
Proof.
  intros Hk Hn. unfold rs_handle_key. typed_step. rename a into s.
  do 2 (typed_step; [typed_step|]).
  typed_step; [by eauto using rt_set_initiator, rt_initiator with salty|]. do 2 typed_step.
  rename a into tasks, a0 into auth.
  eapply typed_bind; [apply next_initiator_nonce_typed|]. intros n' Hn'. do 3 typed_step.
  eapply typed_bind; [apply set_initiator_state_typed|]. intros _ _. apply typed_ret.
  constructor; [|done]. eapply obox_encrypt_packet; [done| |done]. simpl.
  match goal with Ha : _ = Ok auth |- _ => rewrite responder_auth_spec in Ha end.
  repeat case_decide; simplify_eq/=. apply Hn.
Qed.

Lemma rs_handle_auth_typed msg source : typed J (rs_handle_auth msg source) (Forall wf_action).
Proof.
  unfold rs_handle_auth. do 2 typed_step. typed_step; [typed_step|].
  destruct (auth_task msg) as [task|]; [|typed_step].
  typed_step; [by eauto using rt_set_common, rt_common with salty|]. do 2 typed_step.
  do 2 (typed_step; [typed_step|]). typed_step. destruct (task_init _ _) as [[] t]; [|typed_step].
  typed_step; [by eauto using rt_set_common, rt_common with salty|].
  eapply typed_bind; [apply set_initiator_state_typed|]. intros _ _. typed_step.
  destruct (set_signaling_state _ _) as [r c] eqn:Hst. typed_step.
  { apply rt_set_common; [done|]. change c with (r, c).2. rewrite <- Hst.
    by apply set_signaling_state_typed, rt_common. }
  typed_step. apply typed_ret. by constructor.
Qed.

#[export] Instance responder_signaling_typed : SignalingTyped T (ResponderSignaling T) J.
Proof.
  split.
  - apply _.
  - apply rs_validate_nonce_destination_typed.
  - apply rs_validate_nonce_source_typed.
  - apply rs_decode_peer_message_decoded.
  - intros o Hm Hn. simpl. unfold rs_handle_peer_message. typed_step.
    destruct (ini_handshake_state _), (obox_message o); try apply typed_throw.
    + by apply rs_handle_key_typed.
    + apply rs_handle_auth_typed.
    + unfold rs_handle_peer_handshake_close. case_match; apply typed_throw.
  - intros msg Hm. simpl. unfold rs_handle_server_auth_impl. typed_step; [typed_step|].
    destruct (sa_initiator_connected msg) as [[]|]; [| |typed_step].
    + apply start_handshake_typed. by constructor.
    + apply typed_ret. by constructor.
  - intros msg. simpl. unfold rs_handle_new_initiator. typed_step. rename a into s.
    eapply typed_bind; [by apply initiator_context_new_typed, ict_permanent, rt_initiator|].
    intros i Hi. typed_step; [by apply rt_set_initiator|]. by apply start_handshake_typed.
  - intros msg Hm. apply typed_throw.
  - intros msg Hm. simpl. unfold rs_handle_disconnected. typed_step; [typed_step|]. apply typed_ret.
    by constructor.
Qed.
End responder.

(** ** Runs *)

Section runs.
Context {T S : Type} `{!Task T, !ByteOrder, !Sodium, !Rmps, !Env, !Signaling T S}.
Implicit Types s : S.

Definition sent_by (o : outcome SignalingError (list HandleAction)) : list ByteBox :=
  match o with Ok acts => replies acts | _ => [] end.
Definition sealed_by (o : outcome SignalingError ByteBox) : list ByteBox :=
  match o with Ok b => [b] | _ => [] end.

(** A call of the object's interface, with the boxes it gives the client to
    send: bytes arrive, the task sends a value, the client closes. *)
Inductive emits s : list ByteBox → S → Prop :=
  | emits_message bs b w : wf_bytes bs → byte_box_from_slice bs = Ok b →
      emits s (sent_by (out (handle_message b s w))) (post (handle_message b s w))
  | emits_task v w :
      emits s (sealed_by (out (encode_task_message v s w))) (post (encode_task_message v s w))
  | emits_close c w : CloseCode.wf c →
      emits s (sealed_by (out (encode_close_message c s w))) (post (encode_close_message c s w)).
Inductive emits_all s : list ByteBox → S → Prop :=
  | emits_nothing : emits_all s [] s
  | emits_more bs s1 bs' s2 : emits s bs s1 → emits_all s1 bs' s2 → emits_all s (bs ++ bs') s2.

Lemma emits_once s bs s' : emits s bs s' → emits_all s bs s'.
Proof. intros He. rewrite <- (app_nil_r bs). by econstructor; [|constructor]. Qed.

Context `{!ByteOrderLaws, !SodiumLaws, !RmpsLaws, !EnvLaws}.
Context (J : S → Prop) `{!SignalingTyped T S J}.

Lemma replies_typed acts : Forall wf_action acts → Forall wf_packet (replies acts).
Proof.
  induction 1 as [|a acts Ha _ IH]; simpl; [done|].
  destruct a; simpl; [by constructor|done..].
Qed.

Lemma emits_typed s bs s' : emits s bs s' → J s → J s' ∧ Forall wf_packet bs.
Proof.
  intros [raw b w Hw Hb|v w|c w Hc] Hs.
  - apply byte_box_from_slice_Ok in Hb as (_ & Hn & _); [|done].
    destruct (handle_message_typed J b Hn s Hs w) as [Hs' Ho]. split; [done|].
    unfold sent_by. case_match; [by apply replies_typed|done..].
  - destruct (encode_task_message_typed J v s Hs w) as [Hs' Ho]. split; [done|].
    unfold sealed_by. case_match; [by constructor|done..].
  - destruct (encode_close_message_typed J c Hc s Hs w) as [Hs' Ho]. split; [done|].
    unfold sealed_by. case_match; [by constructor|done..].
Qed.

Lemma emits_all_typed s bs s' : emits_all s bs s' → J s → J s' ∧ Forall wf_packet bs.
Proof.
  induction 1 as [s|s bs s1 bs' s2 He _ IH]; intros Hs; [done|].
  destruct (emits_typed _ _ _ He Hs) as [Hs1 Hb]. destruct (IH Hs1) as [Hs2 Hb'].
  split; [done|]. by apply Forall_app.
Qed.
End runs.

Section clients.
Context {T : Type} `{!Task T, !ByteOrder, !ByteOrderLaws, !Sodium, !SodiumLaws}.
Context `{!Rmps, !RmpsLaws, !Env, !EnvLaws}.

Lemma initiator_new_typed {E} kp (tasks : Tasks T) trusted server_key ping : wf_keypair kp →
  wf_key_option trusted → wf_key_option server_key → from_option wf_duration True ping →
  typed (E := E) (λ _ : unit, True) (initiator_signaling_new kp tasks trusted server_key ping)
    initiator_typed.
Proof.
  intros Hk Ht Hs Hp. unfold initiator_signaling_new.
  apply (typed_bind _ _ _ wf_auth_provider).
  { destruct trusted as [k|]; [by apply typed_ret|].
    eapply typed_bind; [apply auth_token_new_typed|]. intros t Htok. by apply typed_ret. }
  intros p Hprov. eapply typed_bind; [apply server_context_new_typed|]. intros c [_ Hse Hw].
  apply typed_ret. by split.
Qed.

Lemma responder_new_typed {E} kp pk token server_key (tasks : Tasks T) ping : wf_keypair kp →
  wf_public_key pk → from_option wf_auth_token True token → wf_key_option server_key →
  from_option wf_duration True ping →
  typed (E := E) (λ _ : unit, True) (responder_signaling_new kp pk token server_key tasks ping)
    responder_typed.
Proof.
  intros Hk Hpk Ht Hs Hp. unfold responder_signaling_new.
  eapply typed_bind; [apply server_context_new_typed|]. intros c [_ Hse Hw].
  eapply typed_bind; [by apply initiator_context_new_typed|]. intros i Hi. apply typed_ret.
  split; [|done]. split; [done| |done|done|done]. by destruct token.
Qed.

(** What a client has sent: packets of well-typed messages, which are bytes and
    which the receiver parses as the boxes they are. *)
Definition well_sent (bs : list ByteBox) : Prop :=
  Forall (λ b, wf_packet b ∧ wf_bytes (byte_box_into_bytes b)
    ∧ byte_box_from_slice (byte_box_into_bytes b) = Ok b) bs.
Lemma packets_well_sent bs : Forall wf_packet bs → well_sent bs.
Proof. intros Hb. eapply Forall_impl; [exact Hb|]. intros b ?. by split; [|apply packet_parses]. Qed.

(** The types of the program.  A client made from well-typed arguments keeps
    every field of its state within its Rust type, whatever bytes arrive and
    whatever its task sends, and everything it sends is the encoding of a
    well-typed message in a packet that is bytes and parses back to itself. *)
Theorem clients_well_typed :
  (∀ kp (tasks : Tasks T) trusted server_key ping w s w' bs s',
    wf_keypair kp → wf_key_option trusted → wf_key_option server_key →
    from_option wf_duration True ping →
    initiator_signaling_new (E := SignalingError) kp tasks trusted server_key ping tt w
      = (Ok s, tt, w') →
    emits_all s bs s' → initiator_typed s' ∧ well_sent bs)
  ∧ (∀ kp pk token server_key (tasks : Tasks T) ping w s w' bs s',
    wf_keypair kp → wf_public_key pk → from_option wf_auth_token True token →
    wf_key_option server_key → from_option wf_duration True ping →
    responder_signaling_new (E := SignalingError) kp pk token server_key tasks ping tt w
      = (Ok s, tt, w') →
    emits_all s bs s' → responder_typed s' ∧ well_sent bs).
Proof.
  split.
  - intros kp tasks trusted sk ping w s w' bs s' Hk Ht Hs Hp Hrun He.
    destruct (initiator_new_typed (E := SignalingError) kp tasks trusted sk ping Hk Ht Hs Hp tt I w)
      as [_ Hty].
    rewrite Hrun in Hty. destruct (emits_all_typed initiator_typed s bs s' He Hty).
    split; [done|by apply packets_well_sent].
  - intros kp pk token sk tasks ping w s w' bs s' Hk Hpk Ht Hs Hp Hrun He.
    destruct (responder_new_typed (E := SignalingError) kp pk token sk tasks ping Hk Hpk Ht Hs Hp tt I w)
      as [_ Hty].
    rewrite Hrun in Hty. destruct (emits_all_typed responder_typed s bs s' He Hty).
    split; [done|by apply packets_well_sent].
Qed.
End clients.

(** ** Witness *)

Module TypingWitnesses.
Import Reference ReferenceCodec Handshake.

Definition hello_bytes : bytes := byte_box_into_bytes (get_box (clear_box server_hello 0 1)).
Definition hello_box : ByteBox := get_box (byte_box_from_slice hello_bytes).
Definition initiator_world : env := 0.
Definition responder_world : env := 100.
Definition initiator_started : istate := get_initiator i0.
Definition responder_started : rstate := get_responder r0.
Definition greeted_i := handle_message hello_box initiator_started (world_of initiator_run).
Definition greeted_r := handle_message hello_box responder_started (world_of responder_run).

Lemma initiator_starts : initiator_run = (Ok initiator_started, tt, world_of initiator_run).
Proof.
  unfold initiator_started, i0, get_initiator. assert (is_ok (out initiator_run) = true) as Hok by by_compute.
  revert Hok. generalize initiator_run. by intros [[[] []] ?].
Qed.
Lemma responder_starts : responder_run = (Ok responder_started, tt, world_of responder_run).
Proof.
  unfold responder_started, r0, get_responder. assert (is_ok (out responder_run) = true) as Hok by by_compute.
  revert Hok. generalize responder_run. by intros [[[] []] ?].
Qed.
Lemma hello_parses : byte_box_from_slice hello_bytes = Ok hello_box.
Proof. by vm_compute. Qed.

Lemma clients_well_typed_witness :
  (length (sent_by (out greeted_i)) = 1%nat ∧ initiator_typed (post greeted_i)
    ∧ well_sent (sent_by (out greeted_i)))
  ∧ length (sent_by (out greeted_r)) = 2%nat ∧ responder_typed (post greeted_r)
    ∧ well_sent (sent_by (out greeted_r)).
Proof.
  split; (split; [vm_compute; reflexivity|]).
  - refine (proj1 clients_well_typed initiator_keys (mkTasks ["webrtc"; "chat"]) None None None
      initiator_world initiator_started _ _ _ _ _ _ _ initiator_starts _);
      [by_keypair|done|done|done|].
    apply emits_once, (emits_message _ hello_bytes); [by_compute|exact hello_parses].
  - refine (proj2 clients_well_typed responder_keys (public_key initiator_keys) (Some token) None
      (mkTasks ["chat"; "relay"]) None responder_world responder_started
      _ _ _ _ _ _ _ _ responder_starts _);
      [by_keypair|by_compute|by_compute|done|done|].
    apply emits_once, (emits_message _ hello_bytes); [by_compute|exact hello_parses].
Defined.
End TypingWitnesses.
