(* ===== verification/Sealing.v ===== *)
(** * How a client protects what it sends

    For each message a client sends, whom it is for, what it says and what it is
    sealed with: [to_server], [initiator_sends] and [responder_sends] list the
    messages of the protocol with their keys, in terms of the client's state
    before and after the call.  That a client sends nothing else is proved once
    for the trait against the interface [SignalingSealed], which the two roles
    implement; the calculus [typed] of Typing.v follows the keys of the server
    through the handlers. *)

From S2P Require Import Prelude Text External Errors Types Csn Cookie Nonce Crypto Tasks Messages.
From S2P Require Import Boxes Context Signaling SignalingSpec SignalingSafe Runs Initiator.
From S2P Require Import InitiatorSafe Responder ResponderSafe ReferenceCodec Handshake.
From S2P Require Import InitiatorProps ResponderProps Typing.

(** ** Messages to the server *)

Section server.
Context {T : Type} `{!ByteOrder, !Sodium, !Rmps}.
Implicit Types c : Common T.

(** Only the hello message of a responder is sent in the clear; the others are
    sealed with the client's permanent key pair for the session key of the
    server. *)
Inductive to_server c (b : ByteBox) : Prop :=
  | to_server_hello : c_role c = Role.Responder → nonce_destination (bbox_nonce b) = mkAddress 0 →
      sealed_with InClear (AMessage (Message.ClientHello
        (mkClientHello (public_key (c_permanent_keypair c))))) b → to_server c b
  | to_server_auth cookie sk : cookie_theirs (srv_cookie_pair (c_server c)) = Some cookie →
      srv_session_key (c_server c) = Some sk → nonce_destination (bbox_nonce b) = mkAddress 0 →
      sealed_with (WithKeys (c_permanent_keypair c) sk) (AMessage (Message.ClientAuth
        (mkClientAuth cookie [SUBPROTOCOL] (ping_interval_secs (c_ping_interval c))
          (srv_permanent_key (c_server c))))) b → to_server c b
  | to_server_drop a reason sk : c_role c = Role.Initiator → srv_session_key (c_server c) = Some sk →
      nonce_destination (bbox_nonce b) = mkAddress 0 →
      sealed_with (WithKeys (c_permanent_keypair c) sk) (AMessage (Message.DropResponder
        (drop_responder_with_reason a reason))) b → to_server c b.

(** The fields it depends on. *)
Definition server_view c := (c_role c, c_permanent_keypair c, c_ping_interval c,
  srv_session_key (c_server c), srv_permanent_key (c_server c), cookie_theirs (srv_cookie_pair (c_server c))).

Lemma to_server_view c c' b : server_view c' = server_view c → to_server c b → to_server c' b.
Proof.
  intros [= Hr Hk Hp Hs Hpk Hc] [Hro Hd Hb|cookie sk Hco Hsk Hd Hb|a reason sk Hro Hsk Hd Hb].
  - apply to_server_hello; [congruence|done|by rewrite Hk].
  - apply (to_server_auth _ _ cookie sk); [congruence..|done|by rewrite Hk, Hp, Hpk].
  - apply (to_server_drop _ _ a reason sk); [congruence..|done|by rewrite Hk].
Qed.
Lemma to_server_step c c' b : common_step c c' → to_server c b → to_server c' b.
Proof.
  intros Hst [Hro Hd Hb|cookie sk Hco Hsk Hd Hb|a reason sk Hro Hsk Hd Hb];
    destruct Hst as [Hk Hr Hp Hpk _ _ Hs Hc _ _ _].
  - apply to_server_hello; [congruence|done|by rewrite Hk].
  - apply (to_server_auth _ _ cookie sk); [by apply Hc|by apply Hs|done|by rewrite Hk, Hp, Hpk].
  - apply (to_server_drop _ _ a reason sk); [congruence|by apply Hs|done|by rewrite Hk].
Qed.

Definition server_action v (a : HandleAction) : Prop :=
  match a with HandleAction.Reply b => ∀ c, server_view c = v → to_server c b | _ => True end.
Lemma server_actions v acts c : server_view c = v → Forall (server_action v) acts →
  Forall (to_server c) (replies acts).
Proof.
  intros Hv. induction 1 as [|a acts Ha _ IH]; [done|]. destruct a; simpl; try done.
  constructor; [by apply Ha|done].
Qed.
End server.

Section shared.
Context {T S : Type} `{!Task T, !Env, !SignalingBase T S, !SignalingBaseLaws T S}.
Context `{!ByteOrder, !Sodium, !SodiumLaws, !Rmps, !RmpsLaws}.
Implicit Types s : S.
Abbreviation server_action := (server_action (T := T)).

(** The server's keys, and what a message to it depends on, stay. *)
Definition seen v s : Prop := server_view (common s) = v.

Lemma view_set_server srv v s : srv_session_key srv = srv_session_key (server s) →
  srv_permanent_key srv = srv_permanent_key (server s) →
  cookie_theirs (srv_cookie_pair srv) = cookie_theirs (srv_cookie_pair (server s)) →
  seen v s → seen v (set_server srv s).
Proof.
  intros Hs Hp Hc <-. unfold seen, set_server. rewrite common_set_common. unfold server_view, server in *.
  simpl. by rewrite Hs, Hp, Hc.
Qed.

Lemma next_server_nonce_view v :
  typed (seen v) next_server_nonce (λ n, nonce_destination n = mkAddress 0).
Proof.
  unfold next_server_nonce. do 3 typed_step. rename a into s, a0 into src, a1 into dst.
  destruct (peer_increment (server s)) as [r srv] eqn:Hp.
  assert (∃ p, srv = pc_set_csn_pair p (server s)) as [p ->].
  { unfold peer_increment in Hp. destruct (increment _) as [o c]. injection Hp as _ <-. by eexists. }
  typed_step; [by apply view_set_server|]. typed_step. apply typed_ret. simpl.
  by match goal with Hd : Identity.address_from_identity _ = Ok dst |- _ => injection Hd as <- end.
Qed.

(** What is sealed under a nonce carries it. *)
Lemma obox_encrypt_sealed m n kp pk b : obox_encrypt (E := SignalingError) (mkOpenBox m n) kp pk = Ok b →
  bbox_nonce b = n ∧ sealed_with (WithKeys kp pk) (AMessage m) b.
Proof.
  intros Hb. destruct (obox_encrypt_total (E := SignalingError) (mkOpenBox m n) kp pk) as (b' & Hb' & Hn).
  rewrite Hb in Hb'. injection Hb' as <-. simpl in *. split; [done|]. by rewrite Hn.
Qed.
Lemma obox_encode_sealed m n b : obox_encode (E := SignalingError) (mkOpenBox m n) = Ok b →
  bbox_nonce b = n ∧ sealed_with InClear (AMessage m) b.
Proof.
  intros Hb. destruct (obox_encode_total (E := SignalingError) (mkOpenBox m n)) as (b' & Hb' & Hn).
  rewrite Hb in Hb'. injection Hb' as <-. simpl in *. split; [done|]. by rewrite Hn.
Qed.
Lemma obox_encrypt_token_sealed m n t b : obox_encrypt_token (E := SignalingError) (mkOpenBox m n) t = Ok b →
  bbox_nonce b = n ∧ sealed_with (WithToken t) (AMessage m) b.
Proof.
  intros Hb. destruct (obox_encrypt_token_total (E := SignalingError) (mkOpenBox m n) t) as (b' & Hb' & Hn).
  rewrite Hb in Hb'. injection Hb' as <-. simpl in *. split; [done|]. by rewrite Hn.
Qed.

Lemma send_drop_responder_to_server v a r : typed (seen v) (send_drop_responder a r) (server_action v).
Proof.
  unfold send_drop_responder. do 2 typed_step; [typed_step|]. rename a0 into s.
  eapply typed_bind; [apply next_server_nonce_view|]. intros n Hn. do 2 typed_step. rename a0 into sk, a1 into b.
  apply typed_ret. intros c Hc.
  match goal with Hb : obox_encrypt _ _ _ = Ok b |- _ => apply obox_encrypt_sealed in Hb as [Hbn Hb] end.
  apply (to_server_view (common s)); [congruence|].
  match goal with Hr : bool_decide (role s ≠ _) = false |- _ => apply bool_decide_eq_false, dec_stable in Hr end.
  by apply (to_server_drop _ _ a r sk); [..|rewrite Hbn|].
Qed.
Lemma send_client_hello_to_server v : typed (seen v) send_client_hello (Forall (server_action v)).
Proof.
  unfold send_client_hello. do 2 typed_step; [|by apply typed_ret]. rename a into s.
  eapply typed_bind; [apply next_server_nonce_view|]. intros n Hn. typed_step. rename a into b.
  apply typed_ret. constructor; [|done]. intros c Hc.
  match goal with Hb : obox_encode _ = Ok b |- _ => apply obox_encode_sealed in Hb as [Hbn Hb] end.
  apply (to_server_view (common s)); [congruence|].
  match goal with Hr : bool_decide (role s = _) = true |- _ => apply bool_decide_eq_true in Hr end.
  by apply to_server_hello; [|rewrite Hbn|].
Qed.
Lemma send_client_auth_to_server v : typed (seen v) send_client_auth (server_action v).
Proof.
  unfold send_client_auth. do 2 typed_step. rename a into s, a0 into cookie.
  eapply typed_bind; [apply next_server_nonce_view|]. intros n Hn. do 2 typed_step. rename a into sk, a0 into b.
  apply typed_ret. intros c Hc.
  match goal with Hb : obox_encrypt _ _ _ = Ok b |- _ => apply obox_encrypt_sealed in Hb as [Hbn Hb] end.
  apply (to_server_view (common s)); [congruence|].
  apply (to_server_auth _ _ cookie sk); [|done|by rewrite Hbn|done].
  unfold server in *. destruct (cookie_theirs _); by simplify_eq/=.
Qed.

(** What a computation tells to send, relative to the states around it. *)
Definition emitted (sends : S → S → ByteBox → Prop) s (o : outcome SignalingError (list HandleAction)) s' : Prop :=
  match o with Ok acts => Forall (sends s s') (replies acts) | _ => True end.

Lemma typed_to_server (m : M env S SignalingError (list HandleAction)) s :
  typed (seen (server_view (common s))) m (Forall (server_action (server_view (common s)))) →
  wp m s (emitted (λ _ s', to_server (common s')) s).
Proof.
  intros Hm. eapply wp_mono; [by apply Hm|]. intros [acts|e|p] s' [Hv Ha]; [|done..]. by eapply server_actions.
Qed.

Lemma to_server_emitted sends (m : M env S SignalingError (list HandleAction)) s :
  (∀ s s' b, to_server (common s') b → sends s s' b) →
  wp m s (emitted (λ _ s', to_server (common s')) s) → wp m s (emitted sends s).
Proof.
  intros Hs Hm. eapply wp_mono; [exact Hm|]. intros [acts|e|p] s' Ha; [|done..].
  eapply Forall_impl; [exact Ha|]. intros b. apply Hs.
Qed.

Lemma handle_server_hello_to_server msg s :
  wp (handle_server_hello msg) s (emitted (λ _ s', to_server (common s')) s).
Proof.
  unfold handle_server_hello. do 4 wp_step; [done|]. do 3 wp_step.
  match goal with |- wp ?m ?s1 _ => apply (typed_to_server m s1) end.
  eapply typed_bind; [apply send_client_hello_to_server|]. intros hello Hh.
  eapply typed_bind; [apply send_client_auth_to_server|]. intros auth Ha.
  typed_step; [by apply view_set_server|]. apply typed_ret, Forall_app. by split; [|constructor].
Qed.
End shared.

(** ** The interface *)

Class SignalingSealed (T S : Type) `{!Task T, !Env, !Signaling T S, !ByteOrder, !Sodium, !Rmps}
    (I : S → Prop) (sends : S → S → ByteBox → Prop) : Prop := {
  sl_to_server s s' b : to_server (common s') b → sends s s' b;
  (** The assignments that end the server handshake change no key. *)
  sl_frame c s s1 b : common_step (common s1) c → c_task c = c_task (common s1) →
    sends s s1 b → sends s (set_common c s1) b;
  (** Nor does the validation of a nonce. *)
  sl_validate n s : wp (validate_nonce n) s (λ _ s1, ∀ s2 b, sends s1 s2 b → sends s s2 b);
  sl_peer_message o s : I s → c_signaling_state (common s) = SignalingState.PeerHandshake →
    wf_message (obox_message o) → wf_nonce (obox_nonce o) →
    Address.is_server (nonce_source (obox_nonce o)) = false →
    is_Some (sender_cookie (nonce_source (obox_nonce o)) s) →
    wp (handle_peer_message o) s (emitted sends s);
  sl_server_auth_impl msg s : I s → wp (handle_server_auth_impl msg) s (emitted sends s);
  sl_new_initiator msg s : I s → wp (handle_new_initiator msg) s (emitted sends s);
  sl_new_responder msg s : I s → wp (handle_new_responder msg) s (emitted sends s);
  sl_disconnected msg s : wp (handle_disconnected msg) s (emitted sends s);
}.

Lemma process_task_message_silent v types acts : process_task_message v types = Ok acts → replies acts = [].
Proof.
  unfold process_task_message. intros Hp.
  repeat match type of Hp with
  | mbind _ ?o = _ => destruct o; [|done..]; simpl in Hp
  | (if ?b then _ else _) = _ => destruct b
  end; by injection Hp as <-.
Qed.

Section dispatch.
Context {T S : Type} `{!Task T, !Env, !Signaling T S}.
Context `{!ByteOrder, !Sodium, !SodiumLaws, !Rmps, !RmpsLaws}.
Context (I : S → Prop) (sends : S → S → ByteBox → Prop).
Context `{!SignalingSafe T S I, !SignalingSealed T S I sends}.
Implicit Types s : S.

Lemma handle_server_auth_emitted msg nc s : I s →
  srv_handshake_state (server s) = ServerHandshakeState.ClientInfoSent →
  wf_message (Message.ServerAuth msg) → wp (handle_server_auth msg nc) s (emitted sends s).
Proof.
  intros HI Hsrv Hm. unfold handle_server_auth. do 4 wp_step; [done|].
  apply bool_decide_eq_false in Hb. do 2 wp_step. destruct (validate_repeated_cookie _ _ _); [|done..].
  do 3 wp_step. destruct (verify_signed_keys msg nc s); [|done..]. do 2 wp_step.
  eapply wp_mono; [apply wp_and; [by apply ss_server_auth_impl|by apply sl_server_auth_impl]|].
  intros [acts|e|m] s1 [((HI1 & Hf1 & _) & _ & Hsrv1) Ha]; [|done..]. cbn [wp_then]. rewrite Hsrv in Hsrv1.
  assert (identity s1 ≠ ClientIdentity.Unknown) as Hid1 by (unfold identity; by rewrite (cf_identity _ _ Hf1)).
  pose proof (enter_peer_handshake_ok I s1 HI1 Hsrv1 Hid1) as He. cbv zeta in He.
  repeat wp_step. destruct (set_signaling_state _ _) as [r c] eqn:Hc.
  destruct He as (-> & _ & Hf2). repeat wp_step. unfold emitted. eapply Forall_impl; [exact Ha|].
  intros b Hs. unfold set_server. rewrite set_common_twice. rewrite common_set_common in Hf2.
  apply sl_frame; [by apply common_frame_step| |done]. revert Hc. unfold set_signaling_state.
  rewrite (common_set_server I). by repeat case_match; intros; simplify_eq.
Qed.

Lemma handle_server_message_emitted o nc s : I s → wf_message (obox_message o) →
  wp (handle_server_message o nc) s (emitted sends s).
Proof.
  intros HI Hm. unfold handle_server_message, server_handshake_state. do 3 wp_step.
  destruct (srv_handshake_state (server s)) eqn:Hsrv, (obox_message o) eqn:Hmsg; try (by wp_step).
  - apply to_server_emitted; [apply sl_to_server|apply handle_server_hello_to_server].
  - by apply handle_server_auth_emitted.
  - by apply sl_new_initiator.
  - by apply sl_new_responder.
  - unfold handle_send_error. by wp_step.
  - apply sl_disconnected.
Qed.

Lemma handle_handshake_peer_message_emitted b s : I s → wf_nonce (bbox_nonce b) →
  is_Some (sender_cookie (nonce_source (bbox_nonce b)) s) →
  wp (handle_handshake_peer_message b) s (emitted sends s).
Proof.
  intros HI Hn Hc. unfold handle_handshake_peer_message. wp_step; [by wp_step|].
  repeat wp_step. pose proof (ss_decode b s) as Hd.
  destruct (decode_peer_message b s) as [o|e|m]; [|..|done]; repeat wp_step.
  - destruct Hd as [Hm Hno]. destruct (c_signaling_state (common s)) eqn:Hst; [by wp_step| |by wp_step].
    rewrite Hno, Hb. apply sl_peer_message; try done; by rewrite Hno.
  - destruct e; try (by wp_step). apply to_server_emitted; [apply sl_to_server|].
    apply typed_to_server. eapply typed_bind; [apply send_drop_responder_to_server|]. intros a Ha. apply typed_ret. by constructor.
Qed.

Lemma dispatch_message_emitted b s : I s → wf_nonce (bbox_nonce b) →
  is_Some (sender_cookie (nonce_source (bbox_nonce b)) s) →
  wp (dispatch_message b) s (emitted sends s).
Proof.
  intros HI Hn Hc. unfold dispatch_message. repeat wp_step.
  - pose proof (decode_server_message_decoded b s) as Hd.
    destruct (decode_server_message b s) as [o|e|m]; [|done..]. cbn [wp_then].
    apply handle_server_message_emitted; [done|apply Hd].
  - destruct (c_signaling_state (common s)); [by apply handle_handshake_peer_message_emitted..|].
    unfold handle_task_peer_message. wp_step; [by wp_step|]. repeat wp_step.
    destruct (decode_task_message b s) as [o|e|m]; [|done..]. cbn [wp_then]. wp_step.
    destruct (process_task_message _ _) as [acts|e|m] eqn:Hp; [|done..]. simpl.
    by rewrite (process_task_message_silent _ _ _ Hp).
Qed.

Lemma handle_message_emitted b s : I s → wf_nonce (bbox_nonce b) →
  wp (handle_message b) s (emitted sends s).
Proof.
  intros HI Hn. unfold handle_message. do 2 wp_step.
  eapply wp_mono; [apply wp_and; [by apply (validate_nonce_validated I)|apply sl_validate]|].
  intros o s1 [(HI1 & _ & _ & Hv) Hk]. destruct o as [[]|e|m]; [|destruct e; wp_step; by try constructor|done].
  cbn [wp_then]. destruct Hv as (_ & _ & Hc).
  eapply wp_mono; [apply dispatch_message_emitted; [done..|by rewrite Hc]|].
  intros [acts|e|m] s2 Ha; [|done..]. eapply Forall_impl; [exact Ha|]. intros b' Hb. by apply Hk.
Qed.

(** What each call of a client's interface gives the client to send. *)
Definition seals_as s : Prop :=
  (∀ b w acts s' w', wf_nonce (bbox_nonce b) → handle_message b s w = (Ok acts, s', w') →
    Forall (sends s s') (replies acts))
  ∧ (∀ v w b s' w', encode_task_message v s w = (Ok b, s', w') → sealed_for_peer s (AValue v) b)
  ∧ (∀ c w b s' w', encode_close_message c s w = (Ok b, s', w') →
      sealed_for_peer s (AMessage (Message.Close (close_from_close_code c))) b).

Lemma client_seals s : I s → seals_as s.
Proof.
  intros HI. split_and!.
  - intros b w acts s' w' Hn Hrun. pose proof (handle_message_emitted b s HI Hn w) as He.
    by rewrite Hrun in He.
  - intros v w b s' w' Hrun. destruct (encode_task_message_session I v s HI w) as [_ He].
    by rewrite Hrun in He.
  - intros c w b s' w' Hrun. destruct (encode_close_message_session I c s HI w) as [_ He].
    by rewrite Hrun in He.
Qed.
End dispatch.

(** The validation of a nonce only writes sequence numbers, cookies and the own
    identity. *)
Section validation.
Context {T S : Type} `{!Task T, !Env, !Signaling T S} (J : S → Prop) (n : Nonce).

Definition rewritable (d : DynPeer S) : Prop :=
  match d with
  | @MkDynPeer _ P _ p put =>
      (∀ pair, J (put (pc_set_csn_pair pair p))) ∧ ∀ pair, J (put (pc_set_cookie_pair pair p))
  end.

Lemma validate_nonce_keeps : typed J (validate_nonce_destination n) (λ _, True) →
  typed J (validate_nonce_source n) (λ _, True) →
  (∀ s d, J s → get_peer_with_address_mut (E := ValidationError) (nonce_source n) s = Ok (Some d) →
    rewritable d) →
  typed J (validate_nonce n) (λ _, True).
Proof.
  intros Hdst Hsrc Hput. assert (typed J (find_sender n) rewritable) as Hfind.
  { unfold find_sender. do 2 typed_step. destruct a0 as [d|]; [apply typed_ret; by eapply Hput|].
    typed_step; apply typed_throw. }
  unfold validate_nonce. eapply typed_bind; [exact Hdst|]. intros _ _.
  eapply typed_bind; [exact Hsrc|]. intros _ _. eapply typed_bind.
  { unfold validate_nonce_csn. eapply typed_bind; [exact Hfind|]. intros [P i p put] [Hp _]. typed_step.
    apply typed_put, Hp. }
  intros _ _. eapply typed_bind; [|intros; by apply typed_ret].
  unfold validate_nonce_cookie. eapply typed_bind; [exact Hfind|]. intros [P i p put] [_ Hp]. typed_step.
  apply typed_put, Hp.
Qed.
End validation.

(** ** The initiator *)

Section initiator.
Context {T : Type} `{!Task T}.
Context `{!ByteOrder, !Sodium, !SodiumLaws, !Rmps, !RmpsLaws, !Env, !EnvLaws}.
Implicit Types s : InitiatorSignaling T.
Abbreviation seen := (seen (T := T) (S := InitiatorSignaling T)).
Abbreviation server_action := (server_action (T := T)).

(** The key message for a responder in the table goes under the permanent keys,
    the auth message for the chosen one under the session keys, and so does the
    close message that ends a handshake without a shared task. *)
Inductive initiator_sends s s' (b : ByteBox) : Prop :=
  | initiator_sends_server : to_server (is_common s') b → initiator_sends s s' b
  | initiator_sends_key r pk : is_responders s' !! nonce_destination (bbox_nonce b) = Some r →
      rsp_permanent_key r = Some pk →
      sealed_with (WithKeys (c_permanent_keypair (is_common s')) pk)
        (AMessage (Message.Key (mkKey (public_key (rsp_keypair r))))) b → initiator_sends s s' b
  | initiator_sends_auth r sk t cookie : is_responder s' = Some r →
      rsp_address r = nonce_destination (bbox_nonce b) → rsp_session_key r = Some sk →
      c_task (is_common s') = Some t →
      sealed_with (WithKeys (rsp_keypair r) sk) (AMessage (Message.Auth
        (mkAuth cookie None (Some (task_name t)) {[task_name t := task_data t]}))) b → initiator_sends s s' b
  | initiator_sends_close r sk : is_responders s !! nonce_destination (bbox_nonce b) = Some r →
      rsp_session_key r = Some sk →
      sealed_with (WithKeys (rsp_keypair r) sk) (AMessage (Message.Close
        (close_from_close_code CloseCode.NoSharedTask))) b → initiator_sends s s' b.

(** The session keys of the responders are those of [s]. *)
Definition same_keys s s1 : Prop := ∀ a r1, is_responders s1 !! a = Some r1 →
  ∃ r, is_responders s !! a = Some r ∧ rsp_keypair r1 = rsp_keypair r ∧ rsp_session_key r1 = rsp_session_key r.

Lemma initiator_validates n s :
  wp (validate_nonce n) s (λ _ s1, ∀ s2 b, initiator_sends s1 s2 b → initiator_sends s s2 b).
Proof.
  eapply wp_mono; [apply (validate_nonce_keeps (same_keys s) n)|].
  - simpl. unfold is_validate_nonce_destination. typed_step. apply (typed_bind _ _ _ (λ _, True)).
    + repeat typed_step; [|done]. by apply typed_modify.
    + intros _ _. by repeat typed_step.
  - simpl. unfold is_validate_nonce_source. typed_step. repeat case_match; by typed_step.
  - intros s1 d Hk. simpl. unfold is_get_peer_with_address_mut.
    destruct (Identity.identity_from_address _); [by intros [= <-]|done|].
    case_bool_decide.
    + destruct (is_responder s1); [|done]. destruct (Identity.address_from_identity _); [|done..]. simpl.
      case_bool_decide; [|done]. by intros [= <-].
    + destruct (is_responders s1 !! nonce_source n) as [r1|] eqn:Hr1; [|done]. intros [= <-].
      destruct (Hk _ _ Hr1) as (r & Hr & Hkp & Hsk).
      split; intros pair a r2; simpl; (destruct (decide (a = nonce_source n)) as [->|Hne];
        [rewrite lookup_insert_eq; intros [= <-]; by exists r|rewrite lookup_insert_ne by done; apply Hk]).
  - intros a r Hr. by exists r.
  - intros o s1 [Hk _] s2 b [Hb|r pk|r sk t cookie|r1 sk Hr1 Hsk Hb]; [by apply initiator_sends_server|by eapply initiator_sends_key|
      by eapply initiator_sends_auth|].
    destruct (Hk _ _ Hr1) as (r & Hr & Hkp & Hs). rewrite Hkp in Hb. rewrite Hs in Hsk.
    by eapply initiator_sends_close.
Qed.

Lemma drop_oldest_to_server v :
  typed (seen v) drop_oldest_inactive_responder (from_option (server_action v) True).
Proof.
  unfold drop_oldest_inactive_responder. typed_step. rename a into s.
  eapply typed_bind; [by apply (typed_world _ _ (λ _, True))|]. intros addrs _.
  destruct (drop_candidate _) as [a|]; [|by apply typed_ret]. typed_step. typed_step; [done|].
  eapply typed_bind; [apply send_drop_responder_to_server|]. intros act Hact. by apply typed_ret.
Qed.
Lemma process_new_responder_to_server v a :
  typed (seen v) (process_new_responder a) (λ o, Forall (server_action v) (option_list o)).
Proof.
  unfold process_new_responder. typed_step. rename a0 into s. apply (typed_bind _ _ _ (λ _, True)).
  { typed_step; [|by apply typed_ret]. by apply typed_modify. }
  intros _ _. destruct (responder_counter_increment _) as [o c]. typed_step; [done|]. typed_step.
  apply (typed_bind _ _ _ (λ _, True)).
  { intros s' Hs'. by apply wp_responder_context_new. }
  intros r _. apply (typed_bind _ _ _ (λ _, True)).
  { destruct (c_auth_provider (is_common s)) as [[t|k]|]; try by apply typed_ret.
    typed_step; [typed_step|by apply typed_ret]. }
  intros r1 _. typed_step; [done|]. do 2 typed_step; [|by apply typed_ret].
  eapply typed_mono; [apply drop_oldest_to_server|]. intros [act|] Ha; simpl in *; by repeat constructor.
Qed.

Lemma is_handle_server_auth_impl_to_server v msg :
  typed (seen v) (is_handle_server_auth_impl msg) (Forall (server_action v)).
Proof.
  unfold is_handle_server_auth_impl. typed_step; [typed_step|].
  destruct (sa_responders msg) as [l|]; [|typed_step]. do 2 (typed_step; [typed_step|]).
  eapply typed_bind; [by apply (typed_world _ _ (λ _, True))|]. intros addrs _.
  eapply typed_bind; [apply (typed_for _ _ (Forall (server_action v))); [done|]|].
  { intros acc a _ Hacc. eapply typed_bind; [apply process_new_responder_to_server|].
    intros o Ho. by apply typed_ret, Forall_app. }
  intros acts Hacts. apply typed_ret, Forall_app. split; [done|by repeat constructor].
Qed.

Lemma is_handle_key_emitted msg source s : initiator_inv s →
  wp (is_handle_key msg source) s (emitted initiator_sends s).
Proof.
  intros HI. unfold is_handle_key. repeat wp_step; try done. rename Ho into Hl.
  pose proof (inv_lookup _ _ _ HI Hl) as Hr.
  destruct (rsp_permanent_key r) as [pk|] eqn:Hpk; [|by wp_step]. wp_step; [by wp_step|].
  set (r1 := rsp_set_handshake_state ResponderHandshakeState.KeyReceived _).
  destruct (identity_address s HI) as [src Hsrc].
  destruct (next_peer_nonce_cases (identity s) r1 src source) as (ours' & _ & Hp & Hd); [apply Hr|done| |].
  { rewrite <- (ri_address _ _ _ Hr). apply (responder_identity r1). simpl. rewrite (ri_address _ _ _ Hr).
    apply Hr. }
  destruct (next_peer_nonce (identity s) r1) as [res r2]; simpl in Hp, Hd; subst r2.
  repeat wp_step. destruct res as [n|e|m]; [|done..]. repeat wp_step; [|done].
  simpl in Ho. rewrite Hpk in Ho. injection Ho as <-.
  wp_seal. repeat wp_step. constructor; [|done]. destruct Hd as [-> _].
  apply (initiator_sends_key _ _ _ (rsp_set_handshake_state ResponderHandshakeState.KeySent (advanced r1 ours')) pk).
  - rewrite Hnonce. simpl. by rewrite lookup_insert_eq.
  - done.
  - simpl. by rewrite Hnonce.
Qed.

(** The peer messages, with the drop-responder messages as the auth message
    leaves them. *)
Definition sends_or_drops s s' (b : ByteBox) : Prop :=
  initiator_sends s s' b ∨ ∃ a, drop_notice (is_common s) a b.

Lemma is_handle_auth_emitted msg source s : initiator_inv s →
  c_signaling_state (is_common s) = SignalingState.PeerHandshake →
  wp (is_handle_auth msg source) s (emitted sends_or_drops s).
Proof.
  intros HI Hst. eapply wp_mono; [by apply is_handle_auth_spec|]. intros [acts|e|m] s'; [|done..].
  assert (∀ bs, replies (map HandleAction.Reply bs) = bs) as Hrep by (induction bs; by f_equal/=).
  assert (∀ l l', replies (l ++ l') = replies l ++ replies l') as Happ by (intros; apply omap_app).
  intros (r & ts & proposed & Hl & _ & _ & _ & [Ho|Ho]).
  - destruct Ho as (? & t & ? & data & t' & addrs & drops & auth & cookie & sk & r' & _ & _ & _ & _ & _ & -> & _ & Hd
      & _ & _ & Hdst & Hb & _ & Ht & _ & Hr' & Ha & Hkp & Hsk).
    unfold emitted. rewrite Happ, Hrep. apply Forall_app. split.
    + apply Forall_forall. intros b [i Hi]%list_elem_of_lookup. right.
      destruct (Forall2_lookup_r _ _ _ _ _ Hd Hi) as (a & _ & Hn). by exists a.
    + constructor; [|done]. left. rewrite <- Hkp in Hb.
      eapply initiator_sends_auth; [done|by rewrite Hdst|done..].
  - destruct Ho as (_ & _ & _ & close & -> & Hclose). unfold emitted. rewrite Happ, Hrep, app_nil_r.
    destruct Hclose as [->|(b & sk & -> & Hsk & Hdst & Hb)]; [done|]. constructor; [|done]. left.
    by eapply initiator_sends_close; [rewrite Hdst|..].
Qed.

Lemma is_handle_peer_message_emitted o s : initiator_inv s →
  c_signaling_state (is_common s) = SignalingState.PeerHandshake →
  wp (is_handle_peer_message o) s (emitted sends_or_drops s).
Proof.
  intros HI Hst. unfold is_handle_peer_message. repeat wp_step; [|done].
  destruct (rsp_handshake_state _), (obox_message o); try (by wp_step).
  - unfold is_handle_token. repeat wp_step; try done.
    destruct (c_auth_provider _) as [[]|]; repeat wp_step; by try constructor.
  - eapply wp_mono; [by apply is_handle_key_emitted|]. intros [acts|e|m'] s' Ha; [|done..].
    eapply Forall_impl; [exact Ha|]. by left.
  - by apply is_handle_auth_emitted.
Qed.

#[export] Instance initiator_sealed :
  SignalingSealed T (InitiatorSignaling T) initiator_inv initiator_sends.
Proof.
  split.
  - intros s s' b. apply initiator_sends_server.
  - intros c s s1 b Hst Ht [Hb|r pk Hr Hpk Hb|r sk t cookie Hr Ha Hsk Htk Hb|r sk Hr Hsk Hb].
    + apply initiator_sends_server. by eapply to_server_step.
    + eapply initiator_sends_key; [done..|]. simpl. by rewrite (cs_keypair _ _ Hst).
    + eapply initiator_sends_auth; [done..| |done]. simpl. by rewrite Ht.
    + by eapply initiator_sends_close.
  - intros n s. apply initiator_validates.
  - intros o s HI Hst Hm Hn Hsrc Hc.
    eapply wp_mono; [apply wp_and; [by apply ss_peer_message|by apply is_handle_peer_message_emitted]|].
    intros [acts|e|m] s' [(_ & Hf & _) Ha]; [|done..]. eapply Forall_impl; [exact Ha|].
    intros b [Hb|(a & sk & Hsk & Hd & Hb)]; [done|]. apply initiator_sends_server.
    eapply to_server_step; [by apply common_frame_step|].
    eapply to_server_drop; [apply HI|done..].
  - intros msg s _. apply to_server_emitted; [apply initiator_sends_server|]. apply typed_to_server.
    apply is_handle_server_auth_impl_to_server.
  - intros msg s _. by apply wp_throw.
  - intros msg s _. apply to_server_emitted; [apply initiator_sends_server|]. apply typed_to_server.
    simpl. unfold is_handle_new_responder. typed_step; [typed_step|].
    eapply typed_bind; [apply process_new_responder_to_server|]. intros o Ho. by apply typed_ret.
  - intros msg s. simpl. unfold is_handle_disconnected. wp_step; wp_step; by try constructor.
Qed.
End initiator.

(** ** The responder *)

Section responder.
Context {T : Type} `{!Task T}.
Context `{!ByteOrder, !Sodium, !SodiumLaws, !Rmps, !RmpsLaws, !Env, !EnvLaws}.
Implicit Types s : ResponderSignaling T.

(** The token message goes under the token the client had, the key message under
    the permanent keys, and the auth message, with the tasks the client offers,
    under the session keys. *)
Inductive responder_sends s s' (b : ByteBox) : Prop :=
  | responder_sends_server : to_server (rs_common s') b → responder_sends s s' b
  | responder_sends_token t : c_auth_provider (rs_common s) = Some (AuthProvider.Token t) →
      nonce_destination (bbox_nonce b) = mkAddress 1 →
      sealed_with (WithToken t) (AMessage (Message.Token
        (mkToken (public_key (c_permanent_keypair (rs_common s')))))) b → responder_sends s s' b
  | responder_sends_key : nonce_destination (bbox_nonce b) = mkAddress 1 →
      sealed_with (WithKeys (c_permanent_keypair (rs_common s')) (ini_permanent_key (rs_initiator s')))
        (AMessage (Message.Key (mkKey (public_key (ini_keypair (rs_initiator s')))))) b → responder_sends s s' b
  | responder_sends_auth sk ts cookie : ini_session_key (rs_initiator s') = Some sk →
      c_tasks (rs_common s) = Some ts → nonce_destination (bbox_nonce b) = mkAddress 1 →
      sealed_with (WithKeys (ini_keypair (rs_initiator s')) sk)
        (AMessage (Message.Auth (responder_auth cookie ts))) b → responder_sends s s' b.

(** The keys of the first messages to the initiator. *)
Definition knows (k : KeyPair * KeyPair * PublicKey) s : Prop :=
  (c_permanent_keypair (rs_common s), ini_keypair (rs_initiator s), ini_permanent_key (rs_initiator s)) = k.
Definition first_action (p : option AuthProvider) k (a : HandleAction) : Prop :=
  match a with
  | HandleAction.Reply b => ∀ s s', c_auth_provider (rs_common s) = p → knows k s' → responder_sends s s' b
  | _ => True
  end.
Lemma first_actions p k acts s s' : Forall (first_action p k) acts → c_auth_provider (rs_common s) = p →
  knows k s' → Forall (responder_sends s s') (replies acts).
Proof.
  intros Ha Hp Hk. induction Ha as [|a acts Ha _ IH]; [done|]. destruct a; simpl; try done.
  constructor; [by apply Ha|done].
Qed.

Lemma next_initiator_nonce_knows k :
  typed (knows k) (next_initiator_nonce (T := T)) (λ n, nonce_destination n = mkAddress 1).
Proof.
  unfold next_initiator_nonce. typed_step. rename a into s.
  assert (∃ i, (next_peer_nonce (identity s) (rs_initiator s)).2 = i
    ∧ ini_keypair i = ini_keypair (rs_initiator s) ∧ ini_permanent_key i = ini_permanent_key (rs_initiator s)
    ∧ ∀ n, (next_peer_nonce (identity s) (rs_initiator s)).1 = Ok n → nonce_destination n = mkAddress 1)
    as (i & Hi & Hkp & Hpk & Hn).
  { eexists. split; [done|]. unfold next_peer_nonce, peer_increment. simpl.
    destruct (ClientIdentity.address_from_client_identity _) as [src|e|m]; [|done..].
    destruct (increment _) as [[c|e|m] ours]; split_and!; simpl; try done. by intros n [= <-]. }
  destruct (next_peer_nonce _ _) as [r i']. simpl in *. subst i'.
  typed_step; [|by apply typed_lift].
  unfold knows in *. simpl. rewrite Hkp, Hpk. congruence.
Qed.

Lemma send_token_first k t :
  typed (knows k) (send_token t) (first_action (Some (AuthProvider.Token t)) k).
Proof.
  unfold send_token. typed_step. rename a into s.
  eapply typed_bind; [apply next_initiator_nonce_knows|]. intros n Hn. typed_step. rename a into b.
  apply typed_ret. intros s0 s' Hp Hk.
  match goal with Hb : obox_encrypt_token _ _ = Ok b |- _ => apply obox_encrypt_token_sealed in Hb as [Hbn Hb] end.
  assert (c_permanent_keypair (rs_common s') = c_permanent_keypair (rs_common s)) as Hkp
    by (unfold knows in *; congruence).
  eapply responder_sends_token; [done|by rewrite Hbn|by rewrite Hkp].
Qed.
Lemma send_key_first k p : typed (knows k) send_key (first_action p k).
Proof.
  unfold send_key. typed_step. rename a into s.
  eapply typed_bind; [apply next_initiator_nonce_knows|]. intros n Hn. typed_step. rename a into b.
  apply typed_ret. intros s0 s' Hp Hk.
  match goal with Hb : obox_encrypt _ _ _ = Ok b |- _ => apply obox_encrypt_sealed in Hb as [Hbn Hb] end.
  assert (c_permanent_keypair (rs_common s') = c_permanent_keypair (rs_common s)
    ∧ ini_keypair (rs_initiator s') = ini_keypair (rs_initiator s)
    ∧ ini_permanent_key (rs_initiator s') = ini_permanent_key (rs_initiator s)) as (Hkp & Hik & Hpk)
    by (unfold knows in *; split_and!; congruence).
  eapply responder_sends_key; [by rewrite Hbn|by rewrite Hkp, Hik, Hpk].
Qed.
Lemma send_token_if_any_first k s : knows k s → wp send_token_if_any s (λ o s', knows k s' ∧ match o with
    | Ok acts => Forall (first_action (c_auth_provider (rs_common s)) k) acts
    | _ => True
    end).
Proof.
  intros Hk. unfold send_token_if_any. do 3 wp_step.
  destruct (c_auth_provider (rs_common s)) as [[t|pk]|] eqn:Hp; [|by wp_step..]. do 3 wp_step.
  match goal with |- wp ?m ?s1 _ => assert (typed (knows k) m
    (Forall (first_action (Some (AuthProvider.Token t)) k))) as Hm; [|by apply (Hm s1)] end.
  eapply typed_bind; [apply send_token_first|]. intros a Ha. apply typed_ret. by constructor.
Qed.

(** The token, if any, and the key, at the start of the peer handshake. *)
Lemma start_handshake_emitted post s0 s : replies post = [] →
  c_auth_provider (rs_common s) = c_auth_provider (rs_common s0) →
  wp (token ← send_token_if_any; key ← send_key;
      _ ← set_initiator_state InitiatorHandshakeState.KeySent; mret (token ++ key :: post)) s
    (λ o s', emitted responder_sends s0 o s').
Proof.
  intros Hpost Hp. set (k := (c_permanent_keypair (rs_common s), ini_keypair (rs_initiator s),
    ini_permanent_key (rs_initiator s))). assert (knows k s) as Hk by done. clearbody k.
  wp_step. eapply wp_mono; [by apply (send_token_if_any_first k)|].
  intros [token|e|m] s1 [Hk1 Ht]; [|done..]. cbn [wp_then].
  assert (typed (knows k) (key ← send_key; _ ← set_initiator_state InitiatorHandshakeState.KeySent;
    mret (token ++ key :: post)) (λ acts, ∃ key, acts = token ++ key :: post
      ∧ first_action (c_auth_provider (rs_common s)) k key)) as Hm.
  { eapply typed_bind; [apply send_key_first|]. intros key Hkey. eapply typed_bind; [by apply typed_modify|].
    intros _ _. apply typed_ret. by exists key. }
  eapply wp_mono; [by apply Hm|]. intros [acts|e|m] s2 [Hk2 Ha]; [|done..].
  destruct Ha as (key & -> & Hkey). unfold emitted. change (token ++ key :: post) with (token ++ [key] ++ post).
  rewrite app_assoc. unfold replies. rewrite omap_app. fold (replies post). rewrite Hpost, app_nil_r.
  apply (first_actions (c_auth_provider (rs_common s)) k); [|done..].
  apply Forall_app. by split; [|constructor].
Qed.

Lemma responder_validates n s :
  wp (validate_nonce n) s (λ _ s1, ∀ s2 b, responder_sends s1 s2 b → responder_sends s s2 b).
Proof.
  eapply wp_mono; [apply (validate_nonce_keeps (λ s1, c_auth_provider (rs_common s1)
    = c_auth_provider (rs_common s) ∧ c_tasks (rs_common s1) = c_tasks (rs_common s)) n)|].
  - simpl. unfold rs_validate_nonce_destination.
    eapply typed_bind; [by apply (typed_get _ (λ _, True))|]. intros s1 _. apply (typed_bind _ _ _ (λ _, True)).
    + typed_step; [|by apply typed_ret]. typed_step; [by apply typed_modify|typed_step].
    + intros _ _. eapply typed_bind; [by apply (typed_get _ (λ _, True))|]. intros s2 _. by repeat typed_step.
  - simpl. unfold rs_validate_nonce_source. eapply typed_bind; [by apply (typed_get _ (λ _, True))|].
    intros s1 _. repeat case_match; by typed_step.
  - intros s1 d Hk. simpl. unfold rs_get_peer_with_address_mut.
    destruct (Identity.identity_from_address _); by intros [= <-].
  - done.
  - intros o s1 [[Hp Ht] _] s2 b [Hb|t|Hd Hb|sk ts cookie]; [by apply responder_sends_server|
      eapply responder_sends_token; by rewrite <- ?Hp|by apply responder_sends_key|
      eapply responder_sends_auth; by rewrite <- ?Ht].
Qed.

(** Where the auth message goes. *)
Lemma rs_handle_key_destination msg n : typed (λ _ : ResponderSignaling T, True) (rs_handle_key msg n)
  (Forall (λ a, match a with
    | HandleAction.Reply b => nonce_destination (bbox_nonce b) = mkAddress 1
    | _ => True
    end)).
Proof.
  assert (typed (λ _ : ResponderSignaling T, True) next_initiator_nonce
    (λ n, nonce_destination n = mkAddress 1)) as Hnext.
  { intros s _. eapply wp_mono; [by eapply (next_initiator_nonce_knows (_, _, _) s)|]. by intros o s' [_ Ho]. }
  unfold rs_handle_key. eapply typed_bind; [by apply (typed_get _ (λ _, True))|]. intros s _.
  do 2 (typed_step; [typed_step|]). typed_step; [done|]. do 2 typed_step.
  eapply typed_bind; [exact Hnext|]. intros n' Hn'.
  eapply typed_bind; [by apply (typed_get _ (λ _, True))|]. intros s' _. do 2 typed_step.
  eapply typed_bind; [by apply typed_modify|]. intros _ _. apply typed_ret. constructor; [|done].
  match goal with Hb : obox_encrypt _ _ _ = Ok _ |- _ => apply obox_encrypt_sealed in Hb as [-> _] end. done.
Qed.

Lemma rs_handle_peer_message_emitted o s : responder_state_inv s →
  c_signaling_state (rs_common s) = SignalingState.PeerHandshake →
  wp (rs_handle_peer_message o) s (emitted responder_sends s).
Proof.
  intros HI Hst. unfold rs_handle_peer_message. do 3 wp_step.
  destruct (ini_handshake_state _), (obox_message o); try (by wp_step).
  - eapply wp_mono; [apply wp_and; [by apply rs_handle_key_spec|by apply rs_handle_key_destination]|].
    intros [acts|e|p] s' [Hs [_ Hd]]; [|done..].
    destruct Hs as (ts & b & Ht & _ & -> & _ & _ & Hsk & Hkp & Hb). apply Forall_cons in Hd as [Hd _].
    constructor; [|done]. eapply responder_sends_auth; [done..|]. by rewrite Hkp.
  - eapply wp_mono; [by apply rs_handle_auth_spec|]. intros [acts|e|p] s' Hs; [|done..].
    destruct Hs as (? & ? & ? & ? & _ & _ & _ & _ & _ & _ & -> & _). by constructor.
  - unfold rs_handle_peer_handshake_close. destruct (CloseCode.from_number _); by wp_step.
Qed.

#[export] Instance responder_sealed :
  SignalingSealed T (ResponderSignaling T) responder_state_inv responder_sends.
Proof.
  split.
  - intros s s' b. apply responder_sends_server.
  - intros c s s1 b Hst _ [Hb|t Hp Hd Hb|Hd Hb|sk ts cookie Hsk Ht Hd Hb].
    + apply responder_sends_server. by eapply to_server_step.
    + eapply responder_sends_token; [done..|]. simpl. by rewrite (cs_keypair _ _ Hst).
    + eapply responder_sends_key; [done|]. simpl. by rewrite (cs_keypair _ _ Hst).
    + by eapply responder_sends_auth.
  - intros n s. apply responder_validates.
  - intros o s HI Hst _ _ _ _. by apply rs_handle_peer_message_emitted.
  - intros msg s _. simpl. unfold rs_handle_server_auth_impl. wp_step; [by wp_step|].
    destruct (sa_initiator_connected msg) as [[]|]; [by apply start_handshake_emitted| |by wp_step].
    wp_step. by constructor.
  - intros msg s _. simpl. unfold rs_handle_new_initiator. do 4 wp_step.
    apply wp_initiator_context_new; [|done]. intros i Hi. cbn [wp_then]. do 3 wp_step.
    by apply start_handshake_emitted.
  - intros msg s _. by apply wp_throw.
  - intros msg s. simpl. unfold rs_handle_disconnected. wp_step; wp_step; by try constructor.
Qed.
End responder.

Section clients.
Context {T : Type} `{!Task T}.
Context `{!ByteOrder, !Sodium, !SodiumLaws, !Rmps, !RmpsLaws, !Env, !EnvLaws}.

(** C5: a client protects what it sends as the protocol demands, and sends
    nothing else.  Whatever has happened to it, a message that arrives makes it
    send only the messages [initiator_sends] or [responder_sends] list: to the
    server, a client-hello in the clear with its public key (a responder only),
    a client-auth with the server's cookie and a drop-responder (an initiator
    only), both sealed with its permanent key pair for the server's session key;
    to the peer, the token message under the one-time token, the key message
    under the permanent keys of both, carrying the session key, and the auth and
    close messages under the session keys of both. A value of the task or a
    close code is sealed as it was given, under the session keys of the peer of
    the task phase and for its address. *)
Theorem clients_seal_messages :
  (∀ s : InitiatorSignaling T, initiator_reachable s → seals_as initiator_sends s)
  ∧ ∀ s : ResponderSignaling T, responder_reachable s → seals_as responder_sends s.
Proof.
  split; intros s Hs.
  - apply (client_seals initiator_inv initiator_sends), initiator_reachable_inv, Hs.
  - apply (client_seals responder_state_inv responder_sends), responder_reachable_inv, Hs.
Qed.
End clients.

(** ** Witness *)

Module SealingWitnesses.
Import Reference ReferenceCodec Handshake.

(** A responder that learns that the initiator is there, and answers with its
    token and its key. *)
Definition told : rstate := get_responder (state_of r1).
Definition auth_box : ByteBox := get_box (sealed_box (Message.ServerAuth (mkServerAuth
  (our_server_cookie (state_of r1)) None None (Some true))) 2 2 responder_keys).
Definition told_run := handle_message auth_box told (7 : env).
Definition told_actions : list HandleAction := match out told_run with Ok acts => acts | _ => [] end.

Lemma told_reachable : responder_reachable told.
Proof. apply get_responder_reachable; [by_compute|apply good_r1]. Qed.

Lemma clients_seal_witness : length (replies told_actions) = 2%nat
  ∧ Forall (responder_sends told (post told_run)) (replies told_actions).
Proof.
  split; [vm_compute; reflexivity|].
  refine (proj1 (proj2 (clients_seal_messages (T := string)) told told_reachable) auth_box (7 : env)
    told_actions (post told_run) (world_of told_run) _ _).
  - by_compute.
  - vm_compute. reflexivity.
Defined.
End SealingWitnesses.
