(* ===== verification/SendAll.v ===== *)
(** * Sending a stream through a sink

    The future of src/send_all.rs: it moves the items of a stream into a sink
    and completes once the sink has flushed them, without closing the sink.
    Sink and stream are traits of the futures crate and parameters here; their
    laws state the documented behaviour in terms of the items a sink has
    accepted and flushed and the items a fused stream still has to yield.

    [send_poll] is [poll] with its loop bounded by fuel; one unit more than the
    number of items left is always enough. *)

From S2P Require Import Prelude.

(** ** The traits *)

Inductive Async (A : Type) := Ready (a : A) | NotReady.
Arguments Ready {A} a.
Arguments NotReady {A}.
Inductive AsyncSink (A : Type) := SinkReady | SinkNotReady (item : A).
Arguments SinkReady {A}.
Arguments SinkNotReady {A} item.

Class Sink (T Item E : Type) := {
  start_send : Item → T → outcome E (AsyncSink Item) * T;
  poll_complete : T → outcome E (Async unit) * T;
}.
(** A stream, fused: it stays at its end. *)
Class Stream (U Item E : Type) := {
  stream_poll : U → outcome E (Async (option Item)) * U;
}.

Class SinkLaws (T Item E : Type) `{!Sink T Item E} (accepted flushed : T → list Item) : Prop := {
  start_send_spec item t : match start_send item t with
    | (Ok SinkReady, t') => accepted t' = accepted t ++ [item]
    | (Ok (SinkNotReady item'), t') => item' = item ∧ accepted t' = accepted t
    | (Err _, _) => True
    | (Panic _, _) => False
    end;
  poll_complete_spec t : match poll_complete t with
    | (Ok (Ready _), t') => accepted t' = accepted t ∧ flushed t' = accepted t
    | (Ok NotReady, t') => accepted t' = accepted t
    | (Err _, _) => True
    | (Panic _, _) => False
    end;
}.
Class StreamLaws (U Item E : Type) `{!Stream U Item E} (remaining : U → list Item) : Prop := {
  stream_poll_spec u : match stream_poll u with
    | (Ok (Ready (Some item)), u') => remaining u = item :: remaining u'
    | (Ok (Ready None), u') => remaining u = [] ∧ remaining u' = []
    | (Ok NotReady, u') => remaining u' = remaining u
    | (Err _, _) => True
    | (Panic _, _) => False
    end;
}.

(** ** The future *)

Record SendAll (T U Item : Type) := mkSendAll {
  sa_sink : option T;
  sa_stream : option U;
  sa_buffered : option Item;
}.
Arguments mkSendAll {T U Item} sa_sink sa_stream sa_buffered.
Arguments sa_sink {T U Item} s.
Arguments sa_stream {T U Item} s.
Arguments sa_buffered {T U Item} s.

Section send_all.
Context {W T U Item E : Type} `{!Sink T Item E, !Stream U Item E}.
Implicit Types f : SendAll T U Item.
Abbreviation SM := (M W (SendAll T U Item) E).

(** [new]. *)
Definition send_all_new (sink : T) (stream : U) : SendAll T U Item :=
  mkSendAll (Some sink) (Some stream) None.

Definition set_sink (t : option T) f := mkSendAll t (sa_stream f) (sa_buffered f).
Definition set_stream (u : option U) f := mkSendAll (sa_sink f) u (sa_buffered f).
Definition set_buffered (i : option Item) f := mkSendAll (sa_sink f) (sa_stream f) i.

(** A call of a method of the sink, through [sink_mut]. *)
Definition on_sink {A} (op : T → outcome E A * T) : SM A :=
  f ← mget;
  sink ← mlift (expect (sa_sink f) "Attempted to poll SendAll after completion");
  let '(r, sink') := op sink in
  _ ← mmodify (set_sink (Some sink'));
  mlift r.

(** A poll of the stream, through [stream_mut]. *)
Definition on_stream : SM (Async (option Item)) :=
  f ← mget;
  stream ← mlift (expect (sa_stream f) "Attempted to poll SendAll after completion");
  let '(r, stream') := stream_poll stream in
  _ ← mmodify (set_stream (Some stream'));
  mlift r.

(** [take_result]. *)
Definition take_result : SM (T * U) :=
  f ← mget;
  sink ← mlift (expect (sa_sink f) "Attempted to poll Forward after completion");
  _ ← mmodify (set_sink None);
  stream ← mlift (expect (sa_stream f) "Attempted to poll Forward after completion");
  _ ← mmodify (set_stream None);
  mret (sink, stream).

(** [try_start_send], with its debug assertion. *)
Definition try_start_send (item : Item) : SM (Async unit) :=
  f ← mget;
  if bool_decide (is_Some (sa_buffered f)) then panic "assertion failed: self.buffered.is_none()"
  else
    a ← on_sink (start_send item);
    match a with
    | SinkNotReady item => _ ← mmodify (set_buffered (Some item)); mret NotReady
    | SinkReady => mret (Ready tt)
    end.

(** The loop of [poll]; [None] is running out of fuel. *)
Fixpoint poll_loop (fuel : nat) : SM (option (Async (T * U))) :=
  match fuel with
  | O => mret None
  | S fuel' =>
      a ← on_stream;
      match a with
      | Ready (Some item) =>
          sent ← try_start_send item;
          match sent with
          | Ready _ => poll_loop fuel'
          | NotReady => mret (Some NotReady)
          end
      | Ready None =>
          done ← on_sink poll_complete;
          match done with
          | Ready _ => r ← take_result; mret (Some (Ready r))
          | NotReady => mret (Some NotReady)
          end
      | NotReady =>
          _ ← on_sink poll_complete;
          mret (Some NotReady)
      end
  end.

(** [poll]. *)
Definition send_poll (fuel : nat) : SM (option (Async (T * U))) :=
  f ← mget;
  match sa_buffered f with
  | Some item =>
      _ ← mmodify (set_buffered None);
      sent ← try_start_send item;
      match sent with
      | Ready _ => poll_loop fuel
      | NotReady => mret (Some NotReady)
      end
  | None => poll_loop fuel
  end.
End send_all.

(** ** Correctness *)

Section correct.
Context {W T U Item E : Type} `{!Sink T Item E, !Stream U Item E}.
Context (accepted flushed : T → list Item) (remaining : U → list Item).
Context `{!SinkLaws T Item E accepted flushed, !StreamLaws U Item E remaining}.
Implicit Types f : SendAll T U Item.

(** A future that has not completed, over a sink and a stream. *)
Definition running f t u : Prop := sa_sink f = Some t ∧ sa_stream f = Some u.

(** All items, in order: those accepted, the one held back, those to come. *)
Definition items f t u : list Item :=
  accepted t ++ option_list (sa_buffered f) ++ remaining u.

(** The sink and the stream do not fail. *)
Definition reliable : Prop :=
  (∀ (item : Item) (t : T), is_ok (E := E) (start_send item t).1 = true)
  ∧ (∀ t : T, is_ok (E := E) (poll_complete t).1 = true)
  ∧ ∀ u : U, is_ok (E := E) (stream_poll u).1 = true.

(** What a poll ends in, when all items are [l] and the stream had [k] of them
    left; [Ok None] is running out of fuel. *)
Definition polled (l : list Item) (k : nat) (o : outcome E (option (Async (T * U)))) f : Prop :=
  match o with
  | Ok (Some (Ready (t, u))) => accepted t = l ∧ flushed t = l ∧ remaining u = []
      ∧ sa_sink f = None ∧ sa_stream f = None
  | Ok (Some NotReady) => ∃ t u, running f t u ∧ items f t u = l ∧ (length (remaining u) ≤ k)%nat
  | Ok None => True
  | Err _ => ¬ reliable
  | Panic _ => False
  end.
Lemma polled_le l k k' o f : (k ≤ k')%nat → polled l k o f → polled l k' o f.
Proof.
  destruct o as [[[[t u]|]|]|e|m]; try done. simpl. intros Hk (t & u & Hr & Hi & Hl). exists t, u.
  split_and!; [done..|lia].
Qed.

(** A sink that is busy at most [patience t] times more, over a stream that
    always has its next item. *)
Definition patient (patience : T → nat) : Prop :=
  (∀ item t, match start_send item t with
    | (Ok SinkReady, t') => (patience t' ≤ patience t)%nat
    | (Ok (SinkNotReady _), t') => (patience t' < patience t)%nat
    | _ => True
    end)
  ∧ (∀ t, match poll_complete t with
    | (Ok (Ready _), t') => (patience t' ≤ patience t)%nat
    | (Ok NotReady, t') => (patience t' < patience t)%nat
    | _ => True
    end)
  ∧ ∀ u, match stream_poll u with (Ok NotReady, _) => False | _ => True end.

(** A poll that is not ready has used up some of the patience. *)
Definition progress (patience : T → nat) t (o : outcome E (option (Async (T * U)))) f : Prop :=
  patient patience → match o with
  | Ok (Some NotReady) => ∀ t', sa_sink f = Some t' → (patience t' < patience t)%nat
  | _ => True
  end.
Lemma progress_le p t t' o f : (patient p → (p t' ≤ p t)%nat) → progress p t' o f → progress p t o f.
Proof.
  intros Hle Hp Hpat. specialize (Hp Hpat). specialize (Hle Hpat).
  destruct o as [[[]|]|e|m]; try done. intros t1 Ht1. specialize (Hp t1 Ht1). lia.
Qed.

Lemma wp_on_sink {A} (op : T → outcome E A * T) f t (Q : outcome E A → SendAll T U Item → Prop) :
  sa_sink f = Some t → (∀ r t', op t = (r, t') → Q r (set_sink (Some t') f)) →
  wp (W := W) (on_sink op) f Q.
Proof.
  intros Ht HQ w. unfold on_sink. mred. rewrite Ht. mred. destruct (op t) as [r t'] eqn:Hop.
  mred. by apply HQ.
Qed.
Lemma wp_on_stream f u (Q : outcome E (Async (option Item)) → SendAll T U Item → Prop) :
  sa_stream f = Some u → (∀ r u', stream_poll u = (r, u') → Q r (set_stream (Some u') f)) →
  wp (W := W) on_stream f Q.
Proof.
  intros Hu HQ w. unfold on_stream. mred. rewrite Hu. mred. destruct (stream_poll u) as [r u'] eqn:Hp.
  mred. by apply HQ.
Qed.

(** An item goes into the sink or is held back. *)
Lemma wp_try_start_send item f t (Q : outcome E (Async unit) → SendAll T U Item → Prop) :
  sa_sink f = Some t → sa_buffered f = None →
  (∀ t', accepted t' = accepted t ++ [item] → (∀ p, patient p → (p t' ≤ p t)%nat) →
    Q (Ok (Ready tt)) (set_sink (Some t') f)) →
  (∀ t', accepted t' = accepted t → (∀ p, patient p → (p t' < p t)%nat) →
    Q (Ok NotReady) (set_buffered (Some item) (set_sink (Some t') f))) →
  (∀ e f', ¬ reliable → Q (Err e) f') → wp (W := W) (try_start_send item) f Q.
Proof.
  intros Ht Hb HR HN HE. unfold try_start_send. do 3 wp_step. rewrite Hb.
  rewrite bool_decide_eq_false_2 by (by intros []). wp_step. eapply wp_on_sink; [done|].
  intros r t' Hop. pose proof (start_send_spec item t) as Hs. rewrite Hop in Hs.
  assert (∀ p, patient p → match r with
    | Ok SinkReady => (p t' ≤ p t)%nat | Ok (SinkNotReady _) => (p t' < p t)%nat | _ => True end)
    as Hf by (intros p (Hp & _); specialize (Hp item t); by rewrite Hop in Hp).
  destruct r as [[|i]|e|m]; [| | |done]; repeat wp_step.
  - by apply HR.
  - destruct Hs as [-> Hs]. by apply HN.
  - apply HE. intros (Hr & _). specialize (Hr item t). by rewrite Hop in Hr.
Qed.

(** The end of the stream: flush, and hand sink and stream back. *)
Lemma wp_finish f t u : running f t u → sa_buffered f = None → remaining u = [] →
  wp (W := W) (done ← on_sink poll_complete;
    match done with
    | Ready _ => r ← take_result; mret (Some (Ready r))
    | NotReady => mret (Some NotReady)
    end) f (λ o f', polled (items f t u) 0 o f' ∧ (∀ p, progress p t o f') ∧ o ≠ Ok None).
Proof.
  intros [Ht Hu] Hb Hr. assert (items f t u = accepted t) as ->
    by (unfold items; by rewrite Hb, Hr, app_nil_r).
  wp_step. eapply wp_on_sink; [done|]. intros r t' Hop.
  pose proof (poll_complete_spec t) as Hs. rewrite Hop in Hs.
  destruct r as [[[]|]|e|m]; [| | |done]; cbn [wp_then].
  - destruct Hs as [Ha Hfl]. intros w. unfold take_result. mred. rewrite Hu. mred.
    split_and!; try done; by rewrite Ha.
  - wp_step. split_and!; [| |done].
    + exists t', u. split_and!; [done| |by rewrite Hr]. unfold items. simpl. by rewrite Hb, Hr, app_nil_r.
    + intros p (_ & Hp & _) t1 [= <-]. specialize (Hp t). by rewrite Hop in Hp.
  - split_and!; [|done..]. intros (_ & Hp & _). specialize (Hp t). by rewrite Hop in Hp.
Qed.

Lemma poll_loop_polled fuel : ∀ f t u, running f t u → sa_buffered f = None →
  wp (W := W) (poll_loop fuel) f (λ o f', polled (items f t u) (length (remaining u)) o f'
    ∧ (∀ p, progress p t o f') ∧ ((length (remaining u) < fuel)%nat → o ≠ Ok None)).
Proof.
  induction fuel as [|fuel IH]; intros f t u [Ht Hu] Hb; simpl.
  { wp_step. split_and!; [done..|lia]. }
  wp_step. eapply wp_on_stream; [done|]. intros r u' Hp.
  pose proof (stream_poll_spec u) as Hs. rewrite Hp in Hs.
  destruct r as [[[item|]|]|e|m]; [| | | |done]; cbn [wp_then].
  - wp_step. apply (wp_try_start_send item _ t); try done.
    + intros t' Ha Hle. cbn [wp_then]. eapply wp_mono; [apply (IH _ t' u')|]; try done.
      intros o f' (Hpol & Hpr & Hn). unfold items in *. simpl in *. rewrite Hb, Ha, Hs in *. simpl.
      rewrite <- app_assoc in Hpol.
      split_and!; [|intros p; exact (progress_le p t t' _ _ (Hle p) (Hpr p))|intros Hl; apply Hn; lia].
      eapply polled_le; [|exact Hpol]. lia.
    + intros t' Ha Hlt. repeat wp_step. split_and!; [|intros p Hfp t1 [= <-]; by apply Hlt|done].
      exists t', u'. split_and!; [done| |rewrite Hs; simpl; lia]. unfold items. simpl. by rewrite Ha, Hb, Hs.
  - destruct Hs as [Hr Hr']. eapply wp_mono; [apply (wp_finish _ t u')|]; try done.
    intros o f' (Hpol & Hpr & Hn). unfold items in *. simpl in *. rewrite Hr, Hr' in *.
    by split_and!.
  - wp_step. eapply wp_on_sink; [done|]. intros r t' Hop.
    pose proof (poll_complete_spec t) as Hc. rewrite Hop in Hc.
    assert (∀ p o f', progress p t o f') as Hpr
      by (intros p o f' (_ & _ & Hf); specialize (Hf u); by rewrite Hp in Hf).
    destruct r as [[[]|]|e|m]; repeat wp_step; (split_and!; [|done..]); try done.
    1,2: exists t', u'; split_and!; [done| |by rewrite Hs]; unfold items; simpl; rewrite Hs; f_equal; apply Hc.
    intros (_ & Hr & _). specialize (Hr t). by rewrite Hop in Hr.
  - split_and!; [|done..]. intros (_ & _ & Hr). specialize (Hr u). by rewrite Hp in Hr.
Qed.

Lemma send_poll_polled fuel f t u : running f t u →
  wp (W := W) (send_poll fuel) f (λ o f', polled (items f t u) (length (remaining u)) o f'
    ∧ (∀ p, progress p t o f') ∧ ((length (remaining u) < fuel)%nat → o ≠ Ok None)).
Proof.
  intros [Ht Hu]. unfold send_poll. do 3 wp_step.
  destruct (sa_buffered f) as [item|] eqn:Hb; [|by apply poll_loop_polled].
  do 4 wp_step. apply (wp_try_start_send item _ t); try done.
  - intros t' Ha Hle. cbn [wp_then]. eapply wp_mono; [apply (poll_loop_polled _ _ t' u)|]; try done.
    intros o f' (Hpol & Hpr & Hn). unfold items in *. simpl in *. rewrite Hb, Ha in *.
    rewrite <- app_assoc in Hpol. split_and!; [done| |done]. intros p. exact (progress_le p t t' _ _ (Hle p) (Hpr p)).
  - intros t' Ha Hlt. repeat wp_step. split_and!; [|intros p Hfp t1 [= <-]; by apply Hlt|done].
    exists t', u. split_and!; [done| |done]. unfold items. simpl. by rewrite Ha, Hb.
Qed.

(** ** Driving the future *)

(** Poll up to [n] times, as the executor does when it is notified. *)
Fixpoint drive (n fuel : nat) : M W (SendAll T U Item) E (option (T * U)) :=
  match n with
  | O => mret None
  | S n' =>
      a ← send_poll fuel;
      match a with
      | Some (Ready r) => mret (Some r)
      | Some NotReady => drive n' fuel
      | None => mret None
      end
  end.

Lemma drive_ends p n fuel : patient p → ∀ f t u, running f t u → (p t < n)%nat →
  (length (remaining u) < fuel)%nat →
  wp (W := W) (drive n fuel) f (λ o _, match o with
    | Ok (Some (t', u')) => accepted t' = items f t u ∧ flushed t' = items f t u ∧ remaining u' = []
    | Err _ => ¬ reliable
    | _ => False
    end).
Proof.
  intros Hpat. induction n as [|n IH]; intros f t u Hr Hn Hl; [lia|]. simpl. wp_step.
  eapply wp_mono; [by apply send_poll_polled|]. intros o f' (Hpol & Hpr & Hfuel).
  specialize (Hpr p Hpat). specialize (Hfuel Hl).
  destruct o as [[[[t' u']|]|]|e|m]; try done; cbn [wp_then].
  - wp_step. by destruct Hpol as (? & ? & ? & _).
  - destruct Hpol as (t' & u' & Hr' & Hi & Hl'). rewrite <- Hi. apply IH; [done| |lia].
    specialize (Hpr t' (proj1 Hr')). lia.
Qed.

(** While the future is not ready, the items are split between sink, buffer and
    stream. *)
Lemma drive_pending n fuel : ∀ f t u, running f t u → (length (remaining u) < fuel)%nat →
  wp (W := W) (drive n fuel) f (λ o f', o = Ok None →
    ∃ t' u', running f' t' u' ∧ items f' t' u' = items f t u).
Proof.
  induction n as [|n IH]; intros f t u Hr Hl; simpl; wp_step; [by eauto|].
  eapply wp_mono; [by apply send_poll_polled|]. intros o f' (Hpol & _ & Hfuel). specialize (Hfuel Hl).
  destruct o as [[[[t' u']|]|]|e|m]; cbn [wp_then]; try done.
  destruct Hpol as (t' & u' & Hr' & <- & Hl'). apply IH; [done|lia].
Qed.

(** *** What the sink's operations keep *)

Section keeps.
Context (R : T → Prop).
Hypothesis start_send_keeps : ∀ (item : Item) t, R t → R (start_send (E := E) item t).2.
Hypothesis poll_complete_keeps : ∀ t, R t → R (poll_complete (E := E) t).2.

Definition kept {A} (sink_of : A → option T) (o : outcome E A) f : Prop :=
  from_option R True (sa_sink f) ∧ match o with Ok a => from_option R True (sink_of a) | _ => True end.
Definition sink_of_poll (a : option (Async (T * U))) : option T :=
  match a with Some (Ready (t, _)) => Some t | _ => None end.

Lemma wp_on_sink_keeps {A} (op : T → outcome E A * T) f : (∀ t, R t → R (op t).2) →
  from_option R True (sa_sink f) → wp (W := W) (on_sink op) f (kept (λ _, None)).
Proof.
  intros Hop Hf w. unfold on_sink. mred. destruct (sa_sink f) as [t|] eqn:Ht;
    [|split; simpl; by rewrite ?Ht].
  mred. specialize (Hop t Hf). destruct (op t) as [r t']. mred. split; [done|by destruct r].
Qed.
Lemma wp_try_start_send_keeps item f : from_option R True (sa_sink f) →
  wp (W := W) (try_start_send item) f (kept (λ _, None)).
Proof.
  intros Hf. unfold try_start_send. do 3 wp_step. destruct (bool_decide _); [wp_step; by split|]. wp_step.
  eapply wp_mono; [apply wp_on_sink_keeps; [apply start_send_keeps|done]|]. intros o f' [Hf' _].
  destruct o as [[|i]|e|m]; repeat wp_step; by split.
Qed.
Lemma poll_loop_keeps fuel : ∀ f, from_option R True (sa_sink f) →
  wp (W := W) (poll_loop fuel) f (kept sink_of_poll).
Proof.
  induction fuel as [|fuel IH]; intros f Hf; simpl; [by wp_step|]. wp_step.
  assert (wp (W := W) on_stream f (λ _ f', sa_sink f' = sa_sink f)) as Hs.
  { intros w. unfold on_stream. mred. destruct (sa_stream f); [|done]. mred. by destruct (stream_poll _). }
  eapply wp_mono; [exact Hs|]. intros o f1 Hf1. rewrite <- Hf1 in Hf.
  destruct o as [[[item|]|]|e|m]; cbn [wp_then]; try by split.
  - wp_step. eapply wp_mono; [by apply wp_try_start_send_keeps|]. intros o f' [Hf' _].
    destruct o as [[[]|]|e|m]; cbn [wp_then]; [by apply IH|wp_step|..]; by split.
  - wp_step. eapply wp_mono; [apply wp_on_sink_keeps; [apply poll_complete_keeps|done]|]. intros o f' [Hf' _].
    destruct o as [[[]|]|e|m]; cbn [wp_then]; [|wp_step; by split|by split..].
    intros w. unfold take_result. mred. destruct (sa_sink f') eqn:Hk; [|split; simpl; by rewrite ?Hk].
    mred. by destruct (sa_stream f').
  - wp_step. eapply wp_mono; [apply wp_on_sink_keeps; [apply poll_complete_keeps|done]|]. intros o f' [Hf' _].
    destruct o; repeat wp_step; by split.
Qed.
Lemma drive_keeps n fuel : ∀ f, from_option R True (sa_sink f) →
  wp (W := W) (drive n fuel) f (kept (fmap fst)).
Proof.
  induction n as [|n IH]; intros f Hf; simpl; [by wp_step|]. wp_step.
  assert (wp (W := W) (send_poll fuel) f (kept sink_of_poll)) as Hp.
  { unfold send_poll. do 3 wp_step. destruct (sa_buffered f) as [item|]; [|by apply poll_loop_keeps].
    do 4 wp_step. eapply wp_mono; [by apply wp_try_start_send_keeps|]. intros o f' [Hf' _].
    destruct o as [[[]|]|e|m]; cbn [wp_then]; [by apply poll_loop_keeps|wp_step|..]; by split. }
  eapply wp_mono; [exact Hp|]. intros o f' [Hf' Ho].
  destruct o as [[[[t u]|]|]|e|m]; cbn [wp_then]; try (wp_step; by split); [by apply IH|by split..].
Qed.
End keeps.

(** ** Properties *)

(** One poll loses, repeats and reorders nothing: with fuel for the items
    left it ends without a panic, either not ready with the same items split
    between sink, buffer and stream, or ready with all of them accepted and
    flushed by a sink that is handed back open. *)
Theorem send_poll_exact fuel f t u (w : W) : running f t u →
  (length (remaining u) < fuel)%nat →
  match send_poll fuel f w with
  | (Ok (Some (Ready (t', u'))), f', _) => accepted t' = items f t u ∧ flushed t' = items f t u
      ∧ remaining u' = [] ∧ sa_sink f' = None ∧ sa_stream f' = None
  | (Ok (Some NotReady), f', _) => ∃ t' u', running f' t' u' ∧ items f' t' u' = items f t u
  | (Ok None, _, _) => False
  | (Err _, _, _) => True
  | (Panic _, _, _) => False
  end.
Proof.
  intros Hr Hl. destruct (send_poll_polled fuel f t u Hr w) as (Hpol & _ & Hn).
  unfold out, post in *. destruct (send_poll fuel f w) as [[[[[[t' u']|]|]|e|m] f'] w']; try done.
  - destruct Hpol as (t' & u' & ? & ? & _). by exists t', u'.
  - by specialize (Hn Hl).
Qed.

(** C22: over a sink that is busy only finitely often and does not fail, the
    future completes after at most one poll more than that, each of them with at
    most one turn of its loop more than there are items, and the sink has then
    accepted and flushed exactly the items of the stream after what it had
    before. *)
Theorem send_all_completes p t u (w : W) : patient p → reliable →
  ∃ t' u', out (drive (S (p t)) (S (length (remaining u))) (send_all_new t u) w) = Ok (Some (t', u'))
  ∧ accepted t' = accepted t ++ remaining u ∧ flushed t' = accepted t ++ remaining u.
Proof.
  intros Hp Hrel. pose proof (drive_ends p (S (p t)) (S (length (remaining u))) Hp (send_all_new t u) t u
    (conj eq_refl eq_refl) (Nat.lt_succ_diag_r _) (Nat.lt_succ_diag_r _) w) as Hd.
  destruct (out _) as [[[t' u']|]|e|m]; try done. destruct Hd as (Ha & Hf & _). by exists t', u'.
Qed.
End correct.

(** ** Witnesses *)

Module SendAllWitnesses.

(** A sink that is busy as often as its list says, and a list as a stream. *)
Record queue := mkQueue { q_log : list Z; q_flushed : list Z; q_busy : nat }.
#[export] Instance queue_sink : Sink queue Z string := {|
  start_send i q := match q_busy q with
    | S n => (Ok (SinkNotReady i), mkQueue (q_log q) (q_flushed q) n)
    | O => (Ok SinkReady, mkQueue (q_log q ++ [i]) (q_flushed q) 0)
    end;
  poll_complete q := (Ok (Ready tt), mkQueue (q_log q) (q_log q) (q_busy q));
|}.
#[export] Instance list_stream : Stream (list Z) Z string := {|
  stream_poll l := match l with
    | i :: l' => (Ok (Ready (Some i)), l')
    | [] => (Ok (Ready None), [])
    end;
|}.
#[export] Instance queue_laws : SinkLaws queue Z string q_log q_flushed.
Proof. split; [by intros i [? ? []]|by intros []]. Qed.
#[export] Instance list_laws : StreamLaws (list Z) Z string id.
Proof. split. by intros []. Qed.

Definition busy_queue : queue := mkQueue [1] [] 2.
Definition sending : SendAll queue (list Z) Z := send_all_new busy_queue [2; 3].

Lemma send_poll_exact_witness :
  match send_poll 3 sending tt with
  | (Ok (Some (Ready (t', u'))), f', _) => q_log t' = [1; 2; 3] ∧ q_flushed t' = [1; 2; 3]
      ∧ u' = [] ∧ sa_sink f' = None ∧ sa_stream f' = None
  | (Ok (Some NotReady), f', _) => ∃ t' u', running f' t' u' ∧ items q_log id f' t' u' = [1; 2; 3]
  | (Ok None, _, _) => False
  | (Err _, _, _) => True
  | (Panic _, _, _) => False
  end.
Proof.
  refine (send_poll_exact q_log q_flushed id 3 sending busy_queue [2; 3] tt _ _);
    [by split|simpl; lia].
Defined.

Lemma queue_patient : patient (T := queue) (U := list Z) (Item := Z) (E := string) q_busy.
Proof.
  split_and!; [intros i [? ? []]; simpl; lia|intros []; simpl; lia|by intros []].
Qed.
Lemma queue_reliable : reliable (T := queue) (U := list Z) (Item := Z) (E := string).
Proof. split_and!; [by intros i [? ? []]|by intros []|by intros []]. Qed.
Lemma send_all_completes_witness : ∃ t' u',
  out (drive (S (q_busy busy_queue)) 3 sending tt) = Ok (Some (t', u'))
  ∧ q_log t' = q_log busy_queue ++ [2; 3] ∧ q_flushed t' = q_log busy_queue ++ [2; 3].
Proof.
  refine (send_all_completes q_log q_flushed id q_busy busy_queue [2; 3] tt _ _).
  - exact queue_patient.
  - exact queue_reliable.
Defined.
End SendAllWitnesses.
