(* ===== verification/Client.v ===== *)
(** * The client and the handshake driver

    The public part of src/lib.rs up to the task phase: the builder, the methods
    of [SaltyClient], the decoding of WebSocket messages, and the loop of
    [do_handshake] that feeds incoming messages to the signaling object, sends
    its replies and reports its events.

    The WebSocket connection (crate websocket, driven through [SendAll]) and the
    event channel (crate futures) are parameters.  The lock around the client
    is taken within one closure call only, so the client is a plain value.
    [do_handshake] is the loop with fuel: one unit per message of the connection
    and one more are enough.  [handshake_future] is the future the function
    returns, with the timer that may wrap the loop: the timer can end it wherever
    the loop waits for the connection. *)

From S2P Require Import Prelude Text External Errors Types Csn Cookie Nonce Crypto Tasks Messages.
From S2P Require Import Boxes Context Signaling Initiator Responder.

(** ** The builder *)

Record SaltyClientBuilder (T : Type) := mkSaltyClientBuilder {
  b_permanent_key : KeyPair;
  b_tasks : list T;
  b_ping_interval : option Duration;
  b_server_public_permanent_key : option PublicKey;
}.
Arguments mkSaltyClientBuilder {T}.
Arguments b_permanent_key {T} s.
Arguments b_tasks {T} s.
Arguments b_ping_interval {T} s.
Arguments b_server_public_permanent_key {T} s.

Section builder.
Context {T : Type} `{!Task T, !Env}.
Implicit Types b : SaltyClientBuilder T.

(** [SaltyClientBuilder::new], [add_task], [with_server_key] and
    [with_ping_interval]. *)
Definition builder_new (permanent_key : KeyPair) : SaltyClientBuilder T :=
  mkSaltyClientBuilder permanent_key [] None None.
Definition builder_add_task (task : T) b : SaltyClientBuilder T :=
  mkSaltyClientBuilder (b_permanent_key b) (b_tasks b ++ [task]) (b_ping_interval b)
    (b_server_public_permanent_key b).
Definition with_server_key (key : PublicKey) b : SaltyClientBuilder T :=
  mkSaltyClientBuilder (b_permanent_key b) (b_tasks b) (b_ping_interval b) (Some key).
Definition with_ping_interval (interval : option Duration) b : SaltyClientBuilder T :=
  mkSaltyClientBuilder (b_permanent_key b) (b_tasks b) interval (b_server_public_permanent_key b).

(** The list of tasks, or the builder's error. *)
Definition builder_tasks b : outcome BuilderError (Tasks T) :=
  map_err (λ _, MissingTask) (tasks_from_vec (b_tasks b)).

(** [initiator], [initiator_trusted], [responder] and [responder_trusted]. *)
Definition build_initiator {S} b : M env S BuilderError (InitiatorSignaling T) :=
  tasks ← mlift (builder_tasks b);
  initiator_signaling_new (b_permanent_key b) tasks None
    (b_server_public_permanent_key b) (b_ping_interval b).
Definition build_initiator_trusted {S} (responder_trusted_pubkey : PublicKey) b
    : M env S BuilderError (InitiatorSignaling T) :=
  tasks ← mlift (builder_tasks b);
  initiator_signaling_new (b_permanent_key b) tasks (Some responder_trusted_pubkey)
    (b_server_public_permanent_key b) (b_ping_interval b).
Definition build_responder {S} (initiator_pubkey : PublicKey) (auth_token : AuthToken) b
    : M env S BuilderError (ResponderSignaling T) :=
  tasks ← mlift (builder_tasks b);
  responder_signaling_new (b_permanent_key b) initiator_pubkey (Some auth_token)
    (b_server_public_permanent_key b) tasks (b_ping_interval b).
Definition build_responder_trusted {S} (initiator_trusted_pubkey : PublicKey) b
    : M env S BuilderError (ResponderSignaling T) :=
  tasks ← mlift (builder_tasks b);
  responder_signaling_new (b_permanent_key b) initiator_trusted_pubkey None
    (b_server_public_permanent_key b) tasks (b_ping_interval b).
End builder.

(** ** The client's methods *)

(** The error mapping of [encrypt_task_message] and [encrypt_close_message]. *)
Definition encrypt_error (e : SignalingError) : SaltyError :=
  match e with
  | SignalingError.Crypto msg => SaltyError.Crypto msg
  | SignalingError.Decode msg => SaltyError.Decode msg
  | SignalingError.Protocol msg => SaltyError.Protocol msg
  | SignalingError.Crash msg => SaltyError.Crash msg
  | other => SaltyError.Crash ("Unexpected signaling error: "
      +:+ SignalingError.signaling_error_to_string other)
  end.

Section methods.
Context {T S : Type} `{!Task T, !Env, !Signaling T S}.
Context `{!ByteOrder, !Sodium, !Rmps}.

(** [SaltyClient] is the signaling object of one of the two roles; [role],
    [auth_token], [initiator_pubkey], [task] and [current_peer_sequence_numbers]
    hand its own on. *)
Definition client_role (s : S) : Role := c_role (common s).
Definition client_auth_token (s : S) : option AuthToken := auth_token s.
Definition client_initiator_pubkey (s : S) : PublicKey := initiator_pubkey s.
Definition client_task (s : S) : option T := c_task (common s).
Definition client_peer_sequence_numbers (s : S) : option PeerSequenceNumbers :=
  current_peer_sequence_numbers s.
(** The name under which [task_loop] announces the task. *)
Definition announced_task (s : S) : string :=
  match client_task s with Some t => task_name t | None => "Unknown" end.

(** [SaltyClient::encrypt_task_message] and [encrypt_close_message]. *)
Definition encrypt_task_message (val : Value) : M env S SaltyError bytes :=
  bbox ← mmap_err encrypt_error (encode_task_message val);
  mret (byte_box_into_bytes bbox).
Definition encrypt_close_message (reason : CloseCode) : M env S SaltyError bytes :=
  bbox ← mmap_err encrypt_error (encode_close_message reason);
  mret (byte_box_into_bytes bbox).

(** [SaltyClient::encrypt_raw_with_session_keys] and its inverse. *)
Definition encrypt_raw (data nonce : bytes) (s : S) : outcome SaltyError bytes :=
  sodium_nonce ← ok_or (key_from_slice NONCEBYTES nonce) (SaltyError.Crypto "Invalid nonce bytes");
  map_err SaltyError.from_signaling (encrypt_raw_with_session_keys data sodium_nonce s).
Definition decrypt_raw (data nonce : bytes) (s : S) : outcome SaltyError bytes :=
  sodium_nonce ← ok_or (key_from_slice NONCEBYTES nonce) (SaltyError.Crypto "Invalid nonce bytes");
  map_err SaltyError.from_signaling (decrypt_raw_with_session_keys data sodium_nonce s).
End methods.

(** ** WebSocket messages *)

(** The message type of the websocket crate. *)
Record CloseData := mkCloseData { status_code : Z; close_text : string }.
Module OwnedMessage.
Inductive OwnedMessage :=
  | Text (payload : string)
  | Binary (bs : bytes)
  | Close (data : option CloseData)
  | Ping (payload : bytes)
  | Pong (payload : bytes).
End OwnedMessage.
Abbreviation OwnedMessage := OwnedMessage.OwnedMessage.

Module WsMessageDecoded.
Inductive WsMessageDecoded :=
  | ByteBox (bbox : ByteBox)
  | Ping (payload : bytes)
  | Close (code : option CloseCode)
  | Ignore.
End WsMessageDecoded.
Abbreviation WsMessageDecoded := WsMessageDecoded.WsMessageDecoded.

(** [decode_ws_message]. *)
Definition decode_ws_message `{!ByteOrder} (msg : OwnedMessage)
    : outcome SaltyError WsMessageDecoded :=
  match msg with
  | OwnedMessage.Binary bs =>
      bbox ← map_err (λ e, SaltyError.Protocol (SignalingError.signaling_error_to_string e))
        (byte_box_from_slice bs);
      Ok (WsMessageDecoded.ByteBox bbox)
  | OwnedMessage.Ping payload => Ok (WsMessageDecoded.Ping payload)
  | OwnedMessage.Pong _ => Ok WsMessageDecoded.Ignore
  | OwnedMessage.Close (Some data) =>
      Ok (WsMessageDecoded.Close (Some (CloseCode.from_number (status_code data))))
  | OwnedMessage.Close None => Ok (WsMessageDecoded.Close None)
  | OwnedMessage.Text _ => Ok WsMessageDecoded.Ignore
  end.

(** ** The connection and the event channel *)

(** The next message of the connection; a list of messages sent through it; and
    the states of the connection while they are being sent.  An error is given
    by its text. *)
Class WsClient (C : Type) := {
  ws_next : C → outcome string (option OwnedMessage) * C;
  ws_send_all : list OwnedMessage → C → outcome string unit * C;
  ws_partly : list OwnedMessage → C → C → Prop;
}.
(** [mpsc::UnboundedSender]: [false] if the receiver is gone. *)
Class EventChannel (Ch : Type) := { unbounded_send : Event → Ch → bool * Ch }.

(** Everything [do_handshake] works on. *)
Record Driver (S C Ch : Type) := mkDriver { d_salty : S; d_client : C; d_events : Ch }.
Arguments mkDriver {S C Ch} d_salty d_client d_events.
Arguments d_salty {S C Ch} d.
Arguments d_client {S C Ch} d.
Arguments d_events {S C Ch} d.

(** [futures::future::Loop], without the client it carries. *)
Inductive Loop := Break | Continue.

Section driver.
Context {T S C Ch : Type} `{!Task T, !Env, !Signaling T S, !WsClient C, !EventChannel Ch}.
Context `{!ByteOrder, !Sodium, !Rmps}.
Abbreviation DM := (M env (Driver S C Ch) SaltyError).
Implicit Types d : Driver S C Ch.

Definition set_salty (s : S) d : Driver S C Ch := mkDriver s (d_client d) (d_events d).
Definition set_client (c : C) d : Driver S C Ch := mkDriver (d_salty d) c (d_events d).
Definition set_events (ch : Ch) d : Driver S C Ch := mkDriver (d_salty d) (d_client d) ch.

(** Send messages through the connection, with the prefix of the error text. *)
Definition send_messages (prefix : string) (ms : list OwnedMessage) : DM unit :=
  d ← mget;
  let '(r, c) := ws_send_all ms (d_client d) in
  _ ← mmodify (set_client c);
  mlift (map_err (λ e, SaltyError.Network (prefix +:+ e)) r).

(** Report an event. *)
Definition send_event (e : Event) : DM unit :=
  d ← mget;
  let '(sent, ch) := unbounded_send e (d_events d) in
  _ ← mmodify (set_events ch);
  if (sent : bool) then mret tt
  else throw (SaltyError.Crash "Could not send event through channel").

(** The first two stages: the next message of the connection, decoded. *)
Definition next_message : DM WsMessageDecoded :=
  d ← mget;
  let '(r, c) := ws_next (d_client d) in
  _ ← mmodify (set_client c);
  msg_option ← mlift (map_err (λ e, SaltyError.Network
    ("Could not receive message from server: " +:+ e)) r);
  match msg_option with
  | Some msg => mlift (decode_ws_message msg)
  | None => throw (SaltyError.Network "Server message stream ended without close message")
  end.

(** [PipelineAction] and [preprocess_ws_message]. *)
Inductive PipelineAction :=
  | PipelineByteBox (bbox : ByteBox)
  | PipelineFuture (f : DM Loop).

Definition preprocess_ws_message (decoded : WsMessageDecoded) : PipelineAction :=
  match decoded with
  | WsMessageDecoded.ByteBox bbox => PipelineByteBox bbox
  | WsMessageDecoded.Ping payload => PipelineFuture
      (_ ← send_messages "Could not send pong message: " [OwnedMessage.Pong payload];
       mret Continue)
  | WsMessageDecoded.Close _ => PipelineFuture (mret Break)
  | WsMessageDecoded.Ignore => PipelineFuture (mret Continue)
  end.

(** What the loop over the actions collects: the messages to send, whether the
    handshake is done, and the first error to report late. *)
Definition collected : Type := list OwnedMessage * bool * option SaltyError.

Definition collect_action (acc : collected) (action : HandleAction) : DM collected :=
  let '(messages, handshake_done, late_error) := acc in
  match action with
  | HandleAction.Reply bbox =>
      mret (messages ++ [OwnedMessage.Binary (byte_box_into_bytes bbox)], handshake_done, late_error)
  | HandleAction.HandshakeDone =>
      _ ← send_event Event.PeerHandshakeDone; mret (messages, true, late_error)
  | HandleAction.TaskMessage _ =>
      throw (SaltyError.Crash "Received task message during handshake")
  | HandleAction.Event e => _ ← send_event e; mret acc
  | HandleAction.HandshakeError e =>
      mret (messages, handshake_done, match late_error with Some e' => Some e' | None => Some e end)
  end.

Definition loop_action (handshake_done : bool) : Loop := if handshake_done then Break else Continue.

(** A call of a method of the signaling object; its error becomes a public one. *)
Definition on_salty {A} (m : M env S SignalingError A) : DM A := λ d w,
  let '(o, s', w') := m (d_salty d) w in
  (map_err SaltyError.from_signaling o, set_salty s' d, w').

(** The actions a message caused: report the events, then send the answers. *)
Definition perform_actions (handle_actions : list HandleAction) : DM Loop :=
  acc ← mfor collect_action ([], false, None) handle_actions;
  let '(messages, handshake_done, late_error) := acc in
  if bool_decide (messages = []) then mret (loop_action handshake_done)
  else
    _ ← send_messages "Could not send message: " messages;
    match late_error with
    | Some e => throw e
    | None => mret (loop_action handshake_done)
    end.

(** The handling of a box: the last stage of the pipeline. *)
Definition process_box (bbox : ByteBox) : DM Loop :=
  handle_actions ← on_salty (handle_message bbox);
  perform_actions handle_actions.

(** One turn of the loop of [do_handshake]. *)
Definition handshake_turn : DM Loop :=
  decoded ← next_message;
  match preprocess_ws_message decoded with
  | PipelineByteBox bbox => process_box bbox
  | PipelineFuture f => f
  end.

(** [do_handshake] without a timeout; [false] is running out of fuel. *)
Fixpoint do_handshake (fuel : nat) : DM bool :=
  match fuel with
  | O => mret false
  | Datatypes.S fuel' =>
      turn ← handshake_turn;
      match turn with
      | Break => mret true
      | Continue => do_handshake fuel'
      end
  end.

(** *** The timer *)

(** The part of a turn before the messages are sent: what they are, and
    everything else done. *)
Definition turn_outbox : DM (list OwnedMessage) :=
  decoded ← next_message;
  match decoded with
  | WsMessageDecoded.ByteBox bbox =>
      handle_actions ← on_salty (handle_message bbox);
      acc ← mfor collect_action ([], false, None) handle_actions;
      mret acc.1.1
  | WsMessageDecoded.Ping payload => mret [OwnedMessage.Pong payload]
  | WsMessageDecoded.Close _ | WsMessageDecoded.Ignore => mret []
  end.

(** The future of [do_handshake]: how it can end.  The timer polls the loop
    first, so it fires only while the loop waits: for the next message, or for
    messages to be sent, of which the connection has then taken a part. *)
Inductive handshake_future (timeout : option Duration)
    : Driver S C Ch → env → outcome SaltyError unit → Driver S C Ch → env → Prop :=
  | hf_break d w d' w' : handshake_turn d w = (Ok Break, d', w') →
      handshake_future timeout d w (Ok tt) d' w'
  | hf_error d w e d' w' : handshake_turn d w = (Err e, d', w') →
      handshake_future timeout d w (Err e) d' w'
  | hf_panic d w m d' w' : handshake_turn d w = (Panic m, d', w') →
      handshake_future timeout d w (Panic m) d' w'
  | hf_continue d w d1 w1 o d' w' : handshake_turn d w = (Ok Continue, d1, w1) →
      handshake_future timeout d1 w1 o d' w' → handshake_future timeout d w o d' w'
  | hf_waiting t d w : timeout = Some t → handshake_future timeout d w (Err SaltyError.from_timeout) d w
  | hf_sending t d w ms d1 w1 c : timeout = Some t → turn_outbox d w = (Ok ms, d1, w1) →
      ms ≠ [] → ws_partly ms (d_client d1) c →
      handshake_future timeout d w (Err SaltyError.from_timeout) (set_client c d1) w1.
End driver.
