(* ===== verification/ClientProps.v ===== *)
(** * Properties of the client and of the handshake driver

    What the loop of [do_handshake] guarantees over any connection and either
    role: it ends, it is safe, it sends the answers and reports the events in
    order, and its success means the task phase or a Close message of the
    server.  The connection and the event channel are known by the laws
    [WsClientLaws] and [EventChannelLaws].  The file also holds the theorems on
    the builder and on raw encryption. *)

From S2P Require Import Prelude Text External Errors Types Csn Cookie Nonce Crypto Tasks Messages.
From S2P Require Import ReferenceCodec Boxes Context Signaling SignalingSpec SignalingSafe Runs.
From S2P Require Import Initiator InitiatorSafe Responder ResponderSafe Handshake.
From S2P Require Import Protocol Actions Client.


(** ** The connection and the channel *)

(** A connection as the list of messages still to arrive and the list of those
    sent. *)
Class WsClientLaws (C : Type) `{!WsClient C} (incoming sent : C → list OwnedMessage) : Prop := {
  ws_next_spec c : match ws_next c with
    | (Ok (Some m), c') => incoming c = m :: incoming c' ∧ sent c' = sent c
    | (Ok None, c') => incoming c = [] ∧ incoming c' = [] ∧ sent c' = sent c
    | (Err _, c') => incoming c' = incoming c
    | (Panic _, _) => False
    end;
  ws_send_all_spec ms c : match ws_send_all ms c with
    | (Ok _, c') => incoming c' = incoming c ∧ sent c' = sent c ++ ms
    | (Err _, c') => incoming c' = incoming c
    | (Panic _, _) => False
    end;
  ws_partly_spec ms c c' : ws_partly ms c c' →
    incoming c' = incoming c ∧ sent c' `prefix_of` sent c ++ ms;
}.
Class EventChannelLaws (Ch : Type) `{!EventChannel Ch} (reported : Ch → list Event) : Prop := {
  unbounded_send_spec e ch : match unbounded_send e ch with
    | (true, ch') => reported ch' = reported ch ++ [e]
    | (false, ch') => reported ch' = reported ch
    end;
}.

(** The bytes of a message. *)
Definition wf_ws (m : OwnedMessage) : Prop :=
  match m with OwnedMessage.Binary bs => wf_bytes bs | _ => True end.
#[export] Instance wf_ws_dec m : Decision (wf_ws m).
Proof. destruct m; apply _. Defined.
Definition is_close (m : OwnedMessage) : bool :=
  match m with OwnedMessage.Close _ => true | _ => false end.

(** The events a list of actions reports. *)
Definition events_of (acts : list HandleAction) : list Event :=
  omap (λ a, match a with
    | HandleAction.HandshakeDone => Some Event.PeerHandshakeDone
    | HandleAction.Event e => Some e
    | _ => None
    end) acts.
Definition outgoing `{!ByteOrder} (acts : list HandleAction) : list OwnedMessage :=
  map (λ b, OwnedMessage.Binary (byte_box_into_bytes b)) (replies acts).
Definition finishes (acts : list HandleAction) : bool :=
  existsb (λ a, match a with HandleAction.HandshakeDone => true | _ => false end) acts.
Definition first_error (acts : list HandleAction) : option SaltyError :=
  head (omap (λ a, match a with HandleAction.HandshakeError e => Some e | _ => None end) acts).
Definition is_task_action (a : HandleAction) : Prop :=
  match a with HandleAction.TaskMessage _ => True | _ => False end.

Section driver.
Context {T S C Ch : Type} `{!Task T, !Env, !Signaling T S, !WsClient C, !EventChannel Ch}.
Context `{!ByteOrder, !ByteOrderLaws, !Sodium, !SodiumLaws, !Rmps, !RmpsLaws}.
Context (incoming sent : C → list OwnedMessage) (reported : Ch → list Event).
Context `{!WsClientLaws C incoming sent, !EventChannelLaws Ch reported}.
Implicit Types d : Driver S C Ch.

(** ** The effects of the driver *)

Lemma wp_send_messages prefix ms d (Q : outcome SaltyError unit → Driver S C Ch → Prop) :
  (∀ c, incoming c = incoming (d_client d) → sent c = sent (d_client d) ++ ms →
    Q (Ok tt) (set_client c d)) →
  (∀ e c, incoming c = incoming (d_client d) → Q (Err e) (set_client c d)) →
  wp (W := env) (send_messages prefix ms) d Q.
Proof.
  intros HQ HE w. unfold send_messages. mred. pose proof (ws_send_all_spec ms (d_client d)) as Hs.
  destruct (ws_send_all ms (d_client d)) as [[[]|e|m] c]; mred; [|by apply HE|done].
  destruct Hs. by apply HQ.
Qed.
Lemma wp_send_event e d (Q : outcome SaltyError unit → Driver S C Ch → Prop) :
  (∀ ch, reported ch = reported (d_events d) ++ [e] → Q (Ok tt) (set_events ch d)) →
  (∀ ch, Q (Err (SaltyError.Crash "Could not send event through channel")) (set_events ch d)) →
  wp (W := env) (send_event e) d Q.
Proof.
  intros HQ HE w. unfold send_event. mred. pose proof (unbounded_send_spec e (d_events d)) as Hs.
  destruct (unbounded_send e (d_events d)) as [[] ch]; mred; [by apply HQ|by apply HE].
Qed.
Lemma wp_on_salty {A} (m : M env S SignalingError A) d (Q : outcome SaltyError A → Driver S C Ch → Prop) :
  wp m (d_salty d) (λ o s, Q (map_err SaltyError.from_signaling o) (set_salty s d)) →
  wp (on_salty m) d Q.
Proof.
  intros HQ w. specialize (HQ w). unfold on_salty, out, post in *.
  by destruct (m (d_salty d) w) as [[o s'] w'].
Qed.

(** What the loop over the actions collects, reports and leaves alone. *)
Definition collects acts (acc : collected) d (o : outcome SaltyError collected) d' : Prop :=
  d_salty d' = d_salty d ∧ d_client d' = d_client d ∧ is_panic o = false ∧
  ∀ acc', o = Ok acc' →
    acc' = (acc.1.1 ++ outgoing acts, acc.1.2 || finishes acts,
      match acc.2 with Some e => Some e | None => first_error acts end)
    ∧ reported (d_events d') = reported (d_events d) ++ events_of acts
    ∧ Forall (λ a, ¬ is_task_action a) acts.

Lemma collects_cons a acts acc acc1 d d1 o d' :
  collects [a] acc d (Ok acc1) d1 → collects acts acc1 d1 o d' → collects (a :: acts) acc d o d'.
Proof.
  intros (Hs & Hc & _ & Ha) (Hs' & Hc' & Hp & Ho). destruct (Ha _ eq_refl) as (-> & Hr & Ht).
  split_and!; [congruence..|done|]. intros acc' ->. destruct (Ho _ eq_refl) as (-> & Hr' & Ht').
  rewrite Hr', Hr. cbn [fst snd]. unfold outgoing, replies, events_of, finishes, first_error.
  rewrite <- !app_assoc, <- map_app, <- !omap_app, <- orb_assoc. simpl. rewrite orb_false_r.
  split_and!; [|done|by inversion Ht; constructor]. f_equal.
  by destruct (acc.2), a.
Qed.
Lemma collect_action_spec a acc d :
  wp (W := env) (collect_action acc a) d (collects [a] acc d).
Proof.
  destruct acc as [[ms fin] err], a; simpl; repeat wp_step;
    try (apply wp_send_event; [intros ch Hch|intros ch]; cbn [wp_then]; try wp_step);
    (split_and!; [done..|]); intros acc' [= <-];
    rewrite ?Hch; simpl; rewrite ?app_nil_r, ?orb_false_r, ?orb_true_r;
    (split_and!; [by destruct err|done|by repeat constructor; intros []]).
Qed.
Lemma collect_spec acts : ∀ acc d,
  wp (W := env) (mfor collect_action acc acts) d (collects acts acc d).
Proof.
  induction acts as [|a acts IH]; intros acc d; cbn [mfor].
  { wp_step. split_and!; [done..|]. intros acc' [= <-]. destruct acc as [[ms fin] err]. simpl.
    rewrite !app_nil_r, orb_false_r. split_and!; [by destruct err|done|done]. }
  wp_step. eapply wp_mono; [apply collect_action_spec|]. intros [acc1|e|m] d1 Ha; cbn [wp_then].
  - eapply wp_mono; [apply IH|]. intros o d'. by apply collects_cons.
  - destruct Ha as (? & ? & _). by split_and!.
  - by destruct Ha as (_ & _ & ? & _).
Qed.

(** On success the answers go out in order, the events are reported in order,
    and the loop goes on unless the handshake ended. *)
Definition performed acts d l d' : Prop :=
  sent (d_client d') = sent (d_client d) ++ outgoing acts
  ∧ reported (d_events d') = reported (d_events d) ++ events_of acts
  ∧ l = loop_action (finishes acts)
  ∧ (outgoing acts ≠ [] → first_error acts = None)
  ∧ Forall (λ a, ¬ is_task_action a) acts.

Lemma perform_actions_spec acts d :
  wp (W := env) (perform_actions acts) d (λ o d',
    d_salty d' = d_salty d ∧ incoming (d_client d') = incoming (d_client d)
    ∧ is_panic o = false ∧ ∀ l, o = Ok l → performed acts d l d').
Proof.
  unfold perform_actions. wp_step. eapply wp_mono; [apply collect_spec|].
  intros [acc|e|m] d1 (Hs & Hc & Hp & Hacc); cbn [wp_then]; [|rewrite Hs, Hc; by split_and!|done].
  destruct (Hacc _ eq_refl) as (-> & Hr & Ht). simpl. wp_step.
  - wp_step. rewrite bool_decide_eq_true in Hb. rewrite Hs, Hc. split_and!; [done..|].
    intros l [= <-]. split_and!; [by rewrite Hc, Hb, app_nil_r|done..|by rewrite Hb|done].
  - wp_step. rewrite <- Hc. apply wp_send_messages; [intros c Hi Hsent|intros e c Hi]; cbn [wp_then].
    + destruct (first_error acts) eqn:He; wp_step; (split_and!; [done..|]); [done|].
      intros l [= <-]. split_and!; [by rewrite <- Hc|done..].
    + by split_and!.
Qed.

(** A box: what [handle_message] returned, and the rest. *)
Lemma process_box_spec b d w :
  let h := handle_message b (d_salty d) w in
  let r := process_box b d w in
  d_salty (post r) = post h ∧ incoming (d_client (post r)) = incoming (d_client d)
  ∧ match out r with
    | Ok l => ∃ acts, out h = Ok acts ∧ performed acts d l (post r)
    | Err _ => True
    | Panic m => out h = Panic m
    end.
Proof.
  unfold process_box, mbind, M_bind, on_salty.
  destruct (handle_message b (d_salty d) w) as [[[acts|e|m] s1] w1]; [|by split_and!..].
  cbn [map_err]. destruct (perform_actions_spec acts (set_salty s1 d) w1) as (Hs & Hi & Hp & Ho).
  split_and!; [done..|]. destruct (out _) as [l|e|m] eqn:Hl; [|done..].
  exists acts. split; [done|]. by apply (Ho l).
Qed.

(** ** The turns of the loop *)

Section safe.
Context (I : S → Prop) `{!SignalingSafe T S I, !SignalingActions T S I}.

(** What a turn of the loop guarantees. *)
Definition turned d (o : outcome SaltyError Loop) d' : Prop :=
  I (d_salty d') ∧ common_step (common (d_salty d)) (common (d_salty d')) ∧ no_surprise o
  ∧ ∀ l, o = Ok l → ∃ m, incoming (d_client d) = m :: incoming (d_client d')
    ∧ (l = Break → is_close m = true
        ∨ c_signaling_state (common (d_salty d')) = SignalingState.Task).

Lemma plain_no_finish acts : Forall plain acts → finishes acts = false.
Proof. by induction 1 as [|[] ? ? ? IH]. Qed.

Lemma task_stays (c c' : Common T) : common_step c c' →
  c_signaling_state c = SignalingState.Task → c_signaling_state c' = SignalingState.Task.
Proof.
  intros Hs Hc. pose proof (cs_stage _ _ Hs) as Hst. rewrite Hc in Hst.
  by destruct (c_signaling_state c').
Qed.

(** A box ends the loop only with the handshake. *)
Lemma process_box_turn b d : I (d_salty d) → wf_nonce (bbox_nonce b) →
  wp (process_box b) d (λ o d', I (d_salty d')
    ∧ common_step (common (d_salty d)) (common (d_salty d')) ∧ no_surprise o
    ∧ incoming (d_client d') = incoming (d_client d)
    ∧ (o = Ok Break → c_signaling_state (common (d_salty d')) = SignalingState.Task)).
Proof.
  intros HI Hn w. pose proof (process_box_spec b d w) as (Hs & Hi & Ho).
  destruct (handle_message_safe I b (d_salty d) HI Hn w) as (HI' & Hstep & Hns).
  rewrite <- Hs in HI', Hstep. split_and!; [done..| |done|].
  { destruct (out (process_box b d w)); [done..|]. by rewrite Ho in Hns. }
  intros Hb. rewrite Hb in Ho. destruct Ho as (acts & Hacts & _ & _ & Hl & _).
  destruct (decide (c_signaling_state (common (d_salty d)) = SignalingState.Task)) as [Ht|Ht];
    [by eapply task_stays|].
  destruct (handle_message b (d_salty d) w) as [[o s'] w'] eqn:Hrun. unfold out in Hacts; simpl in Hacts. subst o.
  unfold post in Hs; simpl in Hs. fold (post (process_box b d w)) in Hs. rewrite Hs.
  destruct (handle_message_actions I b _ w acts s' w' HI Hn Ht Hrun) as [Hp|[bs He]].
  { by rewrite (plain_no_finish _ Hp) in Hl. }
  destruct He as [->|[_ He]]; [|done]. exfalso. clear -Hl. by induction bs.
Qed.

Lemma wp_next_message d (Q : outcome SaltyError WsMessageDecoded → Driver S C Ch → Prop) :
  (∀ m c, incoming (d_client d) = m :: incoming c → sent c = sent (d_client d) →
    Q (decode_ws_message m) (set_client c d)) →
  (∀ e c, Q (Err e) (set_client c d)) →
  wp (W := env) next_message d Q.
Proof.
  intros HQ HE w. unfold next_message. mred. pose proof (ws_next_spec (d_client d)) as Hs.
  destruct (ws_next (d_client d)) as [[[m|]|e|p] c]; mred; [|by apply HE..|done].
  destruct Hs as [Hi Hc]. by apply HQ.
Qed.
Lemma decode_ws_message_spec m : wf_ws m →
  match decode_ws_message m with
  | Ok (WsMessageDecoded.ByteBox b) => m = OwnedMessage.Binary (byte_box_into_bytes b)
      ∧ wf_nonce (bbox_nonce b) ∧ bbox_bytes b ≠ []
  | Ok (WsMessageDecoded.Ping p) => m = OwnedMessage.Ping p
  | Ok (WsMessageDecoded.Close _) => is_close m = true
  | Ok WsMessageDecoded.Ignore => is_close m = false
  | Err _ => True
  | Panic _ => False
  end.
Proof.
  destruct m as [ |bs|[]| | ]; try done. intros Hw. simpl.
  pose proof (byte_box_from_slice_total bs) as Ht.
  destruct (byte_box_from_slice bs) as [b|e|p] eqn:Hb; simpl.
  - by apply byte_box_from_slice_Ok in Hb as (<- & ? & ?).
  - done.
  - by apply (Ht p).
Qed.

Lemma handshake_turn_spec d : I (d_salty d) → Forall wf_ws (incoming (d_client d)) →
  wp handshake_turn d (turned d).
Proof.
  intros HI Hw. unfold handshake_turn. wp_step.
  apply wp_next_message; [|by intros e c; split_and!].
  intros m c Hi Hsent. assert (wf_ws m) as Hm by (rewrite Hi in Hw; by inversion Hw).
  pose proof (decode_ws_message_spec m Hm) as Hd.
  destruct (decode_ws_message m) as [[b|p|r|]|e|p]; cbn [wp_then preprocess_ws_message].
  - eapply wp_mono; [by apply (process_box_turn b (set_client c d) HI), Hd|].
    intros o d' (HI' & Hs & Hns & Hin & Hb). split_and!; [done..|]. intros l ->. exists m.
    rewrite Hin. split; [done|]. intros ->. right. by apply Hb.
  - wp_step. apply wp_send_messages; [intros c' Hi' _|intros e c' Hi']; cbn [wp_then]; [wp_step|];
      (split_and!; [done..|]); intros l [= <-]. exists m. simpl. by rewrite Hi'.
  - wp_step. split_and!; [done..|]. intros l [= <-]. exists m. split; [done|]. by left.
  - wp_step. split_and!; [done..|]. intros l [= <-]. by exists m.
  - by split_and!.
  - done.
Qed.

(** With more fuel than messages the loop ends, and its result does not depend
    on the fuel. *)
Lemma do_handshake_spec fuel : ∀ d w, I (d_salty d) → Forall wf_ws (incoming (d_client d)) →
  (length (incoming (d_client d)) < fuel)%nat →
  let r := do_handshake fuel d w in
  I (d_salty (post r)) ∧ common_step (common (d_salty d)) (common (d_salty (post r)))
  ∧ no_surprise (out r) ∧ out r ≠ Ok false
  ∧ (out r = Ok true → Exists (λ m, is_close m = true) (incoming (d_client d))
      ∨ c_signaling_state (common (d_salty (post r))) = SignalingState.Task)
  ∧ ∀ n, do_handshake (fuel + n) d w = r.
Proof.
  induction fuel as [|fuel IH]; intros d w HI Hw Hf; [lia|]. cbn [do_handshake Nat.add].
  pose proof (handshake_turn_spec d HI Hw w) as (HI1 & Hs1 & Hn1 & Ht).
  unfold mbind, M_bind, out, post in *.
  destruct (handshake_turn d w) as [[[l|e|p] d1] w1]; simpl in *; [|by split_and!..].
  destruct (Ht l eq_refl) as (m & Hi & Hb). rewrite Hi in Hw, Hf |- *. destruct l; simpl.
  - split_and!; try done. intros _. destruct (Hb eq_refl); [left; by constructor|by right].
  - destruct (IH d1 w1 HI1) as (HI2 & Hs2 & Hn2 & Hne & Hd & Hm); [by inversion Hw|simpl in Hf; lia|].
    split_and!; [done|by etrans|done..| |done].
    intros Hok. destruct (Hd Hok); [left; by constructor|by right].
Qed.

(** *** With the timer *)

(** The part of a turn that the timer can cut off. *)
Lemma turn_outbox_spec d : I (d_salty d) → Forall wf_ws (incoming (d_client d)) →
  wp turn_outbox d (λ o d', I (d_salty d') ∧ common_step (common (d_salty d)) (common (d_salty d'))
    ∧ ∀ ms, o = Ok ms → ∃ m, incoming (d_client d) = m :: incoming (d_client d')
      ∧ sent (d_client d') = sent (d_client d)).
Proof.
  intros HI Hw. unfold turn_outbox. wp_step.
  apply wp_next_message; [|by intros e c; split_and!].
  intros m c Hi Hsent. assert (wf_ws m) as Hm by (rewrite Hi in Hw; by inversion Hw).
  pose proof (decode_ws_message_spec m Hm) as Hd.
  destruct (decode_ws_message m) as [[b|p|r|]|e|p]; cbn [wp_then]; try (wp_step; split_and!; by eauto);
    [|by split_and!|done].
  destruct Hd as (_ & Hn & _). wp_step. apply wp_on_salty.
  eapply wp_mono; [by apply (handle_message_safe I b (d_salty d) HI Hn)|].
  intros o s' (HI' & Hs & _). destruct o as [acts|e|p]; cbn [map_err wp_then]; [|by split_and!..].
  wp_step. eapply wp_mono; [apply collect_spec|].
  intros o d' (Hs' & Hc' & _). simpl in Hs', Hc'.
  destruct o as [acc|e|p]; cbn [wp_then]; [wp_step|..]; rewrite Hs'; split_and!; try done.
  intros ms _. exists m. by rewrite Hc'.
Qed.

(** What a future has done when it ended. *)
Definition ended_well d (o : outcome SaltyError unit) d' : Prop :=
  I (d_salty d') ∧ common_step (common (d_salty d)) (common (d_salty d')) ∧ no_surprise o
  ∧ (o = Ok tt → Exists (λ m, is_close m = true) (incoming (d_client d))
      ∨ c_signaling_state (common (d_salty d')) = SignalingState.Task).

Lemma handshake_future_safe timeout d w o d' w' : handshake_future timeout d w o d' w' →
  I (d_salty d) → Forall wf_ws (incoming (d_client d)) → ended_well d o d'.
Proof.
  intros Hf. induction Hf as [d w d' w' Ht|d w e d' w' Ht|d w m d' w' Ht|d w d1 w1 o d' w' Ht _ IH
    |t d w _|t d w ms d1 w1 c _ Ht _ Hp]; intros HI Hw.
  5: by split_and!.
  5: { pose proof (turn_outbox_spec d HI Hw w) as (HI1 & Hs1 & _). rewrite Ht in HI1, Hs1. by split_and!. }
  all: pose proof (handshake_turn_spec d HI Hw w) as (HI1 & Hs1 & Hn1 & Hl);
    rewrite Ht in HI1, Hs1, Hn1, Hl; unfold post, out in HI1, Hs1, Hn1, Hl; simpl in HI1, Hs1, Hn1, Hl;
    try (by split_and!).
  - split_and!; [done..|]. intros _. destruct (Hl _ eq_refl) as (m & -> & Hb).
    destruct (Hb eq_refl); [left; by constructor|by right].
  - destruct (Hl _ eq_refl) as (m & Hi & _). rewrite Hi in Hw. inversion_clear Hw as [|?? _ Hw'].
    destruct (IH HI1 Hw') as (HI2 & Hs2 & Hn2 & Ho). split_and!; [done|by etrans|done|].
    intros Hok. rewrite Hi. destruct (Ho Hok); [left; by constructor|by right].
Qed.

(** The loop with enough fuel is the future without a timer. *)
Definition future_result (o : outcome SaltyError bool) : outcome SaltyError unit :=
  match o with Ok _ => Ok tt | Err e => Err e | Panic m => Panic m end.
Lemma do_handshake_future fuel : ∀ d w o d' w', do_handshake fuel d w = (o, d', w') → o ≠ Ok false →
  handshake_future None d w (future_result o) d' w'.
Proof.
  induction fuel as [|fuel IH]; intros d w o d' w' Hr Ho; [by injection Hr as <- _ _|].
  cbn [do_handshake] in Hr. unfold mbind, M_bind in Hr.
  destruct (handshake_turn d w) as [[[[]|e|m] d1] w1] eqn:Ht.
  - injection Hr as <- <- <-. by apply hf_break.
  - eapply hf_continue; [exact Ht|by apply IH].
  - injection Hr as <- <- <-. by apply hf_error.
  - injection Hr as <- <- <-. by apply hf_panic.
Qed.
Lemma untimed_unique d w o d' w' : handshake_future None d w o d' w' →
  ∀ o2 d2 w2, handshake_future None d w o2 d2 w2 → o2 = o ∧ d2 = d' ∧ w2 = w'.
Proof.
  induction 1 as [d w d' w' Ht|d w e d' w' Ht|d w m d' w' Ht|d w d1 w1 o d' w' Ht _ IH
    |t d w He|t d w ms d1 w1 c He]; [| | | |done..];
    intros o2 d2 w2 Hf2; inversion Hf2; subst; try done; rewrite Ht in *; simplify_eq; try done.
  by apply IH.
Qed.

(** C19: the handshake driver terminates and is safe, for either role, with and
    without a timer.  From a state that satisfies the role's invariant and a
    finite list of incoming WebSocket messages with arbitrary bytes, whatever way
    the future of [do_handshake] ends, also when the timer cuts it off: it keeps
    the invariant, never moves the session back, and panics only in the two
    places that assert on the entropy source and on the unsupported drop of a
    responder and, in a process where libsodium has not been initialised, on its
    initialisation; and if it succeeds, the signaling state is the task phase or the
    server sent a WebSocket Close message.  Without a timer it does end, in one
    way only, which the loop computes with more fuel than messages. *)
Theorem handshake_driver_outcome timeout d w : I (d_salty d) →
  Forall wf_ws (incoming (d_client d)) →
  (∀ o d' w', handshake_future timeout d w o d' w' →
    I (d_salty d') ∧ common_step (common (d_salty d)) (common (d_salty d')) ∧ no_surprise o
    ∧ (o = Ok tt → Exists (λ m, is_close m = true) (incoming (d_client d))
        ∨ c_signaling_state (common (d_salty d')) = SignalingState.Task))
  ∧ ∃ r d' w', handshake_future None d w (future_result r) d' w'
    ∧ (∀ o2 d2 w2, handshake_future None d w o2 d2 w2 → o2 = future_result r ∧ d2 = d' ∧ w2 = w')
    ∧ r ≠ Ok false
    ∧ ∀ fuel, (length (incoming (d_client d)) < fuel)%nat → do_handshake fuel d w = (r, d', w').
Proof.
  intros HI Hw. split; [intros o d' w' Hf; exact (handshake_future_safe _ _ _ _ _ _ Hf HI Hw)|].
  set (n := length (incoming (d_client d))).
  pose proof (do_handshake_spec (Datatypes.S n) d w HI Hw (Nat.lt_succ_diag_r _)) as (_ & _ & _ & Hne & _ & Hm).
  destruct (do_handshake (Datatypes.S n) d w) as [[r d'] w'] eqn:Hr. unfold out in Hne. simpl in Hne.
  pose proof (do_handshake_future _ _ _ _ _ _ Hr Hne) as Hf. exists r, d', w'.
  split_and!; [done|by apply untimed_unique|done|]. intros fuel Hl.
  replace fuel with (Datatypes.S n + (fuel - Datatypes.S n))%nat by lia. apply Hm.
Qed.
End safe.

(** C20: the handling of a signaling message by the driver.  When it succeeds,
    the signaling object accepted the message; its replies were sent through
    the connection in order, after everything sent before and with nothing in
    between; its events and the end of the handshake were reported in order; no
    further incoming message was consumed; and the loop ends exactly if the
    handshake is done. *)
Theorem answers_in_order b d w l d' w' : process_box b d w = (Ok l, d', w') →
  ∃ acts, out (handle_message b (d_salty d) w) = Ok acts
  ∧ d_salty d' = post (handle_message b (d_salty d) w)
  ∧ incoming (d_client d') = incoming (d_client d)
  ∧ sent (d_client d') = sent (d_client d) ++ outgoing acts
  ∧ reported (d_events d') = reported (d_events d) ++ events_of acts
  ∧ l = (if finishes acts then Break else Continue).
Proof.
  intros Hr. pose proof (process_box_spec b d w) as (Hs & Hi & Ho). rewrite Hr in *.
  destruct Ho as (acts & Ha & Hsent & Hev & Hl & _). by exists acts.
Qed.

(** Control messages during the handshake.  A Close message ends
    [do_handshake] successfully at once, in whatever state the handshake is and
    without touching the signaling object; a Ping is answered by a Pong with
    the same payload and nothing else; Pong and Text messages are skipped. *)
Theorem control_messages m c n d w : ws_next (d_client d) = (Ok (Some m), c) →
  match m with
  | OwnedMessage.Close _ => do_handshake (Datatypes.S n) d w = (Ok true, set_client c d, w)
  | OwnedMessage.Ping p => do_handshake (Datatypes.S n) d w =
      match ws_send_all [OwnedMessage.Pong p] c with
      | (Ok _, c') => do_handshake n (set_client c' d) w
      | (Err e, c') =>
          (Err (SaltyError.Network ("Could not send pong message: " +:+ e)), set_client c' d, w)
      | (Panic e, c') => (Panic e, set_client c' d, w)
      end
  | OwnedMessage.Pong _ | OwnedMessage.Text _ =>
      do_handshake (Datatypes.S n) d w = do_handshake n (set_client c d) w
  | OwnedMessage.Binary _ => True
  end.
Proof.
  intros Hn. destruct m as [t|bs|[r|]|p|p]; try done; cbn [do_handshake];
    unfold handshake_turn, next_message; mred; rewrite Hn; mred; try done.
  unfold send_messages; mred. by destruct (ws_send_all _ c) as [[[]|e|e] c'].
Qed.
End driver.
Section clients.
Context {T : Type} `{!Task T, !Env, !ByteOrder, !Sodium, !SodiumLaws, !Rmps, !RmpsLaws, !EnvLaws}.
Implicit Types b : SaltyClientBuilder T.

(** The builder's outcome, with what it does when there is a task. *)
Definition built {A} b (P : A → Prop) (o : outcome BuilderError A) : Prop :=
  if decide (b_tasks b = []) then o = Err MissingTask else constructed P o.

Lemma wp_builder_tasks {A} b (k : Tasks T → M env unit BuilderError A) P :
  wp (k (mkTasks (b_tasks b))) tt (λ o _, constructed P o) →
  wp (tasks ← mlift (builder_tasks b); k tasks) tt (λ o _, built b P o).
Proof.
  intros Hk. do 2 wp_step. unfold builder_tasks, built.
  destruct (b_tasks b) eqn:Ht; simpl; [done|]. exact Hk.
Qed.

(** A client as the builder configured it. *)
Definition initiator_built b (s : InitiatorSignaling T) : Prop :=
  initiator_inv s ∧ is_responders s = ∅ ∧ is_responder s = None
  ∧ configured Role.Initiator (b_permanent_key b) (mkTasks (b_tasks b))
      (b_server_public_permanent_key b) (b_ping_interval b) (is_common s).
Definition responder_built b (initiator_key : PublicKey) (s : ResponderSignaling T) : Prop :=
  responder_state_inv s ∧ ini_permanent_key (rs_initiator s) = initiator_key
  ∧ ini_session_key (rs_initiator s) = None
  ∧ configured Role.Responder (b_permanent_key b) (mkTasks (b_tasks b))
      (b_server_public_permanent_key b) (b_ping_interval b) (rs_common s).

Lemma build_initiator_spec b :
  wp (build_initiator b) tt (λ o _, built b (initiator_built b) o).
Proof. apply (wp_builder_tasks b), initiator_new_inv. Qed.
Lemma build_responder_spec b k token :
  wp (build_responder k token b) tt (λ o _, built b (responder_built b k) o).
Proof. apply (wp_builder_tasks b), responder_new_inv. Qed.
Lemma built_Ok {A} b (P : A → Prop) a : built b P (Ok a) → P a.
Proof. unfold built. by destruct (decide _). Qed.

(** The builder.  Each of the four ways to build a client fails with
    [MissingTask] exactly if no task was added; otherwise it raises no error,
    and a client it returns satisfies the invariant of its role, knows no peer
    session key yet and has exactly the configured key pair, tasks (in the
    order they were added), server key and ping interval. *)
Theorem client_builder_exact b initiator_key responder_key token w :
  built b (initiator_built b) (out (build_initiator b tt w))
  ∧ built b (initiator_built b) (out (build_initiator_trusted responder_key b tt w))
  ∧ built b (responder_built b initiator_key) (out (build_responder initiator_key token b tt w))
  ∧ built b (responder_built b initiator_key) (out (build_responder_trusted initiator_key b tt w)).
Proof.
  split_and!; [apply build_initiator_spec| |apply build_responder_spec|];
    apply (wp_builder_tasks b); [apply initiator_new_inv|apply responder_new_inv].
Qed.

(** Raw encryption on a client that has just been built.  With a nonce of
    the right length an initiator reports that there is no peer, but a
    responder, whose peer always exists, reports a crash. *)
Theorem raw_encryption_before_handshake b initiator_key token data nonce w
    (si : InitiatorSignaling T) wi (sr : ResponderSignaling T) wr :
  length nonce = NONCEBYTES → build_initiator b tt w = (Ok si, tt, wi) →
  build_responder initiator_key token b tt w = (Ok sr, tt, wr) →
  encrypt_raw data nonce si = Err SaltyError.NoPeer
  ∧ encrypt_raw data nonce sr
    = Err (SaltyError.Crash "Signaling error: Peer session public key not set").
Proof.
  intros Hn Hi Hr. pose proof (build_initiator_spec b w) as Hbi.
  pose proof (build_responder_spec b initiator_key token w) as Hbr.
  rewrite Hi in Hbi. rewrite Hr in Hbr. apply built_Ok in Hbi as (_ & _ & Hnone & _), Hbr as (_ & _ & Hk & _).
  unfold encrypt_raw, encrypt_raw_with_session_keys. rewrite key_from_slice_spec.
  destruct (decide _); [|done]. simpl. split; [|by rewrite Hk]. unfold is_get_peer. by rewrite Hnone.
Qed.
End clients.

Section raw.
Context {T S S2 : Type} `{!Task T, !Env, !Signaling T S, !Signaling T S2, !Sodium, !SodiumLaws}.

(** Raw data for the peer.  If the two clients hold each other's session
    keys, what either encrypts under a nonce the other decrypts under the same
    nonce to exactly the same bytes, for every nonce of 24 bytes; any other
    nonce is refused on both sides. *)
Theorem raw_data_delivered {P P2} `{!PeerContext P, !PeerContext P2}
    (s : S) (s2 : S2) (p : P) put (p2 : P2) put2 kp kp2 data nonce :
  get_peer s = Some (MkDynPeer p put) → get_peer s2 = Some (MkDynPeer p2 put2) →
  pc_keypair p = Some kp → pc_session_key p = Some (public_key kp2) →
  pc_keypair p2 = Some kp2 → pc_session_key p2 = Some (public_key kp) →
  wf_keypair kp → wf_keypair kp2 →
  if decide (length nonce = NONCEBYTES)
  then ∃ sealed, encrypt_raw data nonce s = Ok sealed ∧ decrypt_raw sealed nonce s2 = Ok data
    ∧ length sealed = (length data + MACBYTES)%nat
  else encrypt_raw data nonce s = Err (SaltyError.Crypto "Invalid nonce bytes")
    ∧ decrypt_raw data nonce s2 = Err (SaltyError.Crypto "Invalid nonce bytes").
Proof.
  intros Hg Hg2 Hkp Hk Hkp2 Hk2 [_ Hw] [_ Hw2].
  unfold encrypt_raw, decrypt_raw, encrypt_raw_with_session_keys, decrypt_raw_with_session_keys.
  rewrite key_from_slice_spec, Hg, Hg2, Hkp, Hk, Hkp2, Hk2.
  destruct (decide _); [|done]. simpl. eexists. split_and!; [done| |by rewrite box_seal_length].
  by rewrite Hw, Hw2, box_open_seal.
Qed.
End raw.

(** ** Witnesses *)

Module ClientWitnesses.
Import Reference ReferenceCodec Handshake ProtocolWitnesses.

(** A scripted connection: the messages still to arrive and those sent; and a
    channel that keeps what it is given. *)
Definition script : Type := list OwnedMessage * list OwnedMessage.
#[local] Instance script_client : WsClient script := {|
  ws_next c := match c.1 with
    | [] => (Ok None, c)
    | m :: rest => (Ok (Some m), (rest, c.2))
    end;
  ws_send_all ms c := (Ok tt, (c.1, c.2 ++ ms));
  ws_partly ms c c' := ∃ n, c' = (c.1, c.2 ++ take n ms);
|}.
#[local] Instance script_laws : WsClientLaws script fst snd.
Proof.
  split; [by intros [[|m rest] out]|done|]. intros ms c c' [n ->]. split; [done|].
  apply prefix_app. exists (drop n ms). by rewrite take_drop.
Qed.
#[local] Instance log_channel : EventChannel (list Event) := {| unbounded_send e ch := (true, ch ++ [e]) |}.
#[local] Instance log_laws : EventChannelLaws (list Event) id.
Proof. by split. Qed.

(** The initiator's side of the executed handshake, with a ping in between. *)
Definition frame (b : outcome SignalingError ByteBox) : OwnedMessage :=
  OwnedMessage.Binary (wire b).
Definition to_server_auth : outcome SignalingError ByteBox :=
  sealed_box (Message.ServerAuth (mkServerAuth
    (our_server_cookie (state_of i1)) None (Some []) None)) 1 2 initiator_keys.
Definition to_new_responder : outcome SignalingError ByteBox :=
  sealed_box (Message.NewResponder (mkNewResponder (mkAddress 2))) 1 3 initiator_keys.
Definition frames : list OwnedMessage :=
  [frame (clear_box server_hello 0 1); frame to_server_auth; OwnedMessage.Ping [1; 2];
   frame to_new_responder; frame (reply 0 r2); frame (reply 1 r2); frame (reply 0 r3)].
Definition driver0 : Driver istate script (list Event) := mkDriver started (frames, []) [].
Definition world0 : env := world_of initiator_run.
Definition driven := do_handshake 8 driver0 world0.

Definition safely (o : outcome SaltyError unit) (d' : Driver istate script (list Event)) : Prop :=
  initiator_inv (d_salty d') ∧ common_step (common (d_salty driver0)) (common (d_salty d'))
  ∧ no_surprise o
  ∧ (o = Ok tt → Exists (λ m, is_close m = true) (d_client driver0).1
      ∨ c_signaling_state (common (d_salty d')) = SignalingState.Task).
Lemma handshake_driver_witness :
  c_signaling_state (is_common (d_salty (post driven))) = SignalingState.Task
  ∧ (∀ o d' w', handshake_future (Some (mkDuration 30 0)) driver0 world0 o d' w' → safely o d')
  ∧ ∃ r d' w', handshake_future None driver0 world0 (future_result r) d' w'
    ∧ (∀ o2 d2 w2, handshake_future None driver0 world0 o2 d2 w2 →
        o2 = future_result r ∧ d2 = d' ∧ w2 = w')
    ∧ r ≠ Ok false
    ∧ ∀ fuel, (7 < fuel)%nat → do_handshake fuel driver0 world0 = (r, d', w').
Proof.
  split; [vm_compute; reflexivity|].
  refine (handshake_driver_outcome fst snd id initiator_inv (Some (mkDuration 30 0)) driver0 world0 _ _).
  - exact started_inv.
  - by_compute.
Defined.
(** The timer fires while the first answer is being sent: the signaling object
    has moved on, the answer is lost. *)
Definition cut := turn_outbox driver0 world0.
Lemma timer_cuts_off :
  handshake_future (Some (mkDuration 30 0)) driver0 world0 (Err SaltyError.Timeout)
    (set_client (d_client (post cut)) (post cut)) (world_of cut)
  ∧ (d_client (post cut)).2 = []
  ∧ srv_handshake_state (c_server (is_common (d_salty (post cut)))) = ServerHandshakeState.ClientInfoSent.
Proof.
  split_and!; [|vm_compute; reflexivity..].
  apply (hf_sending _ (mkDuration 30 0) driver0 world0 (match out cut with Ok ms => ms | _ => [] end)
    (post cut) (world_of cut) _ eq_refl); [vm_compute; reflexivity|by vm_compute|].
  exists 0%nat. vm_compute. reflexivity.
Qed.

(** The first message of the server, answered with the client-auth message. *)
Definition hello_box : ByteBox := get_box (clear_box server_hello 0 1).
Definition hello_run := process_box hello_box driver0 world0.
Lemma answers_in_order_witness :
  ∃ acts, out (handle_message hello_box (d_salty driver0) world0) = Ok acts
  ∧ d_salty (post hello_run) = post (handle_message hello_box (d_salty driver0) world0)
  ∧ (d_client (post hello_run)).1 = (d_client driver0).1
  ∧ (d_client (post hello_run)).2 = (d_client driver0).2 ++ outgoing acts
  ∧ id (d_events (post hello_run)) = id (d_events driver0) ++ events_of acts
  ∧ Continue = (if finishes acts then Break else Continue).
Proof.
  refine (answers_in_order fst snd id hello_box driver0 world0 Continue (post hello_run)
    (world_of hello_run) _).
  vm_compute. reflexivity.
Defined.

(** A Close message before anything else. *)
Definition closing : Driver istate script (list Event) :=
  mkDriver started ([OwnedMessage.Close None], []) [].
Lemma control_messages_witness :
  do_handshake 1 closing world0 = (Ok true, set_client ([], []) closing, world0)
  ∧ c_signaling_state (is_common (d_salty closing)) = SignalingState.ServerHandshake.
Proof.
  split; [|vm_compute; reflexivity].
  refine (control_messages (OwnedMessage.Close None) ([], []) 0 closing world0 _). reflexivity.
Defined.

Definition builder : SaltyClientBuilder string :=
  builder_add_task "relay" (builder_add_task "chat" (builder_new responder_keys)).
Lemma client_builder_witness :
  built builder (initiator_built builder) (out (build_initiator builder tt (0 : env)))
  ∧ built builder (initiator_built builder)
      (out (build_initiator_trusted (public_key server_keys) builder tt (0 : env)))
  ∧ built builder (responder_built builder (public_key initiator_keys))
      (out (build_responder (public_key initiator_keys) token builder tt (0 : env)))
  ∧ built builder (responder_built builder (public_key initiator_keys))
      (out (build_responder_trusted (public_key initiator_keys) builder tt (0 : env))).
Proof.
  refine (client_builder_exact builder (public_key initiator_keys) (public_key server_keys) token (0 : env)).
Defined.

Definition new_initiator := build_initiator builder tt (0 : env).
Definition new_responder := build_responder (public_key initiator_keys) token builder tt (0 : env).
Definition built_initiator : istate := match out new_initiator with Ok s => s | _ => started end.
Definition built_responder : rstate := match out new_responder with Ok s => s | _ => done_responder end.
Lemma raw_before_witness :
  encrypt_raw [1; 2; 3] (replicate 24 5) built_initiator = Err SaltyError.NoPeer
  ∧ encrypt_raw [1; 2; 3] (replicate 24 5) built_responder
    = Err (SaltyError.Crash "Signaling error: Peer session public key not set").
Proof.
  refine (raw_encryption_before_handshake builder (public_key initiator_keys) token [1; 2; 3]
    (replicate 24 5) (0 : env) built_initiator (world_of new_initiator) built_responder
    (world_of new_responder) _ _ _); vm_compute; reflexivity.
Defined.

Lemma raw_data_witness :
  ∃ sealed, encrypt_raw [1; 2; 3] (replicate 24 5) done_initiator = Ok sealed
    ∧ decrypt_raw sealed (replicate 24 5) done_responder = Ok [1; 2; 3]
    ∧ length sealed = (length [1; 2; 3] + MACBYTES)%nat.
Proof.
  destruct chosen as (r & Hr & Hk & Hk2 & Hw & Hw2).
  refine (raw_data_delivered done_initiator done_responder r
    (λ p', is_set_responder (Some p') done_initiator) (rs_initiator done_responder)
    (λ i, rs_set_initiator i done_responder) (rsp_keypair r) (ini_keypair (rs_initiator done_responder))
    [1; 2; 3] (replicate 24 5) _ _ _ _ _ _ _ _).
  - change (is_get_peer done_initiator = Some (MkDynPeer r (λ p', is_set_responder (Some p') done_initiator))).
    unfold is_get_peer. by rewrite Hr.
  - reflexivity.
  - reflexivity.
  - exact Hk.
  - reflexivity.
  - exact Hk2.
  - exact Hw.
  - exact Hw2.
Defined.
End ClientWitnesses.
