(* ===== verification/Transport.v ===== *)
(** * The transport

    How a client gets its connection and sends through it.

    [connect] of src/lib.rs: the URL is made of the server's name and the public
    key of the initiator, which both clients of a session know; a connection is
    used only if the server has chosen the subprotocol of SaltyRTC.  The URL
    parser (crate url) and the WebSocket handshake (crate websocket) are
    parameters.

    The handshake driver and the task loop are verified over the interface
    [WsClient], whose [ws_send_all] sends a list of messages.  Here that
    operation is the [SendAll] future of src/send_all.rs, polled over the sink of
    the connection until it completes; it is shown to obey the laws of the
    interface. *)

From S2P Require Import Prelude Text External Errors Types Csn Cookie Nonce Crypto Tasks Messages.
From S2P Require Import ReferenceCodec Boxes Context Signaling Initiator Responder Handshake.
From S2P Require Import SendAll Client ClientProps.

(** ** Sending through the sink *)

(** The connection as a stream of messages and as a sink; an error is given by
    its text. *)
Class Connection (C : Type) := {
  conn_next : C → outcome string (option OwnedMessage) * C;
  conn_sink :: Sink C OwnedMessage string;
}.
(** [stream::iter_ok] of the futures crate. *)
Class IterOk (U : Type) := {
  iter_ok : list OwnedMessage → U;
  iter_ok_stream :: Stream U OwnedMessage string;
}.

Class ConnectionLaws (C : Type) `{!Connection C} (incoming accepted flushed : C → list OwnedMessage)
    (patience : C → nat) : Prop := {
  conn_next_spec c : match conn_next c with
    | (Ok (Some m), c') => incoming c = m :: incoming c' ∧ accepted c' = accepted c
    | (Ok None, c') => incoming c = [] ∧ incoming c' = [] ∧ accepted c' = accepted c
    | (Err _, c') => incoming c' = incoming c
    | (Panic _, _) => False
    end;
  conn_sink_laws :: SinkLaws C OwnedMessage string accepted flushed;
  (** Sending does not touch what is still to arrive. *)
  start_send_incoming m c : incoming (start_send (E := string) m c).2 = incoming c;
  poll_complete_incoming c : incoming (poll_complete (Item := OwnedMessage) (E := string) c).2 = incoming c;
  (** The sink is busy only finitely often. *)
  start_send_patience m c : match start_send (E := string) m c with
    | (Ok SinkReady, c') => (patience c' ≤ patience c)%nat
    | (Ok (SinkNotReady _), c') => (patience c' < patience c)%nat
    | _ => True
    end;
  poll_complete_patience c : match poll_complete (Item := OwnedMessage) (E := string) c with
    | (Ok (Ready _), c') => (patience c' ≤ patience c)%nat
    | (Ok NotReady, c') => (patience c' < patience c)%nat
    | _ => True
    end;
}.
Class IterOkLaws (U : Type) `{!IterOk U} (remaining : U → list OwnedMessage) : Prop := {
  iter_ok_laws :: StreamLaws U OwnedMessage string remaining;
  iter_ok_remaining ms : remaining (iter_ok ms) = ms;
  iter_ok_ready u : match stream_poll (Item := OwnedMessage) (E := string) u with
    | (Ok (Ready _), _) => True
    | _ => False
    end;
}.

Section sending.
Context {C U : Type} `{!Connection C, !IterOk U} (patience : C → nat).

(** [send_all::new(client, stream::iter_ok(messages))], polled to its end.  The
    connection is lost with an error. *)
Definition send_through (ms : list OwnedMessage) (c : C) : outcome string unit * C :=
  match out (drive (W := unit) (S (patience c)) (S (length ms)) (send_all_new c (iter_ok ms : U)) tt) with
  | Ok (Some (c', _)) => (Ok tt, c')
  | Ok None => (Panic "the future has not completed", c)
  | Err e => (Err e, c)
  | Panic m => (Panic m, c)
  end.

(** The connection inside the future after some polls, while it is not ready. *)
Definition sent_partly (ms : list OwnedMessage) (c c' : C) : Prop := ∃ n f,
  drive (W := unit) n (S (length ms)) (send_all_new c (iter_ok ms : U)) tt = (Ok None, f, tt)
  ∧ sa_sink f = Some c'.

Definition connection_client : WsClient C := {|
  ws_next := conn_next;
  ws_send_all := send_through;
  ws_partly := sent_partly;
|}.

Context (incoming accepted flushed : C → list OwnedMessage) (remaining : U → list OwnedMessage).
Context `{!ConnectionLaws C incoming accepted flushed patience, !IterOkLaws U remaining}.

Lemma connection_patient : patient (T := C) (U := U) (Item := OwnedMessage) (E := string) patience.
Proof.
  split_and!; [apply start_send_patience|apply poll_complete_patience|].
  intros u. pose proof (iter_ok_ready u) as Hu. by destruct (stream_poll u) as [[[]|e|m] u'].
Qed.

Lemma send_through_spec ms c : match send_through ms c with
  | (Ok _, c') => incoming c' = incoming c ∧ accepted c' = accepted c ++ ms ∧ flushed c' = accepted c ++ ms
  | (Err _, c') => c' = c ∧ ¬ reliable (T := C) (U := U) (Item := OwnedMessage) (E := string)
  | (Panic _, _) => False
  end.
Proof.
  unfold send_through. pose proof (iter_ok_remaining ms) as Hms.
  assert (length (remaining (iter_ok ms)) < S (length ms))%nat as Hl by (rewrite Hms; lia).
  pose proof (drive_ends (W := unit) accepted flushed remaining patience _ _ connection_patient
    (send_all_new c (iter_ok ms)) c (iter_ok ms) (conj eq_refl eq_refl) (Nat.lt_succ_diag_r _) Hl tt) as Hd.
  pose proof (drive_keeps (W := unit) (U := U) (λ c', incoming c' = incoming c)
    (λ m t, eq_trans (start_send_incoming m t)) (λ t, eq_trans (poll_complete_incoming t))
    (S (patience c)) (S (length ms)) (send_all_new c (iter_ok ms)) eq_refl tt) as [_ Hk].
  unfold items in Hd. simpl in Hd. rewrite Hms in Hd.
  destruct (out _) as [[[c' u']|]|e|m]; try done. split; [exact Hk|]. by destruct Hd as (? & ? & _).
Qed.

Lemma sent_partly_spec ms c c' : sent_partly ms c c' →
  incoming c' = incoming c ∧ accepted c' `prefix_of` accepted c ++ ms.
Proof.
  intros (n & f & Hd & Hf). pose proof (iter_ok_remaining ms) as Hms. split.
  - pose proof (drive_keeps (W := unit) (U := U) (λ c', incoming c' = incoming c)
      (λ m t, eq_trans (start_send_incoming m t)) (λ t, eq_trans (poll_complete_incoming t))
      n (S (length ms)) (send_all_new c (iter_ok ms)) eq_refl tt) as [Hk _].
    rewrite Hd in Hk. unfold post in Hk. simpl in Hk. by rewrite Hf in Hk.
  - assert (length (remaining (iter_ok ms)) < S (length ms))%nat as Hl by (rewrite Hms; lia).
    pose proof (drive_pending (W := unit) accepted flushed remaining n _ (send_all_new c (iter_ok ms)) c
      (iter_ok ms) (conj eq_refl eq_refl) Hl tt) as Hp. rewrite Hd in Hp. unfold post in Hp. simpl in Hp.
    destruct (Hp eq_refl) as (t & u & [Ht _] & Hi). rewrite Hf in Ht. injection Ht as <-.
    unfold items in Hi. simpl in Hi. rewrite Hms in Hi. rewrite <- Hi. by eexists.
Qed.
End sending.

(** ** Connecting *)

(** [Url::parse] and the opening handshake of the WebSocket connection for some
    subprotocols: the client with the subprotocols in the headers of the server's
    answer, if there are any, or an error with its cause. *)
Class WebSocketBuilder (C Url : Type) `{!Env} := {
  url_parse : string → Url + string;
  async_connect_secure : Url → list string → env → ((C * option (list string)) + (string * option string)) * env;
}.

Section connect.
Context {T S C Url : Type} `{!Env, !HexCodec, !SignalingBase T S, !WebSocketBuilder C Url}.
Abbreviation CM := (M env S SaltyError).

(** [libsodium_init] of src/helpers.rs. *)
Definition libsodium_init : CM unit :=
  ok ← mworld sodium_init;
  if (ok : bool) then mret tt else throw (SaltyError.Crypto "Could not initialize libsodium").

Definition connect_url (host : string) (port : Z) (salty : S) : string :=
  let path := hex_encode (pk_bytes (initiator_pubkey salty)) in
  "wss://" +:+ host +:+ ":" +:+ fmt_dec port +:+ "/" +:+ path.

(** What the future does once it runs. *)
Definition connect_future (server : string) (ws_url : Url) : CM C :=
  r ← mworld (async_connect_secure ws_url [SUBPROTOCOL]);
  match r with
  | inr (e, Some cause) =>
      throw (SaltyError.Network ("Could not connect to server (" +:+ server +:+ "): " +:+ e +:+ ": " +:+ cause))
  | inr (e, None) => throw (SaltyError.Network ("Could not connect to server (" +:+ server +:+ "): " +:+ e))
  | inl (client, headers) =>
      match headers with
      | Some proto =>
          if bool_decide (length proto = 1%nat) && bool_decide (head proto = Some SUBPROTOCOL) then mret client
          else throw (SaltyError.Protocol "More than one websocket subprotocol chosen by server")
      | None => throw (SaltyError.Protocol "Websocket subprotocol not accepted by server")
      end
  end.

(** [connect], with the future it returns; the event channel it returns as well is
    a new one, and its log output is left out. *)
Definition connect (host : string) (port : Z) : CM (CM C) :=
  _ ← libsodium_init;
  salty ← mget;
  ws_url ← match url_parse (connect_url host port salty) with
    | inl b => mret b
    | inr e => throw (SaltyError.Decode ("Could not parse URL: " +:+ e))
    end;
  mret (connect_future (host +:+ ":" +:+ fmt_dec port) ws_url).
End connect.

(** ** Properties *)

Section connect_props.
Context {C Url : Type} `{!Env, !Sodium, !EnvLaws, !HexCodec, !HexCodecLaws, !WebSocketBuilder C Url}.

Lemma hex_encode_inj bs bs' : wf_bytes bs → wf_bytes bs' → hex_encode bs = hex_encode bs' → bs = bs'.
Proof.
  intros Hb Hb' Heq. apply (f_equal hex_decode_permissive) in Heq.
  rewrite !hex_decode_encode in Heq by done. by injection Heq.
Qed.

(** Clients meet at the server exactly if they belong to the same session:
    two clients, of whatever roles, that connect to the same server ask for the
    same URL if and only if they agree on the initiator's public key. *)
Theorem same_session_same_url {T1 S1 T2 S2} `{!SignalingBase T1 S1, !SignalingBase T2 S2}
    host port (s1 : S1) (s2 : S2) :
  wf_array PUBLICKEYBYTES (pk_bytes (initiator_pubkey s1)) →
  wf_array PUBLICKEYBYTES (pk_bytes (initiator_pubkey s2)) →
  connect_url host port s1 = connect_url host port s2 ↔ initiator_pubkey s1 = initiator_pubkey s2.
Proof.
  intros [_ Hk1] [_ Hk2]. unfold connect_url. split; [|by intros ->]. intros Heq.
  do 5 apply (inj (String.append _)) in Heq. apply hex_encode_inj in Heq; [|done..].
  destruct (initiator_pubkey s1), (initiator_pubkey s2). simpl in *. by subst.
Qed.

(** C30: [connect] on every path.  If libsodium cannot be initialised, or else if
    the URL does not parse, it returns the error that says so.  Otherwise it
    returns a future, which never panics and yields a client if and only if the
    opening handshake for the one subprotocol of SaltyRTC gave that client and the
    server has chosen this subprotocol and no other.  The client's state stays
    as it is. *)
Theorem connect_exact {T S} `{!SignalingBase T S} host port (s : S) w :
  post (connect (C := C) host port s w) = s
  ∧ match (sodium_init w).1, url_parse (connect_url host port s) with
    | false, _ => out (connect (C := C) host port s w)
        = Err (SaltyError.Crypto "Could not initialize libsodium")
    | true, inr e => out (connect (C := C) host port s w)
        = Err (SaltyError.Decode ("Could not parse URL: " +:+ e))
    | true, inl u => ∃ future, out (connect host port s w) = Ok future
        ∧ ∀ s' w', is_panic (out (future s' w')) = false
          ∧ ∀ c : C, out (future s' w') = Ok c
            ↔ (async_connect_secure u [SUBPROTOCOL] w').1 = inl (c, Some [SUBPROTOCOL])
    end.
Proof.
  unfold connect, libsodium_init. mred. destruct (sodium_init w) as [[] w1]; mred; [|done].
  destruct (url_parse (connect_url host port s)) as [u|e]; mred; [|done].
  split; [done|]. eexists. split; [done|]. intros s' w'. unfold connect_future. mred.
  destruct (async_connect_secure u [SUBPROTOCOL] w') as [[[c headers]|[e [cause|]]] w2]; mred; [|by split..].
  destruct headers as [[|p [|p' ps]]|]; try (split; [done|by intros c']; fail); simpl.
  all: repeat case_bool_decide; simpl; split; try done; intros c'; split; intros Heq; simplify_eq; try done.
Qed.
End connect_props.

Section send_through_props.
Context {C U : Type} `{!Connection C, !IterOk U} (patience : C → nat).
Context (incoming accepted flushed : C → list OwnedMessage) (remaining : U → list OwnedMessage).
Context `{!ConnectionLaws C incoming accepted flushed patience, !IterOkLaws U remaining}.

(** C21: the [SendAll] future implements the interface the handshake driver and
    the task loop are verified against: over a connection that is busy only
    finitely often it always ends; if it succeeds, the messages have been
    accepted after those before and all of them are flushed, and what is still
    to arrive is untouched. It fails only if the connection does. *)
Theorem send_all_implements_client :
  @WsClientLaws C (connection_client (U := U) patience) incoming accepted
  ∧ ∀ ms c, match ws_send_all (WsClient := connection_client (U := U) patience) ms c with
    | (Ok _, c') => flushed c' = accepted c'
    | (Err _, _) => ¬ reliable (T := C) (U := U) (Item := OwnedMessage) (E := string)
    | (Panic _, _) => False
    end.
Proof.
  split; [split|]; simpl.
  - apply conn_next_spec.
  - intros ms c. pose proof (send_through_spec patience incoming accepted flushed remaining ms c) as Hs.
    destruct (send_through patience ms c) as [[[]|e|m] c']; [by split; apply Hs|by destruct Hs as [-> _]|done].
  - by apply (sent_partly_spec patience incoming accepted flushed remaining).
  - intros ms c. pose proof (send_through_spec patience incoming accepted flushed remaining ms c) as Hs.
    destruct (send_through patience ms c) as [[[]|e|m] c']; [|by apply Hs|done].
    destruct Hs as (_ & Ha & Hf). congruence.
Qed.
End send_through_props.

(** ** Witnesses *)

Module TransportWitnesses.
Import Reference ReferenceCodec Handshake.

(** A connection whose sink is busy as often as it says, and lists as streams. *)
Record conn := mkConn {
  cn_inbox : list OwnedMessage; cn_log : list OwnedMessage; cn_flushed : list OwnedMessage; cn_busy : nat;
}.
#[export] Instance conn_connection : Connection conn := {|
  conn_next c := match cn_inbox c with
    | m :: ms => (Ok (Some m), mkConn ms (cn_log c) (cn_flushed c) (cn_busy c))
    | [] => (Ok None, c)
    end;
  conn_sink := {|
    start_send m c := match cn_busy c with
      | S n => (Ok (SinkNotReady m), mkConn (cn_inbox c) (cn_log c) (cn_flushed c) n)
      | O => (Ok SinkReady, mkConn (cn_inbox c) (cn_log c ++ [m]) (cn_flushed c) 0)
      end;
    poll_complete c := (Ok (Ready tt), mkConn (cn_inbox c) (cn_log c) (cn_log c) (cn_busy c));
  |};
|}.
#[export] Instance list_iter : IterOk (list OwnedMessage) := {|
  iter_ok ms := ms;
  iter_ok_stream := {|
    stream_poll l := match l with m :: l' => (Ok (Ready (Some m)), l') | [] => (Ok (Ready None), []) end;
  |};
|}.
#[export] Instance conn_laws : ConnectionLaws conn cn_inbox cn_log cn_flushed cn_busy.
Proof.
  split; [by intros [[]]| |by intros m [? ? ? []]|by intros []|intros m [? ? ? []]; simpl; lia|intros []; simpl; lia].
  split; [by intros m [? ? ? []]|by intros []].
Qed.
#[export] Instance list_iter_laws : IterOkLaws (list OwnedMessage) id.
Proof. split; [split; by intros []|done|by intros []]. Qed.

Lemma send_all_implements_witness :
  @WsClientLaws conn (connection_client (U := list OwnedMessage) cn_busy) cn_inbox cn_log
  ∧ ∀ ms c, match ws_send_all (WsClient := connection_client (U := list OwnedMessage) cn_busy) ms c with
    | (Ok _, c') => cn_flushed c' = cn_log c'
    | (Err _, _) =>
        ¬ reliable (T := conn) (U := list OwnedMessage) (Item := OwnedMessage) (E := string)
    | (Panic _, _) => False
    end.
Proof. exact (send_all_implements_client cn_busy cn_inbox cn_log cn_flushed id). Defined.

(** A server that chooses all subprotocols it is offered. *)
#[export] Instance agreeable : WebSocketBuilder conn string := {|
  url_parse s := inl s;
  async_connect_secure u protocols w := (inl (mkConn [] [] [] 0, Some protocols), w);
|}.
Definition initiator0 : istate := get_initiator i0.
Definition responder0 : rstate := get_responder r0.
Definition somewhere : env := 3.

Lemma same_session_witness :
  connect_url "example.org" 443 initiator0 = connect_url "example.org" 443 responder0
  ↔ initiator_pubkey initiator0 = initiator_pubkey responder0.
Proof. refine (same_session_same_url "example.org" 443 initiator0 responder0 _ _); by_compute. Defined.

Lemma connect_exact_witness : ∃ future,
  out (connect (C := conn) (Url := string) "example.org" 443 initiator0 somewhere) = Ok future
  ∧ ∀ s' w', is_panic (out (future s' w')) = false
    ∧ ∀ c : conn, out (future s' w') = Ok c
      ↔ (async_connect_secure (connect_url "example.org" 443 initiator0) [SUBPROTOCOL] w').1
        = inl (c, Some [SUBPROTOCOL]).
Proof. exact (proj2 (connect_exact "example.org" 443 initiator0 somewhere)). Defined.
End TransportWitnesses.
