(* ===== verification/Pipe.v ===== *)
(** * The channel between two tasks, as a specification

    What the task phase promises to the two applications, without keys, boxes,
    connections and loops: in each direction a first-in first-out queue of task
    messages.  A Close message closes the queue for its sender, so later
    messages are refused; when the receiving side halts, what it has not got
    yet is lost.  [Network] shows that two task loops implement it. *)

From S2P Require Import Prelude Text External Errors Types Tasks.

Definition closing_message (m : TaskMessage) : bool :=
  match m with TaskMessage.Close _ => true | _ => false end.

Record Pipe := mkPipe { p_queue : list TaskMessage; p_open : bool }.
Definition empty_pipe : Pipe := mkPipe [] true.

Inductive PipeLabel := Push (m : TaskMessage) | Pop (m : TaskMessage) | Tau | Halt.

Inductive pipe_step p : PipeLabel → Pipe → Prop :=
  | pipe_push m : p_open p = true →
      pipe_step p (Push m) (mkPipe (p_queue p ++ [m]) (negb (closing_message m)))
  | pipe_refuse m : p_open p = false → pipe_step p (Push m) p
  | pipe_pop m q : p_queue p = m :: q → pipe_step p (Pop m) (mkPipe q (p_open p))
  | pipe_tau : pipe_step p Tau p
  | pipe_halt n : pipe_step p Halt (mkPipe (take n (p_queue p)) false).

(** A run with the labels of its steps. *)
Inductive traces {A L} (step : A → L → A → Prop) : A → list L → A → Prop :=
  | traces_nil a : traces step a [] a
  | traces_snoc a tr b l c : traces step a tr b → step b l c → traces step a (tr ++ [l]) c.

Lemma traces_app {A L} (step : A → L → A → Prop) a tr b tr' c :
  traces step a tr b → traces step b tr' c → traces step a (tr ++ tr') c.
Proof.
  intros Ht Ht'. induction Ht' as [b|b tr' b' l c _ IH Hs]; [by rewrite app_nil_r|].
  rewrite app_assoc. econstructor; [by apply IH|done].
Qed.

(** What went in and what came out. *)
Definition pushed (tr : list PipeLabel) : list TaskMessage :=
  omap (λ l, match l with Push m => Some m | _ => None end) tr.
Definition popped (tr : list PipeLabel) : list TaskMessage :=
  omap (λ l, match l with Pop m => Some m | _ => None end) tr.

(** The messages up to the first Close message. *)
Fixpoint until_close (ms : list TaskMessage) : list TaskMessage :=
  match ms with
  | [] => []
  | m :: ms' => m :: if closing_message m then [] else until_close ms'
  end.
Definition has_close (ms : list TaskMessage) : bool := existsb closing_message ms.

Lemma has_close_app ms ms' : has_close (ms ++ ms') = has_close ms || has_close ms'.
Proof. apply existsb_app. Qed.
Lemma until_close_open ms : has_close ms = false → until_close ms = ms.
Proof.
  induction ms as [|m ms IH]; [done|]. simpl. intros [-> Hms]%orb_false_iff. by rewrite IH.
Qed.
Lemma until_close_app ms ms' :
  until_close (ms ++ ms') = until_close ms ++ if has_close ms then [] else until_close ms'.
Proof.
  induction ms as [|m ms IH]; [done|]. simpl. destruct (closing_message m); [done|]. by rewrite IH.
Qed.
Lemma has_close_until ms : has_close (until_close ms) = has_close ms.
Proof. induction ms as [|m ms IH]; [done|]. simpl. destruct (closing_message m); [done|]. by rewrite IH. Qed.

(** The receiving side has halted. *)
Definition halted (tr : list PipeLabel) : bool :=
  existsb (λ l, match l with Halt => true | _ => false end) tr.

(** What holds of a pipe and its history: it has delivered and holds a prefix of
    what was pushed up to the first Close message, all of it unless it halted. *)
Record pipe_history (tr : list PipeLabel) (p : Pipe) : Prop := {
  ph_prefix : (popped tr ++ p_queue p) `prefix_of` until_close (pushed tr);
  ph_exact : halted tr = false → popped tr ++ p_queue p = until_close (pushed tr);
  ph_open : p_open p = negb (halted tr || has_close (pushed tr));
}.

Lemma pushed_app tr tr' : pushed (tr ++ tr') = pushed tr ++ pushed tr'.
Proof. apply omap_app. Qed.
Lemma popped_app tr tr' : popped (tr ++ tr') = popped tr ++ popped tr'.
Proof. apply omap_app. Qed.

Lemma until_close_snoc ms m :
  until_close (ms ++ [m]) = until_close ms ++ if has_close ms then [] else [m].
Proof. rewrite until_close_app. simpl. by destruct (closing_message m). Qed.

Lemma pipe_history_step tr p l p' : pipe_history tr p → pipe_step p l p' →
  pipe_history (tr ++ [l]) p'.
Proof.
  intros [Hp Hx Ho] Hs. assert (halted (tr ++ [l]) = halted tr || halted [l]) as Hh by apply existsb_app.
  destruct Hs as [m Hop|m Hcl|m q Hq| |n];
    split; rewrite ?Hh, ?pushed_app, ?popped_app; simpl; rewrite ?app_nil_r, ?orb_false_r; try done.
  - rewrite Hop in Ho. symmetry in Ho. apply negb_true_iff, orb_false_iff in Ho as [Hn Hc].
    rewrite until_close_snoc, Hc, app_assoc. by rewrite Hx.
  - intros Hn. rewrite Hop, Hn in Ho. symmetry in Ho. apply negb_true_iff in Ho. simpl in Ho.
    by rewrite until_close_snoc, Ho, app_assoc, Hx.
  - rewrite Hop in Ho. symmetry in Ho. apply negb_true_iff in Ho. rewrite has_close_app, orb_assoc, Ho. simpl.
    by rewrite orb_false_r.
  - etrans; [exact Hp|]. rewrite until_close_snoc. by apply prefix_app_r.
  - intros Hn. rewrite Hcl, Hn in Ho. symmetry in Ho. apply negb_false_iff in Ho. simpl in Ho.
    rewrite until_close_snoc, Ho, app_nil_r. by apply Hx.
  - rewrite has_close_app, Hcl. rewrite Hcl in Ho. symmetry in Ho. apply negb_false_iff in Ho.
    by rewrite orb_assoc, Ho.
  - rewrite <- app_assoc. simpl. by rewrite <- Hq.
  - intros Hn. rewrite <- app_assoc. simpl. rewrite <- Hq. by apply Hx.
  - etrans; [|exact Hp]. apply prefix_app, prefix_take.
  - by rewrite orb_true_r.
  - by rewrite orb_true_r.
Qed.

(** A prefix that has a Close message is complete. *)
Lemma prefix_close ms ms' : ms `prefix_of` until_close ms' → has_close ms = true → ms = until_close ms'.
Proof.
  revert ms. induction ms' as [|m' ms' IH]; intros ms Hp Hc.
  - by apply prefix_nil_inv in Hp as ->.
  - destruct ms as [|m ms]; [done|]. simpl in *. apply prefix_cons_inv_1 in Hp as Heq.
    apply prefix_cons_inv_2 in Hp. subst m'. f_equal. destruct (closing_message m).
    + by apply prefix_nil_inv in Hp.
    + by apply IH.
Qed.

(** Everything a pipe delivers was pushed, in the same order, up to the first
    Close message; and nothing is missing unless it halted. *)
Lemma pipe_delivers tr p : traces pipe_step empty_pipe tr p → pipe_history tr p.
Proof.
  intros Ht. remember empty_pipe as p0. revert Heqp0.
  induction Ht as [p|p0 tr p l p' Ht IH Hs]; intros ->; [by split|].
  eapply pipe_history_step; [by apply IH|done].
Qed.
