(* ===== verification/TaskLoop.v ===== *)
(** * The task loop

    [task_loop] of src/lib.rs.  After the handshake three futures run side by
    side on one connection: the reader handles incoming messages and forwards
    task messages to the task, the transformer seals what the task wants to
    send, and the writer passes finished frames to the connection.  They are
    connected by unbounded channels; a oneshot channel lets the task disconnect.

    The channels (crate futures) are the parameter [Mpsc].  Each future is a
    turn function on the shared state, one item per turn, in the order the
    combinators of the source compose its parts; the executor may interleave
    the turns in any way ([loop_step]).  The lock around the client is taken
    within a turn only.  Receivers and senders that a finished future drops are
    part of the state, since a channel reports them to the other side. *)

From S2P Require Import Prelude Text External Errors Types Csn Cookie Nonce Crypto Tasks Messages.
From S2P Require Import Boxes Context Signaling Client.

(** ** Channels *)

(** [futures::sync::mpsc], unbounded.  Sending fails exactly if the receiver is
    gone; the error is known by its text. *)
Class Mpsc (Q : Type → Type) := {
  mpsc_unbounded {A} : Q A;
  mpsc_send {A} : A → Q A → bool * Q A;
  mpsc_recv {A} : Q A → option A * Q A;
  mpsc_drop_receiver {A} : Q A → Q A;
  mpsc_send_error : string;
}.

Class MpscLaws (Q : Type → Type) `{!Mpsc Q} (queued : ∀ {A}, Q A → list A)
    (alive : ∀ {A}, Q A → bool) : Prop := {
  mpsc_unbounded_spec A : queued (mpsc_unbounded (A := A)) = []
    ∧ alive (mpsc_unbounded (A := A)) = true;
  mpsc_send_spec A (a : A) q : mpsc_send a q = (alive q, (mpsc_send a q).2)
    ∧ queued (mpsc_send a q).2 = queued q ++ (if alive q then [a] else [])
    ∧ alive (mpsc_send a q).2 = alive q;
  mpsc_recv_spec A (q : Q A) : match mpsc_recv q with
    | (Some a, q') => queued q = a :: queued q' ∧ alive q' = alive q
    | (None, q') => queued q = [] ∧ q' = q
    end;
  mpsc_drop_spec A (q : Q A) : queued (mpsc_drop_receiver q) = []
    ∧ alive (mpsc_drop_receiver q) = false;
  mpsc_dead_empty A (q : Q A) : alive q = false → queued q = [];
}.

(** Closing the sink half of the connection, which [forward] does at the end. *)
Class WsSink (C : Type) := { ws_close : C → outcome string unit * C }.

(** The oneshot channel of [disconnect_tx] and [disconnect_rx]. *)
Inductive Oneshot :=
  | Waiting
  | Sent (reason : option CloseCode)
  | SenderDropped
  | ReceiverDropped.

(** ** The state *)

Record TaskLoop (S C Ch : Type) (Q : Type → Type) := mkTaskLoop {
  tl_salty : S;
  tl_client : C;
  tl_events : Ch;
  tl_outgoing : Q TaskMessage;
  tl_raw : Q OwnedMessage;
  tl_incoming : Q TaskMessage;
  tl_disconnect : Oneshot;
  (** The task still holds [outgoing_tx]. *)
  tl_sender : bool;
  (** The three futures: still running. *)
  tl_reader : bool;
  tl_transformer : bool;
  tl_writer : bool;
}.
Arguments mkTaskLoop {S C Ch Q}.
Arguments tl_salty {S C Ch Q}.
Arguments tl_client {S C Ch Q}.
Arguments tl_events {S C Ch Q}.
Arguments tl_outgoing {S C Ch Q}.
Arguments tl_raw {S C Ch Q}.
Arguments tl_incoming {S C Ch Q}.
Arguments tl_disconnect {S C Ch Q}.
Arguments tl_sender {S C Ch Q}.
Arguments tl_reader {S C Ch Q}.
Arguments tl_transformer {S C Ch Q}.
Arguments tl_writer {S C Ch Q}.

Section task_loop.
Context {T S C Ch : Type} {Q : Type → Type}.
Context `{!Task T, !Env, !Signaling T S, !WsClient C, !WsSink C, !EventChannel Ch, !Mpsc Q}.
Context `{!ByteOrder, !Sodium, !Rmps}.
Abbreviation Lp := (TaskLoop S C Ch Q).
Abbreviation LM := (M env Lp SaltyError).
Implicit Types l : Lp.

Definition tl_set_salty (s : S) l : Lp :=
  mkTaskLoop s (tl_client l) (tl_events l) (tl_outgoing l) (tl_raw l) (tl_incoming l)
    (tl_disconnect l) (tl_sender l) (tl_reader l) (tl_transformer l) (tl_writer l).
Definition tl_set_client (c : C) l : Lp :=
  mkTaskLoop (tl_salty l) c (tl_events l) (tl_outgoing l) (tl_raw l) (tl_incoming l)
    (tl_disconnect l) (tl_sender l) (tl_reader l) (tl_transformer l) (tl_writer l).
Definition tl_set_events (e : Ch) l : Lp :=
  mkTaskLoop (tl_salty l) (tl_client l) e (tl_outgoing l) (tl_raw l) (tl_incoming l)
    (tl_disconnect l) (tl_sender l) (tl_reader l) (tl_transformer l) (tl_writer l).
Definition tl_set_outgoing (q : Q TaskMessage) l : Lp :=
  mkTaskLoop (tl_salty l) (tl_client l) (tl_events l) q (tl_raw l) (tl_incoming l)
    (tl_disconnect l) (tl_sender l) (tl_reader l) (tl_transformer l) (tl_writer l).
Definition tl_set_raw (q : Q OwnedMessage) l : Lp :=
  mkTaskLoop (tl_salty l) (tl_client l) (tl_events l) (tl_outgoing l) q (tl_incoming l)
    (tl_disconnect l) (tl_sender l) (tl_reader l) (tl_transformer l) (tl_writer l).
Definition tl_set_incoming (q : Q TaskMessage) l : Lp :=
  mkTaskLoop (tl_salty l) (tl_client l) (tl_events l) (tl_outgoing l) (tl_raw l) q
    (tl_disconnect l) (tl_sender l) (tl_reader l) (tl_transformer l) (tl_writer l).
Definition tl_set_disconnect (d : Oneshot) l : Lp :=
  mkTaskLoop (tl_salty l) (tl_client l) (tl_events l) (tl_outgoing l) (tl_raw l) (tl_incoming l)
    d (tl_sender l) (tl_reader l) (tl_transformer l) (tl_writer l).
Definition tl_drop_sender l : Lp :=
  mkTaskLoop (tl_salty l) (tl_client l) (tl_events l) (tl_outgoing l) (tl_raw l) (tl_incoming l)
    (tl_disconnect l) false (tl_reader l) (tl_transformer l) (tl_writer l).

(** A finished future is dropped, with the receivers it owns. *)
Definition finish_reader l : Lp :=
  mkTaskLoop (tl_salty l) (tl_client l) (tl_events l) (tl_outgoing l) (tl_raw l) (tl_incoming l)
    ReceiverDropped (tl_sender l) false (tl_transformer l) (tl_writer l).
Definition finish_transformer l : Lp :=
  mkTaskLoop (tl_salty l) (tl_client l) (tl_events l) (mpsc_drop_receiver (tl_outgoing l))
    (tl_raw l) (tl_incoming l) (tl_disconnect l) (tl_sender l) (tl_reader l) false (tl_writer l).
Definition finish_writer l : Lp :=
  mkTaskLoop (tl_salty l) (tl_client l) (tl_events l) (tl_outgoing l)
    (mpsc_drop_receiver (tl_raw l)) (tl_incoming l) (tl_disconnect l) (tl_sender l) (tl_reader l)
    (tl_transformer l) false.

(** A call of a method of the client under its lock. *)
Definition with_salty {E A} (f : E → SaltyError) (m : M env S E A) : LM A := λ l w,
  let '(o, s', w') := m (tl_salty l) w in
  (map_err f o, tl_set_salty s' l, w').

(** ** The reader *)

(** Sending to one of the channels. *)
Definition send_raw (e : SaltyError) (m : OwnedMessage) : LM unit :=
  l ← mget;
  let '(ok, q) := mpsc_send m (tl_raw l) in
  _ ← mput (tl_set_raw q l);
  if (ok : bool) then mret tt else throw e.
Definition send_incoming (e : SaltyError) (m : TaskMessage) : LM unit :=
  l ← mget;
  let '(ok, q) := mpsc_send m (tl_incoming l) in
  _ ← mput (tl_set_incoming q l);
  if (ok : bool) then mret tt else throw e.
Definition report_event (e : Event) : LM unit :=
  l ← mget;
  let '(ok, ch) := unbounded_send e (tl_events l) in
  _ ← mput (tl_set_events ch l);
  if (ok : bool) then mret tt
  else throw (SaltyError.Crash "Could not send event through channel").

(** The messages and the flag the loop over the actions collects. *)
Definition read_actions : Type := list OwnedMessage * list TaskMessage * bool.

Definition read_action (acc : read_actions) (action : HandleAction) : LM read_actions :=
  let '(out_messages, in_messages, close_stream) := acc in
  match action with
  | HandleAction.Reply bbox =>
      mret (out_messages ++ [OwnedMessage.Binary (byte_box_into_bytes bbox)], in_messages, close_stream)
  | HandleAction.TaskMessage msg =>
      let close := match msg with TaskMessage.Close _ => true | _ => close_stream end in
      mret (out_messages, in_messages ++ [msg], close)
  | HandleAction.Event e => _ ← report_event e; mret acc
  | HandleAction.HandshakeDone =>
      throw (SaltyError.Crash "Got HandleAction::HandshakeDone in task loop")
  | HandleAction.HandshakeError _ =>
      throw (SaltyError.Crash "Got HandleAction::HandshakeError in task loop")
  end.

(** The closure of [for_each]: [true] stops the stream without an error. *)
Definition read_message (msg : WsMessageDecoded) : LM bool :=
  match msg with
  | WsMessageDecoded.ByteBox bbox =>
      handle_actions ← with_salty SaltyError.from_signaling (handle_message bbox);
      acc ← mfor read_action ([], [], false) handle_actions;
      let '(out_messages, in_messages, close_stream) := acc in
      _ ← mfor (λ _ m, send_raw (SaltyError.Network ("Sink error: " +:+ mpsc_send_error)) m)
        tt out_messages;
      _ ← mfor (λ _ m, send_incoming (SaltyError.Crash ("Channel error: " +:+ mpsc_send_error)) m)
        tt in_messages;
      mret close_stream
  | WsMessageDecoded.Ping payload =>
      _ ← send_raw (SaltyError.Network ("Could not enqueue pong message: " +:+ mpsc_send_error))
        (OwnedMessage.Pong payload);
      mret false
  | WsMessageDecoded.Close _ | WsMessageDecoded.Ignore => mret false
  end.

(** One item of the reader's stream, or its end. *)
Definition reader_turn : LM unit :=
  l ← mget;
  let '(r, c) := ws_next (tl_client l) in
  _ ← mmodify (tl_set_client c);
  next ← mlift (map_err (λ e, SaltyError.Network
    ("Could not receive message from server: " +:+ e)) r);
  match next with
  | None => mmodify finish_reader
  | Some msg =>
      decoded ← mlift (decode_ws_message msg);
      stop ← read_message decoded;
      if (stop : bool) then mmodify finish_reader else mret tt
  end.

(** The other branch of the reader's [select]: the task disconnects. *)
Definition disconnect_turn : LM unit :=
  l ← mget;
  match tl_disconnect l with
  | Sent reason_opt =>
      let '(_, q) := mpsc_send (TaskMessage.Close (default CloseCode.WsGoingAway reason_opt))
        (tl_outgoing l) in
      _ ← mput (tl_set_outgoing q l);
      mmodify finish_reader
  | SenderDropped => mmodify finish_reader
  | Waiting | ReceiverDropped => mret tt
  end.

(** ** The transformer *)

Definition transformer_error : SaltyError := SaltyError.Crash "Transformer future error (TODO)".

(** The msgpack map of a task's value, in the order the hash map is visited. *)
Definition value_of_map (m : gmap string Value) : LM Value :=
  keys ← mworld (hash_order (dom m));
  mret (Value.Map (omap (λ k, v ← m !! k; Some (Value.from_string k, v)) keys)).

(** The frames of an outgoing message, and whether they end the future. *)
Definition transform (msg : TaskMessage) : LM (list OwnedMessage * bool) :=
  match msg with
  | TaskMessage.Value map =>
      val ← value_of_map map;
      bytes ← with_salty (λ _, transformer_error) (encrypt_task_message val);
      mret ([OwnedMessage.Binary bytes], false)
  | TaskMessage.Application data =>
      let val := Value.Map [(Value.from_string "type", Value.from_string "application");
                            (Value.from_string "data", data)] in
      bytes ← with_salty (λ _, transformer_error) (encrypt_task_message val);
      mret ([OwnedMessage.Binary bytes], false)
  | TaskMessage.Close reason =>
      bytes ← with_salty (λ _, transformer_error) (encrypt_close_message reason);
      mret ([OwnedMessage.Binary bytes;
             OwnedMessage.Close (Some (mkCloseData (CloseCode.as_number reason)
               (CloseCode.to_string reason)))], true)
  end.

(** One item of the outgoing channel, or its end when every sender is gone. *)
Definition transformer_turn : LM unit :=
  l ← mget;
  let '(next, q) := mpsc_recv (tl_outgoing l) in
  _ ← mput (tl_set_outgoing q l);
  match next with
  | Some msg =>
      fs ← transform msg;
      let '(frames, stop) := fs in
      _ ← mfor (λ _ m, send_raw transformer_error m) tt frames;
      if (stop : bool) then mmodify finish_transformer else mret tt
  | None => if tl_sender l || tl_reader l then mret tt else mmodify finish_transformer
  end.

(** ** The writer *)

(** An operation of the sink half of the connection. *)
Definition on_sink (f : C → outcome string unit * C) : LM unit :=
  l ← mget;
  let '(r, c) := f (tl_client l) in
  _ ← mmodify (tl_set_client c);
  mlift (map_err (λ e, SaltyError.Crash ("TODO sink error: " +:+ e)) r).

(** One item of the raw channel, or its end when the two other futures are gone. *)
Definition writer_turn : LM unit :=
  l ← mget;
  let '(next, q) := mpsc_recv (tl_raw l) in
  _ ← mput (tl_set_raw q l);
  match next with
  | Some m => on_sink (ws_send_all [m])
  | None =>
      if tl_reader l || tl_transformer l then mret tt
      else _ ← on_sink ws_close; mmodify finish_writer
  end.

(** ** The loop *)

(** The body of [task_loop] up to the call of [start]: the task that takes over
    and the state of the futures. *)
Definition task_loop (client : C) (salty : S) (event_tx : Ch) : outcome SaltyError (T * Lp) :=
  task ← ok_or (c_task (common salty)) (SaltyError.Crash "Task not set");
  Ok (task, mkTaskLoop salty client event_tx mpsc_unbounded mpsc_unbounded mpsc_unbounded
    Waiting true true true true).

(** All three futures are resolved. *)
Definition loop_done l : bool :=
  negb (tl_reader l) && negb (tl_transformer l) && negb (tl_writer l).

(** What the task does with its ends of the channels. *)
Definition task_send (m : TaskMessage) l : Lp := tl_set_outgoing (mpsc_send m (tl_outgoing l)).2 l.
(** [disconnect_tx.send]: nothing happens if the reader is gone. *)
Definition task_disconnect (reason : option CloseCode) l : Lp :=
  match tl_disconnect l with Waiting => tl_set_disconnect (Sent reason) l | _ => l end.
Definition task_drop_disconnect l : Lp :=
  match tl_disconnect l with Waiting => tl_set_disconnect SenderDropped l | _ => l end.
Definition task_drop_incoming l : Lp := tl_set_incoming (mpsc_drop_receiver (tl_incoming l)) l.

(** What a step means to the task: a message enters the outgoing channel or
    leaves the incoming one. *)
Inductive TaskLabel := Internal | Sends (m : TaskMessage) | Receives (m : TaskMessage).

(** The Close message the loop sends for a task that disconnects. *)
Definition disconnect_label l : TaskLabel :=
  match tl_disconnect l with
  | Sent reason => Sends (TaskMessage.Close (default CloseCode.WsGoingAway reason))
  | _ => Internal
  end.

(** A turn of a future that still runs, or a call of the task. *)
Inductive loop_step l : TaskLabel → Lp → Prop :=
  | step_reader w l' w' : tl_reader l = true → reader_turn l w = (Ok tt, l', w') →
      loop_step l Internal l'
  | step_disconnect w l' w' : tl_reader l = true → disconnect_turn l w = (Ok tt, l', w') →
      loop_step l (disconnect_label l) l'
  | step_transformer w l' w' : tl_transformer l = true → transformer_turn l w = (Ok tt, l', w') →
      loop_step l Internal l'
  | step_writer w l' w' : tl_writer l = true → writer_turn l w = (Ok tt, l', w') →
      loop_step l Internal l'
  | step_task_send m : tl_sender l = true → loop_step l (Sends m) (task_send m l)
  | step_task_recv m q : mpsc_recv (tl_incoming l) = (Some m, q) →
      loop_step l (Receives m) (tl_set_incoming q l)
  | step_task_disconnect r : loop_step l Internal (task_disconnect r l)
  | step_task_drop_disconnect : loop_step l Internal (task_drop_disconnect l)
  | step_task_drop_incoming : loop_step l Internal (task_drop_incoming l)
  | step_task_drop_sender : loop_step l Internal (tl_drop_sender l).

(** A turn that fails ends the whole loop with its error. *)
Definition loop_fails l (o : outcome SaltyError unit) : Prop := ∃ w, o ≠ Ok tt ∧
  (tl_reader l = true ∧ (out (reader_turn l w) = o ∨ out (disconnect_turn l w) = o)
   ∨ tl_transformer l = true ∧ out (transformer_turn l w) = o
   ∨ tl_writer l = true ∧ out (writer_turn l w) = o).
End task_loop.
