(* ===== verification/TaskLoopProps.v ===== *)
(** * Properties of the task loop

    What each turn of the three futures does, as relations on the state of the
    loop ([reader_does], [transformer_does], [writer_does]), and the invariant
    that every interleaving of the turns and of the task's calls keeps.  From
    these follow the errors a loop can end with, its end after a disconnect,
    and the disconnect that is lost.  The statements hold for either role. *)

From S2P Require Import Prelude Text External Errors Types Csn Cookie Nonce Crypto Tasks Messages.
From S2P Require Import ReferenceCodec Boxes Context Signaling SignalingSpec SignalingSafe Runs.
From S2P Require Import Initiator InitiatorSafe Responder ResponderSafe Handshake Protocol.
From S2P Require Import Actions Client ClientProps Pipe TaskLoop.

(** The task messages among the actions, and whether one of them closes. *)
Definition task_messages (acts : list HandleAction) : list TaskMessage :=
  omap (λ a, match a with HandleAction.TaskMessage m => Some m | _ => None end) acts.
Definition closes (acts : list HandleAction) : bool := has_close (task_messages acts).

(** The messages a task can be handed: a value has a type, which is a string. *)
Definition typed_message (m : TaskMessage) : Prop :=
  match m with
  | TaskMessage.Value map => ∃ t, map !! "type" = Some (Value.from_string t)
  | _ => True
  end.

(** The actions that belong in the task phase. *)
Definition loop_action_ok (a : HandleAction) : Prop :=
  plain a ∨ ∃ m, a = HandleAction.TaskMessage m ∧ typed_message m.

(** The channel refuses one of the events, after it has taken those before. *)
Fixpoint refused `{!EventChannel Ch} (es : list Event) (ch : Ch) : bool :=
  match es with
  | [] => false
  | e :: es' => let '(ok, ch') := unbounded_send e ch in if (ok : bool) then refused es' ch' else true
  end.

(** A connection whose sink half closes without losing anything. *)
Class WsSinkLaws (C : Type) `{!WsSink C} (incoming sent : C → list OwnedMessage) : Prop := {
  ws_close_spec c : match ws_close c with
    | (Panic _, _) => False
    | (_, c') => incoming c' = incoming c ∧ sent c' = sent c
    end;
}.

(** In the task phase a message causes no action of the handshake. *)
Section actions.
Context {T S : Type} `{!Task T, !Env, !Signaling T S}.
Context `{!ByteOrder, !Sodium, !SodiumLaws, !Rmps, !RmpsLaws}.
Context (I : S → Prop) `{!SignalingSafe T S I, !SignalingActions T S I}.

Lemma process_task_message_actions v types acts : process_task_message v types = Ok acts →
  Forall loop_action_ok acts.
Proof.
  assert (∀ m, typed_message m → Forall loop_action_ok [HandleAction.TaskMessage m]) as Hone.
  { intros m Hm. constructor; [|done]. right. by exists m. }
  unfold process_task_message. destruct (value_to_map v) as [map|e|p]; [|done..]. simpl.
  destruct (map !! "type") as [ty|] eqn:Hty; [|done]. simpl.
  destruct (Value.as_str ty) as [t|] eqn:Ht; [|done]. simpl.
  repeat case_bool_decide; simpl.
  - destruct (map !! "data"); [|done]. intros [= <-]. by apply Hone.
  - destruct (close_reason_of map); [|done..]. intros [= <-]. by apply Hone.
  - destruct types as [ts|]; [|done]. simpl. destruct (existsb _ ts); intros [= <-]; [|done].
    apply Hone. exists t. rewrite Hty. unfold Value.as_str in Ht. repeat case_match; by simplify_eq.
Qed.

Lemma task_phase_actions b s w acts s' w' : I s → wf_nonce (bbox_nonce b) →
  c_signaling_state (common s) = SignalingState.Task →
  handle_message b s w = (Ok acts, s', w') → Forall loop_action_ok acts.
Proof.
  intros HI Hn Hst Hrun.
  pose proof (validate_nonce_validated I _ s HI Hn w) as (HI1 & [_ Hst1] & _).
  unfold handle_message in Hrun. apply bind_Ok in Hrun as (v & s1 & w1 & Hv & Hrun).
  unfold mtry in Hv. destruct (validate_nonce (bbox_nonce b) s w) as [[o s1'] w1'].
  unfold post in HI1, Hst1. simpl in HI1, Hst1. rewrite Hst in Hst1.
  destruct o as [[]|[]|]; [|..|done]; injection Hv as <- <- <-; try done;
    [|injection Hrun as <- _ _; by constructor].
  unfold dispatch_message in Hrun. apply bind_Ok in Hrun as (? & ? & ? & [= <- <- <-] & Hrun).
  destruct (Address.is_server _).
  - apply bind_Ok in Hrun as (? & ? & ? & _ & Hrun).
    eapply Forall_impl; [by eapply (handle_server_message_yields I)|]. by left.
  - rewrite Hst1 in Hrun. unfold handle_task_peer_message in Hrun. destruct (Address.is_server _); [done|].
    apply bind_Ok in Hrun as (? & ? & ? & [= <- <- <-] & Hrun).
    apply bind_Ok in Hrun as (o & ? & ? & _ & Hrun). unfold mlift in Hrun.
    injection Hrun as Hp _ _. by eapply process_task_message_actions.
Qed.

Lemma task_messages_typed acts : Forall loop_action_ok acts → Forall typed_message (task_messages acts).
Proof.
  induction 1 as [|a acts [Ha|(m & -> & Hm)] _ IH]; [done|by destruct a|]. by constructor.
Qed.
End actions.

(** A frame that is read back as the box it was made of. *)
Definition good_frame `{!ByteOrder} (m : OwnedMessage) : Prop :=
  match m with
  | OwnedMessage.Binary bs => ∀ b, byte_box_from_slice bs = Ok b →
      byte_box_into_bytes b = bs ∧ wf_nonce (bbox_nonce b) ∧ bbox_bytes b ≠ []
  | _ => True
  end.
Lemma wf_ws_good `{!ByteOrder, !ByteOrderLaws} m : wf_ws m → good_frame m.
Proof. destruct m; try done. intros Hw b. by apply byte_box_from_slice_Ok. Qed.

(** ** The effects of the turns *)

Section turns.
Context {T S C Ch : Type} {Q : Type → Type}.
Context `{!Task T, !Env, !Signaling T S, !WsClient C, !WsSink C, !EventChannel Ch, !Mpsc Q}.
Context `{!ByteOrder, !ByteOrderLaws, !Sodium, !SodiumLaws, !Rmps, !RmpsLaws, !EnvLaws}.
Context (incoming sent : C → list OwnedMessage) (reported : Ch → list Event).
Context (queued : ∀ {A}, Q A → list A) (alive : ∀ {A}, Q A → bool).
Context `{!WsClientLaws C incoming sent, !WsSinkLaws C incoming sent}.
Context `{!EventChannelLaws Ch reported, !MpscLaws Q (@queued) (@alive)}.
Arguments queued {A}.
Arguments alive {A}.
Abbreviation Lp := (TaskLoop S C Ch Q).
Implicit Types (l : Lp) (w : env).

Lemma tl_same_outgoing l : tl_set_outgoing (tl_outgoing l) l = l.
Proof. by destruct l. Qed.
Lemma tl_same_raw l : tl_set_raw (tl_raw l) l = l.
Proof. by destruct l. Qed.

(** [q'] is [q] after more items were sent. *)
Definition extended {A} (q q' : Q A) (ms : list A) : Prop :=
  queued q' = queued q ++ (if alive q then ms else []) ∧ alive q' = alive q.

Lemma extended_refl {A} (q : Q A) : extended q q [].
Proof. split; [|done]. destruct (alive q); by rewrite app_nil_r. Qed.
Lemma extended_send {A} (m : A) ms q q' :
  extended (mpsc_send m q).2 q' ms → extended q q' (m :: ms).
Proof.
  destruct (mpsc_send_spec A m q) as (_ & Hq & Ha). intros [Hq' Ha']. split; [|congruence].
  rewrite Hq', Hq, Ha, <- app_assoc. by destruct (alive q).
Qed.
Lemma extended_alive {A} (q q' : Q A) ms : extended q q' ms → alive q = true →
  queued q' = queued q ++ ms ∧ alive q' = true.
Proof. intros [-> ->] Ha. by rewrite Ha. Qed.

Lemma send_raw_run e m l w : send_raw e m l w =
  (if alive (tl_raw l) then Ok tt else Err e, tl_set_raw (mpsc_send m (tl_raw l)).2 l, w).
Proof.
  unfold send_raw. mred. destruct (mpsc_send_spec _ m (tl_raw l)) as (Hs & _ & _).
  rewrite Hs. by destruct (alive _).
Qed.
Lemma send_incoming_run e m l w : send_incoming e m l w =
  (if alive (tl_incoming l) then Ok tt else Err e,
   tl_set_incoming (mpsc_send m (tl_incoming l)).2 l, w).
Proof.
  unfold send_incoming. mred. destruct (mpsc_send_spec _ m (tl_incoming l)) as (Hs & _ & _).
  rewrite Hs. by destruct (alive _).
Qed.
Lemma send_all_raw e ms : ∀ l w, alive (tl_raw l) = true →
  ∃ q, mfor (λ _ m, send_raw e m) tt ms l w = (Ok tt, tl_set_raw q l, w)
  ∧ extended (tl_raw l) q ms.
Proof.
  induction ms as [|m ms IH]; intros l w Ha; simpl.
  { exists (tl_raw l). rewrite tl_same_raw. split; [done|apply extended_refl]. }
  destruct (mpsc_send_spec _ m (tl_raw l)) as (_ & _ & Ha').
  unfold mbind, M_bind. rewrite send_raw_run, Ha.
  destruct (IH (tl_set_raw (mpsc_send m (tl_raw l)).2 l) w) as (q & -> & Hq); [simpl; congruence|].
  exists q. split; [done|]. by apply extended_send.
Qed.
Lemma send_all_incoming e ms : ∀ l w,
  ∃ q, mfor (λ _ m, send_incoming e m) tt ms l w
    = (if alive (tl_incoming l) || bool_decide (ms = []) then Ok tt else Err e, tl_set_incoming q l, w)
  ∧ extended (tl_incoming l) q ms.
Proof.
  induction ms as [|m ms IH]; intros l w; simpl.
  { exists (tl_incoming l). rewrite orb_true_r. destruct l; split; [done|apply extended_refl]. }
  destruct (mpsc_send_spec _ m (tl_incoming l)) as (_ & Hq & Ha).
  unfold mbind, M_bind. rewrite send_incoming_run. destruct (alive (tl_incoming l)) eqn:Hal.
  - destruct (IH (tl_set_incoming (mpsc_send m (tl_incoming l)).2 l) w) as (q & -> & Hq').
    simpl. rewrite Ha. exists q. split; [done|]. by apply extended_send.
  - eexists. split; [done|]. split; [|congruence]. by rewrite Hq, Hal.
Qed.

(** What the loop over the actions collects and reports. *)
Lemma read_actions_spec acts : ∀ acc l w, Forall loop_action_ok acts → ∃ o ev,
  mfor read_action acc acts l w = (o, tl_set_events ev l, w)
  ∧ (o = Err (SaltyError.Crash "Could not send event through channel")
       ∧ refused (events_of acts) (tl_events l) = true
     ∨ o = Ok (acc.1.1 ++ outgoing acts, acc.1.2 ++ task_messages acts, acc.2 || closes acts)
       ∧ reported ev = reported (tl_events l) ++ events_of acts).
Proof.
  induction acts as [|a acts IH]; intros [[ms ts] c] l w Hok; cbn [mfor].
  { exists (Ok (ms, ts, c)), (tl_events l). destruct l. split; [done|]. right. simpl.
    by rewrite !app_nil_r, orb_false_r. }
  inversion Hok as [|? ? Ha Hok']; subst. unfold mbind, M_bind.
  destruct a as [bbox|e| |e|m]; [|by destruct Ha as [[]|(? & [=] & _)]..| |].
  - destruct (IH (ms ++ [OwnedMessage.Binary (byte_box_into_bytes bbox)], ts, c) l w Hok')
      as (o & ev & Hrun & Ho). exists o, ev. split; [done|]. simpl in Ho. by rewrite <- app_assoc in Ho.
  - cbn [read_action]. unfold report_event. mred.
    pose proof (unbounded_send_spec e (tl_events l)) as Hs.
    simpl. destruct (unbounded_send e (tl_events l)) as [[] ch]; mred; [|by do 2 eexists; split; [done|left]].
    destruct (IH (ms, ts, c) (tl_set_events ch l) w Hok') as (o & ev & Hrun & Ho).
    mred. rewrite Hrun. exists o, ev. split; [done|]. simpl in Ho. rewrite Hs, <- app_assoc in Ho. done.
  - destruct (IH (ms, ts ++ [m], match m with TaskMessage.Close _ => true | _ => c end) l w Hok')
      as (o & ev & Hrun & Ho). exists o, ev. split; [done|]. simpl in Ho. rewrite <- app_assoc in Ho.
    destruct Ho as [?|[-> ?]]; [by left|right]. split; [|done]. simpl. unfold closes. simpl.
    by destruct m, c.
Qed.

(** *** The reader *)

Definition stop_reader (stop : bool) l : Lp := if stop then finish_reader l else l.

(** The result of a turn of the reader, by what arrived. *)
Inductive reader_does l : outcome SaltyError unit → Lp → Prop :=
  | rd_end c : incoming (tl_client l) = [] → incoming c = [] → sent c = sent (tl_client l) →
      reader_does l (Ok tt) (finish_reader (tl_set_client c l))
  | rd_network e c : ws_next (tl_client l) = (Err e, c) → reader_does l
      (Err (SaltyError.Network ("Could not receive message from server: " +:+ e))) (tl_set_client c l)
  | rd_not_a_box bs e c : incoming (tl_client l) = OwnedMessage.Binary bs :: incoming c →
      byte_box_from_slice bs = Err e →
      reader_does l (Err (SaltyError.Protocol (SignalingError.signaling_error_to_string e)))
        (tl_set_client c l)
  | rd_control m c q pongs : incoming (tl_client l) = m :: incoming c →
      sent c = sent (tl_client l) → extended (tl_raw l) q pongs →
      match m with
      | OwnedMessage.Binary _ => False
      | OwnedMessage.Ping p => pongs = [OwnedMessage.Pong p]
      | _ => pongs = []
      end →
      reader_does l (Ok tt) (tl_set_raw q (tl_set_client c l))
  | rd_refused b c w o s' w' : incoming (tl_client l)
        = OwnedMessage.Binary (byte_box_into_bytes b) :: incoming c →
      bbox_bytes b ≠ [] →
      wf_nonce (bbox_nonce b) → handle_message b (tl_salty l) w = (o, s', w') → is_ok o = false →
      reader_does l (map_err SaltyError.from_signaling (o ≫= λ _, Panic EmptyString))
        (tl_set_salty s' (tl_set_client c l))
  | rd_no_listener b c w acts s' w' ev : incoming (tl_client l)
        = OwnedMessage.Binary (byte_box_into_bytes b) :: incoming c →
      bbox_bytes b ≠ [] →
      wf_nonce (bbox_nonce b) → handle_message b (tl_salty l) w = (Ok acts, s', w') →
      refused (events_of acts) (tl_events l) = true →
      reader_does l (Err (SaltyError.Crash "Could not send event through channel"))
        (tl_set_events ev (tl_set_salty s' (tl_set_client c l)))
  | rd_box b c w acts s' w' ev q q' o : incoming (tl_client l)
        = OwnedMessage.Binary (byte_box_into_bytes b) :: incoming c →
      sent c = sent (tl_client l) → bbox_bytes b ≠ [] →
      wf_nonce (bbox_nonce b) → handle_message b (tl_salty l) w = (Ok acts, s', w') →
      reported ev = reported (tl_events l) ++ events_of acts →
      extended (tl_raw l) q (outgoing acts) → extended (tl_incoming l) q' (task_messages acts) →
      o = (if alive (tl_incoming l) || bool_decide (task_messages acts = []) then Ok tt
           else Err (SaltyError.Crash ("Channel error: " +:+ mpsc_send_error))) →
      reader_does l o (stop_reader (is_ok o && closes acts) (tl_set_incoming q' (tl_set_raw q
        (tl_set_events ev (tl_set_salty s' (tl_set_client c l)))))).

Section safe.
Context (I : S → Prop) `{!SignalingSafe T S I, !SignalingActions T S I}.

(** The signaling object of a running loop. *)
Definition in_task_phase (s : S) : Prop :=
  I s ∧ c_signaling_state (common s) = SignalingState.Task.

Lemma read_box_does b c l : in_task_phase (tl_salty l) → wf_nonce (bbox_nonce b) →
  bbox_bytes b ≠ [] → alive (tl_raw l) = true →
  incoming (tl_client l) = OwnedMessage.Binary (byte_box_into_bytes b) :: incoming c →
  sent c = sent (tl_client l) →
  wp (stop ← read_message (WsMessageDecoded.ByteBox b);
      if (stop : bool) then mmodify finish_reader else mret tt) (tl_set_client c l) (reader_does l).
Proof.
  intros [HI Hst] Hn Hne Hal Hi Hsent w. unfold out, post. cbn [read_message].
  unfold mbind, M_bind. unfold with_salty.
  change (tl_salty (tl_set_client c l)) with (tl_salty l).
  destruct (handle_message b (tl_salty l) w) as [[o s'] w'] eqn:Hrun.
  destruct o as [acts|e|p]; simpl; [|by eapply (rd_refused l b c w (Err e))
    |by eapply (rd_refused l b c w (Panic p))].
  pose proof (task_phase_actions I b _ w acts s' w' HI Hn Hst Hrun) as Hacts.
  destruct (read_actions_spec acts ([], [], false) (tl_set_salty s' (tl_set_client c l)) w' Hacts)
    as (o & ev & -> & [[-> Hev]|[-> Hev]]); [by eapply rd_no_listener|].
  cbn [fst snd app orb]. set (l1 := tl_set_events ev _).
  destruct (send_all_raw (SaltyError.Network ("Sink error: " +:+ mpsc_send_error)) (outgoing acts)
    l1 w' Hal) as (q & -> & Hq). set (l2 := tl_set_raw q l1).
  destruct (send_all_incoming (SaltyError.Crash ("Channel error: " +:+ mpsc_send_error))
    (task_messages acts) l2 w') as (q' & -> & Hq').
  pose proof (rd_box l b c w acts s' w' ev q q' _ Hi Hsent Hne Hn Hrun Hev Hq Hq' eq_refl) as Hbox.
  change (tl_incoming l2) with (tl_incoming l). subst l1 l2.
  destruct (alive (tl_incoming l) || bool_decide (task_messages acts = [])); [|done].
  simpl in *. by destruct (closes acts).
Qed.

Lemma reader_turn_does l : in_task_phase (tl_salty l) → alive (tl_raw l) = true →
  Forall good_frame (incoming (tl_client l)) → wp reader_turn l (reader_does l).
Proof.
  intros Hs Hal Hw. unfold reader_turn. do 3 wp_step.
  pose proof (ws_next_spec (tl_client l)) as Hnext.
  destruct (ws_next (tl_client l)) as [[[m|]|e|p] c] eqn:Hws; [..|done]; do 5 wp_step;
    cbn [map_err wp_then];
    [|wp_step; destruct Hnext as (? & ? & ?); by apply rd_end|by apply rd_network].
  destruct Hnext as [Hi Hsent]. assert (good_frame m) as Hm by (rewrite Hi in Hw; by inversion Hw).
  do 2 wp_step.
  destruct m as [p|bs|d|p|p]; simpl in *.
  - do 4 wp_step. rewrite <- (tl_same_raw (tl_set_client c l)).
    by apply (rd_control l _ c _ [] Hi Hsent (extended_refl _)).
  - destruct (byte_box_from_slice bs) as [b|e|p] eqn:Hb; simpl in *;
      [|by eapply rd_not_a_box|by destruct (byte_box_from_slice_total bs p)].
    destruct (Hm b eq_refl) as (<- & Hn & Hne). by eapply read_box_does.
  - assert (reader_does l (Ok tt) (tl_set_raw (tl_raw l) (tl_set_client c l))) as Hr
      by by apply (rd_control l _ c _ [] Hi Hsent (extended_refl _)).
    destruct d; simpl; do 4 wp_step; by rewrite <- (tl_same_raw (tl_set_client c l)).
  - intros w. mred. rewrite send_raw_run. simpl. rewrite Hal.
    eapply (rd_control l _ c _ _ Hi Hsent); [|done]. apply extended_send, extended_refl.
  - do 4 wp_step. rewrite <- (tl_same_raw (tl_set_client c l)).
    by apply (rd_control l _ c _ [] Hi Hsent (extended_refl _)).
Qed.

(** *** The transformer *)

(** The msgpack value of a message that is not a Close message. *)
Definition message_value (m : TaskMessage) (v : Value) : Prop :=
  match m with
  | TaskMessage.Value map => ∃ keys, keys ≡ₚ elements (dom map) ∧
      v = Value.Map (omap (λ k, x ← map !! k; Some (Value.from_string k, x)) keys)
  | TaskMessage.Application data =>
      v = Value.Map [(Value.from_string "type", Value.from_string "application");
                     (Value.from_string "data", data)]
  | TaskMessage.Close _ => False
  end.

(** A message is sealed for the peer, in some world. *)
Definition sealed_as (m : TaskMessage) (s : S) (o : outcome SignalingError ByteBox) (s' : S) : Prop :=
  ∃ w w', match m with
  | TaskMessage.Close r => encode_close_message r s w = (o, s', w')
  | _ => ∃ v, message_value m v ∧ encode_task_message v s w = (o, s', w')
  end.

(** The frames of a sealed message. *)
Definition frames_of (m : TaskMessage) (b : ByteBox) : list OwnedMessage :=
  OwnedMessage.Binary (byte_box_into_bytes b) ::
  match m with
  | TaskMessage.Close r =>
      [OwnedMessage.Close (Some (mkCloseData (CloseCode.as_number r) (CloseCode.to_string r)))]
  | _ => []
  end.

Definition stop_transformer (stop : bool) l : Lp := if stop then finish_transformer l else l.

Inductive transformer_does l : outcome SaltyError unit → Lp → Prop :=
  | td_idle : queued (tl_outgoing l) = [] → tl_sender l || tl_reader l = true →
      transformer_does l (Ok tt) l
  | td_end : queued (tl_outgoing l) = [] → tl_sender l = false → tl_reader l = false →
      transformer_does l (Ok tt) (finish_transformer l)
  | td_sealed m q b s' q' : queued (tl_outgoing l) = m :: queued q → alive q = alive (tl_outgoing l) →
      sealed_as m (tl_salty l) (Ok b) s' → extended (tl_raw l) q' (frames_of m b) →
      transformer_does l (Ok tt) (stop_transformer (closing_message m)
        (tl_set_raw q' (tl_set_salty s' (tl_set_outgoing q l))))
  | td_refused m q e s' : queued (tl_outgoing l) = m :: queued q → alive q = alive (tl_outgoing l) →
      sealed_as m (tl_salty l) (Err e) s' →
      transformer_does l (Err transformer_error) (tl_set_salty s' (tl_set_outgoing q l)).

Lemma value_of_map_run m l w : ∃ v w', value_of_map m l w = (Ok v, l, w')
  ∧ message_value (TaskMessage.Value m) v.
Proof.
  unfold value_of_map. mred. pose proof (hash_order_perm (dom m) w) as Hp.
  destruct (hash_order (dom m) w) as [keys w']. do 2 eexists. split; [done|]. by exists keys.
Qed.

Lemma sealed_task m v s w o s' w' : message_value m v →
  encode_task_message v s w = (o, s', w') → sealed_as m s o s'.
Proof. intros Hv He. exists w, w'. destruct m; [eauto..|done]. Qed.

Lemma encrypt_task_run v l w : in_task_phase (tl_salty l) → ∃ o s' w',
  encode_task_message v (tl_salty l) w = (o, s', w') ∧ is_panic o = false
  ∧ with_salty (λ _, transformer_error) (encrypt_task_message v) l w
    = (match o with Ok b => Ok (byte_box_into_bytes b) | _ => Err transformer_error end,
       tl_set_salty s' l, w').
Proof.
  intros [HI _]. destruct (encode_task_message_sealed I v (tl_salty l) HI w) as [_ Hp].
  unfold with_salty, encrypt_task_message. mred.
  destruct (encode_task_message v (tl_salty l) w) as [[o s'] w']. exists o, s', w'.
  by destruct o.
Qed.
Lemma encrypt_close_run r l w : in_task_phase (tl_salty l) → ∃ o s' w',
  encode_close_message r (tl_salty l) w = (o, s', w') ∧ is_panic o = false
  ∧ with_salty (λ _, transformer_error) (encrypt_close_message r) l w
    = (match o with Ok b => Ok (byte_box_into_bytes b) | _ => Err transformer_error end,
       tl_set_salty s' l, w').
Proof.
  intros [HI _]. destruct (encode_close_message_sealed I r (tl_salty l) HI w) as [_ Hp].
  unfold with_salty, encrypt_close_message. mred.
  destruct (encode_close_message r (tl_salty l) w) as [[o s'] w']. exists o, s', w'.
  by destruct o.
Qed.

Lemma transform_run m l w : in_task_phase (tl_salty l) → ∃ o s' w',
  sealed_as m (tl_salty l) o s' ∧ is_panic o = false ∧ transform m l w
    = (match o with Ok b => Ok (frames_of m b, closing_message m) | _ => Err transformer_error end,
       tl_set_salty s' l, w').
Proof.
  intros Hs. destruct m as [map|data|r]; cbn [transform]; unfold mbind, M_bind.
  - destruct (value_of_map_run map l w) as (v & w1 & -> & Hv).
    destruct (encrypt_task_run v l w1 Hs) as (o & s' & w' & He & Hp & ->).
    exists o, s', w'. split_and!; [by eapply sealed_task|done|by destruct o].
  - edestruct encrypt_task_run as (o & s' & w' & He & Hp & ->); [exact Hs|].
    exists o, s', w'. split_and!; [by eapply sealed_task|done|by destruct o].
  - edestruct encrypt_close_run as (o & s' & w' & He & Hp & ->); [exact Hs|].
    exists o, s', w'. split_and!; [by exists w, w'|done|by destruct o].
Qed.

Lemma transformer_turn_does l : in_task_phase (tl_salty l) → alive (tl_raw l) = true →
  wp transformer_turn l (transformer_does l).
Proof.
  intros Hs Hal. unfold transformer_turn. do 3 wp_step. pose proof (mpsc_recv_spec _ (tl_outgoing l)) as Hr.
  destruct (mpsc_recv (tl_outgoing l)) as [[m|] q]; do 3 wp_step.
  - destruct Hr as [Hq Hqa]. intros w. unfold mbind, M_bind, out, post.
    destruct (transform_run m (tl_set_outgoing q l) w Hs) as (o & s' & w' & Ho & Hp & ->).
    destruct o as [b|e|p]; [|by eapply td_refused|done].
    destruct (send_all_raw transformer_error (frames_of m b) (tl_set_salty s' (tl_set_outgoing q l)) w' Hal)
      as (q' & -> & Hq'). pose proof (td_sealed l m q b s' q' Hq Hqa Ho Hq') as Hd.
    by destruct (closing_message m).
  - destruct Hr as [Hq ->]. rewrite tl_same_outgoing. wp_step.
    + wp_step. by apply td_idle.
    + wp_step. apply orb_false_iff in Hb as [? ?]. by apply td_end.
Qed.

(** *** The writer *)

Inductive writer_does l : outcome SaltyError unit → Lp → Prop :=
  | wd_idle : queued (tl_raw l) = [] → tl_reader l || tl_transformer l = true →
      writer_does l (Ok tt) l
  | wd_end c : queued (tl_raw l) = [] → tl_reader l = false → tl_transformer l = false →
      incoming c = incoming (tl_client l) → sent c = sent (tl_client l) →
      writer_does l (Ok tt) (finish_writer (tl_set_client c l))
  | wd_sent m q c : queued (tl_raw l) = m :: queued q → alive q = alive (tl_raw l) →
      incoming c = incoming (tl_client l) → sent c = sent (tl_client l) ++ [m] →
      writer_does l (Ok tt) (tl_set_client c (tl_set_raw q l))
  | wd_failed m e q c : queued (tl_raw l) = m :: queued q → ws_send_all [m] (tl_client l) = (Err e, c) →
      writer_does l (Err (SaltyError.Crash ("TODO sink error: " +:+ e))) (tl_set_client c (tl_set_raw q l))
  | wd_not_closed e c : queued (tl_raw l) = [] → tl_reader l = false → tl_transformer l = false →
      ws_close (tl_client l) = (Err e, c) →
      writer_does l (Err (SaltyError.Crash ("TODO sink error: " +:+ e))) (tl_set_client c l).

Lemma writer_turn_does l : wp (W := env) writer_turn l (writer_does l).
Proof.
  unfold writer_turn. do 3 wp_step. pose proof (mpsc_recv_spec _ (tl_raw l)) as Hr.
  destruct (mpsc_recv (tl_raw l)) as [[m|] q]; do 3 wp_step; destruct Hr as [Hq Hqa].
  - intros w. unfold on_sink. mred. pose proof (ws_send_all_spec [m] (tl_client l)) as Hs.
    destruct (ws_send_all [m] (tl_client l)) as [[[]|e|p] c] eqn:Hws; [|by eapply wd_failed|done].
    destruct Hs. by eapply wd_sent.
  - subst q. rewrite tl_same_raw. wp_step.
    + wp_step. by apply wd_idle.
    + apply orb_false_iff in Hb as [? ?]. intros w. unfold on_sink. mred.
      pose proof (ws_close_spec (tl_client l)) as Hs.
      destruct (ws_close (tl_client l)) as [[[]|e|p] c] eqn:Hws; [..|done]; destruct Hs;
        [by apply wd_end|by eapply wd_not_closed].
Qed.

(** ** The invariant *)

Record loop_inv l : Prop := {
  li_salty : in_task_phase (tl_salty l);
  li_frames : Forall good_frame (incoming (tl_client l));
  (** The receivers live as long as the futures that own them. *)
  li_raw : alive (tl_raw l) = tl_writer l;
  li_outgoing : alive (tl_outgoing l) = tl_transformer l;
  li_disconnect : tl_reader l = false ↔ tl_disconnect l = ReceiverDropped;
  (** The writer is the last to finish. *)
  li_writer : tl_reader l || tl_transformer l = true → tl_writer l = true;
  li_closed : tl_transformer l = false → queued (tl_outgoing l) = [];
  li_written : tl_writer l = false → queued (tl_raw l) = [];
}.

Lemma handle_message_task b s w o s' w' : in_task_phase s → wf_nonce (bbox_nonce b) →
  handle_message b s w = (o, s', w') → in_task_phase s' ∧ no_surprise o.
Proof.
  intros [HI Hst] Hn Hrun. destruct (handle_message_safe I b s HI Hn w) as (HI' & Hstep & Ho).
  rewrite Hrun in *. split; [|done]. split; [done|]. by eapply task_stays.
Qed.
Lemma sealed_task_phase m s o s' : in_task_phase s → sealed_as m s o s' → in_task_phase s'.
Proof.
  intros [HI Hst] (w & w' & Hm).
  assert (∃ E (o' : outcome E ByteBox), handled I s o' s') as (E & o' & HI' & Hc & _).
  { destruct m as [map|data|r].
    1,2: destruct Hm as (v & _ & Hrun); destruct (encode_task_message_sealed I v s HI w) as [Hh _].
    3: rename Hm into Hrun; destruct (encode_close_message_sealed I r s HI w) as [Hh _].
    all: rewrite Hrun in Hh; eauto. }
  split; [done|]. eapply task_stays; [by apply common_frame_step|done].
Qed.

Lemma writer_runs l : loop_inv l → tl_reader l = true ∨ tl_transformer l = true →
  alive (tl_raw l) = true.
Proof.
  intros Hl Hr. rewrite (li_raw _ Hl). apply (li_writer _ Hl). apply orb_true_iff. tauto.
Qed.

Lemma reader_does_inv l o l' : loop_inv l → tl_reader l = true → reader_does l o l' →
  no_surprise o ∧ (o = Ok tt → loop_inv l').
Proof.
  intros [Hs Hf Hr Ho Hd Hw Hc Hwn] Hrd Hdo.
  assert (tl_writer l = true) as Hwr by (apply Hw; by rewrite Hrd).
  destruct Hdo as [c Hi Hi' Hsent|e c Hi|bs e c Hi Hb|m c q ps Hi Hsent [Hq Ha] Hm
    |b c w o s' w' Hi Hne' Hn Hrun Hok|b c w acts s' w' ev Hi Hne' Hn Hrun Hev
    |b c w acts s' w' ev q q' o Hi Hsent Hne' Hn Hrun Hev [Hq Ha] [Hq' Ha'] Ho']; (split; [|try done]).
  - done.
  - intros _. split; simpl; try done; congruence.
  - done.
  - done.
  - done.
  - intros _. rewrite Hi in Hf. inversion Hf. split; simpl; try done; congruence.
  - destruct (handle_message_task _ _ _ _ _ _ Hs Hn Hrun) as [_ Hns]. by destruct o.
  - by destruct o.
  - done.
  - subst o. by destruct (alive (tl_incoming l)), (bool_decide _).
  - intros ->. simpl. rewrite Hi in Hf. inversion Hf.
    destruct (handle_message_task _ _ _ _ _ _ Hs Hn Hrun) as [Hs' _].
    destruct (closes acts); (split; simpl; try done; congruence).
Qed.

Lemma transformer_does_inv l o l' : loop_inv l → tl_transformer l = true → transformer_does l o l' →
  no_surprise o ∧ (o = Ok tt → loop_inv l').
Proof.
  intros [Hs Hf Hr Ho Hd Hw Hc Hwn] Htr Hdo.
  assert (tl_writer l = true) as Hwr by (apply Hw; by rewrite Htr, orb_true_r).
  destruct Hdo as [Hq _|Hq Hse Hre|m q b s' q' Hq Ha Hse [Hq' Ha']|m q e s' Hq Ha Hse];
    (split; [done|intros Hok; try done]).
  - split; simpl; try done; try congruence; by intros; apply mpsc_drop_spec.
  - pose proof (sealed_task_phase _ _ _ _ Hs Hse) as Hs'.
    destruct (closing_message m); (split; simpl; try done; try congruence);
      by intros; apply mpsc_drop_spec.
Qed.

Lemma writer_does_inv l o l' : loop_inv l → tl_writer l = true → writer_does l o l' →
  no_surprise o ∧ (o = Ok tt → loop_inv l').
Proof.
  intros [Hs Hf Hr Ho Hd Hw Hc Hwn] Hwr Hdo.
  destruct Hdo as [Hq _|c Hq Hre Htr Hi _|m q c Hq Ha Hi _|m e q c Hq Hws|e c Hq Hre Htr Hws];
    (split; [done|intros Hok; try done]); split; simpl; try done; try congruence.
  - apply mpsc_drop_spec.
  - by rewrite Hre, Htr.
  - intros _. apply mpsc_drop_spec.
Qed.

Lemma disconnect_turn_run l w : ∃ l', disconnect_turn l w = (Ok tt, l', w) ∧
  match tl_disconnect l with
  | Sent r => ∃ q, l' = finish_reader (tl_set_outgoing q l)
      ∧ extended (tl_outgoing l) q [TaskMessage.Close (default CloseCode.WsGoingAway r)]
  | SenderDropped => l' = finish_reader l
  | _ => l' = l
  end.
Proof.
  unfold disconnect_turn. mred. destruct (tl_disconnect l) as [|r| |] eqn:Hd; [by eexists| |by eexists..].
  destruct (mpsc_send_spec _ (TaskMessage.Close (default CloseCode.WsGoingAway r)) (tl_outgoing l))
    as (-> & _). eexists. split; [done|]. eexists. split; [done|]. apply extended_send, extended_refl.
Qed.

Lemma loop_inv_send l q ms : loop_inv l → extended (tl_outgoing l) q ms → loop_inv (tl_set_outgoing q l).
Proof.
  intros [Hs Hf Hr Ho Hd Hw Hc Hwn] [Hq Ha]. split; simpl; try done; [congruence|].
  intros Ht. by rewrite Hq, Ho, Ht, (Hc Ht).
Qed.
Lemma loop_inv_finish_reader l : loop_inv l → tl_reader l = true → loop_inv (finish_reader l).
Proof.
  intros [Hs Hf Hr Ho Hd Hw Hc Hwn] Hrd. split; simpl; try done. intros _. apply Hw. by rewrite Hrd.
Qed.
Lemma loop_inv_disconnect d l : loop_inv l → tl_disconnect l = Waiting → d ≠ ReceiverDropped →
  loop_inv (tl_set_disconnect d l).
Proof.
  intros [Hs Hf Hr Ho Hd Hw Hc Hwn] Hwt Hne. split; simpl; try done. rewrite Hd, Hwt. split; [done|].
  by intros ->.
Qed.

(** What a turn of the reader adds to the task's messages. *)
Lemma reader_turn_adds l w l' w' : loop_inv l → tl_reader l = true →
  reader_turn l w = (Ok tt, l', w') → ∃ ms,
  queued (tl_incoming l') = queued (tl_incoming l) ++ ms ∧ Forall typed_message ms ∧ loop_inv l'.
Proof.
  intros Hl Hrd Hrun.
  pose proof (reader_turn_does l (li_salty _ Hl) (writer_runs _ Hl (or_introl Hrd)) (li_frames _ Hl) w) as Hdo.
  rewrite Hrun in Hdo. pose proof (proj2 (reader_does_inv _ _ _ Hl Hrd Hdo) eq_refl) as Hl'.
  unfold out, post in *. simpl in *.
  inversion Hdo as [c Hi Hi' Hsent| | |m c q ps Hi Hsent Hq Hm| | |b c w1 acts s' w1' ev q q' o Hi Hsent Hne Hn Hh Hev Hq [Hq' _] Ho];
    subst; [exists []; by rewrite app_nil_r..|].
  assert (∀ stop l1, tl_incoming (stop_reader stop l1) = tl_incoming l1) as -> by by intros [].
  simpl. rewrite Hq'. eexists. split_and!; [done| |done]. destruct (alive (tl_incoming l)); [|done].
  destruct (li_salty _ Hl) as [HI Hst]. apply task_messages_typed. by eapply (task_phase_actions I).
Qed.

Lemma loop_step_inv l lab l' : loop_inv l → loop_step l lab l' → loop_inv l'.
Proof.
  intros Hl Hstep. pose proof Hl as [Hs Hf Hr Ho Hd Hw Hc Hwn].
  destruct Hstep as [w l' w' Hrd Hrun|w l' w' Hrd Hrun|w l' w' Htr Hrun|w l' w' Hwr Hrun|m Hse|m q Hq
    |r| | |].
  - pose proof (reader_turn_does l Hs (writer_runs _ Hl (or_introl Hrd)) Hf w) as Hdo.
    rewrite Hrun in Hdo. by apply (reader_does_inv _ _ _ Hl Hrd Hdo).
  - destruct (disconnect_turn_run l w) as (l1 & Hrun1 & Hdo). rewrite Hrun in Hrun1.
    injection Hrun1 as <- _. destruct (tl_disconnect l) as [|r| |] eqn:Hdd; try by subst.
    + destruct Hdo as (q & -> & Hq). apply loop_inv_finish_reader; [|done]. by eapply loop_inv_send.
    + subst. by apply loop_inv_finish_reader.
  - pose proof (transformer_turn_does l Hs (writer_runs _ Hl (or_intror Htr)) w) as Hdo.
    rewrite Hrun in Hdo. by apply (transformer_does_inv _ _ _ Hl Htr Hdo).
  - pose proof (writer_turn_does l w) as Hdo. rewrite Hrun in Hdo.
    by apply (writer_does_inv _ _ _ Hl Hwr Hdo).
  - eapply loop_inv_send; [done|]. apply (extended_send m []), extended_refl.
  - by split.
  - unfold task_disconnect. destruct (tl_disconnect l) eqn:Hdd; try done. by apply loop_inv_disconnect.
  - unfold task_drop_disconnect. destruct (tl_disconnect l) eqn:Hdd; try done.
    by apply loop_inv_disconnect.
  - by split.
  - by split.
Qed.

(** Any number of turns and calls of the task. *)
Definition loop_runs : relation Lp := rtc (λ l l', ∃ lab, loop_step l lab l').

Lemma loop_runs_inv l l' : loop_runs l l' → loop_inv l → loop_inv l'.
Proof. induction 1 as [l|l l1 l' [lab Hs] _ IH]; [done|]. intros Hl. by eapply IH, loop_step_inv. Qed.

Lemma task_loop_inv client salty event_tx t l : in_task_phase salty →
  Forall wf_ws (incoming client) → task_loop client salty event_tx = Ok (t, l) → loop_inv l.
Proof.
  intros Hs Hf Hrun. unfold task_loop in Hrun. destruct (c_task _); [|done].
  injection Hrun as <- <-. split; simpl; try done; try apply mpsc_unbounded_spec.
  eapply Forall_impl; [exact Hf|apply wf_ws_good].
Qed.

(** ** The errors of a loop *)

(** The ways a running loop can fail. *)
Inductive loop_failure l : outcome SaltyError unit → Prop :=
  (** Reading from the connection fails, or writing the next frame to it, or
      closing it at the end. *)
  | lf_receive t : (ws_next (tl_client l)).1 = Err t → loop_failure l
      (Err (SaltyError.Network ("Could not receive message from server: " +:+ t)))
  | lf_sink m t : head (queued (tl_raw l)) = Some m → (ws_send_all [m] (tl_client l)).1 = Err t →
      loop_failure l (Err (SaltyError.Crash ("TODO sink error: " +:+ t)))
  | lf_close t : queued (tl_raw l) = [] → tl_reader l = false → tl_transformer l = false →
      (ws_close (tl_client l)).1 = Err t →
      loop_failure l (Err (SaltyError.Crash ("TODO sink error: " +:+ t)))
  (** The bytes that arrived are not a box. *)
  | lf_box bs e : head (incoming (tl_client l)) = Some (OwnedMessage.Binary bs) →
      byte_box_from_slice bs = Err e →
      loop_failure l (Err (SaltyError.Protocol (SignalingError.signaling_error_to_string e)))
  (** The signaling object refuses the message that arrived. *)
  | lf_refused b w e : head (incoming (tl_client l))
        = Some (OwnedMessage.Binary (byte_box_into_bytes b)) →
      out (handle_message b (tl_salty l) w) = Err e →
      loop_failure l (Err (SaltyError.from_signaling e))
  | lf_panic b w p : head (incoming (tl_client l))
        = Some (OwnedMessage.Binary (byte_box_into_bytes b)) →
      out (handle_message b (tl_salty l) w) = Panic p → no_surprise (Panic (E := SaltyError) (A := unit) p) →
      loop_failure l (Panic p)
  (** The message that arrived causes an event the event channel refuses, or is
      for the task, which has dropped its receiver. *)
  | lf_events b w acts : head (incoming (tl_client l))
        = Some (OwnedMessage.Binary (byte_box_into_bytes b)) →
      out (handle_message b (tl_salty l) w) = Ok acts →
      refused (events_of acts) (tl_events l) = true →
      loop_failure l (Err (SaltyError.Crash "Could not send event through channel"))
  | lf_incoming b w acts : head (incoming (tl_client l))
        = Some (OwnedMessage.Binary (byte_box_into_bytes b)) →
      out (handle_message b (tl_salty l) w) = Ok acts → task_messages acts ≠ [] →
      alive (tl_incoming l) = false →
      loop_failure l (Err (SaltyError.Crash ("Channel error: " +:+ mpsc_send_error)))
  (** The signaling object refuses to seal the task's next message. *)
  | lf_transformer m e s' : head (queued (tl_outgoing l)) = Some m →
      sealed_as m (tl_salty l) (Err e) s' → loop_failure l (Err transformer_error).

Lemma reader_failure l o l' : in_task_phase (tl_salty l) → reader_does l o l' → o ≠ Ok tt → loop_failure l o.
Proof.
  intros Hs Hdo Hne.
  destruct Hdo as [c Hi Hi' Hsent|e c Hi|bs e c Hi Hb|m c q ps Hi Hsent Hq Hm
    |b c w o s' w' Hi Hne' Hn Hrun Hok|b c w acts s' w' ev Hi Hne' Hn Hrun Hev
    |b c w acts s' w' ev q q' o Hi Hsent Hne' Hn Hrun Hev Hq Hq' Ho']; try done.
  - apply lf_receive. by rewrite Hi.
  - apply (lf_box l bs e); [by rewrite Hi|done].
  - destruct (handle_message_task _ _ _ _ _ _ Hs Hn Hrun) as [_ Hns]. destruct o as [|e|p]; [done|..].
    + apply (lf_refused l b w e); [by rewrite Hi|by rewrite Hrun].
    + apply (lf_panic l b w p); [by rewrite Hi|by rewrite Hrun|done].
  - apply (lf_events l b w acts); [by rewrite Hi|by rewrite Hrun|done].
  - destruct (alive (tl_incoming l)) eqn:Ha; [by subst|].
    case_bool_decide as Hm; simpl in Ho'; subst o; [done|].
    apply (lf_incoming l b w acts); [by rewrite Hi|by rewrite Hrun|done..].
Qed.

Lemma loop_fails_failure l o : loop_inv l → loop_fails l o → loop_failure l o.
Proof.
  intros Hl (w & Hne & Hf). pose proof Hl as [Hs Hfr _ _ _ _ _ _].
  destruct Hf as [(Hrd & [Ho|Ho])|[(Htr & Ho)|(Hwr & Ho)]].
  - pose proof (reader_turn_does l Hs (writer_runs _ Hl (or_introl Hrd)) Hfr w) as Hdo.
    rewrite Ho in Hdo. by eapply reader_failure.
  - destruct (disconnect_turn_run l w) as (l' & Hrun & _). rewrite Hrun in Ho. by subst.
  - pose proof (transformer_turn_does l Hs (writer_runs _ Hl (or_intror Htr)) w) as Hdo.
    rewrite Ho in Hdo. inversion Hdo as [| | |m q e s' Hq]; subst; try done.
    eapply lf_transformer; [by rewrite Hq|done].
  - pose proof (writer_turn_does l w) as Hdo. rewrite Ho in Hdo.
    inversion Hdo as [| | |m e q c Hq Hws|e c Hq Hre Htr Hws]; subst; try done.
    + apply (lf_sink l m); [by rewrite Hq|by rewrite Hws].
    + apply lf_close; [done..|by rewrite Hws].
Qed.

(** ** The end of a loop *)

(** The reader is done, and a Close message is in the outgoing channel or has
    been sealed already. *)
Definition winding_down l : Prop :=
  tl_reader l = false
  ∧ (tl_transformer l = false ∨ Exists (λ m, closing_message m = true) (queued (tl_outgoing l))).

(** A turn of the transformer or the writer that is not idle. *)
Definition busy_step l l' : Prop := ∃ w w', l' ≠ l ∧
  (tl_transformer l = true ∧ transformer_turn l w = (Ok tt, l', w')
   ∨ tl_writer l = true ∧ writer_turn l w = (Ok tt, l', w')).

(** What is left to do: a message becomes at most two frames. *)
Definition workload l : nat :=
  3 * length (queued (tl_outgoing l)) + length (queued (tl_raw l))
  + Nat.b2n (tl_transformer l) + Nat.b2n (tl_writer l).

Lemma busy_step_spec l l' : loop_inv l → busy_step l l' →
  (tl_transformer l = true ∧ transformer_does l (Ok tt) l' ∨ tl_writer l = true ∧ writer_does l (Ok tt) l')
  ∧ l' ≠ l.
Proof.
  intros Hl (w & w' & Hne & [[Htr Hrun]|[Hwr Hrun]]); (split; [|done]); [left|right]; (split; [done|]).
  - pose proof (transformer_turn_does l (li_salty _ Hl) (writer_runs _ Hl (or_intror Htr)) w) as Hdo.
    by rewrite Hrun in Hdo.
  - pose proof (writer_turn_does l w) as Hdo. by rewrite Hrun in Hdo.
Qed.

Lemma busy_step_inv l l' : loop_inv l → busy_step l l' → loop_inv l'.
Proof.
  intros Hl Hs. destruct (busy_step_spec l l' Hl Hs) as [[[Htr Hdo]|[Hwr Hdo]] _].
  - by apply (transformer_does_inv _ _ _ Hl Htr Hdo).
  - by apply (writer_does_inv _ _ _ Hl Hwr Hdo).
Qed.

(** A turn is idle or reduces the work. *)
Lemma transformer_workload l l' : loop_inv l → tl_transformer l = true →
  transformer_does l (Ok tt) l' →
  queued (tl_outgoing l) = [] ∧ tl_sender l || tl_reader l = true ∧ l' = l
  ∨ (workload l' < workload l)%nat.
Proof.
  intros Hl Htr Hdo. inversion Hdo as [| Hq|m q b s' q' Hq Ha Hse Hx|]; subst; [by left|right..].
  - unfold workload. simpl. destruct (mpsc_drop_spec _ (tl_outgoing l)) as [-> _].
    rewrite Hq, Htr. simpl. lia.
  - apply (extended_alive _ _ _) in Hx as [Hx _]; [|by apply writer_runs; [|by right]].
    unfold workload. destruct m; simpl; rewrite ?Hx, ?Hq, ?length_app; simpl; try lia.
    destruct (mpsc_drop_spec _ q) as [-> _]. rewrite Htr. simpl. lia.
Qed.
Lemma writer_workload l l' : tl_writer l = true → writer_does l (Ok tt) l' →
  queued (tl_raw l) = [] ∧ tl_reader l || tl_transformer l = true ∧ l' = l
  ∨ (workload l' < workload l)%nat.
Proof.
  intros Hwr Hdo. inversion Hdo as [|c Hq _ Htr _ _|m q c Hq Ha Hi _| |]; subst; [by left|right..].
  - unfold workload. simpl. destruct (mpsc_drop_spec _ (tl_raw l)) as [-> _].
    rewrite Hq, Hwr. simpl. lia.
  - unfold workload. simpl. rewrite Hq. simpl. lia.
Qed.
Lemma busy_step_decreases l l' : loop_inv l → busy_step l l' → (workload l' < workload l)%nat.
Proof.
  intros Hl Hs. destruct (busy_step_spec l l' Hl Hs) as [[[Htr Hdo]|[Hwr Hdo]] Hne].
  - by destruct (transformer_workload l l' Hl Htr Hdo) as [(_ & _ & ?)|?].
  - by destruct (writer_workload l l' Hwr Hdo) as [(_ & _ & ?)|?].
Qed.

Lemma busy_step_winding l l' : loop_inv l → winding_down l → busy_step l l' → winding_down l'.
Proof.
  intros Hl [Hrd Hcl] Hs. destruct (busy_step_spec l l' Hl Hs) as [[[Htr Hdo]|[Hwr Hdo]] Hne].
  - destruct Hcl as [?|Hcl]; [congruence|]. inversion Hdo as [|Hq|m q b s' q' Hq Ha Hse Hx|]; subst; [done|by split; [|left]|].
    rewrite Hq in Hcl. destruct (closing_message m) eqn:Hm; split; simpl; try done; [by left|].
    right. inversion Hcl; subst; congruence.
  - inversion Hdo as [|c Hq _ Htr _ _|m q c Hq Ha Hi _| |]; subst; [done|..]; by split.
Qed.

(** A loop that winds down and is not done has a turn to take. *)
Lemma winding_progress l (w : env) : loop_inv l → winding_down l → loop_done l = false →
  (∃ l', busy_step l l') ∨ ∃ o, loop_fails l o.
Proof.
  intros Hl [Hrd Hcl] Hnd. destruct (tl_transformer l) eqn:Htr.
  - pose proof (transformer_turn_does l (li_salty _ Hl) (writer_runs _ Hl (or_intror Htr)) w) as Hdo.
    destruct (transformer_turn l w) as [[o l'] w'] eqn:Hrun. unfold out, post in Hdo. simpl in Hdo.
    destruct o as [[]|e|p].
    2, 3: right; eexists _, w; split; [|right; left; split; [done|by rewrite Hrun]]; done.
    left. exists l', w, w'. split; [|by left]. intros ->. destruct Hcl as [?|Hcl]; [done|].
    destruct (transformer_workload l l Hl Htr Hdo) as [(Hq & _)|?]; [|lia].
    rewrite Hq in Hcl. inversion Hcl.
  - assert (tl_writer l = true) as Hwr.
    { unfold loop_done in Hnd. rewrite Hrd, Htr in Hnd. by destruct (tl_writer l). }
    pose proof (writer_turn_does l w) as Hdo.
    destruct (writer_turn l w) as [[o l'] w'] eqn:Hrun. unfold out, post in Hdo. simpl in Hdo.
    destruct o as [[]|e|p].
    2, 3: right; eexists _, w; split; [|right; right; split; [done|by rewrite Hrun]]; done.
    left. exists l', w, w'. split; [|by right]. intros ->.
    destruct (writer_workload l l Hwr Hdo) as [(_ & Hb & _)|?]; [|lia]. by rewrite Hrd, Htr in Hb.
Qed.

Lemma busy_runs n l l' : nsteps busy_step n l l' → loop_inv l → winding_down l →
  loop_inv l' ∧ winding_down l' ∧ (n + workload l' ≤ workload l)%nat.
Proof.
  induction 1 as [l|n l l1 l' Hs _ IH]; intros Hl Hw; [done|].
  pose proof (busy_step_decreases l l1 Hl Hs). destruct IH as (? & ? & ?).
  - by eapply busy_step_inv.
  - by eapply busy_step_winding.
  - split_and!; [done..|lia].
Qed.

(** The reason of the first Close message. *)
Definition first_close (ms : list TaskMessage) : option CloseCode :=
  head (omap (λ m, match m with TaskMessage.Close r => Some r | _ => None end) ms).

(** The last two frames on the wire: a close message with the reason [r], sealed
    with the keys the client shares with its peer in [s], and a WebSocket Close
    with the same reason. *)
Definition goodbye (s : S) (r : CloseCode) (frames : list OwnedMessage) : Prop := ∃ b,
  sealed_for_peer s (AMessage (Message.Close (close_from_close_code r))) b
  ∧ frames_of (TaskMessage.Close r) b `suffix_of` frames.
Definition on_wire l : list OwnedMessage := sent (tl_client l) ++ queued (tl_raw l).

(** The goodbye is still to be sealed, or is on the wire. *)
Definition leaving_with (s : S) (r : CloseCode) l : Prop :=
  if tl_transformer l
  then session (tl_salty l) = session s ∧ first_close (queued (tl_outgoing l)) = Some r
  else goodbye s r (on_wire l).

Lemma sealed_session m s o s' : in_task_phase s → sealed_as m s o s' → session s' = session s.
Proof.
  intros [HI _] (w & w' & Hm). destruct m as [map|data|r].
  1,2: destruct Hm as (v & _ & Hrun);
    destruct (encode_task_message_session I v s HI w) as [Hs _]; by rewrite Hrun in Hs.
  destruct (encode_close_message_session I r s HI w) as [Hs _]. by rewrite Hm in Hs.
Qed.
Lemma sealed_goodbye r s b s' s0 frames : in_task_phase s → session s = session s0 →
  sealed_as (TaskMessage.Close r) s (Ok b) s' → goodbye s0 r (frames ++ frames_of (TaskMessage.Close r) b).
Proof.
  intros [HI _] Hs (w & w' & Hrun). destruct (encode_close_message_session I r s HI w) as [_ Hb].
  rewrite Hrun in Hb. destruct Hb as (kp & pk & Hk & Hb). exists b. rewrite Hs in Hk.
  split; [by exists kp, pk|by apply suffix_app_r].
Qed.

Lemma busy_step_goodbye s r l l' : loop_inv l → busy_step l l' → leaving_with s r l → leaving_with s r l'.
Proof.
  intros Hl Hs Hg. unfold leaving_with in *.
  destruct (busy_step_spec l l' Hl Hs) as [[[Htr Hdo]|[Hwr Hdo]] Hne].
  - rewrite Htr in Hg. destruct Hg as [Hse Hfc].
    inversion Hdo as [|Hq|m q b s' q' Hq Ha Hseal Hx|]; subst; [done|by rewrite Hq in Hfc|].
    pose proof (sealed_session _ _ _ _ (li_salty _ Hl) Hseal) as Hs'.
    apply (extended_alive _ _ _) in Hx as [Hx _]; [|by apply writer_runs; [|by right]].
    rewrite Hq in Hfc. destruct m as [map|data|r']; simpl; [by rewrite Htr, Hs'..|].
    injection Hfc as ->. unfold on_wire. simpl. rewrite Hx, app_assoc.
    by eapply sealed_goodbye; [apply (li_salty _ Hl)|..].
  - inversion Hdo as [|c Hq _ Htr _ Hsent|m q c Hq Ha Hi Hsent| |]; subst; [done|..]; simpl.
    + rewrite Htr in *. unfold on_wire in *. simpl. destruct (mpsc_drop_spec _ (tl_raw l)) as [-> _].
      by rewrite Hsent, Hq in *.
    + destruct (tl_transformer l); [done|]. unfold on_wire in *. simpl.
      by rewrite Hsent, Hq, <- app_assoc in *.
Qed.

Lemma busy_runs_goodbye s r n l l' : nsteps busy_step n l l' → loop_inv l →
  leaving_with s r l → leaving_with s r l'.
Proof.
  induction 1 as [l|n l l1 l' Hs _ IH]; intros Hl Hg; [done|].
  apply IH; [by eapply busy_step_inv|by eapply busy_step_goodbye].
Qed.

(** ** A disconnect that is lost *)

(** A step in which the task neither sends a Close message itself nor drops its
    sender. *)
Definition task_waits l l' : Prop := ∃ lab, loop_step l lab l'
  ∧ (∀ r, lab ≠ Sends (TaskMessage.Close r)) ∧ tl_sender l' = true.

(** Only the reader is done, and nothing will end the transformer. *)
Record hanging l : Prop := {
  ha_inv : loop_inv l;
  ha_reader : tl_reader l = false;
  ha_sender : tl_sender l = true;
  ha_transformer : tl_transformer l = true;
  ha_outgoing : Forall (λ m, closing_message m = false) (queued (tl_outgoing l));
}.

Lemma disconnect_after_reader r l : loop_inv l → tl_reader l = false → task_disconnect r l = l.
Proof. intros Hl Hrd. apply (li_disconnect _ Hl) in Hrd. unfold task_disconnect. by rewrite Hrd. Qed.

Lemma hanging_step l l' : hanging l → task_waits l l' → hanging l'.
Proof.
  intros [Hl Hrd Hse Htr Hq] (lab & Hstep & Hlab & Hse'). pose proof (loop_step_inv l lab l' Hl Hstep) as Hl'.
  destruct Hstep as [w l' w' Hrd' Hrun|w l' w' Hrd' Hrun|w l' w' _ Hrun|w l' w' Hwr Hrun|m _|m q Hqr|r| | |];
    try congruence.
  - pose proof (transformer_turn_does l (li_salty _ Hl) (writer_runs _ Hl (or_intror Htr)) w) as Hdo.
    rewrite Hrun in Hdo. inversion Hdo as [Hq' Hb E|Hq' Hse''|m q b s' q' Hq' Ha Hse'' Hx Ho E|].
    + unfold post in E. simpl in E. by subst.
    + congruence.
    + rewrite Hq' in Hq. inversion Hq as [|? ? Hm Hqs]; subst. unfold post in E; simpl in E.
      rewrite Hm in E. simpl in E. subst l'. by split.
  - pose proof (writer_turn_does l w) as Hdo. rewrite Hrun in Hdo.
    inversion Hdo as [Hq' Hb E|c Hq' _ Htr'|m q c Hq' Ha Hi Hsent Ho E| |]; unfold post in *; simpl in *.
    + by subst.
    + congruence.
    + subst l'. by split.
  - split; try done. simpl. destruct (mpsc_send_spec _ m (tl_outgoing l)) as (_ & -> & _).
    apply Forall_app. split; [done|]. destruct (alive (tl_outgoing l)); [|done].
    constructor; [|done]. destruct m; [done..|]. by destruct (Hlab reason).
  - by split.
  - rewrite (disconnect_after_reader r l Hl Hrd) in *. by split.
  - unfold task_drop_disconnect in *. rewrite (proj1 (li_disconnect _ Hl) Hrd) in *. by split.
  - by split.
  - done.
Qed.
Lemma hanging_runs l l' : rtc task_waits l l' → hanging l → hanging l'.
Proof. induction 1 as [l|l l1 l' Hs _ IH]; [done|]. intros Hh. by eapply IH, hanging_step. Qed.

(** ** The theorems *)

(** C23: what can make a task loop fail.  A loop started in the task phase keeps
    its invariant under every interleaving of the turns of its futures and the
    calls of the task, and a turn fails only because the connection fails,
    because a message is refused (its bytes are not a box, or the signaling
    object rejects it), because nobody listens to events or task messages any
    more, or because the signaling object refuses to seal the next task
    message.  So a loop never fails on its own channels, nor because a handshake
    action shows up in the task phase, and it panics only where the signaling
    object does. *)
Theorem task_loop_failures client salty event_tx t l0 l o :
  task_loop client salty event_tx = Ok (t, l0) → in_task_phase salty →
  Forall wf_ws (incoming client) → loop_runs l0 l → loop_fails l o →
  in_task_phase (tl_salty l) ∧ loop_failure l o.
Proof.
  intros Hrun Hs Hf Hruns Hfail.
  pose proof (loop_runs_inv _ _ Hruns (task_loop_inv _ _ _ _ _ Hs Hf Hrun)) as Hl.
  split; [apply (li_salty _ Hl)|]. by apply loop_fails_failure.
Qed.

(** C24: a disconnect ends the loop.  Once the reader has passed on the task's
    disconnect, every sequence of turns of the two other futures that do
    something is bounded by the work that is left; when none can follow, a
    future has failed, or the loop is done and the last two frames sent are the
    client's goodbye: a close message sealed with the session keys for the peer,
    and a WebSocket Close, both with the reason of the disconnect (going away if
    it has none), or with the reason of the first Close message the task itself
    had sent before. *)
Theorem disconnect_completes l r w l1 w1 n l' :
  loop_inv l → tl_reader l = true → tl_transformer l = true → tl_disconnect l = Sent r →
  disconnect_turn l w = (Ok tt, l1, w1) → nsteps busy_step n l1 l' →
  let reason := default (default CloseCode.WsGoingAway r) (first_close (queued (tl_outgoing l))) in
  (n ≤ workload l1)%nat
  ∧ ((∃ l'', busy_step l' l'') ∨ (∃ o, loop_fails l' o)
     ∨ loop_done l' = true ∧ goodbye (tl_salty l) reason (sent (tl_client l'))).
Proof.
  intros Hl Hrd Htr Hd Hrun Hn reason. destruct (disconnect_turn_run l w) as (l2 & Hrun2 & Hl1).
  rewrite Hrun in Hrun2. injection Hrun2 as <- _. rewrite Hd in Hl1. destruct Hl1 as (q & -> & Hq).
  set (l1 := finish_reader (tl_set_outgoing q l)) in *.
  assert (loop_inv l1) as Hl1 by (apply loop_inv_finish_reader; [by eapply loop_inv_send|done]).
  apply extended_alive in Hq as [Hq _]; [|by rewrite (li_outgoing _ Hl)].
  assert (winding_down l1) as Hwd.
  { split; [done|right]. simpl. rewrite Hq. apply Exists_app. right. by constructor. }
  assert (leaving_with (tl_salty l) reason l1) as Hlv.
  { unfold leaving_with. simpl. rewrite Htr, Hq. split; [done|]. subst reason. unfold first_close.
    rewrite omap_app. simpl. by destruct (omap _ (queued (tl_outgoing l))). }
  destruct (busy_runs n l1 l' Hn Hl1 Hwd) as (Hl' & Hwd' & Hw). split; [lia|].
  destruct (loop_done l') eqn:Hdone; [|destruct (winding_progress l' w Hl' Hwd' Hdone); tauto].
  right. right. split; [done|].
  assert (tl_transformer l' = false ∧ tl_writer l' = false) as [Htr' Hwr'].
  { unfold loop_done in Hdone. by destruct (tl_reader l'), (tl_transformer l'), (tl_writer l'). }
  pose proof (busy_runs_goodbye _ _ n l1 l' Hn Hl1 Hlv) as Hg. unfold leaving_with in Hg.
  rewrite Htr' in Hg. unfold on_wire in Hg. by rewrite (li_written _ Hl' Hwr'), app_nil_r in Hg.
Qed.

(** A disconnect after the reader is done is lost.  Once the reader has
    stopped, for instance at a close message of the peer, while the task still
    holds its sender, the task's disconnect request does nothing, and the loop
    does not end in any run in which the task neither drops its sender nor sends
    a Close message through it. *)
Theorem disconnect_lost l l' r :
  loop_inv l → tl_reader l = false → tl_sender l = true → tl_transformer l = true →
  Forall (λ m, closing_message m = false) (queued (tl_outgoing l)) → rtc task_waits l l' →
  task_disconnect r l' = l' ∧ loop_done l' = false.
Proof.
  intros Hl Hrd Hse Htr Hq Hruns. assert (hanging l) as Hh by done.
  apply (hanging_runs _ _ Hruns) in Hh as [Hl' Hrd' _ Htr' _].
  split; [by apply disconnect_after_reader|]. unfold loop_done. by rewrite Hrd', Htr'.
Qed.
End safe.
End turns.

(** ** Witnesses *)

Module LoopWitnesses.
Import Reference ReferenceCodec Handshake ProtocolWitnesses ClientWitnesses.

(** Channels as lists, until the receiver is dropped; a script whose sink closes. *)
Definition queue (A : Type) : Type := option (list A).
Definition items A (q : queue A) : list A := default [] q.
Definition open A (q : queue A) : bool := match q with Some _ => true | None => false end.
#[export] Instance queue_mpsc : Mpsc queue := {|
  mpsc_unbounded A := Some [];
  mpsc_send A a q := match q with Some l => (true, Some (l ++ [a])) | None => (false, None) end;
  mpsc_recv A q := match q with Some (a :: rest) => (Some a, Some rest) | _ => (None, q) end;
  mpsc_drop_receiver A q := None;
  mpsc_send_error := "send failed because receiver is gone";
|}.
#[export] Instance queue_laws : MpscLaws queue items open.
Proof. split; try done; [by intros A a []|by intros A [[]|]|by intros A []]. Qed.
#[export] Instance script_sink : WsSink script := {| ws_close c := (Ok tt, c) |}.
#[export] Instance script_sink_laws : WsSinkLaws script fst snd.
Proof. by split. Qed.
#[export] Existing Instances script_client script_laws log_channel log_laws.

Definition world : env := 7.
Abbreviation iloop := (TaskLoop istate script (list Event) queue).
Abbreviation rloop := (TaskLoop rstate script (list Event) queue).

Definition start_loop {S} `{!Signaling string S} (s : S) (frames : list OwnedMessage)
    : outcome SaltyError (string * TaskLoop S script (list Event) queue) :=
  task_loop (Q := queue) (frames, []) s [].
Definition get_loop {S} (s : S) (o : outcome SaltyError (string * TaskLoop S script (list Event) queue))
    : TaskLoop S script (list Event) queue :=
  match o with
  | Ok (_, l) => l
  | _ => mkTaskLoop s ([], []) [] None None None Waiting false false false false
  end.

Lemma start_inv {S} `{!Signaling string S} (I : S → Prop) (s : S) frames :
  in_task_phase I s → Forall wf_ws frames → is_ok (start_loop s frames) = true →
  loop_inv fst items open I (get_loop s (start_loop s frames)).
Proof.
  intros Hs Hf Hok. destruct (start_loop s frames) as [[t l]|e|m] eqn:Hl; [|done..].
  by apply (task_loop_inv fst items open I (frames, []) s [] t l).
Qed.
Lemma done_in_task_phase : in_task_phase initiator_inv done_initiator.
Proof. split; [exact done_inv|vm_compute; reflexivity]. Qed.
Lemma done_responder_in_task_phase : in_task_phase responder_state_inv done_responder.
Proof. split; [by apply responder_reachable_inv, done_responder_reachable|vm_compute; reflexivity]. Qed.

(** A loop that receives two bytes. *)
Definition garbage : OwnedMessage := OwnedMessage.Binary [1; 2].
Definition failing : iloop := get_loop done_initiator (start_loop done_initiator [garbage]).
Definition failed := reader_turn failing world.
Lemma task_loop_failures_witness :
  in_task_phase initiator_inv (tl_salty failing)
  ∧ loop_failure fst items open failing (out failed).
Proof.
  refine (task_loop_failures fst snd id items open initiator_inv ([garbage], [])
    done_initiator [] "chat" failing failing (out failed) _ _ _ _ _).
  - vm_compute. reflexivity.
  - exact done_in_task_phase.
  - by_compute.
  - reflexivity.
  - exists world. split; [by vm_compute|]. left. split; [vm_compute; reflexivity|left; vm_compute; reflexivity].
Defined.

(** A loop whose task has disconnected, and its turns to the end. *)
Definition leaving : iloop :=
  task_disconnect None (get_loop done_initiator (start_loop done_initiator [])).
Definition left1 := post (disconnect_turn leaving world).
Definition left2 := post (transformer_turn left1 world).
Definition left3 := post (writer_turn left2 world).
Definition left4 := post (writer_turn left3 world).
Definition left5 := post (writer_turn left4 world).
Lemma leaving_inv : loop_inv fst items open initiator_inv leaving.
Proof.
  apply (loop_step_inv fst snd id items open initiator_inv
    (get_loop done_initiator (start_loop done_initiator [])) Internal); [|apply step_task_disconnect].
  apply start_inv; [exact done_in_task_phase|by_compute|vm_compute; reflexivity].
Qed.
Lemma workload_differs (l l' : iloop) : bool_decide (workload items l' = workload items l) = false → l' ≠ l.
Proof. intros Hb ->. by rewrite bool_decide_eq_true_2 in Hb. Qed.

Lemma disconnect_completes_witness :
  loop_done left5 = true
  ∧ (4 ≤ workload items left1)%nat
  ∧ ((∃ l'', busy_step left5 l'') ∨ (∃ o, loop_fails left5 o)
     ∨ loop_done left5 = true
       ∧ goodbye (tl_salty leaving) CloseCode.WsGoingAway (snd (tl_client left5))).
Proof.
  split; [vm_compute; reflexivity|].
  refine (disconnect_completes fst snd items open initiator_inv leaving None world left1
    world 4 left5 _ _ _ _ _ _).
  - exact leaving_inv.
  - vm_compute. reflexivity.
  - vm_compute. reflexivity.
  - vm_compute. reflexivity.
  - vm_compute. reflexivity.
  - apply (nsteps_l _ _ _ left2), (nsteps_l _ _ _ left3), (nsteps_l _ _ _ left4), nsteps_once;
      exists world, world; (split; [apply workload_differs; vm_compute; reflexivity|]).
    + left. split; vm_compute; reflexivity.
    + right. split; vm_compute; reflexivity.
    + right. split; vm_compute; reflexivity.
    + right. split; vm_compute; reflexivity.
Defined.

(** A responder's loop that has read the initiator's close message. *)
Definition close_box : OwnedMessage := OwnedMessage.Binary (wire
  (out (encode_close_message CloseCode.WsGoingAway done_initiator world))).
Definition hung : rloop :=
  post (reader_turn (get_loop done_responder (start_loop done_responder [close_box])) world).
Lemma hung_inv : loop_inv fst items open responder_state_inv hung.
Proof.
  eapply (loop_step_inv fst snd id items open responder_state_inv
    (get_loop done_responder (start_loop done_responder [close_box])) Internal).
  - apply start_inv; [exact done_responder_in_task_phase|by_compute|vm_compute; reflexivity].
  - eapply (step_reader _ world hung world); vm_compute; reflexivity.
Qed.
Lemma disconnect_lost_witness :
  task_disconnect (Some CloseCode.WsProtocolError) hung = hung ∧ loop_done hung = false.
Proof.
  refine (disconnect_lost fst snd id items open responder_state_inv hung hung
    (Some CloseCode.WsProtocolError) _ _ _ _ _ _).
  - exact hung_inv.
  - vm_compute. reflexivity.
  - vm_compute. reflexivity.
  - vm_compute. reflexivity.
  - vm_compute. constructor.
  - reflexivity.
Defined.
End LoopWitnesses.
