(* ===== verification/Network.v ===== *)
(** * Two task loops joined by a server

    The composition of the task phase: the loops of an initiator and a
    responder (any two implementations of the signaling interface), each with
    its three futures and its task, and a server that relays binary frames.
    [link] relates the two ends of one direction: the boxes on their way are
    those of a [channel] between the two endpoints, and the receiver reads them
    as the messages sent.  [implements] relates a direction to a [Pipe], and
    [side_step] shows that each step of a loop is a step of the pipes.  The
    theorems are the refinement, the order and exactness of delivery, and that
    everything sent can arrive. *)

From S2P Require Import Prelude Text External Errors Types Csn Cookie Nonce Crypto Tasks Messages.
From S2P Require Import ReferenceCodec Boxes Context Signaling SignalingSpec SignalingSafe Runs.
From S2P Require Import Initiator InitiatorSafe Responder ResponderSafe Channel Handshake Protocol.
From S2P Require Import Actions Client ClientProps Pipe TaskLoop TaskLoopProps.

(** ** What a message says to the peer *)

(** The receiver's loop reads the value [v] as the message [m]. *)
Definition reads (types : option (list string)) (v : Value) (m : TaskMessage) : Prop :=
  process_task_message v types = Ok [HandleAction.TaskMessage m].

(** The messages a peer that supports [types] understands: a value of one of
    these types, an application message, or a close message with a code that is
    its own number's, in each case with values that can be written. *)
Definition sendable (types : option (list string)) (m : TaskMessage) : Prop :=
  match m with
  | TaskMessage.Value map => ∃ t ts, map !! "type" = Some (Value.from_string t)
      ∧ t ≠ "application" ∧ t ≠ "close" ∧ types = Some ts ∧ t ∈ ts ∧ wf_map map
  | TaskMessage.Application data => wf_value data = true
  | TaskMessage.Close r => u16 (CloseCode.as_number r) ∧ CloseCode.canonical r = true
  end.

Lemma pairs_to_map_keys (map : gmap string Value) keys : ∀ acc,
  (∀ k, k ∈ keys → is_Some (map !! k)) →
  ∃ acc', pairs_to_map (omap (λ k, x ← map !! k; Some (Value.from_string k, x)) keys) acc = Ok acc'
  ∧ ∀ k, acc' !! k = if bool_decide (k ∈ keys) then map !! k else acc !! k.
Proof.
  induction keys as [|k keys IH]; intros acc Hk; simpl; [by exists acc|].
  destruct (Hk k) as [x Hx]; [by left|]. rewrite Hx. simpl.
  destruct (IH (<[k:=x]> acc)) as (acc' & Hrun & Hacc); [intros k' Hk'; apply Hk; by right|].
  exists acc'. split; [exact Hrun|]. intros k'. rewrite Hacc.
  destruct (decide (k' = k)) as [->|Hne].
  - rewrite lookup_insert, decide_True by done. rewrite (bool_decide_eq_true_2 (k ∈ k :: keys)) by by left.
    by destruct (bool_decide _).
  - rewrite lookup_insert_ne by done. rewrite (bool_decide_ext (k' ∈ keys) (k' ∈ k :: keys)); [done|].
    rewrite elem_of_cons. tauto.
Qed.
Lemma value_to_map_message map v : message_value (TaskMessage.Value map) v → value_to_map v = Ok map.
Proof.
  intros (keys & Hp & ->). simpl.
  destruct (pairs_to_map_keys map keys ∅) as (acc & -> & Hacc).
  { intros k. by rewrite Hp, elem_of_elements, elem_of_dom. }
  f_equal. apply map_eq. intros k. rewrite Hacc. case_bool_decide as Hk; [done|].
  rewrite Hp, elem_of_elements, not_elem_of_dom in Hk. by rewrite Hk.
Qed.

Lemma message_value_reads types m v : sendable types m → message_value m v → reads types v m.
Proof.
  destruct m as [map|data|r]; [| |done]; unfold reads, process_task_message.
  - intros (t & ts & Ht & Ha & Hc & -> & Hin & _) Hv. rewrite (value_to_map_message map v Hv). simpl.
    rewrite Ht. simpl. rewrite !bool_decide_eq_false_2 by done.
    rewrite (proj2 (existsb_exists _ _)); [done|]. exists t. rewrite bool_decide_eq_true.
    by rewrite <- list_elem_of_In.
  - by intros _ ->.
Qed.
Lemma wf_pairs kvs : short kvs → Forall (λ kv, wf_value kv.1 = true ∧ wf_value kv.2 = true) kvs →
  wf_value (Value.Map kvs) = true.
Proof.
  intros Hs Hk. cbn [wf_value]. rewrite bool_decide_eq_true_2 by done. simpl. apply forallb_forall.
  intros [k v] Hin%list_elem_of_In. rewrite Forall_forall in Hk. destruct (Hk _ Hin) as [Hk1 Hk2].
  simpl in Hk1, Hk2. by rewrite Hk1, Hk2.
Qed.
Lemma omap_length_le {A B} (f : A → option B) l : (length (omap f l) ≤ length l)%nat.
Proof.
  induction l as [|a l IH]; [done|].
  change (omap f (a :: l)) with (match f a with Some b => b :: omap f l | None => omap f l end).
  destruct (f a); cbn [length]; lia.
Qed.
Lemma wf_name s : wf_string s → wf_value (Value.from_string s) = true.
Proof. intros Hs. simpl. by rewrite bool_decide_eq_true_2. Qed.
Lemma message_value_wf types m v : sendable types m → message_value m v → wf_value v = true.
Proof.
  destruct m as [map|data|r]; [| |done].
  - intros (t & ts & _ & _ & _ & _ & _ & [Hs Hm]) (keys & Hp & ->). apply wf_pairs.
    + unfold short. rewrite <- size_dom in Hs. eapply Z.le_lt_trans; [|exact Hs]. unfold size, set_size.
      simpl. rewrite <- Hp. apply inj_le, omap_length_le.
    + apply Forall_forall. intros [k x] Hin.
      apply list_elem_of_omap in Hin as (k' & _ & (x' & Hx & [= <- <-])%bind_Some).
      destruct (Hm k' x' Hx) as [Hk Hv]. split; [by apply wf_name|done].
  - intros Hd ->. cbn [sendable] in Hd. apply wf_pairs; [done|].
    repeat constructor; try done; by apply wf_name.
Qed.
Lemma close_value_reads types r : sendable types (TaskMessage.Close r) →
  reads types (close_value (CloseCode.as_number r)) (TaskMessage.Close r).
Proof.
  intros [Hu Hc]. unfold reads, process_task_message, close_value, close_reason_of. simpl.
  simplify_map_eq. simpl.
  rewrite bool_decide_eq_true_2 by (destruct Hu; split; lia). simpl.
  rewrite bool_decide_eq_false_2 by (destruct Hu; lia). simpl.
  unfold wrap. rewrite Z.mod_small by done. by rewrite (proj2 (CloseCode.from_number_as_number r)).
Qed.

(** The bytes of the binary frames. *)
Definition binaries (ms : list OwnedMessage) : list bytes :=
  omap (λ m, match m with OwnedMessage.Binary bs => Some bs | _ => None end) ms.
Definition is_binary (m : OwnedMessage) : bool :=
  match m with OwnedMessage.Binary _ => true | _ => false end.

Lemma binaries_app ms ms' : binaries (ms ++ ms') = binaries ms ++ binaries ms'.
Proof. apply omap_app. Qed.
Lemma binaries_control ms : Forall (λ m, is_binary m = false) ms → binaries ms = [].
Proof. by induction 1 as [|[] ms Hm _ IH]. Qed.

(** A Close message comes last. *)
Definition close_last (ms : list TaskMessage) : Prop := has_close (removelast ms) = false.

Lemma close_last_cons m ms : close_last (m :: ms) →
  close_last ms ∧ (closing_message m = true → ms = []).
Proof.
  unfold close_last. destruct ms as [|m' ms]; [done|].
  change (removelast (m :: m' :: ms)) with (m :: removelast (m' :: ms)). simpl (has_close (_ :: _)).
  intros [Hm Hms]%orb_false_iff. split; [done|]. by rewrite Hm.
Qed.
Lemma close_last_snoc ms m : has_close ms = false → close_last (ms ++ [m]).
Proof. unfold close_last. by rewrite removelast_last. Qed.

(** ** One direction of the connection *)

Section direction.
Context {T S1 S2 C Ch : Type} {Q : Type → Type}.
Context `{!Task T, !Env, !Signaling T S1, !Signaling T S2}.
Context `{!WsClient C, !WsSink C, !EventChannel Ch, !Mpsc Q}.
Context `{!ByteOrder, !ByteOrderLaws, !Sodium, !SodiumLaws, !Rmps, !RmpsLaws, !EnvLaws}.
Context (incoming sent : C → list OwnedMessage) (reported : Ch → list Event).
Context (queued : ∀ {A}, Q A → list A) (alive : ∀ {A}, Q A → bool).
Context `{!WsClientLaws C incoming sent, !WsSinkLaws C incoming sent}.
Context `{!EventChannelLaws Ch reported, !MpscLaws Q (@queued) (@alive)}.
Context (I1 : S1 → Prop) `{!SignalingSafe T S1 I1, !SignalingActions T S1 I1, !ChannelEnd T S1 I1}.
Context (I2 : S2 → Prop) `{!SignalingSafe T S2 I2, !SignalingActions T S2 I2, !ChannelEnd T S2 I2}.
Arguments queued {A}.
Arguments alive {A}.
Abbreviation L1 := (TaskLoop S1 C Ch Q).
Abbreviation L2 := (TaskLoop S2 C Ch Q).
Implicit Types (a : L1) (b : L2).

(** The frames between the sender [a], of whose frames the first [k] have been
    relayed, and the receiver [b]. *)
Definition between a b (k : nat) : list OwnedMessage :=
  incoming (tl_client b) ++ drop k (sent (tl_client a)) ++ queued (tl_raw a).

(** The two ends of the direction from [a] to [b], with the messages [ms] on
    their way. *)
Record link (types : option (list string)) a b (k : nat) (ms : list TaskMessage)
    (e1 e2 : Endpoint) : Prop := {
  lk_sender : endpoint (tl_salty a) = Some e1;
  lk_receiver : endpoint (tl_salty b) = Some e2;
  lk_types : e_types e2 = types;
  lk_channel : ∃ bs vs, channel e1 e2 bs vs ∧ Forall2 (reads types) vs ms
    ∧ binaries (between a b k) = map byte_box_into_bytes bs;
  lk_relayed : (k ≤ length (sent (tl_client a)))%nat;
  lk_outgoing : Forall (sendable types) (queued (tl_outgoing a));
  lk_close : close_last ms;
  lk_open : tl_transformer a = true → has_close ms = false;
}.

(** The receiver still takes messages. *)
Definition receiving b : bool := tl_reader b && alive (tl_incoming b).

(** The pipe a direction implements: what is in the receiver's channel, on the
    way, and in the sender's channel.  Whether it is open matters as long as the
    sender can send. *)
Record implements a b (ms : list TaskMessage) (p : Pipe) : Prop := {
  im_queue : p_queue p = queued (tl_incoming b)
    ++ if receiving b then ms ++ until_close (queued (tl_outgoing a)) else [];
  im_open : tl_sender a || tl_reader a = true →
    p_open p = receiving b && tl_transformer a && negb (has_close (queued (tl_outgoing a)));
}.

(** *** Changes that do not concern the direction *)

Lemma link_sender types a a' b k ms e1 e1' e2 :
  link types a b k ms e1 e2 → endpoint (tl_salty a') = Some e1' →
  (∀ bs vs, channel e1 e2 bs vs → channel e1' e2 bs vs) →
  sent (tl_client a') = sent (tl_client a) →
  binaries (queued (tl_raw a')) = binaries (queued (tl_raw a)) →
  Forall (sendable types) (queued (tl_outgoing a')) →
  tl_transformer a' = tl_transformer a → link types a' b k ms e1' e2.
Proof.
  intros [Hs Hr Ht (bs & vs & Hch & Hv & Hb) Hk Ho Hc Hop] He Hch' Hsent Hraw Hout Htr.
  split; rewrite ?Hsent, ?Htr; try done. exists bs, vs. split_and!; [by apply Hch'|done|].
  rewrite <- Hb. unfold between. by rewrite Hsent, !binaries_app, Hraw.
Qed.
Lemma link_receiver types a b b' k ms e1 e2 e2' :
  link types a b k ms e1 e2 → endpoint (tl_salty b') = Some e2' → e_types e2' = e_types e2 →
  (∀ bs vs, channel e1 e2 bs vs → channel e1 e2' bs vs) →
  binaries (incoming (tl_client b')) = binaries (incoming (tl_client b)) →
  link types a b' k ms e1 e2'.
Proof.
  intros [Hs Hr Ht (bs & vs & Hch & Hv & Hb) Hk Ho Hc Hop] He Hty Hch' Hi.
  split; try done; try congruence. exists bs, vs. split_and!; [by apply Hch'|done|].
  rewrite <- Hb. unfold between. by rewrite !binaries_app, Hi.
Qed.

Lemma implements_sender a a' b ms p : implements a b ms p →
  queued (tl_outgoing a') = queued (tl_outgoing a) → tl_transformer a' = tl_transformer a →
  (tl_sender a' || tl_reader a' = true → tl_sender a || tl_reader a = true) →
  implements a' b ms p.
Proof. intros [Hq Ho] Hout Htr Hs. split; rewrite Hout, ?Htr; auto. Qed.
Lemma implements_receiver a b b' ms p : implements a b ms p →
  queued (tl_incoming b') = queued (tl_incoming b) → receiving b' = receiving b →
  implements a b' ms p.
Proof. intros [Hq Ho] Hin Hr. split; rewrite Hr, ?Hin; auto. Qed.

(** *** Receiving *)

(** The label of a step in which the task takes no message: the receiver stops
    reading, or the task drops its end of the channel. *)
Definition halts b b' : bool :=
  receiving b && negb (receiving b') || alive (tl_incoming b) && negb (alive (tl_incoming b')).
Definition halt_label b b' : PipeLabel := if halts b b' then Halt else Tau.

Lemma halts_same b b' : tl_reader b' = tl_reader b →
  alive (tl_incoming b') = alive (tl_incoming b) → halts b b' = false.
Proof. unfold halts, receiving. intros -> ->. by rewrite !andb_negb_r. Qed.

(** The receiver stops: what is not in its channel is lost. *)
Lemma implements_halt a b b' ms p : implements a b ms p →
  queued (tl_incoming b') `prefix_of` queued (tl_incoming b) →
  (halts b b' = false → queued (tl_incoming b') = queued (tl_incoming b)) →
  receiving b' = false → ∃ p', implements a b' ms p' ∧ pipe_step p (halt_label b b') p'.
Proof.
  intros [Hq Ho] [rest Hin] Hsame Hr. unfold halt_label. destruct (halts b b') eqn:Hh.
  - exists (mkPipe (take (length (queued (tl_incoming b'))) (p_queue p)) false).
    split; [|apply pipe_halt]. split; rewrite Hr; [|done]. simpl.
    rewrite Hq, Hin, <- app_assoc, take_app_length. by rewrite app_nil_r.
  - assert (receiving b = false) as Hrb.
    { unfold halts in Hh. rewrite Hr in Hh. by destruct (receiving b). }
    exists p. split; [|apply pipe_tau]. rewrite Hrb in Hq, Ho.
    split; rewrite Hr; [|done]. by rewrite Hsame.
Qed.
Lemma implements_stays a b b' ms' p : implements a b' ms' p → halts b b' = false →
  ∃ p', implements a b' ms' p' ∧ pipe_step p (halt_label b b') p'.
Proof. intros Hp Hh. exists p. split; [done|]. unfold halt_label. rewrite Hh. apply pipe_tau. Qed.

(** What a receiver's turn leaves alone. *)
Record receiver_frame b b' : Prop := {
  rf_sent : sent (tl_client b') = sent (tl_client b);
  rf_raw : binaries (queued (tl_raw b')) = binaries (queued (tl_raw b));
  rf_outgoing : queued (tl_outgoing b') = queued (tl_outgoing b);
  rf_transformer : tl_transformer b' = tl_transformer b;
  rf_sender : tl_sender b' || tl_reader b' = true → tl_sender b || tl_reader b = true;
}.

(** The next frame of a link is the next box of the channel, which the receiver
    reads as the next message. *)
Lemma link_next types a b k ms e1 e2 bx rest : link types a b k ms e1 e2 → I2 (tl_salty b) →
  incoming (tl_client b) = OwnedMessage.Binary (byte_box_into_bytes bx) :: rest →
  wf_nonce (bbox_nonce bx) → bbox_bytes bx ≠ [] →
  ∃ m ms' bs vs e2', ms = m :: ms' ∧ e2' = e_accept (nonce_csn (bbox_nonce bx)) e2
  ∧ channel e1 e2' bs vs ∧ Forall2 (reads types) vs ms'
  ∧ binaries (rest ++ drop k (sent (tl_client a)) ++ queued (tl_raw a)) = map byte_box_into_bytes bs
  ∧ ∀ w, ∃ s', handle_message bx (tl_salty b) w = (Ok [HandleAction.TaskMessage m], s', w)
    ∧ endpoint s' = Some e2'.
Proof.
  intros [Hs Hr Ht (bs & vs & Hch & Hv & Hb) _ _ _ _] HI Hi Hn Hne.
  unfold between in Hb. rewrite Hi in Hb. simpl in Hb.
  destruct bs as [|b0 bs]; [done|]. simpl in Hb. injection Hb as Hb0 Hb.
  assert (∃ v vs', vs = v :: vs') as (v & vs' & ->).
  { destruct Hch as [_ Hc _ _]. inversion Hc; subst; eauto. }
  apply channel_recv in Hch as (Hf & Hc & Hch).
  assert (b0 = bx) as ->.
  { pose proof (carries_wire _ _ _ _ Hc) as Hw. rewrite <- Hb0, byte_box_roundtrip in Hw by done.
    by injection Hw. }
  inversion Hv as [|? m ? ms' Hm Hv']; subst.
  exists m, ms', bs, vs', (e_accept (nonce_csn (bbox_nonce bx)) e2). split_and!; try done.
  intros w. destruct (handle_message_fresh I2 bx (tl_salty b) w e2 v HI Hr Hn Hf (ca_opens _ _ _ _ Hc))
    as (s' & Hrun & _ & He). exists s'. by rewrite Hrun, Hm.
Qed.

(** So a receiver that goes on fails only if its connection does. *)
Lemma reader_fails types a b k ms e1 e2 o b' : link types a b k ms e1 e2 → I2 (tl_salty b) →
  receiving b = true → reader_does incoming sent reported (@queued) (@alive) b o b' → o ≠ Ok tt →
  ∃ t, (ws_next (tl_client b)).1 = Err t.
Proof.
  intros Hl HI [Hrd Hal]%andb_true_iff Hdo Ho.
  destruct Hdo as [|t c Hws|bs e c Hi Hbs| |bx c w o s' w' Hi Hne Hn Hrun Hok|bx c w acts s' w' ev Hi Hne Hn Hrun Hev
    |bx c w acts s' w' ev q q' o Hi Hsent Hne Hn Hrun Hev Hq Hq' Ho']; try done.
  - exists t. by rewrite Hws.
  - destruct (lk_channel _ _ _ _ _ _ _ Hl) as (boxes & vs & Hch & _ & Hb). unfold between in Hb.
    rewrite Hi in Hb. simpl in Hb. destruct boxes as [|b0 boxes]; [done|]. simpl in Hb. injection Hb as -> _.
    destruct Hch as [_ Hc _ _]. inversion Hc as [|? v ? vs' Hc0]; subst.
    by rewrite (carries_wire _ _ _ _ Hc0) in Hbs.
  - destruct (link_next _ _ _ _ _ _ _ _ _ Hl HI Hi Hn Hne) as (m & ? & ? & ? & ? & _ & _ & _ & _ & _ & Hm).
    destruct (Hm w) as (s1 & Hrun1 & _). rewrite Hrun in Hrun1. injection Hrun1 as -> _ _. done.
  - destruct (link_next _ _ _ _ _ _ _ _ _ Hl HI Hi Hn Hne) as (m & ? & ? & ? & ? & _ & _ & _ & _ & _ & Hm).
    destruct (Hm w) as (s1 & Hrun1 & _). rewrite Hrun in Hrun1. by injection Hrun1 as -> _ _.
  - by rewrite Hal in Ho'.
Qed.

(** A message has been moved from the wire to the receiver's channel. *)
Lemma implements_read types a b b' k m ms e1 e2 p :
  loop_inv incoming (@queued) (@alive) I1 a → link types a b k (m :: ms) e1 e2 →
  implements a b (m :: ms) p → receiving b = true →
  queued (tl_incoming b') = queued (tl_incoming b) ++ [m] →
  receiving b' = negb (closing_message m) →
  alive (tl_incoming b') = alive (tl_incoming b) →
  ∃ p', implements a b' ms p' ∧ pipe_step p (halt_label b b') p'.
Proof.
  intros Ha Hl [Hq Ho] Hr Hin Hr' Hal. rewrite Hr in Hq, Ho.
  unfold halt_label, halts. rewrite Hr, Hr', Hal, andb_negb_r, orb_false_r.
  destruct (closing_message m) eqn:Hm; simpl.
  - exists (mkPipe (take (length (p_queue p)) (p_queue p)) false). split; [|apply pipe_halt].
    destruct (close_last_cons m ms (lk_close _ _ _ _ _ _ _ Hl)) as [_ Hms].
    assert (tl_transformer a = false) as Htr.
    { apply not_true_is_false. intros Htr. pose proof (lk_open _ _ _ _ _ _ _ Hl Htr) as Hno.
      simpl in Hno. by rewrite Hm in Hno. }
    pose proof (li_closed _ _ _ _ _ Ha Htr) as Hout. rewrite Hout, (Hms Hm) in Hq.
    split; rewrite Hr'; simpl; [|done]. rewrite take_ge by done. rewrite Hq, Hin, (app_nil_r (_ ++ [m])). done.
  - exists p. split; [|apply pipe_tau]. split; rewrite Hr', ?Hin; [|done].
    by rewrite Hq, <- app_assoc.
Qed.

(** A turn of the reader. *)
Lemma reader_links types a b k ms e1 e2 b' :
  loop_inv incoming (@queued) (@alive) I1 a → loop_inv incoming (@queued) (@alive) I2 b →
  tl_reader b = true → link types a b k ms e1 e2 →
  reader_does incoming sent reported (@queued) (@alive) b (Ok tt) b' →
  receiver_frame b b' ∧ ∃ ms' e2', link types a b' k ms' e1 e2'
  ∧ (e2' = e2 ∨ ∃ c, e2' = e_accept c e2)
  ∧ ∀ p, implements a b ms p → ∃ p', implements a b' ms' p' ∧ pipe_step p (halt_label b b') p'.
Proof.
  intros Ha Hb Hrd Hl Hdo.
  assert (alive (tl_raw b) = true) as Hraw by (eapply writer_runs; [exact Hb|by left]).
  inversion Hdo as [c Hi Hi' Hsent| | |m c q ps Hi Hsent Hq Hm
    |bx c w o s' w' Hi Hn Hrun Hok Ho| |bx c w acts s' w' ev q q' o Hi Hsent Hne Hn
    Hrun Hev Hq Hq' Ho]; subst.
  - (* the stream ends *)
    split; [split; try done; intros _; by rewrite Hrd, orb_true_r|]. exists ms, e2. split_and!; [|by left|].
    + eapply link_receiver; [exact Hl|apply Hl|done|done|simpl; by rewrite Hi, Hi'].
    + intros p Hp. by eapply implements_halt.
  - (* a control message *)
    apply (extended_alive (@queued) (@alive)) in Hq as [Hq _]; [|done]. split.
    + split; try done. simpl. rewrite Hq, binaries_app. destruct m; try done; subst ps; simpl;
        by rewrite ?app_nil_r.
    + exists ms, e2. split_and!; [|by left|].
      * eapply link_receiver; [exact Hl|apply Hl|done|done|]. simpl. rewrite Hi. by destruct m.
      * intros p Hp. eapply implements_stays; [|by apply halts_same]. by eapply implements_receiver.
  - by destruct o.
  - (* a box *)
    destruct (link_next types a b k ms e1 e2 bx _ Hl (proj1 (li_salty _ _ _ _ _ Hb)) Hi Hn Hne)
      as (m & ms' & bs & vs & e2' & -> & He2 & Hch & Hv & Hbin & Hhm).
    destruct (Hhm w) as (s1 & Hrun1 & Hs1). rewrite Hrun in Hrun1. injection Hrun1 as -> -> ->.
    simpl in Hq, Hq', Ho. apply (extended_alive (@queued) (@alive)) in Hq as [Hq _]; [|done].
    destruct (alive (tl_incoming b)) eqn:Hal; [|done].
    destruct (extended_alive (@queued) (@alive) _ _ _ Hq' Hal) as [Hq1 Hal1].
    assert (closes [HandleAction.TaskMessage m] = closing_message m) as -> by apply orb_false_r.
    destruct (close_last_cons m ms' (lk_close _ _ _ _ _ _ _ Hl)) as [Hlast Hnone].
    split.
    { destruct (closing_message m); split; simpl; try done; try (by rewrite Hq, app_nil_r).
      intros _. by rewrite Hrd, orb_true_r. }
    exists ms', e2'. split_and!; [|by right; eexists|].
    + destruct Hl as [? ? ? _ ? ? ? Hop].
      assert (tl_transformer a = true → has_close ms' = false) as Hop'.
      { intros Htr. by apply Hop, orb_false_iff in Htr as [_ ?]. }
      assert (e_types e2' = types) by by subst.
      destruct (closing_message m); (split; try done; by exists bs, vs).
    + intros p Hp. apply (implements_read types a b _ k m ms' e1 e2); try done.
      * unfold receiving. by rewrite Hrd, Hal.
      * by destruct (closing_message m).
      * unfold receiving. destruct (closing_message m); simpl; by rewrite ?Hrd, ?Hal1.
      * by destruct (closing_message m); simpl; rewrite Hal, Hal1.
Qed.

(** *** Sending *)

(** A sealed message is the next box of the channel. *)
Lemma sealed_channel types m s o s' e1 e2 bs vs ms bx : I1 s → endpoint s = Some e1 →
  wf_endpoint e2 → sealed_as m s o s' → o = Ok bx → sendable types m →
  channel e1 e2 bs vs → Forall2 (reads types) vs ms →
  ∃ ours' vs', endpoint s' = Some (e_advance ours' e1)
  ∧ channel (e_advance ours' e1) e2 (bs ++ [bx]) vs' ∧ Forall2 (reads types) vs' (ms ++ [m]).
Proof.
  intros HI He Hw2 (w & w' & Hm) -> Hs Hch Hv. pose proof (endpoint_wf I1 s e1 HI He) as Hw1.
  assert (∃ v ours', wf_csn ours' ∧ endpoint s' = Some (e_advance ours' e1)
    ∧ drawn e1 ours' (bbox_nonce bx) ∧ carries e1 e2 bx v ∧ reads types v m)
    as (v & ours' & Hwo & He' & Hd & Hc & Hr).
  { pose proof (ch_facing _ _ _ _ Hch) as Hf. destruct m as [map|data|r].
    1,2: destruct Hm as (v & Hmv & Hrun);
      destruct (encode_task_message_seals I1 v s w e1 HI He) as (r & s1 & Hrun1 & ours' & Hwo & _ & He' & Hx);
      rewrite Hrun in Hrun1; injection Hrun1 as <- <- <-; destruct Hx as [Hd Henc];
      exists v, ours'; split_and!; [done..|by eapply value_carries; [..|by eapply message_value_wf| |]|by eapply message_value_reads].
    destruct (encode_close_message_seals I1 r s w e1 HI He) as (o & s1 & Hrun1 & ours' & Hwo & _ & He' & Hx).
    rewrite Hm in Hrun1. injection Hrun1 as <- <- <-. destruct Hx as [Hd Henc].
    exists (close_value (CloseCode.as_number r)), ours'.
    split_and!; [done..|eapply close_carries; [done..|apply Hs|done]|by apply close_value_reads]. }
  exists ours', (vs ++ [v]). split_and!; [done|by apply channel_send|].
  apply Forall2_app; [done|]. by constructor.
Qed.

(** Sealing fails only if the sequence numbers are used up. *)
Lemma sealing_fails m s e e1 s' : I1 s → endpoint s = Some e1 → sealed_as m s (Err e) s' →
  e = SignalingError.CsnOverflow.
Proof.
  intros HI He (w & w' & Hm). destruct m as [map|data|r].
  1,2: destruct Hm as (v & _ & Hrun);
    destruct (encode_task_message_seals I1 v s w e1 HI He) as (o & s1 & Hrun1 & ours' & _ & _ & _ & Hx);
    rewrite Hrun in Hrun1; injection Hrun1 as <- _ _; apply Hx.
  destruct (encode_close_message_seals I1 r s w e1 HI He) as (o & s1 & Hrun1 & ours' & _ & _ & _ & Hx).
  rewrite Hm in Hrun1. injection Hrun1 as <- _ _. apply Hx.
Qed.

(** What a sender's turn leaves alone. *)
Record sender_frame a a' : Prop := {
  sf_incoming : incoming (tl_client a') = incoming (tl_client a);
  sf_channel : tl_incoming a' = tl_incoming a;
  sf_reader : tl_reader a' = tl_reader a;
}.

Lemma frames_of_binaries m bx : binaries (frames_of m bx) = [byte_box_into_bytes bx].
Proof. by destruct m. Qed.

(** A turn of the transformer. *)
Lemma transformer_links types a b k ms e1 e2 a' :
  loop_inv incoming (@queued) (@alive) I1 a → loop_inv incoming (@queued) (@alive) I2 b →
  tl_transformer a = true → link types a b k ms e1 e2 →
  transformer_does (@queued) (@alive) a (Ok tt) a' →
  sender_frame a a' ∧ ∃ ms' e1', link types a' b k ms' e1' e2
  ∧ (e1' = e1 ∨ ∃ o, e1' = e_advance o e1)
  ∧ ∀ p, implements a b ms p → implements a' b ms' p.
Proof.
  intros Ha Hb Htr Hl Hdo.
  assert (alive (tl_raw a) = true) as Hraw by (eapply writer_runs; [exact Ha|by right]).
  inversion Hdo as [Hq Hse|Hq Hse Hrd|m q bx s' q' Hq Hqa Hse Hq'|]; subst.
  - (* idle *) split; [done|]. exists ms, e1. split_and!; [done|by left|done].
  - (* no more senders *)
    split; [done|]. exists ms, e1. destruct (mpsc_drop_spec _ (tl_outgoing a)) as [Hdrop _].
    split_and!; [|by left|].
    + destruct Hl. split; simpl; try done. by rewrite Hdrop.
    + intros p [Hp _]. split; simpl; [by rewrite Hdrop, Hp, Hq|by rewrite Hse, Hrd].
  - (* a message *)
    apply (extended_alive (@queued) (@alive)) in Hq' as [Hq' _]; [|done].
    pose proof Hl as [Hs Hr Hty (bs & vs & Hch & Hv & Hbin) Hk Ho Hc Hop]. specialize (Hop Htr).
    rewrite Hq in Ho. apply Forall_cons in Ho as [Hm Ho'].
    pose proof (endpoint_wf I2 _ _ (proj1 (li_salty _ _ _ _ _ Hb)) Hr) as Hw2.
    destruct (sealed_channel types m _ _ s' e1 e2 bs vs ms bx (proj1 (li_salty _ _ _ _ _ Ha)) Hs Hw2 Hse
      eq_refl Hm Hch Hv) as (ours' & vs' & He' & Hch' & Hv').
    split; [by destruct (closing_message m)|].
    exists (ms ++ [m]), (e_advance ours' e1). split_and!; [|by right; eexists|].
    + assert (binaries (incoming (tl_client b) ++ drop k (sent (tl_client a)) ++ queued q')
        = map byte_box_into_bytes (bs ++ [bx])) as Hbin'.
      { rewrite Hq', map_app, <- Hbin. unfold between.
        by rewrite !binaries_app, frames_of_binaries, <- !app_assoc. }
      pose proof (close_last_snoc ms m Hop) as Hlast.
      destruct (closing_message m) eqn:Hcm; (split; simpl; try done; [by exists (bs ++ [bx]), vs'|..]).
      * by destruct (mpsc_drop_spec _ q) as [-> _].
      * intros _. rewrite has_close_app, Hop. simpl. by rewrite Hcm.
    + intros p [Hp Hpo]. rewrite Hq in Hp, Hpo. simpl in Hp, Hpo.
      destruct (closing_message m); simpl in *.
      * destruct (mpsc_drop_spec _ q) as [Hdrop _]. split; simpl; rewrite Hdrop; [by rewrite Hp, app_nil_r|].
        intros Hx. by rewrite (Hpo Hx), !andb_false_r.
      * split; simpl; [by rewrite Hp, <- app_assoc|done].
Qed.

(** A turn of the writer. *)
Lemma writer_links types a b k ms e1 e2 a' : link types a b k ms e1 e2 →
  writer_does incoming sent (@queued) (@alive) a (Ok tt) a' →
  sender_frame a a' ∧ tl_salty a' = tl_salty a ∧ link types a' b k ms e1 e2
  ∧ ∀ p, implements a b ms p → implements a' b ms p.
Proof.
  intros Hl Hdo. pose proof Hl as [Hs Hr Hty (bs & vs & Hch & Hv & Hbin) Hk Ho Hc Hop].
  inversion Hdo as [|c Hq Hrd Htr Hi Hsent|m q c Hq Hqa Hi Hsent| |]; subst; [done|..].
  - split_and!; [done..| |].
    + eapply link_sender; try done. simpl. destruct (mpsc_drop_spec _ (tl_raw a)) as [-> _]. by rewrite Hq.
    + intros p Hp. by eapply implements_sender.
  - split_and!; [done..| |].
    + split; simpl; try done; [|rewrite Hsent, length_app; simpl; lia]. exists bs, vs.
      split_and!; [done..|]. rewrite <- Hbin. unfold between. simpl.
      rewrite Hsent, Hq, drop_app_le by done. by rewrite <- !app_assoc.
    + intros p Hp. by eapply implements_sender.
Qed.

(** A message enters the sender's channel. *)
Lemma implements_push a a' b ms p q m :
  loop_inv incoming (@queued) (@alive) I1 a → implements a b ms p →
  extended (@queued) (@alive) (tl_outgoing a) q [m] → tl_outgoing a' = q →
  tl_transformer a' = tl_transformer a → tl_sender a || tl_reader a = true →
  ∃ p', implements a' b ms p' ∧ pipe_step p (Push m) p'.
Proof.
  intros Ha [Hq Ho] [Hx _] Hout Htr Hs. rewrite (li_outgoing _ _ _ _ _ Ha) in Hx. specialize (Ho Hs).
  pose proof (li_closed _ _ _ _ _ Ha) as Hcl.
  destruct (p_open p) eqn:Hop.
  - symmetry in Ho. apply andb_true_iff in Ho as [[Hr Ht]%andb_true_iff Hc%negb_true_iff].
    exists (mkPipe (p_queue p ++ [m]) (negb (closing_message m))). split; [|by apply pipe_push].
    rewrite Hr, Ht in *. split; simpl; rewrite Hout, Hx, Hr.
    + by rewrite until_close_snoc, Hc, Hq, !app_assoc.
    + intros _. rewrite Htr, has_close_app, Hc. simpl. by rewrite orb_false_r.
  - exists p. split; [|by apply pipe_refuse]. symmetry in Ho.
    split; rewrite Hout, Hx, ?Htr.
    + rewrite Hq. destruct (receiving b); [|done]. simpl in Ho. do 2 f_equal.
      destruct (tl_transformer a); [|by rewrite app_nil_r]. simpl in Ho.
      by rewrite until_close_snoc, (proj1 (negb_false_iff _) Ho), app_nil_r.
    + intros _. rewrite Hop. destruct (receiving b), (tl_transformer a); try done. simpl in *.
      apply negb_false_iff in Ho. by rewrite has_close_app, Ho.
Qed.

(** A message leaves the receiver's channel. *)
Lemma implements_pop a b ms p q m : implements a b ms p → mpsc_recv (tl_incoming b) = (Some m, q) →
  ∃ p', implements a (tl_set_incoming q b) ms p' ∧ pipe_step p (Pop m) p'.
Proof.
  intros [Hq Ho] Hrecv. pose proof (mpsc_recv_spec _ (tl_incoming b)) as Hr. rewrite Hrecv in Hr.
  destruct Hr as [Hin Hal]. rewrite Hin in Hq. eexists. split; [|by apply pipe_pop].
  assert (receiving (tl_set_incoming q b) = receiving b) as Hrec by (unfold receiving; by simpl; rewrite Hal).
  split; rewrite Hrec; done.
Qed.

(** *** The relay *)

(** The next frame of [a] reaches [b], if it is one the server passes on. *)
Lemma relay_links types a b k ms e1 e2 m c : link types a b k ms e1 e2 →
  sent (tl_client a) !! k = Some m →
  incoming c = incoming (tl_client b) ++ (if is_binary m then [m] else []) →
  link types a (tl_set_client c b) (S k) ms e1 e2.
Proof.
  intros [Hs Hr Hty (bs & vs & Hch & Hv & Hbin) Hk Ho Hc Hop] Hm Hi. split; try done.
  - exists bs, vs. split_and!; [done..|]. rewrite <- Hbin. unfold between. simpl.
    rewrite Hi, (drop_S _ _ _ Hm), !binaries_app. destruct m; simpl; by rewrite ?app_nil_r, <- ?app_assoc.
  - apply lookup_lt_Some in Hm. lia.
Qed.

Lemma relay_good types a b k ms e1 e2 m : link types a b k ms e1 e2 →
  sent (tl_client a) !! k = Some m → good_frame m.
Proof.
  intros [_ _ _ (bs & vs & Hch & _ & Hbin) _ _ _ _] Hm. destruct m as [|bytes| | |]; try done.
  assert (∃ bx v, bytes = byte_box_into_bytes bx ∧ carries e1 e2 bx v) as (bx & v & -> & Hc).
  { assert (bytes ∈ map byte_box_into_bytes bs) as (bx & -> & Hin)%list_elem_of_fmap.
    { rewrite <- Hbin. unfold between. rewrite (drop_S _ _ _ Hm), !binaries_app. simpl.
      apply elem_of_app. right. by left. }
    apply list_elem_of_lookup in Hin as [i Hi].
    destruct (Forall2_lookup_l _ _ _ _ _ (ch_carries _ _ _ _ Hch) Hi) as (v & _ & Hc). eauto. }
  intros bx'. rewrite (carries_wire _ _ _ _ Hc). intros [= <-]. by destruct Hc.
Qed.
Lemma set_client_inv (I : S2 → Prop) c b ms : loop_inv incoming (@queued) (@alive) I b →
  incoming c = incoming (tl_client b) ++ ms → Forall good_frame ms →
  loop_inv incoming (@queued) (@alive) I (tl_set_client c b).
Proof. intros [] Hi Hm. split; try done. simpl. rewrite Hi. by apply Forall_app. Qed.
End direction.

(** ** A step of one side, in both directions *)

Definition send_label (lab : TaskLabel) : PipeLabel :=
  match lab with Sends m => Push m | _ => Tau end.

Section side.
Context {T S1 S2 C Ch : Type} {Q : Type → Type}.
Context `{!Task T, !Env, !Signaling T S1, !Signaling T S2}.
Context `{!WsClient C, !WsSink C, !EventChannel Ch, !Mpsc Q}.
Context `{!ByteOrder, !ByteOrderLaws, !Sodium, !SodiumLaws, !Rmps, !RmpsLaws, !EnvLaws}.
Context (incoming sent : C → list OwnedMessage) (reported : Ch → list Event).
Context (queued : ∀ {A}, Q A → list A) (alive : ∀ {A}, Q A → bool).
Context `{!WsClientLaws C incoming sent, !WsSinkLaws C incoming sent}.
Context `{!EventChannelLaws Ch reported, !MpscLaws Q (@queued) (@alive)}.
Context (I1 : S1 → Prop) `{!SignalingSafe T S1 I1, !SignalingActions T S1 I1, !ChannelEnd T S1 I1}.
Context (I2 : S2 → Prop) `{!SignalingSafe T S2 I2, !SignalingActions T S2 I2, !ChannelEnd T S2 I2}.
Abbreviation L1 := (TaskLoop S1 C Ch Q).
Abbreviation L2 := (TaskLoop S2 C Ch Q).
Abbreviation inv1 := (loop_inv incoming (@queued) (@alive) I1).
Abbreviation inv2 := (loop_inv incoming (@queued) (@alive) I2).
Abbreviation link12 := (link (S1 := S1) (S2 := S2) incoming sent (@queued)).
Abbreviation link21 := (link (S1 := S2) (S2 := S1) incoming sent (@queued)).
Abbreviation implements12 := (implements (S1 := S1) (S2 := S2) (@queued) (@alive)).
Abbreviation implements21 := (implements (S1 := S2) (S2 := S1) (@queued) (@alive)).
Implicit Types (a : L1) (b : L2).

Definition recv_label (lab : TaskLabel) a a' : PipeLabel :=
  match lab with Receives m => Pop m | _ => halt_label (@alive) a a' end.

(** The two directions between [a] and [b] implement the two pipes. *)
Definition both_ways (types1 types2 : option (list string)) a b (ka kb : nat) (pa pb : Pipe) : Prop :=
  ∃ ms ms' e1 e2, link12 types2 a b ka ms e1 e2 ∧ link21 types1 b a kb ms' e2 e1
  ∧ implements12 a b ms pa ∧ implements21 b a ms' pb.

Lemma halt_label_same a a' : tl_reader a' = tl_reader a → tl_incoming a' = tl_incoming a →
  halt_label (@alive) a a' = Tau.
Proof. intros Hr Hi. unfold halt_label. rewrite halts_same; [done..|by rewrite Hi]. Qed.

Lemma side_reader types1 types2 a b ka kb pa pb a' : inv1 a → inv2 b →
  both_ways types1 types2 a b ka kb pa pb → tl_reader a = true →
  reader_does incoming sent reported (@queued) (@alive) a (Ok tt) a' →
  ∃ pb', both_ways types1 types2 a' b ka kb pa pb' ∧ pipe_step pb (halt_label (@alive) a a') pb'.
Proof.
  intros Ha Hb (ms & ms' & e1 & e2 & Hab & Hba & Hpa & Hpb) Hrd Hdo.
  destruct (reader_links incoming sent reported (@queued) (@alive) I2 I1 types1 b a kb ms' e2 e1 a'
    Hb Ha Hrd Hba Hdo) as ([Hsent Hraw Hout Htr Hse] & ms1 & e1' & Hba' & He & Himp).
  destruct (Himp pb Hpb) as (pb' & Hpb' & Hstep). exists pb'. split; [|done].
  exists ms, ms1, e1', e2. split_and!; [|done| |done].
  - eapply (link_sender incoming sent (@queued)); try done; [apply Hba'| |by rewrite Hout; apply Hab].
    intros bs vs Hch. destruct He as [->|[c ->]]; [done|]. by apply channel_sender_accepts.
  - by eapply implements_sender.
Qed.

Lemma side_transformer types1 types2 a b ka kb pa pb a' : inv1 a → inv2 b →
  both_ways types1 types2 a b ka kb pa pb → tl_transformer a = true →
  transformer_does (@queued) (@alive) a (Ok tt) a' →
  both_ways types1 types2 a' b ka kb pa pb ∧ halt_label (@alive) a a' = Tau.
Proof.
  intros Ha Hb (ms & ms' & e1 & e2 & Hab & Hba & Hpa & Hpb) Htr Hdo.
  destruct (transformer_links incoming sent (@queued) (@alive) I1 I2 types2 a b ka ms e1 e2 a'
    Ha Hb Htr Hab Hdo) as ([Hi Hin Hrd] & ms1 & e1' & Hab' & He & Himp).
  assert (receiving (@alive) a' = receiving (@alive) a) as Hrec by (unfold receiving; by rewrite Hin, Hrd).
  split; [|by apply halt_label_same]. exists ms1, ms', e1', e2. split_and!; [done| |by apply Himp|].
  - eapply (link_receiver incoming sent (@queued)); [exact Hba|apply Hab'| | |by rewrite Hi].
    + by destruct He as [->|[o ->]].
    + intros bs vs Hch. destruct He as [->|[o ->]]; [done|]. by apply channel_receiver_advances.
  - eapply implements_receiver; [exact Hpb|by rewrite Hin|done].
Qed.

Lemma side_writer types1 types2 a b ka kb pa pb a' : both_ways types1 types2 a b ka kb pa pb →
  writer_does incoming sent (@queued) (@alive) a (Ok tt) a' →
  both_ways types1 types2 a' b ka kb pa pb ∧ halt_label (@alive) a a' = Tau.
Proof.
  intros (ms & ms' & e1 & e2 & Hab & Hba & Hpa & Hpb) Hdo.
  destruct (writer_links incoming sent (@queued) (@alive) types2 a b ka ms e1 e2 a' Hab Hdo)
    as ([Hi Hin Hrd] & Hsa & Hab' & Himp).
  assert (receiving (@alive) a' = receiving (@alive) a) as Hrec by (unfold receiving; by rewrite Hin, Hrd).
  split; [|by apply halt_label_same]. exists ms, ms', e1, e2. split_and!; [done| |by apply Himp|].
  - eapply (link_receiver incoming sent (@queued)); [exact Hba|apply Hab'|done|done|by rewrite Hi].
  - eapply implements_receiver; [exact Hpb|by rewrite Hin|done].
Qed.

(** A call of the task, or the reader's stop, that changes neither the
    signaling object nor the frames. *)
Lemma side_frame types1 types2 a b ka kb a' ms ms' e1 e2 pa' pb' :
  link12 types2 a b ka ms e1 e2 → link21 types1 b a kb ms' e2 e1 →
  tl_salty a' = tl_salty a → tl_client a' = tl_client a → tl_raw a' = tl_raw a →
  tl_transformer a' = tl_transformer a → Forall (sendable types2) (queued _ (tl_outgoing a')) →
  implements12 a' b ms pa' → implements21 b a' ms' pb' →
  both_ways types1 types2 a' b ka kb pa' pb'.
Proof.
  intros Hab Hba Hs Hc Hr Ht Ho Hpa Hpb. exists ms, ms', e1, e2. split_and!; [| |done..].
  - eapply (link_sender incoming sent (@queued)); [exact Hab|rewrite Hs; apply Hab|done|by rewrite Hc
      |by rewrite Hr|done|done].
  - eapply (link_receiver incoming sent (@queued)); [exact Hba|rewrite Hs; apply Hba|done|done|by rewrite Hc].
Qed.

Lemma side_push types1 types2 a b ka kb pa pb a' q m : inv1 a →
  both_ways types1 types2 a b ka kb pa pb → sendable types2 m →
  extended (@queued) (@alive) (tl_outgoing a) q [m] → tl_sender a || tl_reader a = true →
  (a' = tl_set_outgoing q a ∨ a' = finish_reader (tl_set_outgoing q a)) →
  ∃ pa' pb', both_ways types1 types2 a' b ka kb pa' pb' ∧ pipe_step pa (Push m) pa'
  ∧ pipe_step pb (halt_label (@alive) a a') pb'.
Proof.
  intros Ha (ms & ms' & e1 & e2 & Hab & Hba & Hpa & Hpb) Hm Hq Hs Ha'.
  destruct (implements_push incoming (@queued) (@alive) I1 a a' b ms pa q m) as (pa' & Hpa' & Hstep);
    try done; [by destruct Ha' as [->| ->]..|].
  assert (Forall (sendable types2) (queued _ (tl_outgoing a'))) as Hout.
  { assert (tl_outgoing a' = q) as -> by by destruct Ha' as [->| ->]. destruct Hq as [-> _].
    apply Forall_app. split; [apply Hab|]. destruct (alive _ _); by repeat constructor. }
  assert (∃ pb', implements21 b a' ms' pb' ∧ pipe_step pb (halt_label (@alive) a a') pb')
    as (pb' & Hpb' & Hstep').
  { destruct Ha' as [->| ->].
    - eapply implements_stays; [|by apply halts_same]. by eapply implements_receiver.
    - by eapply implements_halt. }
  exists pa', pb'. split_and!; [|done..].
  eapply side_frame; [exact Hab|exact Hba|..]; try done; by destruct Ha' as [->| ->].
Qed.

(** A change that does not concern the frames nor the outgoing channel. *)
Lemma side_halt types1 types2 a b ka kb pa pb a' : both_ways types1 types2 a b ka kb pa pb →
  tl_salty a' = tl_salty a → tl_client a' = tl_client a → tl_raw a' = tl_raw a →
  tl_transformer a' = tl_transformer a → tl_outgoing a' = tl_outgoing a →
  (tl_sender a' || tl_reader a' = true → tl_sender a || tl_reader a = true) →
  (∀ ms p, implements21 b a ms p →
    ∃ p', implements21 b a' ms p' ∧ pipe_step p (halt_label (@alive) a a') p') →
  ∃ pa' pb', both_ways types1 types2 a' b ka kb pa' pb'
  ∧ pipe_step pa Tau pa' ∧ pipe_step pb (halt_label (@alive) a a') pb'.
Proof.
  intros (ms & ms' & e1 & e2 & Hab & Hba & Hpa & Hpb) Hs Hc Hr Ht Ho Hse Hhalt.
  destruct (Hhalt ms' pb Hpb) as (pb' & Hpb' & Hstep). exists pa, pb'. split_and!; [|apply pipe_tau|done].
  eapply side_frame; [exact Hab|exact Hba|..]; try done; [rewrite Ho; apply Hab|].
  by eapply implements_sender; [exact Hpa|rewrite Ho|..].
Qed.
Lemma side_stutter types1 types2 a b ka kb pa pb a' : both_ways types1 types2 a b ka kb pa pb →
  tl_salty a' = tl_salty a → tl_client a' = tl_client a → tl_raw a' = tl_raw a →
  tl_transformer a' = tl_transformer a → tl_outgoing a' = tl_outgoing a →
  (tl_sender a' || tl_reader a' = true → tl_sender a || tl_reader a = true) →
  tl_reader a' = tl_reader a → tl_incoming a' = tl_incoming a →
  ∃ pa' pb', both_ways types1 types2 a' b ka kb pa' pb'
  ∧ pipe_step pa Tau pa' ∧ pipe_step pb (halt_label (@alive) a a') pb'.
Proof.
  intros Hw Hs Hc Hr Ht Ho Hse Hrd Hi. apply side_halt; try done. intros ms p Hp.
  eapply implements_stays; [|by apply halts_same; [|rewrite Hi]].
  eapply implements_receiver; [exact Hp|by rewrite Hi|]. unfold receiving. by rewrite Hrd, Hi.
Qed.

(** Each step of a loop is a step of the two pipes. *)
Lemma side_step types1 types2 a b ka kb pa pb lab a' : inv1 a → inv2 b →
  both_ways types1 types2 a b ka kb pa pb → loop_step a lab a' →
  (∀ m, lab = Sends m → sendable types2 m) →
  ∃ pa' pb', both_ways types1 types2 a' b ka kb pa' pb'
  ∧ pipe_step pa (send_label lab) pa' ∧ pipe_step pb (recv_label lab a a') pb'.
Proof.
  intros Ha Hb Hw Hstep Hsend. pose proof Ha as [Hs Hf _ _ _ _ _ _].
  pose proof Hw as (ms & ms' & e1 & e2 & Hab & Hba & Hpa & Hpb).
  destruct Hstep as [w a' w' Hrd Hrun|w a' w' Hrd Hrun|w a' w' Htr Hrun|w a' w' Hwr Hrun|m Hse|m q Hq
    |r| | |]; simpl.
  - pose proof (reader_turn_does incoming sent reported (@queued) (@alive) I1 a Hs
      (writer_runs _ _ _ _ _ Ha (or_introl Hrd)) Hf w) as Hdo. rewrite Hrun in Hdo.
    destruct (side_reader types1 types2 a b ka kb pa pb a' Ha Hb Hw Hrd Hdo) as (pb' & Hw' & Hpb').
    exists pa, pb'. split_and!; [done|apply pipe_tau|done].
  - destruct (disconnect_turn_run (@queued) (@alive) a w) as (a1 & Hrun1 & Ha1). rewrite Hrun in Hrun1.
    injection Hrun1 as <- _. unfold disconnect_label in *. destruct (tl_disconnect a) as [|r| |]; simpl.
    + subst a'. apply side_stutter; done.
    + destruct Ha1 as (q & -> & Hq).
      eapply side_push; [done..|by apply Hsend|exact Hq|by rewrite Hrd, orb_true_r|by right].
    + subst a'. apply side_halt; try done; [by rewrite Hrd, orb_true_r|]. intros ms1 p Hp. by eapply implements_halt.
    + subst a'. apply side_stutter; done.
  - pose proof (transformer_turn_does (@queued) (@alive) I1 a Hs
      (writer_runs _ _ _ _ _ Ha (or_intror Htr)) w) as Hdo. rewrite Hrun in Hdo.
    destruct (side_transformer types1 types2 a b ka kb pa pb a' Ha Hb Hw Htr Hdo) as [Hw' Hrec].
    exists pa, pb. rewrite Hrec. split_and!; [done|apply pipe_tau..].
  - pose proof (writer_turn_does incoming sent (@queued) (@alive) a w) as Hdo. rewrite Hrun in Hdo.
    destruct (side_writer types1 types2 a b ka kb pa pb a' Hw Hdo) as [Hw' Hrec].
    exists pa, pb. rewrite Hrec. split_and!; [done|apply pipe_tau..].
  - eapply side_push; [done..|by apply Hsend| |by rewrite Hse|by left].
    apply (extended_send (@queued) (@alive) m []), extended_refl.
  - destruct (implements_pop (@queued) (@alive) b a ms' pb q m Hpb Hq) as (pb' & Hpb' & Hstep).
    exists pa, pb'. split_and!; [|apply pipe_tau|done].
    eapply side_frame; [exact Hab|exact Hba|..]; try done; [apply Hab|by eapply implements_sender].
  - apply side_stutter; unfold task_disconnect; by destruct (tl_disconnect a).
  - apply side_stutter; unfold task_drop_disconnect; by destruct (tl_disconnect a).
  - apply side_halt; try done. intros ms1 p Hp.
    destruct (mpsc_drop_spec _ (tl_incoming a)) as [Hdrop Hal].
    eapply implements_halt; [exact Hp|simpl; rewrite Hdrop; apply prefix_nil| |].
    + unfold halts. simpl. rewrite Hal, Hdrop. intros [_ Hd]%orb_false_iff.
      rewrite andb_true_r in Hd. by rewrite (mpsc_dead_empty _ _ Hd).
    + unfold receiving. simpl. by rewrite Hal, andb_false_r.
  - apply side_stutter; try done. simpl. intros ->. by rewrite orb_true_r.
Qed.

(** The server relays a frame, or sends a control message. *)
Lemma side_relay types1 types2 a b ka kb pa pb m c : both_ways types1 types2 a b ka kb pa pb →
  sent (tl_client a) !! ka = Some m →
  incoming c = incoming (tl_client b) ++ (if is_binary m then [m] else []) →
  sent c = sent (tl_client b) → both_ways types1 types2 a (tl_set_client c b) (S ka) kb pa pb.
Proof.
  intros (ms & ms' & e1 & e2 & Hab & Hba & Hpa & Hpb) Hm Hi Hs. exists ms, ms', e1, e2.
  split_and!; [by eapply relay_links| |by eapply implements_receiver|by eapply implements_sender].
  eapply (link_sender incoming sent (@queued)); try done; apply Hba.
Qed.
Lemma side_control types1 types2 a b ka kb pa pb m c : both_ways types1 types2 a b ka kb pa pb →
  is_binary m = false → incoming c = incoming (tl_client b) ++ [m] →
  sent c = sent (tl_client b) → both_ways types1 types2 a (tl_set_client c b) ka kb pa pb.
Proof.
  intros (ms & ms' & e1 & e2 & Hab & Hba & Hpa & Hpb) Hm Hi Hs. exists ms, ms', e1, e2.
  split_and!; [| |by eapply implements_receiver|by eapply implements_sender].
  - eapply (link_receiver incoming sent (@queued)); [exact Hab|apply Hab|done|done|].
    simpl. rewrite Hi, binaries_app. destruct m; try done; simpl; by rewrite app_nil_r.
  - eapply (link_sender incoming sent (@queued)); try done; apply Hba.
Qed.
End side.

Lemma both_ways_sym {T S1 S2 C Ch : Type} {Q : Type → Type} `{!Env, !Signaling T S1, !Signaling T S2}
    `{!ByteOrder, !Sodium, !Rmps} (incoming sent : C → list OwnedMessage)
    (queued : ∀ {A}, Q A → list A) (alive : ∀ {A}, Q A → bool) types1 types2
    (a : TaskLoop S1 C Ch Q) (b : TaskLoop S2 C Ch Q) ka kb pa pb :
  both_ways incoming sent (@queued) (@alive) types1 types2 a b ka kb pa pb →
  both_ways incoming sent (@queued) (@alive) types2 types1 b a kb ka pb pa.
Proof. intros (ms & ms' & e1 & e2 & ? & ? & ? & ?). by exists ms', ms, e2, e1. Qed.

(** ** Two loops and a relay *)

Section network.
Context {T S1 S2 C Ch : Type} {Q : Type → Type}.
Context `{!Task T, !Env, !Signaling T S1, !Signaling T S2}.
Context `{!WsClient C, !WsSink C, !EventChannel Ch, !Mpsc Q}.
Context `{!ByteOrder, !ByteOrderLaws, !Sodium, !SodiumLaws, !Rmps, !RmpsLaws, !EnvLaws}.
Context (incoming sent : C → list OwnedMessage) (reported : Ch → list Event).
Context (queued : ∀ {A}, Q A → list A) (alive : ∀ {A}, Q A → bool).
Context `{!WsClientLaws C incoming sent, !WsSinkLaws C incoming sent}.
Context `{!EventChannelLaws Ch reported, !MpscLaws Q (@queued) (@alive)}.
Context (I1 : S1 → Prop) `{!SignalingSafe T S1 I1, !SignalingActions T S1 I1, !ChannelEnd T S1 I1}.
Context (I2 : S2 → Prop) `{!SignalingSafe T S2 I2, !SignalingActions T S2 I2, !ChannelEnd T S2 I2}.
Context (types1 types2 : option (list string)).
Arguments queued {A}.
Arguments alive {A}.
Abbreviation L1 := (TaskLoop S1 C Ch Q).
Abbreviation L2 := (TaskLoop S2 C Ch Q).

(** The two loops, and how many frames of each have been relayed. *)
Record Net := mkNet { n_a : L1; n_b : L2; n_ka : nat; n_kb : nat }.
Implicit Types n : Net.

(** A step of the network, with what it means to the two pipes.  The tasks send
    what the other side understands.  The server relays the binary frames of
    each client to the other, in order, and may send control messages of its
    own at any time. *)
Inductive net_step n : PipeLabel * PipeLabel → Net → Prop :=
  | net_a lab a' : loop_step (n_a n) lab a' → (∀ m, lab = Sends m → sendable types2 m) →
      net_step n (send_label lab, recv_label (@alive) lab (n_a n) a')
        (mkNet a' (n_b n) (n_ka n) (n_kb n))
  | net_b lab b' : loop_step (n_b n) lab b' → (∀ m, lab = Sends m → sendable types1 m) →
      net_step n (recv_label (@alive) lab (n_b n) b', send_label lab)
        (mkNet (n_a n) b' (n_ka n) (n_kb n))
  | net_relay_a m c : sent (tl_client (n_a n)) !! n_ka n = Some m →
      incoming c = incoming (tl_client (n_b n)) ++ (if is_binary m then [m] else []) →
      sent c = sent (tl_client (n_b n)) →
      net_step n (Tau, Tau) (mkNet (n_a n) (tl_set_client c (n_b n)) (S (n_ka n)) (n_kb n))
  | net_relay_b m c : sent (tl_client (n_b n)) !! n_kb n = Some m →
      incoming c = incoming (tl_client (n_a n)) ++ (if is_binary m then [m] else []) →
      sent c = sent (tl_client (n_a n)) →
      net_step n (Tau, Tau) (mkNet (tl_set_client c (n_a n)) (n_b n) (n_ka n) (S (n_kb n)))
  | net_control_a m c : is_binary m = false →
      incoming c = incoming (tl_client (n_a n)) ++ [m] → sent c = sent (tl_client (n_a n)) →
      net_step n (Tau, Tau) (mkNet (tl_set_client c (n_a n)) (n_b n) (n_ka n) (n_kb n))
  | net_control_b m c : is_binary m = false →
      incoming c = incoming (tl_client (n_b n)) ++ [m] → sent c = sent (tl_client (n_b n)) →
      net_step n (Tau, Tau) (mkNet (n_a n) (tl_set_client c (n_b n)) (n_ka n) (n_kb n)).

(** The network implements the two pipes. *)
Record simulates n (ps : Pipe * Pipe) : Prop := {
  si_a : loop_inv incoming (@queued) (@alive) I1 (n_a n);
  si_b : loop_inv incoming (@queued) (@alive) I2 (n_b n);
  si_pipes : both_ways incoming sent (@queued) (@alive) types1 types2 (n_a n) (n_b n)
    (n_ka n) (n_kb n) ps.1 ps.2;
}.

Definition pipes_step (ps : Pipe * Pipe) (labs : PipeLabel * PipeLabel) (ps' : Pipe * Pipe) : Prop :=
  pipe_step ps.1 labs.1 ps'.1 ∧ pipe_step ps.2 labs.2 ps'.2.

Lemma simulates_step n ps labs n' : simulates n ps → net_step n labs n' →
  ∃ ps', simulates n' ps' ∧ pipes_step ps labs ps'.
Proof.
  intros [Ha Hb Hw] Hstep. destruct ps as [pa pb]. cbn [fst snd] in Hw.
  destruct Hstep as [lab a' Hs Hm|lab b' Hs Hm|m c Hm Hi Hsent|m c Hm Hi Hsent|m c Hm Hi Hsent|m c Hm Hi Hsent].
  - destruct (side_step incoming sent reported (@queued) (@alive) I1 I2 types1 types2 _ _ _ _ _ _ _ _
      Ha Hb Hw Hs Hm) as (pa' & pb' & Hw' & Hpa & Hpb).
    exists (pa', pb'). split; [|done]. split; [|done..].
    by eapply (loop_step_inv incoming sent reported (@queued) (@alive) I1).
  - apply both_ways_sym in Hw.
    destruct (side_step incoming sent reported (@queued) (@alive) I2 I1 types2 types1 _ _ _ _ _ _ _ _
      Hb Ha Hw Hs Hm) as (pb' & pa' & Hw' & Hpb & Hpa).
    exists (pa', pb'). split; [|done]. split; [done| |by apply both_ways_sym].
    by eapply (loop_step_inv incoming sent reported (@queued) (@alive) I2).
  - exists (pa, pb). split; [|by split; apply pipe_tau]. split; [done| |by eapply side_relay].
    eapply set_client_inv; [done..|]. destruct Hw as (? & ? & ? & ? & Hab & _).
    pose proof (relay_good _ _ _ _ _ _ _ _ _ _ _ Hab Hm). destruct (is_binary m); by repeat constructor.
  - exists (pa, pb). split; [|by split; apply pipe_tau]. apply both_ways_sym in Hw.
    split; [|done|by eapply both_ways_sym, side_relay].
    eapply set_client_inv; [done..|]. destruct Hw as (? & ? & ? & ? & Hab & _).
    pose proof (relay_good _ _ _ _ _ _ _ _ _ _ _ Hab Hm). destruct (is_binary m); by repeat constructor.
  - exists (pa, pb). split; [|by split; apply pipe_tau].
    split; [|done|by eapply both_ways_sym, side_control; [apply both_ways_sym|..]].
    eapply set_client_inv; [done..|]. by destruct m; repeat constructor.
  - exists (pa, pb). split; [|by split; apply pipe_tau]. split; [done| |by eapply side_control].
    eapply set_client_inv; [done..|]. by destruct m; repeat constructor.
Qed.

Lemma simulates_traces n tr n' : traces net_step n tr n' → ∀ ps, simulates n ps →
  ∃ ps', simulates n' ps' ∧ traces pipes_step ps tr ps'.
Proof.
  induction 1 as [n|n tr n1 labs n' _ IH Hs]; intros ps Hps; [exists ps; by split; [|constructor]|].
  destruct (IH ps Hps) as (ps1 & Hps1 & Ht). destruct (simulates_step _ _ _ _ Hps1 Hs) as (ps' & Hps' & Hstep).
  exists ps'. split; [done|]. by econstructor.
Qed.

Lemma pipes_traces ps tr ps' : traces pipes_step ps tr ps' →
  traces pipe_step ps.1 (map fst tr) ps'.1 ∧ traces pipe_step ps.2 (map snd tr) ps'.2.
Proof.
  induction 1 as [|ps tr ps1 labs ps' _ [IH1 IH2] [Hs1 Hs2]]; [by split; constructor|].
  rewrite !map_app. split; by econstructor.
Qed.

(** ** The start *)

(** Two loops that have just been started by [task_loop] on the two ends of one
    session: no box is on its way, but control messages may be. *)
Record connected n : Prop := {
  co_a : ∃ client salty events t, task_loop client salty events = Ok (t, n_a n)
    ∧ in_task_phase I1 salty;
  co_b : ∃ client salty events t, task_loop client salty events = Ok (t, n_b n)
    ∧ in_task_phase I2 salty;
  co_ends : ∃ e1 e2, endpoint (tl_salty (n_a n)) = Some e1 ∧ endpoint (tl_salty (n_b n)) = Some e2
    ∧ e_types e1 = types1 ∧ e_types e2 = types2 ∧ channel e1 e2 [] [] ∧ channel e2 e1 [] [];
  co_frames_a : Forall (λ m, is_binary m = false) (incoming (tl_client (n_a n)));
  co_frames_b : Forall (λ m, is_binary m = false) (incoming (tl_client (n_b n)));
  co_relayed_a : n_ka n = length (sent (tl_client (n_a n)));
  co_relayed_b : n_kb n = length (sent (tl_client (n_b n)));
}.

Lemma task_loop_started {S} `{!Signaling T S} client (salty : S) events t (l : TaskLoop S C Ch Q) :
  task_loop client salty events = Ok (t, l) →
  l = mkTaskLoop salty client events mpsc_unbounded mpsc_unbounded mpsc_unbounded Waiting true true true true.
Proof. unfold task_loop. destruct (c_task _); [|done]. by intros [= _ <-]. Qed.

Lemma control_wf ms : Forall (λ m, is_binary m = false) ms → Forall wf_ws ms.
Proof. intros Hf. eapply Forall_impl; [exact Hf|]. by intros []. Qed.

Lemma connected_simulates n : connected n → simulates n (empty_pipe, empty_pipe).
Proof.
  intros [(c1 & s1 & ev1 & t1 & Hrun1 & Hs1) (c2 & s2 & ev2 & t2 & Hrun2 & Hs2)
    (e1 & e2 & He1 & He2 & Ht1 & Ht2 & Hch & Hch') Hf1 Hf2 Hk1 Hk2].
  destruct (mpsc_unbounded_spec TaskMessage) as [Hq _].
  destruct (mpsc_unbounded_spec OwnedMessage) as [Hqr _].
  pose proof (task_loop_started _ _ _ _ _ Hrun1) as Ha. pose proof (task_loop_started _ _ _ _ _ Hrun2) as Hb.
  split.
  - apply (task_loop_inv incoming (@queued) (@alive) I1 c1 s1 ev1 t1); [done| |done]. apply control_wf. by rewrite Ha in Hf1.
  - apply (task_loop_inv incoming (@queued) (@alive) I2 c2 s2 ev2 t2); [done| |done]. apply control_wf. by rewrite Hb in Hf2.
  - exists [], [], e1, e2. rewrite Ha, Hb in *. simpl in *.
    split_and!; split; simpl; rewrite ?Hq, ?Hk1, ?Hk2; try done.
    + exists [], []. split_and!; [done..|]. unfold between. simpl.
      by rewrite Hqr, drop_all, !binaries_app, (binaries_control _ Hf2).
    + exists [], []. split_and!; [done..|]. unfold between. simpl.
      by rewrite Hqr, drop_all, !binaries_app, (binaries_control _ Hf1).
    + unfold receiving. simpl. by destruct (alive _).
    + intros _. unfold receiving. simpl. by destruct (mpsc_unbounded_spec TaskMessage) as [_ ->].
    + unfold receiving. simpl. by destruct (alive _).
    + intros _. unfold receiving. simpl. by destruct (mpsc_unbounded_spec TaskMessage) as [_ ->].
Qed.

(** ** Nothing is lost *)

Section receiving.
Context {S : Type} `{!Signaling T S} (I : S → Prop) `{!SignalingSafe T S I, !SignalingActions T S I}.
Implicit Types l : TaskLoop S C Ch Q.

Lemma reader_does_incoming l o l' : reader_does incoming sent reported (@queued) (@alive) l o l' →
  alive (tl_incoming l') = alive (tl_incoming l).
Proof.
  destruct 1 as [| | | | | |b c w acts s' w' ev q q' o Hi Hsent Hne Hn Hrun Hev Hq [_ Hq'] Ho]; try done.
  by destruct (is_ok o && closes acts).
Qed.
Lemma transformer_does_incoming l o l' : transformer_does (@queued) (@alive) l o l' →
  tl_incoming l' = tl_incoming l ∧ tl_reader l' = tl_reader l.
Proof. destruct 1 as [| |m| ]; try done. by destruct (closing_message m). Qed.
Lemma writer_does_incoming l o l' : writer_does incoming sent (@queued) (@alive) l o l' →
  tl_incoming l' = tl_incoming l ∧ tl_reader l' = tl_reader l.
Proof. by destruct 1. Qed.

(** A side that receives has received all along. *)
Lemma receiving_back l lab l' : loop_inv incoming (@queued) (@alive) I l → loop_step l lab l' →
  receiving (@alive) l' = true → receiving (@alive) l = true.
Proof.
  intros Hl Hstep. pose proof Hl as [Hs Hf _ _ _ _ _ _]. unfold receiving. rewrite !andb_true_iff.
  destruct Hstep as [w l' w' Hrd Hrun|w l' w' Hrd Hrun|w l' w' Htr Hrun|w l' w' Hwr Hrun|m Hse|m q Hq
    |r| | |]; try done.
  - pose proof (reader_turn_does incoming sent reported (@queued) (@alive) I l Hs
      (writer_runs _ _ _ _ _ Hl (or_introl Hrd)) Hf w) as Hdo. rewrite Hrun in Hdo.
    apply reader_does_incoming in Hdo. unfold post in Hdo; simpl in Hdo. rewrite Hdo. tauto.
  - destruct (disconnect_turn_run (@queued) (@alive) l w) as (l1 & Hrun1 & Hl1). rewrite Hrun in Hrun1.
    injection Hrun1 as <- _.
    destruct (tl_disconnect l); try (by subst); [destruct Hl1 as (q & -> & _)|subst];
      by intros [? _].
  - pose proof (transformer_turn_does (@queued) (@alive) I l Hs
      (writer_runs _ _ _ _ _ Hl (or_intror Htr)) w) as Hdo. rewrite Hrun in Hdo.
    by destruct (transformer_does_incoming l (Ok tt) l' Hdo) as [-> ->].
  - pose proof (writer_turn_does incoming sent (@queued) (@alive) l w) as Hdo. rewrite Hrun in Hdo.
    by destruct (writer_does_incoming l (Ok tt) l' Hdo) as [-> ->].
  - pose proof (mpsc_recv_spec _ (tl_incoming l)) as Hr. rewrite Hq in Hr. destruct Hr as [_ Hr].
    simpl. by rewrite Hr.
  - unfold task_disconnect. by destruct (tl_disconnect l).
  - unfold task_drop_disconnect. by destruct (tl_disconnect l).
  - simpl. destruct (mpsc_drop_spec _ (tl_incoming l)) as [_ ->]. by intros [_ ?].
Qed.
Lemma receiving_halts l l' : receiving (@alive) l' = true → halts (@alive) l l' = false.
Proof.
  unfold halts. intros Hr. rewrite Hr. unfold receiving in Hr. apply andb_true_iff in Hr as [_ ->].
  by rewrite !andb_false_r.
Qed.
End receiving.

Lemma net_receiving n labs n' : net_step n labs n' → ∀ ps, simulates n ps →
  (receiving (@alive) (n_b n') = true → receiving (@alive) (n_b n) = true ∧ labs.1 ≠ Halt)
  ∧ (receiving (@alive) (n_a n') = true → receiving (@alive) (n_a n) = true ∧ labs.2 ≠ Halt).
Proof.
  intros Hstep ps [Ha Hb _].
  destruct Hstep as [lab a' Hs Hm|lab b' Hs Hm| | | |]; simpl; try done.
  - split; [by destruct lab|]. intros Hr. split; [by eapply (receiving_back I1)|].
    apply (receiving_halts (n_a n)) in Hr. unfold recv_label, halt_label. rewrite Hr. by destruct lab.
  - split; [|by destruct lab]. intros Hr. split; [by eapply (receiving_back I2)|].
    apply (receiving_halts (n_b n)) in Hr. unfold recv_label, halt_label. rewrite Hr. by destruct lab.
Qed.

Lemma traces_receiving n tr n' : traces net_step n tr n' → ∀ ps, simulates n ps →
  (receiving (@alive) (n_b n') = true → receiving (@alive) (n_b n) = true ∧ halted (map fst tr) = false)
  ∧ (receiving (@alive) (n_a n') = true → receiving (@alive) (n_a n) = true ∧ halted (map snd tr) = false).
Proof.
  induction 1 as [n|n tr n1 labs n' Ht IH Hs]; intros ps Hps; [done|].
  destruct (simulates_traces _ _ _ Ht ps Hps) as (ps1 & Hps1 & _).
  destruct (net_receiving _ _ _ Hs _ Hps1) as [Hb Ha]. destruct (IH ps Hps) as [IHb IHa].
  unfold halted. rewrite !map_app, !existsb_app. simpl. rewrite !orb_false_r.
  split; intros Hr.
  - destruct (Hb Hr) as [Hr1 Hl]. destruct (IHb Hr1) as [? Hh]. unfold halted in Hh. rewrite Hh.
    split; [done|]. by destruct labs.1.
  - destruct (Ha Hr) as [Hr1 Hl]. destruct (IHa Hr1) as [? Hh]. unfold halted in Hh. rewrite Hh.
    split; [done|]. by destruct labs.2.
Qed.

(** Nothing of the direction from [a] to [b] is under way. *)
Definition settled (a : L1) (b : L2) (k : nat) : Prop :=
  queued (tl_outgoing a) = [] ∧ binaries (between incoming sent (@queued) a b k) = [].

Lemma settled_queue a b ka kb pa pb : receiving (@alive) b = true → settled a b ka →
  both_ways incoming sent (@queued) (@alive) types1 types2 a b ka kb pa pb →
  p_queue pa = queued (tl_incoming b).
Proof.
  intros Hr [Ho Hbin] (ms & ms' & e1 & e2 & [_ _ _ (bs & vs & Hch & Hv & Hb) _ _ _ _] & _ & [Hq _] & _).
  rewrite Hb in Hbin. destruct bs as [|]; [|done]. pose proof (ch_carries _ _ _ _ Hch) as Hc.
  inversion Hc; subst. inversion Hv; subst. rewrite Hq, Hr, Ho. simpl. by rewrite app_nil_r.
Qed.

(** Once nothing is under way to a receiving side, all that was pushed before a
    Close message has been popped or waits in the receiver's channel. *)
Lemma settled_exact n tr n' : connected n → traces net_step n tr n' →
  receiving (@alive) (n_b n') = true → settled (n_a n') (n_b n') (n_ka n') →
  popped (map fst tr) ++ queued (tl_incoming (n_b n')) = until_close (pushed (map fst tr)).
Proof.
  intros Hn Ht Hr Hset. pose proof (connected_simulates n Hn) as Hs.
  destruct (simulates_traces _ _ _ Ht _ Hs) as ([pa pb] & [_ _ Hw] & Hp).
  apply pipes_traces in Hp as [Hp _]. apply pipe_delivers in Hp as [_ Hx _].
  rewrite <- (settled_queue _ _ _ _ _ _ Hr Hset Hw). apply Hx.
  by apply (traces_receiving _ _ _ Ht _ Hs) in Hr as [_ ?].
Qed.

(** ** Everything can arrive *)

(** What is under way, weighted by what is left to do with it. *)
Definition transit n : nat :=
  7 * length (queued (tl_outgoing (n_a n))) + 3 * length (queued (tl_raw (n_a n)))
  + 2 * length (drop (n_ka n) (sent (tl_client (n_a n)))) + length (incoming (tl_client (n_b n))).

(** A step the tasks do not see. *)
Definition silent (labs : PipeLabel * PipeLabel) : Prop :=
  pushed [labs.1] = [] ∧ popped [labs.1] = [] ∧ pushed [labs.2] = [] ∧ popped [labs.2] = [].

(** A step towards the receiver: it takes something off the way, and the
    receiver goes on unless it has got a Close message. *)
Definition forward n n' : Prop := ∃ labs, net_step n labs n' ∧ silent labs
  ∧ (transit n' < transit n)%nat
  ∧ (receiving (@alive) (n_b n') = true ∨ has_close (queued (tl_incoming (n_b n'))) = true).
(** Nothing goes on: the sender has no sequence numbers left to seal its next
    message with, its connection refuses the next frame, or the connection of
    the receiver cannot be read. *)
Definition stuck n : Prop :=
  (∃ m s', head (queued (tl_outgoing (n_a n))) = Some m
    ∧ sealed_as m (tl_salty (n_a n)) (Err SignalingError.CsnOverflow) s')
  ∨ (∃ m t, head (queued (tl_raw (n_a n))) = Some m ∧ (ws_send_all [m] (tl_client (n_a n))).1 = Err t)
  ∨ ∃ t, (ws_next (tl_client (n_b n))).1 = Err t.

(** The connection can always be given another message. *)
Definition accepting : Prop := ∀ c ms, ∃ c', incoming c' = incoming c ++ ms ∧ sent c' = sent c.

Lemma silent_internal {S} (l l' : TaskLoop S C Ch Q) :
  silent (send_label Internal, recv_label (@alive) Internal l l')
  ∧ silent (recv_label (@alive) Internal l l', send_label Internal).
Proof. unfold silent, recv_label, halt_label. by destruct (halts _ l l'). Qed.

Lemma forward_transformer n ps (w : env) : simulates n ps → receiving (@alive) (n_b n) = true →
  queued (tl_outgoing (n_a n)) ≠ [] → (∃ n', forward n n') ∨ stuck n.
Proof.
  intros [Ha Hb (? & ? & ? & ? & Hlk & _)] Hr Hq. assert (tl_transformer (n_a n) = true) as Htr.
  { apply not_false_is_true. intros Htr. by apply Hq, (li_closed _ _ _ _ _ Ha). }
  pose proof (writer_runs _ _ _ _ _ Ha (or_intror Htr)) as Hal.
  pose proof (transformer_turn_does (@queued) (@alive) I1 (n_a n) (li_salty _ _ _ _ _ Ha) Hal w) as Hdo.
  destruct (transformer_turn (n_a n) w) as [[o a'] w'] eqn:Hrun. unfold out, post in Hdo. simpl in Hdo.
  destruct o as [[]|e|p]; [| |by inversion Hdo].
  2: { right. left. inversion Hdo as [| | |m q e' s' Hq' Hqa Hse]; subst. exists m, s'.
       split; [by rewrite Hq'|]. pose proof (sealing_fails I1 m _ _ _ _
         (proj1 (li_salty _ _ _ _ _ Ha)) (lk_sender _ _ _ _ _ _ _ _ _ _ Hlk) Hse) as ->. done. }
  left. exists (mkNet a' (n_b n) (n_ka n) (n_kb n)), (send_label Internal, recv_label (@alive) Internal (n_a n) a').
  split_and!; [by apply net_a; [by eapply step_transformer|]|apply silent_internal| |by left].
  inversion Hdo as [|Hq'|m q bx s' q' Hq' Hqa Hse Hx|]; subst; try done.
  apply (extended_alive (@queued) (@alive)) in Hx as [Hx _]; [|done].
  unfold transit. simpl. rewrite Hq'. destruct m; simpl; rewrite Hx, length_app; simpl; try lia.
  destruct (mpsc_drop_spec _ q) as [-> _]. simpl. lia.
Qed.
Lemma forward_writer n ps (w : env) : simulates n ps → receiving (@alive) (n_b n) = true →
  queued (tl_raw (n_a n)) ≠ [] → (∃ n', forward n n') ∨ stuck n.
Proof.
  intros [Ha Hb (? & ? & ? & ? & Hlk & _)] Hr Hq. assert (tl_writer (n_a n) = true) as Hwr.
  { apply not_false_is_true. intros Hwr. by apply Hq, (li_written _ _ _ _ _ Ha). }
  pose proof (writer_turn_does incoming sent (@queued) (@alive) (n_a n) w) as Hdo.
  destruct (writer_turn (n_a n) w) as [[o a'] w'] eqn:Hrun. unfold out, post in Hdo. simpl in Hdo.
  destruct o as [[]|e|p]; [| |by inversion Hdo].
  2: { right. right. left. inversion Hdo as [| | |m t q c Hq' Hws|t c Hq' _ _ _]; subst; [|done].
       exists m, t. by rewrite Hq', Hws. }
  left. exists (mkNet a' (n_b n) (n_ka n) (n_kb n)), (send_label Internal, recv_label (@alive) Internal (n_a n) a').
  split_and!; [by apply net_a; [by eapply step_writer|]|apply silent_internal| |by left].
  inversion Hdo as [|c Hq'|m q c Hq' Hqa Hi Hsent| |]; subst; try done.
  pose proof (lk_relayed _ _ _ _ _ _ _ _ _ _ Hlk).
  unfold transit. simpl. rewrite Hq', Hsent, drop_app_le, length_app by done. simpl. lia.
Qed.
Lemma forward_relay n : accepting → receiving (@alive) (n_b n) = true →
  drop (n_ka n) (sent (tl_client (n_a n))) ≠ [] → ∃ n', forward n n'.
Proof.
  intros Hacc Hr Hd. destruct (sent (tl_client (n_a n)) !! n_ka n) as [m|] eqn:Hm.
  2: { by apply lookup_ge_None in Hm; rewrite drop_ge in Hd. }
  destruct (Hacc (tl_client (n_b n)) (if is_binary m then [m] else [])) as (c & Hi & Hs).
  exists (mkNet (n_a n) (tl_set_client c (n_b n)) (Datatypes.S (n_ka n)) (n_kb n)), (Tau, Tau).
  split_and!; [by eapply net_relay_a|done| |by left].
  unfold transit. simpl. rewrite Hi, (drop_S _ _ _ Hm), length_app. simpl. destruct (is_binary m); simpl; lia.
Qed.
Lemma forward_reader n ps (w : env) : simulates n ps → receiving (@alive) (n_b n) = true →
  incoming (tl_client (n_b n)) ≠ [] → (∃ n', forward n n') ∨ stuck n.
Proof.
  intros [Ha Hb (? & ? & ? & ? & Hlk & _)] Hr Hi. pose proof Hr as [Hrd Hal]%andb_true_iff.
  pose proof (reader_turn_does incoming sent reported (@queued) (@alive) I2 (n_b n) (li_salty _ _ _ _ _ Hb)
    (writer_runs _ _ _ _ _ Hb (or_introl Hrd)) (li_frames _ _ _ _ _ Hb) w) as Hdo.
  destruct (reader_turn (n_b n) w) as [[o b'] w'] eqn:Hrun. unfold out, post in Hdo. simpl in Hdo.
  assert (o = Ok tt ∨ o ≠ Ok tt) as [->|Ho] by (destruct o as [[]| |]; by auto).
  2: { right. right. right. by eapply (reader_fails (S1 := S1) incoming sent reported (@queued) (@alive) I2);
         [exact Hlk|apply (li_salty _ _ _ _ _ Hb)|..]. }
  left. exists (mkNet (n_a n) b' (n_ka n) (n_kb n)), (recv_label (@alive) Internal (n_b n) b', send_label Internal).
  split_and!; [by apply net_b; [by eapply step_reader|]|apply silent_internal| |].
  - unfold transit. simpl. inversion Hdo as [| | |m c q ps' Hi'|bx c w1 o s' w1' ? ? ? ? ? Ho|
      |bx c w1 acts s' w1' ev q q' o Hi']; subst; try done; [simpl; rewrite Hi'; simpl; lia|by destruct o|].
    rewrite Hi'. destruct (_ && _); simpl; lia.
  - simpl. inversion Hdo as [| | |m c q ps' Hi' Hs|bx c w1 o s' w1' ? ? ? ? ? Ho|
      |bx c w1 acts s' w1' ev q q' o Hi' Hs Hne Hn Hrun' Hev Hq Hq' Ho]; subst; try done; [by left|by destruct o|].
    destruct (extended_alive (@queued) (@alive) _ _ _ Hq' Hal) as [Hq1 Hal1]. simpl.
    destruct (closes acts) eqn:Hc; simpl.
    + right. rewrite Hq1, has_close_app. unfold closes in Hc. by rewrite Hc, orb_true_r.
    + left. unfold receiving. simpl. by rewrite Hrd, Hal1.
Qed.

Lemma forward_progress n ps (w : env) : accepting → simulates n ps →
  receiving (@alive) (n_b n) = true → (0 < transit n)%nat → (∃ n', forward n n') ∨ stuck n.
Proof.
  intros Hacc Hs Hr Ht.
  destruct (nil_or_length_pos (queued (tl_outgoing (n_a n)))) as [Ho|Ho].
  2: { eapply forward_transformer; [done..|]. intros Hx. by rewrite Hx in Ho. }
  destruct (nil_or_length_pos (queued (tl_raw (n_a n)))) as [Hw|Hw].
  2: { eapply forward_writer; [done..|]. intros Hx. by rewrite Hx in Hw. }
  destruct (nil_or_length_pos (drop (n_ka n) (sent (tl_client (n_a n))))) as [Hd|Hd].
  2: { left. apply forward_relay; [done..|]. intros Hx. by rewrite Hx in Hd. }
  eapply forward_reader; [done..|]. intros Hx. unfold transit in Ht.
  rewrite Ho, Hw, Hd, Hx in Ht. simpl in Ht. lia.
Qed.

(** Steps towards the receiver until nothing is under way, the receiver has got
    a Close message, or the network is stuck. *)
Lemma forward_runs (w : env) : accepting → ∀ k n ps, (transit n ≤ k)%nat → simulates n ps →
  receiving (@alive) (n_b n) = true →
  ∃ tr n', traces net_step n tr n' ∧ Forall silent tr ∧ (stuck n'
    ∨ transit n' = 0%nat ∧ receiving (@alive) (n_b n') = true
    ∨ has_close (queued (tl_incoming (n_b n'))) = true).
Proof.
  intros Hacc. induction k as [|k IH]; intros n ps Hk Hs Hr.
  { exists [], n. split_and!; [constructor|constructor|]. right. left. split; [lia|done]. }
  destruct (decide (transit n = 0%nat)) as [Hz|Hz].
  { exists [], n. split_and!; [constructor|constructor|]. right. by left. }
  destruct (forward_progress n ps w Hacc Hs Hr) as [(n1 & labs & Hstep & Hsil & Htr & Hor)|Hf]; [lia| |].
  2: { exists [], n. split_and!; [constructor|constructor|by left]. }
  assert (traces net_step n [labs] n1) as Hone
    by (apply (traces_snoc _ _ [] n); [constructor|done]).
  destruct Hor as [Hr1|Hc]; [|exists [labs], n1; split_and!; [done|by constructor|by right; right]].
  destruct (simulates_step _ _ _ _ Hs Hstep) as (ps1 & Hs1 & _).
  destruct (IH n1 ps1) as (tr & n' & Ht & Hsil' & Hend); [lia|done..|].
  exists (labs :: tr), n'. split_and!; [|by constructor|done].
  by apply (traces_app _ n [labs] n1 tr n').
Qed.

Lemma silent_pushed tr : Forall silent tr → pushed (map fst tr) = [] ∧ popped (map fst tr) = [].
Proof.
  induction 1 as [|labs tr (H1' & H2' & _) _ [IH1 IH2]]; [done|]. simpl.
  unfold pushed, popped in *. simpl in *. by destruct labs.1.
Qed.

Lemma transit_settled n : transit n = 0%nat → settled (n_a n) (n_b n) (n_ka n).
Proof.
  unfold transit. intros Hz.
  assert (queued (tl_outgoing (n_a n)) = [] ∧ queued (tl_raw (n_a n)) = []
    ∧ drop (n_ka n) (sent (tl_client (n_a n))) = [] ∧ incoming (tl_client (n_b n)) = []) as (Ho & Hr & Hd & Hi).
  { split_and!; apply nil_length_inv; lia. }
  split; [done|]. unfold between. by rewrite Hr, Hd, Hi.
Qed.

(** A receiver that holds a Close message has everything. *)
Lemma closed_exact n tr n' : connected n → traces net_step n tr n' →
  has_close (queued (tl_incoming (n_b n'))) = true →
  popped (map fst tr) ++ queued (tl_incoming (n_b n')) = until_close (pushed (map fst tr)).
Proof.
  intros Hn Ht Hc. pose proof (connected_simulates n Hn) as Hs.
  destruct (simulates_traces _ _ _ Ht _ Hs) as ([pa pb] & [_ _ (? & ? & ? & ? & _ & _ & [Hq _] & _)] & Hp).
  apply pipes_traces in Hp as [[Hpre _ _]%pipe_delivers _]. simpl in Hpre, Hq. rewrite Hq, app_assoc in Hpre.
  apply prefix_close; [by eapply prefix_app_l|]. by rewrite has_close_app, Hc, orb_true_r.
Qed.

(** ** The theorems *)

(** C8: two task loops refine the specification.  Start the loops of the two
    ends of one session, joined by a server that relays their binary frames and
    may send control messages of its own; let the turns of the six futures, the
    calls of the two tasks and the server interleave in any way.  In each
    direction, what the tasks observe (messages that enter the outgoing channel
    of one side, messages that leave the incoming channel of the other, and the
    receiver halting) is a trace of a first-in first-out pipe.  The tasks are
    those that send only what the peer's task supports ([sendable], a premise of
    [net_step]); a value of any other type is dropped by the receiver without a
    trace. *)
Theorem task_loops_refine_pipes n tr n' : connected n → traces net_step n tr n' →
  ∃ pa pb, traces pipe_step empty_pipe (map fst tr) pa
  ∧ traces pipe_step empty_pipe (map snd tr) pb.
Proof.
  intros Hn Ht. destruct (simulates_traces _ _ _ Ht _ (connected_simulates n Hn)) as ([pa pb] & _ & Hp).
  exists pa, pb. by apply pipes_traces in Hp.
Qed.

Lemma delivered_in_order n tr n' : connected n → traces net_step n tr n' →
  popped (map fst tr) `prefix_of` until_close (pushed (map fst tr))
  ∧ popped (map snd tr) `prefix_of` until_close (pushed (map snd tr)).
Proof.
  intros Hn Ht. destruct (simulates_traces _ _ _ Ht _ (connected_simulates n Hn)) as ([pa pb] & _ & Hp).
  apply pipes_traces in Hp as [[Hpa _ _]%pipe_delivers [Hpb _ _]%pipe_delivers].
  split; by eapply prefix_app_l.
Qed.

(** C9: task messages arrive in order, unchanged and at most once.  In every
    run of the network, what a task has taken from its loop is a prefix of what
    the other task has sent up to its first Close message; and while the
    receiver goes on, the messages that are missing are under way or wait in
    its channel.  (The second part is stated for one direction; the two sides
    are interchangeable.)  As before, the tasks send only what is [sendable]. *)
Theorem task_messages_delivered n tr n' : connected n → traces net_step n tr n' →
  popped (map fst tr) `prefix_of` until_close (pushed (map fst tr))
  ∧ popped (map snd tr) `prefix_of` until_close (pushed (map snd tr))
  ∧ (receiving (@alive) (n_b n') = true → settled (n_a n') (n_b n') (n_ka n') →
     popped (map fst tr) ++ queued (tl_incoming (n_b n')) = until_close (pushed (map fst tr))).
Proof.
  intros Hn Ht. destruct (delivered_in_order n tr n' Hn Ht). split_and!; [done..|by eapply settled_exact].
Qed.

(** C10: everything can arrive.  From every state of a run in which the receiver
    goes on, if the server can pass on frames, there are further steps that the
    tasks do not see after which all messages sent up to the first Close message
    have been taken or wait in the receiver's channel; unless the sender runs out
    of sequence numbers, its connection refuses a frame, or the connection of the
    receiver fails.  In particular no message is ever refused by the receiver.
    As before, the tasks send only what is [sendable]. *)
Theorem task_messages_arrive n tr n' (w : env) : connected n → traces net_step n tr n' →
  accepting → receiving (@alive) (n_b n') = true →
  ∃ tr2 n2, traces net_step n' tr2 n2 ∧ Forall silent tr2 ∧
  (stuck n2 ∨ popped (map fst tr) ++ queued (tl_incoming (n_b n2)) = until_close (pushed (map fst tr))).
Proof.
  intros Hn Ht Hacc Hr.
  destruct (simulates_traces _ _ _ Ht _ (connected_simulates n Hn)) as (ps & Hs & _).
  destruct (forward_runs w Hacc (transit n') n' ps) as (tr2 & n2 & Ht2 & Hsil & Hend); [lia|done..|].
  exists tr2, n2. split_and!; [done..|].
  pose proof (traces_app _ _ _ _ _ _ Ht Ht2) as Hall. destruct (silent_pushed tr2 Hsil) as [Hpu Hpo].
  destruct Hend as [Hf|[[Hz Hr2]|Hc]]; [by left|right..].
  - pose proof (settled_exact n _ n2 Hn Hall Hr2 (transit_settled _ Hz)) as Hx.
    by rewrite map_app, popped_app, pushed_app, Hpu, Hpo, !app_nil_r in Hx.
  - pose proof (closed_exact n _ n2 Hn Hall Hc) as Hx.
    by rewrite map_app, popped_app, pushed_app, Hpu, Hpo, !app_nil_r in Hx.
Qed.
End network.

(** ** Witnesses *)

Module NetworkWitnesses.
Import Reference ReferenceCodec Handshake ProtocolWitnesses ClientWitnesses LoopWitnesses.

(** The loops of the two clients of the executed handshake. *)
Abbreviation net := (Net (S1 := istate) (S2 := rstate) (C := script) (Ch := list Event) (Q := queue)).
Definition net0 : net := mkNet (get_loop done_initiator (start_loop done_initiator []))
  (get_loop done_responder (start_loop done_responder [])) 0 0.
Definition no_endpoint : Endpoint := mkEndpoint (mkAddress 0) (mkAddress 0) initiator_keys
  (public_key initiator_keys) (mkCookiePair server_cookie None)
  (mkCombinedSequencePair (mkCombinedSequence 0 0) None) None.
Definition end1 : Endpoint := default no_endpoint (endpoint done_initiator).
Definition end2 : Endpoint := default no_endpoint (endpoint done_responder).
Definition types1 : option (list string) := e_types end1.
Definition types2 : option (list string) := e_types end2.

Lemma end1_facing : facing end1 end2.
Proof. by split; vm_compute. Qed.
Lemma end2_facing : facing end2 end1.
Proof. by split; vm_compute. Qed.
(** The last number accepted of [e1] is not above its own number. *)
Definition in_step (e1 e2 : Endpoint) : bool :=
  match csn_theirs (e_csn e2) with
  | Some prev => combined_sequence_number prev <=? csn_number (csn_ours (e_csn e1))
  | None => false
  end.
Lemma empty_channel e1 e2 : facing e1 e2 → in_step e1 e2 = true → channel e1 e2 [] [].
Proof.
  unfold in_step. intros Hf Hs. destruct (csn_theirs (e_csn e2)) as [prev|] eqn:Ht; [|done].
  split; [done|constructor|constructor|]. exists prev. split_and!; [done|lia|constructor].
Qed.

Lemma net0_connected : connected fst snd initiator_inv responder_state_inv types1 types2 net0.
Proof.
  split.
  - exists ([], []), done_initiator, [], "chat".
    split; [vm_compute; reflexivity|exact done_in_task_phase].
  - exists ([], []), done_responder, [], "chat".
    split; [vm_compute; reflexivity|exact done_responder_in_task_phase].
  - exists end1, end2. split_and!; [vm_compute; reflexivity..| |].
    + apply empty_channel; [exact end1_facing|vm_compute; reflexivity].
    + apply empty_channel; [exact end2_facing|vm_compute; reflexivity].
  - vm_compute. constructor.
  - vm_compute. constructor.
  - vm_compute. reflexivity.
  - vm_compute. reflexivity.
Qed.

(** The initiator's task sends a message, which goes all the way. *)
Definition hello : TaskMessage := TaskMessage.Application (Value.Integer 7).
Definition net1 : net := mkNet (task_send hello (n_a net0)) (n_b net0) 0 0.
Definition net2 : net := mkNet (post (transformer_turn (n_a net1) world)) (n_b net1) 0 0.
Definition net3 : net := mkNet (post (writer_turn (n_a net2) world)) (n_b net2) 0 0.
Definition net4 : net := mkNet (n_a net3)
  (tl_set_client (snd (tl_client (n_a net3)), []) (n_b net3)) 1 0.
Definition net5 : net := mkNet (n_a net4) (post (reader_turn (n_b net4) world)) 1 0.
Definition net6 : net := mkNet (n_a net5)
  (tl_set_incoming (mpsc_recv (tl_incoming (n_b net5))).2 (n_b net5)) 1 0.
Definition run : list (PipeLabel * PipeLabel) :=
  [(Push hello, Tau); (Tau, Tau); (Tau, Tau); (Tau, Tau); (Tau, Tau); (Pop hello, Tau)].

Abbreviation steps := (net_step fst snd open types1 types2).
Lemma by_a (n : net) lab a' labs : loop_step (n_a n) lab a' → (∀ m, lab = Sends m → sendable types2 m) →
  labs = (send_label lab, recv_label open lab (n_a n) a') →
  steps n labs (mkNet a' (n_b n) (n_ka n) (n_kb n)).
Proof. intros Hs Hm ->. by apply net_a. Qed.
Lemma by_b (n : net) lab b' labs : loop_step (n_b n) lab b' → (∀ m, lab = Sends m → sendable types1 m) →
  labs = (recv_label open lab (n_b n) b', send_label lab) →
  steps n labs (mkNet (n_a n) b' (n_ka n) (n_kb n)).
Proof. intros Hs Hm ->. by apply net_b. Qed.

Lemma sent_run : traces steps net0 [(Push hello, Tau)] net1.
Proof.
  apply (traces_snoc _ _ [] net0); [constructor|].
  apply (by_a net0 (Sends hello)); [by apply step_task_send|by intros m [= <-]|vm_compute; reflexivity].
Qed.
Lemma whole_run : traces steps net0 run net6.
Proof.
  change run with (((((([] ++ [(Push hello, Tau)]) ++ [(Tau, Tau)]) ++ [(Tau, Tau)]) ++ [(Tau, Tau)])
    ++ [(Tau, Tau)]) ++ [(Pop hello, Tau)]).
  apply (traces_snoc _ _ _ net5); [apply (traces_snoc _ _ _ net4); [apply (traces_snoc _ _ _ net3);
    [apply (traces_snoc _ _ _ net2); [apply (traces_snoc _ _ _ net1); [exact sent_run|]|]|]|]|].
  - apply (by_a net1 Internal); [|done|vm_compute; reflexivity].
    apply (step_transformer _ world _ world); vm_compute; reflexivity.
  - apply (by_a net2 Internal); [|done|vm_compute; reflexivity].
    apply (step_writer _ world _ world); vm_compute; reflexivity.
  - eapply (net_relay_a fst snd open types1 types2 net3); vm_compute; reflexivity.
  - apply (by_b net4 Internal); [|done|vm_compute; reflexivity].
    apply (step_reader _ world _ world); vm_compute; reflexivity.
  - apply (by_b net5 (Receives hello)); [|done|vm_compute; reflexivity].
    apply step_task_recv. vm_compute. reflexivity.
Qed.

Lemma task_loops_refine_witness : ∃ pa pb, traces pipe_step empty_pipe (map fst run) pa
  ∧ traces pipe_step empty_pipe (map snd run) pb.
Proof.
  refine (task_loops_refine_pipes fst snd id items open initiator_inv responder_state_inv types1 types2
    net0 run net6 _ _).
  - exact net0_connected.
  - exact whole_run.
Defined.
Lemma task_messages_delivered_witness :
  popped (map fst run) `prefix_of` until_close (pushed (map fst run))
  ∧ popped (map snd run) `prefix_of` until_close (pushed (map snd run))
  ∧ (receiving open (n_b net6) = true → settled fst snd items (n_a net6) (n_b net6) (n_ka net6) →
     popped (map fst run) ++ items _ (tl_incoming (n_b net6)) = until_close (pushed (map fst run))).
Proof.
  refine (task_messages_delivered fst snd id items open initiator_inv responder_state_inv types1 types2
    net0 run net6 _ _).
  - exact net0_connected.
  - exact whole_run.
Defined.
Lemma script_accepting : accepting (C := script) fst snd.
Proof. intros c ms. by exists (c.1 ++ ms, c.2). Qed.
Lemma task_messages_arrive_witness :
  ∃ tr2 n2, traces steps net1 tr2 n2 ∧ Forall silent tr2 ∧
  (stuck items n2 ∨ popped (map fst [(Push hello, Tau)]) ++ items _ (tl_incoming (n_b n2))
     = until_close (pushed (map fst [(Push hello, Tau)]))).
Proof.
  refine (task_messages_arrive fst snd id items open initiator_inv responder_state_inv types1 types2
    net0 [(Push hello, Tau)] net1 world _ _ _ _).
  - exact net0_connected.
  - exact sent_run.
  - exact script_accepting.
  - vm_compute. reflexivity.
Defined.
End NetworkWitnesses.
