(* ===== verification/EndToEnd.v ===== *)
(** * From the offer to the last message

    The composition of the peer handshake and the task loops: two honest clients
    complete the handshake, start their task loops on the sessions it has left
    them, and every message their tasks then exchange arrives in order. *)

From S2P Require Import Prelude Text External Errors Types Csn Cookie Nonce Crypto Tasks Messages.
From S2P Require Import ReferenceCodec Boxes Context Signaling SignalingSpec SignalingSafe Runs.
From S2P Require Import Initiator InitiatorSafe Responder ResponderSafe Channel Handshake.
From S2P Require Import InitiatorProps ResponderProps HandshakeRuns PeerSession Protocol.
From S2P Require Import Actions Client ClientProps Pipe TaskLoop TaskLoopProps Network.

Section end_to_end.
Context {T C Ch : Type} {Q : Type → Type}.
Context `{!Task T, !Env, !WsClient C, !WsSink C, !EventChannel Ch, !Mpsc Q}.
Context `{!ByteOrder, !ByteOrderLaws, !Sodium, !SodiumLaws, !Rmps, !RmpsLaws, !EnvLaws}.
Context (incoming sent : C → list OwnedMessage) (reported : Ch → list Event).
Context (queued : ∀ {A}, Q A → list A) (alive : ∀ {A}, Q A → bool).
Context `{!WsClientLaws C incoming sent, !WsSinkLaws C incoming sent}.
Context `{!EventChannelLaws Ch reported, !MpscLaws Q (@queued) (@alive)}.
Implicit Types si : InitiatorSignaling T.
Implicit Types sr : ResponderSignaling T.

Abbreviation quiet_client c := (Forall (λ m, is_binary m = false) (incoming c)).

(** The network of the two loops, with nothing of what the clients have already
    sent left to relay. *)
Definition joined {S1 S2} (c1 c2 : C) (l1 : TaskLoop S1 C Ch Q) (l2 : TaskLoop S2 C Ch Q) :=
  mkNet l1 l2 (length (sent c1)) (length (sent c2)).

Lemma endpoint_types {S} `{!SignalingBase T S} (s : S) e : endpoint s = Some e →
  e_types e = c_task_supported_types (common s).
Proof.
  unfold endpoint. case_bool_decide; [|done]. destruct (get_peer s) as [[P i p put]|]; [|done].
  by intros (_ & _ & _ & _ & _ & _ & ?)%endpoint_of_parts.
Qed.

(** The two loops started after the handshake are connected. *)
Lemma session_connected a c sr ti tr n1 n2 si2 sr2 c1 c2 ev1 ev2 l1 l2 : 2 ≤ addr a < 256 →
  session_opened a c sr ti n1 n2 si2 → session_joined a c sr tr n2 n1 sr2 →
  quiet_client c1 → quiet_client c2 →
  task_loop c1 si2 ev1 = Ok (ti, l1) → task_loop c2 sr2 ev2 = Ok (tr, l2) →
  connected incoming sent initiator_inv responder_state_inv (Some (task_supported_types ti))
    (Some (task_supported_types tr)) (joined c1 c2 l1 l2).
Proof.
  intros Ha Ho Hj Hc1 Hc2 Hl1 Hl2.
  destruct (session_channel a c si2 sr sr2 ti tr n1 n2 Ha Ho Hj) as (e1 & e2 & He1 & He2 & Hch1 & Hch2).
  pose proof (task_loop_started _ _ _ _ _ Hl1) as ->. pose proof (task_loop_started _ _ _ _ _ Hl2) as ->.
  split; simpl; try done.
  - exists c1, si2, ev1, ti. split; [done|]. split; apply Ho.
  - exists c2, sr2, ev2, tr. split; [done|]. split; apply Hj.
  - exists e1, e2. split_and!; try done.
    + rewrite (endpoint_types _ _ He1). apply Ho.
    + rewrite (endpoint_types _ _ He2). apply Hj.
Qed.

(** C7: the client, end to end. A responder's offer that reaches an initiator
    under the conditions of a peer handshake leads to two clients whose task
    loops start with the shared task on both sides; and in every interleaving of
    the two loops, their tasks and the relaying server, what a task receives is,
    in order and unchanged, a prefix of what the other task has sent up to its
    first Close message.  The tasks send only what the peer's task supports
    ([sendable]). *)
Theorem session_delivers a token bs sr c si ti ti' tr tr' w1 w2 w3 w4 :
  offered a token bs sr → awaits a token (public_key (c_permanent_keypair (rs_common sr))) c si →
  distinct_secrets c si sr → shared_task ti ti' tr tr' si sr →
  ∃ si2 sr2, exchange bs si sr w1 w2 w3 w4 si2 sr2
  ∧ ∀ c1 c2 ev1 ev2, quiet_client c1 → quiet_client c2 →
    ∃ l1 l2, task_loop c1 si2 ev1 = Ok (ti', l1) ∧ task_loop c2 sr2 ev2 = Ok (tr', l2)
    ∧ ∀ run n', traces (net_step incoming sent (@alive) (Some (task_supported_types ti'))
        (Some (task_supported_types tr'))) (joined c1 c2 l1 l2) run n' →
      popped (map fst run) `prefix_of` until_close (pushed (map fst run))
      ∧ popped (map snd run) `prefix_of` until_close (pushed (map snd run)).
Proof.
  intros Hof Haw Hds Hst.
  destruct (exchange_succeeds a token bs sr c si ti ti' tr tr' w1 w2 w3 w4 Hof Haw Hds Hst)
    as (n1 & n2 & si2 & sr2 & Hex & Ho & Hj).
  exists si2, sr2. split; [done|]. intros c1 c2 ev1 ev2 Hc1 Hc2.
  assert (∃ l1, task_loop c1 si2 ev1 = Ok (ti', l1)) as [l1 Hl1].
  { eexists. unfold task_loop. simpl. by rewrite (so_task _ _ _ _ _ _ _ Ho). }
  assert (∃ l2, task_loop c2 sr2 ev2 = Ok (tr', l2)) as [l2 Hl2].
  { eexists. unfold task_loop. simpl. by rewrite (sj_task _ _ _ _ _ _ _ Hj). }
  exists l1, l2. split_and!; [done..|]. intros run n' Hrun.
  refine (delivered_in_order incoming sent reported (@queued) (@alive) initiator_inv responder_state_inv
    _ _ _ _ _ _ Hrun).
  by eapply session_connected; [apply Hof|..].
Qed.
End end_to_end.

(** ** Witness *)

Module EndToEndWitnesses.
Import Reference ReferenceCodec Handshake ClientWitnesses LoopWitnesses SessionWitnesses.

(** The clients of the executed handshake, over connections that only log. *)
Lemma session_delivers_witness :
  ∃ si2 sr2, exchange offers awaiting offering world world world world si2 sr2
  ∧ ∀ (c1 c2 : script) (ev1 ev2 : list Event),
    Forall (λ m, is_binary m = false) (fst c1) → Forall (λ m, is_binary m = false) (fst c2) →
    ∃ (l1 : TaskLoop istate script (list Event) queue) (l2 : TaskLoop rstate script (list Event) queue),
      task_loop c1 si2 ev1 = Ok ("chat", l1) ∧ task_loop c2 sr2 ev2 = Ok ("chat", l2)
    ∧ ∀ run n', traces (net_step fst snd open (Some (task_supported_types "chat"))
        (Some (task_supported_types "chat"))) (joined snd c1 c2 l1 l2) run n' →
      popped (map fst run) `prefix_of` until_close (pushed (map fst run))
      ∧ popped (map snd run) `prefix_of` until_close (pushed (map snd run)).
Proof.
  refine (session_delivers (T := string) (C := script) (Ch := list Event) (Q := queue) fst snd id items open
    (mkAddress 2) (Some token) offers offering known awaiting "chat" "chat" "chat" "chat"
    world world world world _ _ _ _).
  - exact offering_offered.
  - exact awaiting_awaits.
  - exact secrets_distinct.
  - exact chat_shared.
Defined.
End EndToEndWitnesses.
