(* ===== verification/ChatTask.v ===== *)
(** * The chat task

    [ChatTask] of examples/chat/chat_task.rs: a task for a chat of two, which
    sends text messages and nickname changes through the task loop, and turns
    the messages it receives into [ChatMessage]s for the user interface.

    The state holds the task, the task loop it was started on (whose channels
    the task's senders and receiver belong to), the channel of chat messages and
    the sends that have been spawned on the reactor but have not run.  The
    reactor may run a spawned send at any later time, in any order.  The mutex
    around the peer's name is never held across a panic, so taking it succeeds. *)

From S2P Require Import Prelude Text External Errors Types Csn Cookie Nonce Crypto Tasks Messages.
From S2P Require Import Boxes Context Signaling Client TaskLoop.

Definition TYPE_MSG : string := "msg".
Definition TYPE_NICK_CHANGE : string := "nick_change".
Definition KEY_TYPE : string := "type".
Definition KEY_TEXT : string := "text".
Definition KEY_NICK : string := "nick".

(** The debug rendering of a value (crate rmpv), part of an error message. *)
Class ValueDebug := { value_debug : Value → string }.

Module ChatMessage.
Inductive ChatMessage :=
  | Msg (text : string)
  | NickChange (nick : string)
  | Disconnect (reason : CloseCode).
End ChatMessage.
Abbreviation ChatMessage := ChatMessage.ChatMessage.

(** The senders are held or not; what they send to is in the loop. *)
Record ChatTask := mkChatTask {
  our_name : string;
  peer_name : option string;
  outgoing_tx : bool;
  disconnect_tx : bool;
}.

(** [ChatTask::new]. *)
Definition chat_task_new (our_name : string) : ChatTask := mkChatTask our_name None false false.

(** ** The Task trait *)

Definition set_peer_name (name : string) (t : ChatTask) : ChatTask :=
  mkChatTask (our_name t) (Some name) (outgoing_tx t) (disconnect_tx t).

Section trait.
Context `{!ValueDebug}.

(** [init]. *)
Definition chat_init (data : option (gmap string Value)) (self : ChatTask)
    : (unit + string) * ChatTask :=
  match data with
  | Some map =>
      match map !! "nickname" with
      | Some (Value.String nickname) =>
          let name := match nickname with Utf8Valid s => s | _ => "?" end in
          (inl tt, set_peer_name name self)
      | Some val => (inr ("The " +:+ dquote +:+ "nickname" +:+ dquote
          +:+ " field has the wrong type: " +:+ value_debug val), self)
      | None => (inr ("No " +:+ dquote +:+ "nickname" +:+ dquote
          +:+ " field in data passed to task initialization"), self)
      end
  | None => (inr "No data passed to task initialization", self)
  end.

(** [name], [data] and [supported_types]. *)
Definition chat_name : string := "v0.simplechat.tasks.saltyrtc.org".
Definition chat_data (self : ChatTask) : option (gmap string Value) :=
  Some {["nickname" := Value.from_string (our_name self)]}.
Definition chat_supported_types : list string := [TYPE_MSG; TYPE_NICK_CHANGE].

#[export] Instance chat_task : Task ChatTask := {|
  task_init := chat_init;
  task_name self := chat_name;
  task_data := chat_data;
  task_supported_types self := chat_supported_types;
|}.
End trait.

(** ** The running task *)

Record ChatState (S C Ch : Type) (Q : Type → Type) := mkChatState {
  cs_task : ChatTask;
  cs_loop : TaskLoop S C Ch Q;
  (** The channel of [incoming_tx]. *)
  cs_messages : Q ChatMessage;
  cs_spawned : list ChatMessage;
  (** The future that handles the incoming task messages: still running. *)
  cs_handler : bool;
}.
Arguments mkChatState {S C Ch Q}.
Arguments cs_task {S C Ch Q}.
Arguments cs_loop {S C Ch Q}.
Arguments cs_messages {S C Ch Q}.
Arguments cs_spawned {S C Ch Q}.
Arguments cs_handler {S C Ch Q}.

Section chat_task.
Context {S C Ch : Type} {Q : Type → Type} `{!Env, !Mpsc Q}.
Abbreviation St := (ChatState S C Ch Q).
Abbreviation CM := (M env St).
Implicit Types c : St.

Definition cs_set_task (t : ChatTask) c : St :=
  mkChatState t (cs_loop c) (cs_messages c) (cs_spawned c) (cs_handler c).
Definition cs_set_loop (l : TaskLoop S C Ch Q) c : St :=
  mkChatState (cs_task c) l (cs_messages c) (cs_spawned c) (cs_handler c).
Definition cs_set_messages (q : Q ChatMessage) c : St :=
  mkChatState (cs_task c) (cs_loop c) q (cs_spawned c) (cs_handler c).
Definition cs_set_spawned (ms : list ChatMessage) c : St :=
  mkChatState (cs_task c) (cs_loop c) (cs_messages c) ms (cs_handler c).
(** The handler ends, and its receiver is dropped. *)
Definition cs_finish c : St :=
  mkChatState (cs_task c) (task_drop_incoming (cs_loop c)) (cs_messages c) (cs_spawned c) false.

(** Sending a map through [outgoing_tx]. *)
Definition chat_send (err : string) (map : gmap string Value) : CM string unit :=
  c ← mget;
  _ ← mlift (expect (if outgoing_tx (cs_task c) then Some tt else None) "outgoing_tx is None");
  let '(ok, q) := mpsc_send (TaskMessage.Value map) (tl_outgoing (cs_loop c)) in
  _ ← mput (cs_set_loop (tl_set_outgoing q (cs_loop c)) c);
  if (ok : bool) then mret tt else throw (err +:+ mpsc_send_error).

Definition text_map (msg : string) : gmap string Value :=
  <[KEY_TEXT := Value.from_string msg]> {[KEY_TYPE := Value.from_string TYPE_MSG]}.
Definition nick_map (new_nick : string) : gmap string Value :=
  <[KEY_NICK := Value.from_string new_nick]> {[KEY_TYPE := Value.from_string TYPE_NICK_CHANGE]}.

(** [send_msg]. *)
Definition send_msg (msg : string) : CM string unit :=
  chat_send "Could not send message: " (text_map msg).

(** [change_nick]: the own name changes only if the message could be sent. *)
Definition change_nick (new_nick : string) : CM string unit :=
  _ ← chat_send "Could not change nickname: " (nick_map new_nick);
  mmodify (λ c, cs_set_task (mkChatTask new_nick (peer_name (cs_task c)) (outgoing_tx (cs_task c))
    (disconnect_tx (cs_task c))) c).

(** [start]: the senders are stored and the handler is spawned. *)
Definition chat_start (l : TaskLoop S C Ch Q) (self : ChatTask) (messages : Q ChatMessage) : St :=
  mkChatState (mkChatTask (our_name self) (peer_name self) true true) l messages [] true.

(** [close]: the reason goes through the disconnect channel, once. *)
Definition chat_close {E} (reason : CloseCode) : CM E unit :=
  mmodify (λ c,
    let t := cs_task c in
    let c' := cs_set_task (mkChatTask (our_name t) (peer_name t) (outgoing_tx t) false) c in
    if disconnect_tx t then cs_set_loop (task_disconnect (Some reason) (cs_loop c)) c' else c').

(** ** Incoming messages *)

Definition spawn_send (m : ChatMessage) : CM unit unit :=
  mmodify (λ c, cs_set_spawned (cs_spawned c ++ [m]) c).

(** A value message: by its type, with the warnings left out. *)
Definition chat_value (map : gmap string Value) : CM unit unit :=
  msg_type_val ← mlift (expect (map !! KEY_TYPE) "Message is missing type");
  msg_type ← mlift (expect (Value.as_str msg_type_val) "Message type is not a string");
  if bool_decide (msg_type = TYPE_MSG) then
    match v ← map !! KEY_TEXT; Value.as_str v with
    | Some text => spawn_send (ChatMessage.Msg text)
    | None => mret tt
    end
  else if bool_decide (msg_type = TYPE_NICK_CHANGE) then
    match v ← map !! KEY_NICK; Value.as_str v with
    | Some nick =>
        _ ← mmodify (λ c, cs_set_task (set_peer_name nick (cs_task c)) c);
        spawn_send (ChatMessage.NickChange nick)
    | None => mret tt
    end
  else mret tt.

(** The closure of [for_each] in [start]. *)
Definition chat_incoming (msg : TaskMessage) : CM unit unit :=
  match msg with
  | TaskMessage.Value map => chat_value map
  | TaskMessage.Application _ => mret tt
  | TaskMessage.Close reason =>
      c ← mget;
      let '(ok, q) := mpsc_send (ChatMessage.Disconnect reason) (cs_messages c) in
      _ ← mput (cs_set_messages q c);
      if (ok : bool) then mret tt else throw tt
  end.

(** One item of the handler's stream, or its end once the reader, which holds
    the sender, is gone; an error of the closure ends it as well. *)
Definition chat_turn : CM unit unit :=
  c ← mget;
  let '(next, q) := mpsc_recv (tl_incoming (cs_loop c)) in
  _ ← mput (cs_set_loop (tl_set_incoming q (cs_loop c)) c);
  match next with
  | Some msg =>
      r ← mtry (chat_incoming msg);
      match r with inl _ => mret tt | inr _ => mmodify cs_finish end
  | None => if tl_reader (cs_loop c) then mret tt else mmodify cs_finish
  end.

(** The reactor runs a spawned send; its result is ignored. *)
Definition spawned_turn (before after : list ChatMessage) (m : ChatMessage) : CM unit unit :=
  mmodify (λ c, cs_set_messages (mpsc_send m (cs_messages c)).2 (cs_set_spawned (before ++ after) c)).

(** A step of the receiving side: the handler takes a message, or a spawned
    send runs. *)
Inductive chat_step c : St → Prop :=
  | chat_step_handler w c' w' : cs_handler c = true → chat_turn c w = (Ok tt, c', w') → chat_step c c'
  | chat_step_spawned before m after w c' w' : cs_spawned c = before ++ m :: after →
      spawned_turn before after m c w = (Ok tt, c', w') → chat_step c c'.
End chat_task.
