(* ===== verification/Chat.v ===== *)
(** * The chat example

    Parts of the [main] of examples/chat/main.rs: the choice of the role, the
    creation of the client from the arguments, and the three loops that run beside
    the task loop, which send what the user types, show what the peer sends and
    report a disconnection.  ChatMain.v puts the setup together; the widgets of
    the interface are left out.

    Parameters: the values of the arguments (crate clap), the full Unicode
    lowercase mapping, the text of an error in a panic message and the channel
    to the user interface (crate cursive), which refuses a callback once the
    interface has stopped.  A loop is a turn function, one item per turn. *)

From Stdlib Require Import Ascii.
From S2P Require Import Prelude Text External Errors Types Csn Cookie Nonce Crypto Tasks Messages.
From S2P Require Import Boxes Context Signaling Initiator Responder Client TaskLoop ChatTask.

(** ** Strings *)

(** [str::starts_with]. *)
Fixpoint starts_with (p s : string) : bool :=
  match p, s with
  | EmptyString, _ => true
  | String a p', String b s' => bool_decide (a = b) && starts_with p' s'
  | String _ _, EmptyString => false
  end.

(** The length in bytes of the white space character (property [White_Space])
    a UTF-8 string begins with, and 0 if it does not begin with one. *)
Definition whitespace (s : string) : nat :=
  match s with
  | EmptyString => 0
  | String a s1 =>
      if (9 <=? char_code a) && (char_code a <=? 13) || (char_code a =? 32) then 1
      else match s1 with
      | EmptyString => 0
      | String b s2 =>
          if (char_code a =? 194) && ((char_code b =? 133) || (char_code b =? 160)) then 2
          else match s2 with
          | EmptyString => 0
          | String c _ =>
              if (char_code a =? 225) && (char_code b =? 154) && (char_code c =? 128)
                 || (char_code a =? 226) && (char_code b =? 128)
                    && ((128 <=? char_code c) && (char_code c <=? 138) || (char_code c =? 168) || (char_code c =? 169)
                        || (char_code c =? 175))
                 || (char_code a =? 226) && (char_code b =? 129) && (char_code c =? 159)
                 || (char_code a =? 227) && (char_code b =? 128) && (char_code c =? 128)
              then 3 else 0
          end
      end
  end.

Definition word (w : string) : list string := match w with EmptyString => [] | _ => [w] end.

(** [str::split_whitespace]: [cur] is the word being read, [skip] the number of
    bytes left of a white space character. *)
Fixpoint split_words (s : string) (skip : nat) (cur : string) : list string :=
  match s with
  | EmptyString => word cur
  | String a s' =>
      match skip with
      | S k => split_words s' k cur
      | O =>
          match whitespace s with
          | O => split_words s' O (cur +:+ String a EmptyString)
          | S k => word cur ++ split_words s' k EmptyString
          end
      end
  end.
Definition split_whitespace (s : string) : list string := split_words s O EmptyString.

(** [u64::from_str]: decimal digits with an optional plus sign. *)
Fixpoint parse_digits (s : string) (acc : Z) : option Z :=
  match s with
  | EmptyString => Some acc
  | String c s' =>
      if (48 <=? char_code c) && (char_code c <=? 57) then parse_digits s' (acc * 10 + (char_code c - 48)) else None
  end.
Definition parse_u64 (s : string) : option Z :=
  let digits := match s with
    | String c s' => if char_code c =? 43 then s' else s
    | EmptyString => s
    end in
  match digits with
  | EmptyString => None
  | _ => n ← parse_digits digits 0; if bool_decide (n < 2 ^ 64) then Some n else None
  end.

(** ** Parameters *)

Class ChatEnv := {
  (** [str::to_lowercase]. *)
  to_lowercase : string → string;
  (** The debug rendering of an error and of the interface's send error. *)
  salty_error_debug : SaltyError → string;
  cb_send_error_debug : string;
}.

(** On a string of ASCII characters, the lowercase mapping is the ASCII one. *)
Definition ascii_lower (c : ascii) : ascii :=
  if (65 <=? char_code c) && (char_code c <=? 90) then ascii_of_N (Z.to_N (char_code c + 32)) else c.
Fixpoint ascii_lowercase (s : string) : string :=
  match s with EmptyString => EmptyString | String c s' => String (ascii_lower c) (ascii_lowercase s') end.
Fixpoint is_ascii (s : string) : bool :=
  match s with EmptyString => true | String c s' => (char_code c <? 128) && is_ascii s' end.
Class ChatEnvLaws `{!ChatEnv} : Prop := {
  to_lowercase_ascii s : is_ascii s = true → to_lowercase s = ascii_lowercase s;
}.

Definition unwrap_none : string := "called `Option::unwrap()` on a `None` value".
(** [Result::unwrap] and [Result::expect]. *)
Definition unwrap `{!ChatEnv} {E A} (o : outcome SaltyError A) : outcome E A :=
  match o with
  | Ok a => Ok a
  | Err e => Panic ("called `Result::unwrap()` on an `Err` value: " +:+ salty_error_debug e)
  | Panic m => Panic m
  end.
Definition expect_ok `{!ChatEnv} {E A} (o : outcome SaltyError A) (msg : string) : outcome E A :=
  match o with
  | Ok a => Ok a
  | Err e => Panic (msg +:+ ": " +:+ salty_error_debug e)
  | Panic m => Panic m
  end.
(** The same for the only error of the builder. *)
Definition built {W S E A} (msg : string) (m : M W S BuilderError A) : M W S E A :=
  r ← mtry m;
  match r with inl a => mret a | inr MissingTask => panic (msg +:+ ": MissingTask") end.

(** ** Setting up the client *)

(** The role and whether a trusted key is used, by the subcommand; the program
    exits on any other. *)
Definition chat_role (subcommand : string) : option (Role * bool) :=
  if bool_decide (subcommand = "initiator") then Some (Role.Initiator, false)
  else if bool_decide (subcommand = "initiator_trusted") then Some (Role.Initiator, true)
  else if bool_decide (subcommand = "responder") then Some (Role.Responder, false)
  else if bool_decide (subcommand = "responder_trusted") then Some (Role.Responder, true)
  else None.

Section setup.
Context `{!Env, !Sodium, !HexCodec, !ValueDebug, !ChatEnv} {St E : Type}.
(** The value of an argument, if it was given. *)
Context (value_of : string → option string).
Abbreviation SM := (M env St E).

(** The permanent key pair, created or restored. *)
Definition chat_keypair (is_trusted : bool) : SM KeyPair :=
  if is_trusted then
    private_key_hex ← mlift (expect (value_of "private_key") unwrap_none);
    private_key ← mlift (unwrap (private_key_from_hex_str private_key_hex));
    mret (from_private_key private_key)
  else keypair_new.

(** The WebSocket path. *)
Definition chat_path (role : Role) (keypair : KeyPair) : SM string :=
  match role with
  | Role.Initiator => mret (public_key_hex keypair)
  | Role.Responder =>
      path ← mlift (expect (value_of "path") "Path not supplied");
      mret (to_lowercase path)
  end.

Definition chat_ping_interval : SM Duration :=
  text ← mlift (expect (value_of "ping_interval") "Ping interval not supplied");
  seconds ← mlift (expect (parse_u64 text) "Could not parse interval seconds to a number");
  mret (mkDuration seconds 0).

Definition chat_builder (keypair : KeyPair) (name : string) (ping_interval : Duration)
    : SaltyClientBuilder ChatTask :=
  with_ping_interval (Some ping_interval) (builder_add_task (chat_task_new name) (builder_new keypair)).

(** The client of an initiator, and the token to show to the user. *)
Definition chat_initiator (keypair : KeyPair) (ping_interval : Duration) (is_trusted : bool)
    : SM (InitiatorSignaling ChatTask * option string) :=
  let builder := chat_builder keypair "initiat0r" ping_interval in
  salty ← built "Could not create SaltyClient instance"
    (if is_trusted then
       trusted_key ← mlift (expect (value_of "responder_key") unwrap_none);
       key ← mlift (unwrap (public_key_from_hex_str trusted_key));
       build_initiator_trusted key builder
     else build_initiator builder);
  mret (salty, (λ t, hex_encode (secret_key_bytes t)) <$> auth_token salty).

(** The client of a responder, for the path of an initiator. *)
Definition chat_responder (keypair : KeyPair) (path : string) (ping_interval : Duration)
    (is_trusted : bool) : SM (ResponderSignaling ChatTask * option string) :=
  initiator_pubkey ← mlift (unwrap (public_key_from_hex_str path));
  let builder := chat_builder keypair "r3spond3r" ping_interval in
  let failed := "called `Result::unwrap()` on an `Err` value" in
  if is_trusted then
    salty ← built failed (build_responder_trusted initiator_pubkey builder);
    mret (salty, None)
  else
    auth_token_hex ← mlift (expect (value_of "authtoken") unwrap_none);
    token ← mlift (expect_ok (auth_token_from_hex_str auth_token_hex) "Invalid auth token hex string");
    salty ← built failed (build_responder initiator_pubkey token builder);
    mret (salty, Some auth_token_hex).
End setup.

(** ** The loops *)

Record Chat (S C Ch : Type) (Q : Type → Type) := mkChat {
  ch_state : ChatState S C Ch Q;
  (** The channel of the lines the user has typed. *)
  ch_lines : Q string;
  (** The lines handed to the interface; whether it has been asked to quit, and
      whether it still runs. *)
  ch_screen : list string;
  ch_quit : bool;
  ch_tui : bool;
  (** The three loops: still running. *)
  ch_send_loop : bool;
  ch_receive_loop : bool;
  ch_event_loop : bool;
}.
Arguments mkChat {S C Ch Q}.
Arguments ch_state {S C Ch Q}.
Arguments ch_lines {S C Ch Q}.
Arguments ch_screen {S C Ch Q}.
Arguments ch_quit {S C Ch Q}.
Arguments ch_tui {S C Ch Q}.
Arguments ch_send_loop {S C Ch Q}.
Arguments ch_receive_loop {S C Ch Q}.
Arguments ch_event_loop {S C Ch Q}.

(** What a closure returns to [for_each]: go on, stop without an error, or stop
    with an error. *)
Inductive Flow := Continue | Stop | Broken.

Section loops.
Context {S C Ch : Type} {Q : Type → Type} `{!Env, !Mpsc Q, !ChatEnv}.
Abbreviation App := (Chat S C Ch Q).
Abbreviation AM := (M env App SaltyError).
Implicit Types a : App.

Definition ch_set_state (s : ChatState S C Ch Q) a : App :=
  mkChat s (ch_lines a) (ch_screen a) (ch_quit a) (ch_tui a) (ch_send_loop a) (ch_receive_loop a)
    (ch_event_loop a).
Definition ch_set_lines (q : Q string) a : App :=
  mkChat (ch_state a) q (ch_screen a) (ch_quit a) (ch_tui a) (ch_send_loop a) (ch_receive_loop a)
    (ch_event_loop a).
Definition ch_show (line : string) a : App :=
  mkChat (ch_state a) (ch_lines a) (ch_screen a ++ [line]) (ch_quit a) (ch_tui a) (ch_send_loop a)
    (ch_receive_loop a) (ch_event_loop a).
Definition ch_ask_quit a : App :=
  mkChat (ch_state a) (ch_lines a) (ch_screen a) true (ch_tui a) (ch_send_loop a)
    (ch_receive_loop a) (ch_event_loop a).
(** The interface stops, which drops its sender of lines. *)
Definition ch_stop_tui a : App :=
  mkChat (ch_state a) (ch_lines a) (ch_screen a) (ch_quit a) false (ch_send_loop a)
    (ch_receive_loop a) (ch_event_loop a).
(** A finished loop drops its receiver. *)
Definition finish_send_loop a : App :=
  mkChat (ch_state a) (mpsc_drop_receiver (ch_lines a)) (ch_screen a) (ch_quit a) (ch_tui a) false
    (ch_receive_loop a) (ch_event_loop a).
Definition finish_receive_loop a : App :=
  mkChat (cs_set_messages (mpsc_drop_receiver (cs_messages (ch_state a))) (ch_state a)) (ch_lines a)
    (ch_screen a) (ch_quit a) (ch_tui a) (ch_send_loop a) false (ch_event_loop a).
Definition finish_event_loop a : App :=
  mkChat (ch_state a) (ch_lines a) (ch_screen a) (ch_quit a) (ch_tui a) (ch_send_loop a)
    (ch_receive_loop a) false.

(** [tui_sender.send(..).unwrap()]. *)
Definition tell_tui (f : App → App) : AM unit :=
  a ← mget;
  if ch_tui a then mput (f a)
  else panic ("called `Result::unwrap()` on an `Err` value: " +:+ cb_send_error_debug).
(** [log_line!]. *)
Definition log_line (line : string) : AM unit := tell_tui (ch_show line).

(** A call of a method of the task. *)
Definition on_task {A} (m : M env (ChatState S C Ch Q) string A) : AM (A + string) := λ a w,
  let '(o, s', w') := m (ch_state a) w in
  (match o with Ok x => Ok (inl x) | Err e => Ok (inr e) | Panic p => Panic p end,
   ch_set_state s' a, w').

(** What the task answers decides how the loop goes on. *)
Definition report_task (r : unit + string) : AM Flow :=
  match r with
  | inl _ => mret Continue
  | inr e => _ ← log_line ("*** Error: " +:+ e); mret Broken
  end.

(** The closure of [send_loop]. *)
Definition send_line (msg : string) : AM Flow :=
  if starts_with "/" msg then
    match split_whitespace msg with
    | [] => panic unwrap_none
    | command :: parts =>
        if bool_decide (command = "/help") then
          _ ← log_line "*** Available commands: /help /nick /quit"; mret Continue
        else if bool_decide (command = "/quit") then
          _ ← log_line "*** Exiting";
          _ ← tell_tui ch_ask_quit;
          _ ← on_task (chat_close CloseCode.WsGoingAway);
          mret Stop
        else if bool_decide (command = "/nick") then
          match parts with
          | nick :: _ =>
              _ ← log_line ("*** Changing nickname to " +:+ nick);
              r ← on_task (change_nick nick);
              report_task r
          | [] => _ ← log_line "*** Usage: /nick <new-nickname>"; mret Continue
          end
        else _ ← log_line ("*** Unknown command: " +:+ command); mret Continue
    end
  else
    a ← mget;
    _ ← log_line (our_name (cs_task (ch_state a)) +:+ "> " +:+ msg);
    r ← on_task (send_msg msg);
    report_task r.

(** The closure of [receive_loop]. *)
Definition receive_message (msg : ChatMessage) : AM Flow :=
  match msg with
  | ChatMessage.Msg text =>
      a ← mget;
      _ ← log_line (default "?" (peer_name (cs_task (ch_state a))) +:+ "> " +:+ text);
      mret Continue
  | ChatMessage.NickChange new_nick =>
      _ ← log_line ("*** Partner nick changed to " +:+ new_nick); mret Continue
  | ChatMessage.Disconnect reason =>
      _ ← log_line ("*** Connection with peer closed, reason: " +:+ CloseCode.to_string reason);
      _ ← log_line "*** Use Ctrl+C to exit";
      mret Stop
  end.

(** The closure of [event_loop]. *)
Definition receive_event (event : Event) : AM Flow :=
  match event with
  | Event.Disconnected addr =>
      _ ← log_line ("*** Peer with address " +:+ fmt_dec addr +:+ " disconnected");
      _ ← log_line "*** Use Ctrl+C to exit";
      mret Stop
  | _ => mret Continue
  end.

(** [for_each] and the [or_else] after it. *)
Definition loop_item (flow : Flow) (finish : App → App) (error : string) : AM unit :=
  match flow with
  | Continue => mret tt
  | Stop => mmodify finish
  | Broken => throw (SaltyError.Crash error)
  end.

(** A turn of each loop.  The lines end with the interface; the chat messages
    do not end, since the task keeps its sender. *)
Definition send_turn : AM unit :=
  a ← mget;
  let '(next, q) := mpsc_recv (ch_lines a) in
  _ ← mput (ch_set_lines q a);
  match next with
  | Some msg =>
      flow ← send_line msg;
      loop_item flow finish_send_loop "Something went wrong when forwarding messages to task"
  | None => if ch_tui a then mret tt else mmodify finish_send_loop
  end.
Definition receive_turn : AM unit :=
  a ← mget;
  let '(next, q) := mpsc_recv (cs_messages (ch_state a)) in
  _ ← mput (ch_set_state (cs_set_messages q (ch_state a)) a);
  match next with
  | Some msg =>
      flow ← receive_message msg;
      loop_item flow finish_receive_loop "Something went wrong in message receive loop"
  | None => mret tt
  end.
Definition event_turn (event : Event) : AM unit :=
  flow ← receive_event event;
  loop_item flow finish_event_loop "Something went wrong in event loop".

(** The state when the loops start: after [start], with the interface running. *)
Definition chat_app (s : ChatState S C Ch Q) : App :=
  mkChat s mpsc_unbounded [] false true true true true.

(** What can happen in the program apart from the task loop. *)
Inductive app_step a : App → Prop :=
  | app_task s' : chat_step (ch_state a) s' → app_step a (ch_set_state s' a)
  | app_types line : ch_tui a = true → app_step a (ch_set_lines (mpsc_send line (ch_lines a)).2 a)
  | app_sends w a' w' : ch_send_loop a = true → send_turn a w = (Ok tt, a', w') → app_step a a'
  | app_receives w a' w' : ch_receive_loop a = true → receive_turn a w = (Ok tt, a', w') → app_step a a'
  | app_event e w a' w' : ch_event_loop a = true → event_turn e a w = (Ok tt, a', w') → app_step a a'
  | app_tui_stops : ch_quit a = true → app_step a (ch_stop_tui a).
End loops.

(** ** The program *)

Section program.
Context {T S C Ch : Type} {Q : Type → Type}.
Context `{!Task T, !Env, !Signaling T S, !WsClient C, !WsSink C, !EventChannel Ch, !Mpsc Q}.
Context `{!ByteOrder, !Sodium, !Rmps, !ChatEnv}.
Abbreviation App := (Chat S C Ch Q).
Implicit Types a : App.

Definition ch_loop a : TaskLoop S C Ch Q := cs_loop (ch_state a).
Definition ch_set_loop (l : TaskLoop S C Ch Q) a : App := ch_set_state (cs_set_loop l (ch_state a)) a.

(** What the reactor runs: the futures of the task loop, the handler and the
    sends of the chat task, and the three loops. *)
Inductive program_step a : App → Prop :=
  | program_app a' : app_step a a' → program_step a a'
  | program_reader w l' w' : tl_reader (ch_loop a) = true →
      reader_turn (ch_loop a) w = (Ok tt, l', w') → program_step a (ch_set_loop l' a)
  | program_disconnect w l' w' : tl_reader (ch_loop a) = true →
      disconnect_turn (ch_loop a) w = (Ok tt, l', w') → program_step a (ch_set_loop l' a)
  | program_transformer w l' w' : tl_transformer (ch_loop a) = true →
      transformer_turn (ch_loop a) w = (Ok tt, l', w') → program_step a (ch_set_loop l' a)
  | program_writer w l' w' : tl_writer (ch_loop a) = true →
      writer_turn (ch_loop a) w = (Ok tt, l', w') → program_step a (ch_set_loop l' a).

(** [join_all]: the main future is done when all four are. *)
Definition main_done a : bool :=
  loop_done (ch_loop a) && negb (ch_send_loop a) && negb (ch_receive_loop a) && negb (ch_event_loop a).
End program.
