(* ===== verification/ChatProps.v ===== *)
(** * Properties of the chat example

    The two chat clients learn each other's nickname in the handshake; what one
    sends the other understands; nothing is made up between the task loop
    and the user interface, and nothing lost until a disconnection, which may
    overtake a text;
    the command interpreter is total while the interface runs; the invitation an
    initiator shows makes a responder that fits it.  Quitting has two flaws: a
    late message crashes the program, and without one it never ends. *)

From Stdlib Require Import Ascii.
From S2P Require Import Prelude Text External Errors Types Csn Cookie Nonce Crypto Tasks Messages.
From S2P Require Import ReferenceCodec Boxes Context Signaling SignalingSpec SignalingSafe Runs.
From S2P Require Import Initiator InitiatorSafe Responder ResponderSafe Channel Handshake.
From S2P Require Import InitiatorProps ResponderProps HandshakeRuns PeerSession Protocol.
From S2P Require Import Actions Client ClientProps Transport Pipe TaskLoop TaskLoopProps Network.
From S2P Require Import ChatTask Chat.

(** ** The handshake of two chat clients *)

Section nicknames.
Context `{!ValueDebug, !ByteOrder, !ByteOrderLaws, !Sodium, !SodiumLaws, !Rmps, !RmpsLaws, !Env, !EnvLaws}.
Implicit Types si : InitiatorSignaling ChatTask.
Implicit Types sr : ResponderSignaling ChatTask.

(** The data of one chat task initializes another one. *)
Lemma chat_data_init (t1 t2 : ChatTask) :
  task_init (task_data t1) t2 = (inl tt, set_peer_name (our_name t1) t2).
Proof. done. Qed.

(** What a chat task tells of itself can be sent, if its name can. *)
Lemma wf_one_string k s : bool_decide (wf_string k) = true → wf_string s →
  wf_map {[k := Value.from_string s]}.
Proof.
  intros Hk%bool_decide_eq_true_1 Hs. split; [by rewrite map_size_singleton|].
  apply map_Forall_singleton. split; [done|]. by apply wf_name.
Qed.
Lemma wf_text msg : wf_string msg → wf_map (text_map msg).
Proof.
  intros Hs. split.
  - unfold text_map. rewrite map_size_insert_None by done. by rewrite map_size_singleton.
  - apply map_Forall_insert_2; [split; [by_compute|by apply wf_name]|].
    apply map_Forall_singleton. split; by_compute.
Qed.
Lemma chat_wire (t : ChatTask) : wf_string (our_name t) → wire_task t.
Proof. intros Ht. split; [by_compute|]. by apply wf_one_string. Qed.

Lemma chat_task_shared si sr ti tr : wf_string (our_name ti) → wf_string (our_name tr) → c_tasks (is_common si) = Some (mkTasks [ti]) →
  c_tasks (rs_common sr) = Some (mkTasks [tr]) →
  shared_task ti (set_peer_name (our_name tr) ti) tr (set_peer_name (our_name ti) tr) si sr.
Proof.
  intros Hni Hnr Hi Hr. split; [|done..|by apply chat_wire].
  exists (mkTasks [ti]), (mkTasks [tr]). split_and!; try done.
  - split; [done|apply NoDup_singleton].
  - split; [done|]. constructor; [by apply chat_wire|constructor].
  - by left.
Qed.

(** C27: two chat clients whose handshake can start learn each other's nickname:
    the handshake succeeds, and the task each of them runs afterwards is its own
    with the other's name as the peer's. *)
Theorem chat_nicknames_exchanged a token bs sr c si ti tr w1 w2 w3 w4 :
  offered a token bs sr → awaits a token (public_key (c_permanent_keypair (rs_common sr))) c si →
  distinct_secrets c si sr → wf_string (our_name ti) → wf_string (our_name tr) →
  c_tasks (is_common si) = Some (mkTasks [ti]) → c_tasks (rs_common sr) = Some (mkTasks [tr]) →
  ∃ si2 sr2, exchange bs si sr w1 w2 w3 w4 si2 sr2
  ∧ c_task (is_common si2) = Some (set_peer_name (our_name tr) ti)
  ∧ c_task (rs_common sr2) = Some (set_peer_name (our_name ti) tr).
Proof.
  intros Hof Haw Hds Hni Hnr Hi Hr. pose proof (chat_task_shared si sr ti tr Hni Hnr Hi Hr) as Hst.
  destruct (exchange_succeeds _ _ _ _ _ _ _ _ _ _ w1 w2 w3 w4 Hof Haw Hds Hst)
    as (n1 & n2 & si2 & sr2 & Hex & Ho & Hj).
  exists si2, sr2. split_and!; [done|apply Ho|apply Hj].
Qed.
End nicknames.

(** ** Messages *)

(** What the user is told of a task message, if anything. *)
Definition chat_view (m : TaskMessage) : option ChatMessage :=
  match m with
  | TaskMessage.Value map =>
      ty ← map !! KEY_TYPE; t ← Value.as_str ty;
      if bool_decide (t = TYPE_MSG) then
        v ← map !! KEY_TEXT; text ← Value.as_str v; Some (ChatMessage.Msg text)
      else if bool_decide (t = TYPE_NICK_CHANGE) then
        v ← map !! KEY_NICK; nick ← Value.as_str v; Some (ChatMessage.NickChange nick)
      else None
  | TaskMessage.Application _ => None
  | TaskMessage.Close reason => Some (ChatMessage.Disconnect reason)
  end.

Lemma views_cons m ms : omap chat_view (m :: ms) = option_list (chat_view m) ++ omap chat_view ms.
Proof. cbn. by destruct (chat_view m). Qed.

Section messages.
Context {S C Ch : Type} {Q : Type → Type} `{!Env, !Mpsc Q}.
Context (queued : ∀ {A}, Q A → list A) (alive : ∀ {A}, Q A → bool) `{!MpscLaws Q (@queued) (@alive)}.
Arguments queued {A} _.
Arguments alive {A} _.
Implicit Types c : ChatState S C Ch Q.

(** The messages that have not reached the user interface yet. *)
Definition on_the_way c : list ChatMessage := queued (cs_messages c) ++ cs_spawned c.

Lemma chat_value_run map c w : typed_message (TaskMessage.Value map) →
  ∃ t, chat_value map c w = (Ok tt, cs_set_task t (cs_set_spawned (cs_spawned c
    ++ option_list (chat_view (TaskMessage.Value map))) c), w).
Proof.
  intros [ty Hty]. change (map !! KEY_TYPE = Some (Value.from_string ty)) in Hty.
  unfold chat_value, chat_view. rewrite Hty. simpl. mred.
  repeat case_bool_decide; simpl.
  - destruct (map !! KEY_TEXT) as [v|]; simpl; [destruct (Value.as_str v) as [text|]|]; simpl;
      exists (cs_task c); rewrite ?app_nil_r; by destruct c.
  - destruct (map !! KEY_NICK) as [v|]; simpl; [destruct (Value.as_str v) as [nick|]|]; simpl;
      [exists (set_peer_name nick (cs_task c))|exists (cs_task c)..]; rewrite ?app_nil_r; by destruct c.
  - exists (cs_task c). rewrite app_nil_r. by destruct c.
Qed.

(** Where the incoming messages of the handler stand. *)
Definition arrived c : list TaskMessage := queued (tl_incoming (cs_loop c)).

(** What the receiving side of the task may do: it takes from the messages that
    have arrived and adds to the channel of the interface, and as long as the
    interface listens, what the user is to be told stays the same. *)
Record passed_on c c' : Prop := {
  po_loop : ∃ q, cs_loop c' = tl_set_incoming q (cs_loop c);
  po_arrived : arrived c' `suffix_of` arrived c;
  po_messages : queued (cs_messages c) `prefix_of` queued (cs_messages c');
  po_alive : alive (cs_messages c') = alive (cs_messages c);
  po_dead : alive (cs_messages c) = false → queued (cs_messages c') = queued (cs_messages c);
  po_conserved : alive (cs_messages c) = true →
    on_the_way c' ++ omap chat_view (arrived c') ≡ₚ on_the_way c ++ omap chat_view (arrived c);
}.

(** Handling a typed message never panics; it fails only for a disconnection
    that the interface does not hear of any more. *)
Lemma chat_incoming_run m ms q c w : typed_message m → arrived c = m :: ms → queued q = ms →
  let c1 := cs_set_loop (tl_set_incoming q (cs_loop c)) c in
  ∃ c', (chat_incoming m c1 w = (Ok tt, c', w)
    ∨ alive (cs_messages c) = false ∧ chat_incoming m c1 w = (Err tt, c', w))
  ∧ cs_loop c' = cs_loop c1 ∧ passed_on c c'.
Proof.
  intros Hm Harr Hq c1. assert (∀ c', cs_loop c' = cs_loop c1 → arrived c' = ms) as Hms.
  { intros c' Hl. unfold arrived. by rewrite Hl. }
  assert (∀ c', cs_loop c' = cs_loop c1 → arrived c' `suffix_of` arrived c) as Hsuf.
  { intros c' Hl. exists [m]. by rewrite (Hms c' Hl), Harr. }
  destruct m as [map|d|r]; simpl.
  - destruct (chat_value_run map c1 w Hm) as [t Ht]. rewrite Ht. eexists. split_and!; [by left|done|].
    split; try done; [by exists q|by apply Hsuf|].
    intros _. rewrite (Hms (cs_set_task _ _)), Harr, views_cons by done. unfold on_the_way.
    subst c1. cbn -[chat_view]. by rewrite <- !app_assoc.
  - exists c1. split_and!; [by left|done|]. split; try done; [by exists q|by apply Hsuf|].
    intros _. by rewrite (Hms c1 eq_refl), Harr.
  - mred. destruct (mpsc_send_spec _ (ChatMessage.Disconnect r) (cs_messages c)) as (Hs & Hqs & Ha).
    rewrite Hs. set (c' := cs_set_messages _ c1). exists c'.
    split_and!; [destruct (alive (cs_messages c)); mred; by auto|done|].
    split; simpl; [by exists q|by apply Hsuf| |done|..].
    + rewrite Hqs. destruct (alive (cs_messages c)); [by apply prefix_app_r|by rewrite app_nil_r].
    + intros Hal. by rewrite Hqs, Hal, app_nil_r.
    + intros Hal. rewrite (Hms c'), Harr by done. unfold on_the_way. simpl. rewrite Hqs, Hal.
      rewrite <- !app_assoc. apply Permutation_app_head. simpl. by rewrite Permutation_middle.
Qed.

(** The handler drops its receiver, which matters only if nobody listens or
    nothing is left. *)
Lemma passed_on_finish c c' : passed_on c c' → alive (cs_messages c) = false ∨ arrived c' = [] →
  passed_on c (cs_finish c').
Proof.
  intros [[q Hl] Hs Hm Ha Hd Hc] Hcase.
  assert (arrived (cs_finish c') = []) as He by apply mpsc_drop_spec.
  split; try done; [|rewrite He; apply suffix_nil|].
  - simpl. rewrite Hl. by eexists.
  - intros Hal. destruct Hcase as [|Harr]; [congruence|]. rewrite <- (Hc Hal), He, Harr. done.
Qed.

(** A turn of the handler never panics and never fails. *)
Lemma chat_turn_run c w : Forall typed_message (arrived c) →
  ∃ c', chat_turn c w = (Ok tt, c', w) ∧ passed_on c c'.
Proof.
  intros Ht. unfold chat_turn. mred. pose proof (mpsc_recv_spec _ (tl_incoming (cs_loop c))) as Hrecv.
  destruct (mpsc_recv (tl_incoming (cs_loop c))) as [[m|] q]; simpl in Hrecv.
  - destruct Hrecv as [Hq Hqa]. rewrite (Hq : arrived c = _) in Ht. apply Forall_cons in Ht as [Hm Ht].
    destruct (chat_incoming_run m _ q c w Hm Hq eq_refl) as (c' & [->|[Hal ->]] & _ & Hp); [by exists c'|].
    exists (cs_finish c'). split; [done|]. apply passed_on_finish; auto.
  - destruct Hrecv as [Hq ->].
    assert (passed_on c (cs_set_loop (tl_set_incoming (tl_incoming (cs_loop c)) (cs_loop c)) c)) as Hp.
    { split; try done. by eexists. }
    destruct (tl_reader (cs_loop c)); mred; eexists; (split; [done|]); [done|].
    apply passed_on_finish; [done|by right].
Qed.

Lemma chat_step_passes c c' : Forall typed_message (arrived c) → chat_step c c' → passed_on c c'.
Proof.
  intros Ht [w c1 w' Hh Hrun|before m after w c1 w' Hsp Hrun].
  - destruct (chat_turn_run c w Ht) as (c2 & Hrun' & Hp). rewrite Hrun in Hrun'.
    by injection Hrun' as -> ->.
  - injection Hrun as <- _. destruct (mpsc_send_spec _ m (cs_messages c)) as (_ & Hq & Ha).
    split; simpl; try done.
    + exists (tl_incoming (cs_loop c)). by destruct c as [? []].
    + rewrite Hq. destruct (alive (cs_messages c)); [by apply prefix_app_r|by rewrite app_nil_r].
    + intros Hal. by rewrite Hq, Hal, app_nil_r.
    + intros Hal. apply Permutation_app_tail. unfold on_the_way. simpl.
      rewrite Hq, Hal, Hsp, <- app_assoc. apply Permutation_app_head. simpl. by rewrite Permutation_middle.
Qed.
End messages.

(** ** The user interface *)

(** A word that has begun is returned. *)
Lemma split_words_nonempty s : ∀ cur, cur ≠ EmptyString → split_words s O cur ≠ [].
Proof.
  induction s as [|a s IH]; intros cur Hc; [by destruct cur|]. cbn [split_words].
  destruct (whitespace (String a s)) as [|k]; [apply IH; by destruct cur|by destruct cur].
Qed.
Lemma command_word msg : starts_with "/" msg = true → split_whitespace msg ≠ [].
Proof.
  destruct msg as [|a s]; [done|]. simpl. rewrite andb_true_iff. intros [Ha%bool_decide_eq_true _].
  subst a. unfold split_whitespace. cbn [split_words].
  change (whitespace (String "/" s)) with (whitespace (String "/" s)).
  assert (whitespace (String "/" s) = O) as ->; [|by apply split_words_nonempty].
  by destruct s as [|b [|c s]].
Qed.

Section interface.
Context {S C Ch : Type} {Q : Type → Type} `{!Env, !Mpsc Q, !ChatEnv}.
Context (queued : ∀ {A}, Q A → list A) (alive : ∀ {A}, Q A → bool) `{!MpscLaws Q (@queued) (@alive)}.
Arguments queued {A} _.
Arguments alive {A} _.
Implicit Types a : Chat S C Ch Q.

Lemma tell_tui_run f a w : ch_tui a = true → tell_tui f a w = (Ok tt, f a, w).
Proof. intros Ht. unfold tell_tui. mred. by rewrite Ht. Qed.
Lemma log_line_run line a w : ch_tui a = true → log_line line a w = (Ok tt, ch_show line a, w).
Proof. apply tell_tui_run. Qed.

Lemma chat_send_run err map (c : ChatState S C Ch Q) w : outgoing_tx (cs_task c) = true →
  let q := (mpsc_send (TaskMessage.Value map) (tl_outgoing (cs_loop c))).2 in
  chat_send err map c w
  = (if alive (tl_outgoing (cs_loop c)) then Ok tt else Err (err +:+ mpsc_send_error),
     cs_set_loop (tl_set_outgoing q (cs_loop c)) c, w).
Proof.
  intros Ht q. unfold chat_send. mred. rewrite Ht. mred. subst q.
  destruct (mpsc_send_spec _ (TaskMessage.Value map) (tl_outgoing (cs_loop c))) as (Hs & _ & _).
  rewrite Hs. simpl. by destruct (alive _).
Qed.

(** The command interpreter is total. While the interface runs and the task
    has been started, no line the user types makes the send loop panic. *)
Theorem send_line_total msg a w : ch_tui a = true → outgoing_tx (cs_task (ch_state a)) = true →
  is_panic (out (send_line msg a w)) = false.
Proof.
  intros Ht Ho. unfold send_line, report_task, on_task, change_nick, send_msg.
  destruct (starts_with "/" msg) eqn:Hsw.
  - pose proof (command_word msg Hsw) as Hne. destruct (split_whitespace msg) as [|cmd parts]; [done|].
    mred. repeat case_bool_decide; mred; rewrite ?log_line_run, ?tell_tui_run by done; try done.
    destruct parts as [|nick parts]; mred; rewrite log_line_run by done; [done|].
    rewrite chat_send_run by done. simpl. destruct (alive _); mred; [done|by rewrite log_line_run].
  - mred. rewrite log_line_run by done. rewrite chat_send_run by done. simpl.
    destruct (alive _); mred; [done|by rewrite log_line_run].
Qed.

(** What the user types is what the peer is told. A line that is no command
    is shown under the own name and queued for the peer as one message, which a
    chat peer's task loop accepts and its chat task reports as the same text. *)
Theorem typed_text_sent msg a w : ch_tui a = true → outgoing_tx (cs_task (ch_state a)) = true →
  alive (tl_outgoing (cs_loop (ch_state a))) = true → starts_with "/" msg = false → wf_string msg →
  ∃ m a', send_line msg a w = (Ok Continue, a', w)
  ∧ ch_screen a' = ch_screen a ++ [our_name (cs_task (ch_state a)) +:+ "> " +:+ msg]
  ∧ queued (tl_outgoing (cs_loop (ch_state a'))) = queued (tl_outgoing (cs_loop (ch_state a))) ++ [m]
  ∧ sendable (Some chat_supported_types) m ∧ chat_view m = Some (ChatMessage.Msg msg).
Proof.
  intros Ht Ho Hal Hsw Hw. exists (TaskMessage.Value (text_map msg)).
  unfold send_line, report_task, on_task, send_msg. rewrite Hsw. mred. rewrite log_line_run by done.
  rewrite chat_send_run by done. simpl. rewrite Hal. mred. eexists. split_and!; [done|done| | |].
  - simpl. destruct (mpsc_send_spec _ (TaskMessage.Value (text_map msg)) (tl_outgoing (cs_loop (ch_state a))))
      as (_ & Hq & _). by rewrite Hq, Hal.
  - exists TYPE_MSG, chat_supported_types. split_and!; [done..|by left|].
    by apply wf_text.
  - done.
Qed.

(** *** A disconnection may overtake a text *)

Lemma recv_head {A} (q : Q A) x l : queued q = x :: l →
  ∃ q', mpsc_recv q = (Some x, q') ∧ queued q' = l ∧ alive q' = alive q.
Proof.
  intros Hq. pose proof (mpsc_recv_spec _ q) as Hr. destruct (mpsc_recv q) as [[y|] q'].
  - destruct Hr as [Hr Ha]. rewrite Hq in Hr. injection Hr as -> ->. by exists q'.
  - destruct Hr as [Hr _]. congruence.
Qed.

Lemma text_handled text (c : ChatState S C Ch Q) w : chat_value (text_map text) c w
  = (Ok tt, cs_set_spawned (cs_spawned c ++ [ChatMessage.Msg text]) c, w).
Proof.
  unfold chat_value. change (text_map text !! KEY_TYPE) with (Some (Value.from_string TYPE_MSG)).
  change (text_map text !! KEY_TEXT) with (Some (Value.from_string text)). by mred.
Qed.

(** A text can be lost to the disconnection that follows it. When a text and
    then a Close message have arrived, the handler spawns the send of the text
    but sends the disconnection itself, so that it can reach the user interface
    first; the interface then stops listening, and the text is never shown. *)
Theorem disconnect_overtakes_text text r a (w : env) :
  arrived (@queued) (ch_state a) = [TaskMessage.Value (text_map text); TaskMessage.Close r] →
  queued (cs_messages (ch_state a)) = [] → alive (cs_messages (ch_state a)) = true →
  cs_spawned (ch_state a) = [] → cs_handler (ch_state a) = true →
  ch_receive_loop a = true → ch_tui a = true →
  ∃ a', rtc app_step a a' ∧ ch_receive_loop a' = false
  ∧ cs_spawned (ch_state a') = [ChatMessage.Msg text]
  ∧ alive (cs_messages (ch_state a')) = false
  ∧ ch_screen a' = ch_screen a
    ++ ["*** Connection with peer closed, reason: " +:+ CloseCode.to_string r; "*** Use Ctrl+C to exit"].
Proof.
  intros Harr Hq Hal Hsp Hh Hrl Ht. unfold arrived in Harr.
  destruct (recv_head _ _ _ Harr) as (q1 & Hr1 & Hq1 & _).
  destruct (recv_head _ _ _ Hq1) as (q2 & Hr2 & Hq2 & _).
  destruct (mpsc_send_spec _ (ChatMessage.Disconnect r) (cs_messages (ch_state a))) as (Hs & Hsq & Hsa).
  rewrite Hq, Hal in Hsq. simpl in Hsq.
  destruct (recv_head _ _ _ Hsq) as (q3 & Hr3 & Hq3 & Ha3).
  set (c1 := cs_set_spawned [ChatMessage.Msg text]
    (cs_set_loop (tl_set_incoming q1 (cs_loop (ch_state a))) (ch_state a))).
  set (c2 := cs_set_messages (mpsc_send (ChatMessage.Disconnect r) (cs_messages (ch_state a))).2
    (cs_set_loop (tl_set_incoming q2 (cs_loop c1)) c1)).
  assert (chat_step (ch_state a) c1) as Hstep1.
  { apply (chat_step_handler _ w _ w); [done|]. unfold chat_turn. mred. rewrite Hr1. simpl.
    rewrite text_handled. simpl. by rewrite Hsp. }
  assert (chat_step c1 c2) as Hstep2.
  { apply (chat_step_handler _ w _ w); [done|]. unfold c1, c2, chat_turn. mred.
    rewrite Hr2. mred. mred. rewrite Hs, Hal. done. }
  set (a3 := ch_show "*** Use Ctrl+C to exit" (ch_show ("*** Connection with peer closed, reason: "
    +:+ CloseCode.to_string r) (ch_set_state (cs_set_messages q3 c2) (ch_set_state c2 (ch_set_state c1 a))))).
  exists (finish_receive_loop a3). split_and!; [|done|done|simpl; apply mpsc_drop_spec|].
  - eapply rtc_l; [by apply app_task|]. eapply rtc_l; [by apply app_task|].
    apply rtc_once, (app_receives _ w _ w); [done|].
    unfold receive_turn. mred. rewrite Hr3. mred. unfold receive_message. mred.
    by rewrite !log_line_run by done.
  - simpl. by rewrite <- app_assoc.
Qed.

(** *** Quitting *)

(** The turn in which the user quits. *)
Definition quitted (q : Q string) a (w : env) : Chat S C Ch Q := finish_send_loop
  (ch_set_state (post (chat_close (E := string) CloseCode.WsGoingAway (ch_state a) w))
    (ch_ask_quit (ch_show "*** Exiting" (ch_set_lines q a)))).
Lemma quit_turn l a (w : env) : queued (ch_lines a) = "/quit" :: l → ch_tui a = true →
  ∃ q, send_turn a w = (Ok tt, quitted q a w, w).
Proof.
  intros Hl Ht. destruct (recv_head _ _ _ Hl) as (q & Hq & _). exists q.
  unfold send_turn. mred. rewrite Hq. mred. unfold send_line.
  change (split_whitespace "/quit") with ["/quit"]. change (starts_with "/" "/quit") with true. mred.
  rewrite log_line_run by done. mred. by rewrite tell_tui_run.
Qed.

(** A message that arrives after [/quit] crashes the program. The send loop
    stops and asks the interface to quit, but the receive loop goes on; once the
    interface has stopped, handing it a line fails, and the result is
    unwrapped. *)
Theorem message_after_quit_panics l m ms a (w : env) : queued (ch_lines a) = "/quit" :: l →
  ch_tui a = true → ch_send_loop a = true → ch_receive_loop a = true →
  queued (cs_messages (ch_state a)) = m :: ms →
  ∃ a', rtc app_step a a' ∧ ch_receive_loop a' = true ∧ ch_tui a' = false
  ∧ out (receive_turn a' w)
    = Panic ("called `Result::unwrap()` on an `Err` value: " +:+ cb_send_error_debug).
Proof.
  intros Hl Ht Hsl Hrl Hm. destruct (quit_turn l a w Hl Ht) as [q Hquit].
  assert (cs_messages (ch_state (quitted q a w)) = cs_messages (ch_state a)) as Hc2.
  { unfold quitted, chat_close, mmodify, post. simpl. by destruct (disconnect_tx _). }
  exists (ch_stop_tui (quitted q a w)). split_and!; [|done|done|].
  - eapply rtc_l; [by apply (app_sends _ w _ w)|by apply rtc_once, app_tui_stops].
  - unfold receive_turn. mred. destruct (recv_head _ _ _ Hm) as (q' & Hq' & _).
    rewrite Hc2, Hq'. mred. by destruct m.
Qed.
End interface.


(** *** The end of the program *)

(** Computations whose effect on the state is one of those [R] allows. *)
Section keeps.
Context {W St E : Type} (R : relation St) `{!PreOrder R}.
Definition keeps {A} (m : M W St E A) : Prop := ∀ s w, R s (post (m s w)).
Lemma keeps_bind {A B} (m : M W St E A) (f : A → M W St E B) : keeps m → (∀ x, keeps (f x)) → keeps (m ≫= f).
Proof.
  intros Hm Hf s w. specialize (Hm s w). unfold mbind, M_bind, post in *.
  destruct (m s w) as [[[x|e|p] s1] w1]; [|done..]. simpl in *. etrans; [exact Hm|]. apply Hf.
Qed.
Lemma keeps_for {A B} (f : B → A → M W St E B) xs : (∀ b x, keeps (f b x)) → ∀ b, keeps (mfor f b xs).
Proof. intros Hf. induction xs as [|x xs IH]; intros b; [by intros ??|]. by apply (keeps_bind _). Qed.
Lemma keeps_modify (f : St → St) : (∀ s, R s (f s)) → keeps (mmodify f).
Proof. intros Hf s w. apply Hf. Qed.
Lemma keeps_world {A} (f : W → A * W) : keeps (mworld f).
Proof. intros s w. unfold mworld, post. by destruct (f w). Qed.
End keeps.

(** The states that look the same. *)
Definition same {St V : Type} (view : St → V) : relation St := λ s s', view s' = view s.
#[export] Instance same_preorder {St V : Type} (view : St → V) : PreOrder (same view).
Proof. split; [done|]. intros x y z Hxy Hyz. by etrans. Qed.

Section ending.
Context {T S C Ch : Type} {Q : Type → Type}.
Context `{!Task T, !Env, !Signaling T S, !WsClient C, !WsSink C, !EventChannel Ch, !Mpsc Q}.
Context `{!ByteOrder, !Sodium, !Rmps, !ChatEnv}.
Context (queued : ∀ {A}, Q A → list A) (alive : ∀ {A}, Q A → bool) `{!MpscLaws Q (@queued) (@alive)}.
Arguments queued {A} _.
Arguments alive {A} _.
Implicit Types a : Chat S C Ch Q.
Implicit Types l : TaskLoop S C Ch Q.

(** What reaches the receive loop comes through these. *)
Definition input l : Q TaskMessage * bool := (tl_incoming l, tl_reader l).
Definition task_input (c : ChatState S C Ch Q) : Q TaskMessage * bool * Q ChatMessage * list ChatMessage :=
  (input (cs_loop c), cs_messages c, cs_spawned c).
Definition chat_input a := (task_input (ch_state a), ch_receive_loop a).

Lemma keeps_salty {E A} (f : E → SaltyError) (m : M env S E A) : keeps (same input) (with_salty f m).
Proof. intros l w. unfold with_salty. by destruct (m (tl_salty l) w) as [[o s'] w']. Qed.
Lemma keeps_send_raw e m : keeps (same input) (send_raw e m).
Proof. intros l w. unfold send_raw. mred. destruct (mpsc_send m (tl_raw l)) as [[] q]; by mred. Qed.
Lemma keeps_transform m : keeps (same input) (transform m).
Proof.
  destruct m; simpl; repeat (apply (keeps_bind _); [|intros ?]); try apply keeps_salty;
    try (apply keeps_world; apply _); by intros ??.
Qed.
Lemma transformer_keeps : keeps (same input) transformer_turn.
Proof.
  intros l w. unfold transformer_turn. mred. destruct (mpsc_recv (tl_outgoing l)) as [[m|] q]; mred.
  - change (same input l) with (same input (tl_set_outgoing q l)). generalize (tl_set_outgoing q l) w.
    change (keeps (same input) (fs ← transform m; let '(frames, stop) := fs in
       _ ← mfor (λ _ m, send_raw transformer_error m) tt frames;
       if (stop : bool) then mmodify finish_transformer else mret tt)).
    apply (keeps_bind _); [apply keeps_transform|]. intros [frames stop].
    apply (keeps_bind _); [apply (keeps_for _); intros; apply keeps_send_raw|]. intros _. destruct stop; [|done].
    by apply (keeps_modify _).
  - by destruct (tl_sender l || tl_reader l).
Qed.
Lemma writer_keeps : keeps (same input) writer_turn.
Proof.
  intros l w. unfold writer_turn. mred. destruct (mpsc_recv (tl_raw l)) as [[m|] q]; mred.
  - unfold on_sink. mred. by destruct (ws_send_all [m] (tl_client l)) as [[] c].
  - destruct (tl_reader l || tl_transformer l); [done|]. unfold on_sink. mred.
    by destruct (ws_close (tl_client l)) as [[] c].
Qed.

(** What the task does to its loop through the senders it holds. *)
Definition task_calls : relation (TaskLoop S C Ch Q) :=
  rtc (λ l l', (∃ m, l' = task_send m l) ∨ ∃ r, l' = task_disconnect r l).
(** Nothing the user has not been told is touched, and the loop only called. *)
Definition task_talks (c c' : ChatState S C Ch Q) : Prop :=
  task_input c' = task_input c ∧ task_calls (cs_loop c) (cs_loop c').
Definition talks a a' : Prop := chat_input a' = chat_input a ∧ task_calls (ch_loop a) (ch_loop a').
#[local] Instance task_talks_preorder : PreOrder task_talks.
Proof. split; [done|]. intros x y z [H1' H2'] [H3' H4']. split; by etrans. Qed.
#[local] Instance talks_preorder : PreOrder talks.
Proof. split; [done|]. intros x y z [H1' H2'] [H3' H4']. split; by etrans. Qed.

Lemma tell_tui_keeps f : (∀ a, talks a (f a)) → keeps talks (tell_tui f).
Proof. intros Hf a w. unfold tell_tui. mred. destruct (ch_tui a); [apply Hf|done]. Qed.
Lemma log_line_keeps line : keeps talks (log_line line).
Proof. by apply tell_tui_keeps. Qed.
Lemma on_task_keeps {A} (m : M env (ChatState S C Ch Q) string A) :
  keeps task_talks m → keeps talks (on_task m).
Proof.
  intros Hm a w. specialize (Hm (ch_state a) w). unfold on_task, post in *.
  destruct (m (ch_state a) w) as [[o s'] w']. destruct Hm as [Hi Hc]. split; [|exact Hc].
  unfold chat_input. simpl in *. by rewrite Hi.
Qed.
Lemma chat_send_keeps err map : keeps task_talks (chat_send err map).
Proof.
  intros c w. unfold chat_send. mred. destruct (outgoing_tx (cs_task c)); [|done]. mred.
  destruct (mpsc_send (TaskMessage.Value map) (tl_outgoing (cs_loop c))) as [ok q] eqn:Hs.
  assert (task_talks c (cs_set_loop (tl_set_outgoing q (cs_loop c)) c)) as Ht; [|by destruct ok].
  split; [done|]. apply rtc_once. left. exists (TaskMessage.Value map). unfold task_send. by rewrite Hs.
Qed.
Lemma report_keeps r : keeps talks (report_task r).
Proof. destruct r; [done|]. apply (keeps_bind _); [apply log_line_keeps|done]. Qed.
Lemma change_nick_keeps nick : keeps task_talks (change_nick nick).
Proof. apply (keeps_bind _); [apply chat_send_keeps|]. intros _. by apply (keeps_modify _). Qed.
Lemma close_keeps {E} r : keeps task_talks (chat_close (E := E) r).
Proof.
  apply (keeps_modify _). intros c. cbn zeta. destruct (disconnect_tx (cs_task c)); [|done].
  split; [unfold task_disconnect; by destruct (tl_disconnect (cs_loop c))|].
  apply rtc_once. right. by exists (Some r).
Qed.

Ltac keep := repeat first
  [ apply log_line_keeps | apply report_keeps | apply on_task_keeps | apply change_nick_keeps
  | apply close_keeps | apply chat_send_keeps | by apply tell_tui_keeps
  | apply (keeps_bind _); [|intros ?] | by intros ?? ].
Lemma send_line_keeps msg : keeps talks (send_line msg).
Proof.
  unfold send_line. destruct (starts_with "/" msg); [destruct (split_whitespace msg) as [|cmd parts]; [by intros ??|]|keep].
  repeat case_bool_decide; keep. destruct parts; keep.
Qed.
Lemma send_turn_keeps : keeps talks send_turn.
Proof.
  intros a w. unfold send_turn. mred. destruct (mpsc_recv (ch_lines a)) as [[msg|] q]; mred.
  - change (talks a) with (talks (ch_set_lines q a)). generalize (ch_set_lines q a) w.
    change (keeps talks (flow ← send_line msg;
      loop_item flow finish_send_loop "Something went wrong when forwarding messages to task")).
    apply (keeps_bind _); [apply send_line_keeps|]. by intros [].
  - by destruct (ch_tui a).
Qed.
Lemma event_turn_keeps e : keeps talks (event_turn e).
Proof. apply (keeps_bind _); [destruct e; keep|]. by intros []. Qed.

(** The reader has stopped and nothing is left that would end the receive loop. *)
Definition hushed a : Prop :=
  tl_reader (ch_loop a) = false ∧ queued (tl_incoming (ch_loop a)) = []
  ∧ queued (cs_messages (ch_state a)) = [] ∧ cs_spawned (ch_state a) = [] ∧ ch_receive_loop a = true.
Lemma hushed_keeps a a' : chat_input a' = chat_input a → hushed a → hushed a'.
Proof.
  unfold chat_input, task_input, input. intros Heq (Hr & Hi & Hm & Hs & Hl). injection Heq as H1' H2' H3' H4' H5'.
  unfold hushed, ch_loop in *. rewrite H1', H2', H3', H4', H5'. by split_and!.
Qed.

Lemma hushed_loop a l' : input l' = input (ch_loop a) → hushed a → hushed (ch_set_loop l' a).
Proof.
  intros Heq. apply hushed_keeps. unfold chat_input, task_input. simpl. by rewrite Heq.
Qed.

Lemma recv_nothing {A} (q : Q A) : queued q = [] → mpsc_recv q = (None, q).
Proof.
  intros Hq. pose proof (mpsc_recv_spec _ q) as Hr. destruct (mpsc_recv q) as [[x|] q'].
  - destruct Hr as [Hr _]. congruence.
  - by destruct Hr as [_ ->].
Qed.

Lemma hushed_step a a' : program_step a a' → hushed a → hushed a'.
Proof.
  intros Hstep Hh. pose proof Hh as (Hr & Hi & Hm & Hs & Hl).
  destruct Hstep as [a' Happ|w l' w' Hrd _|w l' w' Hrd _|w l' w' _ Hrun|w l' w' _ Hrun]; [|congruence..| |].
  2: apply hushed_loop; [|done]; pose proof (transformer_keeps (ch_loop a) w) as Hk; by rewrite Hrun in Hk.
  2: apply hushed_loop; [|done]; pose proof (writer_keeps (ch_loop a) w) as Hk; by rewrite Hrun in Hk.
  destruct Happ as [s' Hc|line _|w a' w' _ Hrun|w a' w' _ Hrun|e w a' w' _ Hrun|_]; try done.
  - destruct Hc as [w c' w' _ Hrun|before m after w c' w' Hsp _]; [|rewrite Hs in Hsp; by destruct before].
    revert Hrun. unfold chat_turn. mred. unfold ch_loop in *. rewrite recv_nothing by done. mred.
    rewrite Hr. intros [= <- <-]. split_and!; try done. simpl. by rewrite (proj1 (mpsc_drop_spec _ _)).
  - apply (hushed_keeps a); [|done]. pose proof (send_turn_keeps a w) as Hk. rewrite Hrun in Hk. apply Hk.
  - revert Hrun. unfold receive_turn. mred. rewrite recv_nothing by done. intros [= <- <-]. by split_and!.
  - apply (hushed_keeps a); [|done]. pose proof (event_turn_keeps e a w) as Hk. rewrite Hrun in Hk. apply Hk.
Qed.

(** C40: [/quit] does not end the program. When the user quits and nothing of
    the peer is under way, the send loop ends, the task loop is told to
    disconnect and its reader stops; from then on, whatever runs in whatever
    order, nothing can reach the receive loop, which waits for a disconnection
    of the peer on a channel that the task itself keeps open, so that the main
    future is never done. *)
Theorem quit_never_ends lines a (w : env) : queued (ch_lines a) = "/quit" :: lines →
  ch_tui a = true → ch_send_loop a = true → ch_receive_loop a = true →
  disconnect_tx (cs_task (ch_state a)) = true → tl_disconnect (ch_loop a) = Waiting →
  tl_reader (ch_loop a) = true → queued (tl_incoming (ch_loop a)) = [] →
  queued (cs_messages (ch_state a)) = [] → cs_spawned (ch_state a) = [] →
  ∃ a1, rtc program_step a a1 ∧ ch_send_loop a1 = false ∧ ch_quit a1 = true
  ∧ tl_reader (ch_loop a1) = false
  ∧ ∀ a2, rtc program_step a1 a2 → main_done a2 = false ∧ receive_turn a2 w = (Ok tt, a2, w).
Proof.
  intros Hl Ht Hsl Hrl Hd Hw Hrd Hi Hm Hs.
  destruct (quit_turn (@queued) (@alive) lines a w Hl Ht) as [q Hquit]. set (a1 := quitted q a w) in *.
  assert (ch_loop a1 = tl_set_disconnect (Sent (Some CloseCode.WsGoingAway)) (ch_loop a)
    ∧ cs_messages (ch_state a1) = cs_messages (ch_state a)
    ∧ cs_spawned (ch_state a1) = cs_spawned (ch_state a)
    ∧ ch_send_loop a1 = false ∧ ch_quit a1 = true ∧ ch_receive_loop a1 = true)
    as (Hl1 & Hm1 & Hs1 & Hsl1 & Hq1 & Hrl1).
  { unfold a1, quitted, ch_loop, chat_close, mmodify, post in *. simpl. rewrite Hd. simpl.
    unfold task_disconnect. by rewrite Hw. }
  clearbody a1. destruct (disconnect_turn (ch_loop a1) w) as [[o l2] w2] eqn:Hdis. pose proof Hdis as Hrun.
  unfold disconnect_turn in Hdis. revert Hdis. mred. rewrite Hl1. mred.
  destruct (mpsc_send _ (tl_outgoing (ch_loop a))) as [ok q2]. mred. intros [= <- <- <-].
  set (l2 := finish_reader _) in Hrun. assert (hushed (ch_set_loop l2 a1)) as Hh.
  { unfold hushed, ch_loop. simpl. by rewrite Hm1, Hs1. }
  exists (ch_set_loop l2 a1). split_and!; [|done..|].
  - eapply rtc_l; [by apply program_app, (app_sends _ w _ w)|].
    apply rtc_once, (program_disconnect _ w _ w); [by rewrite Hl1|done].
  - intros a2 Hr2. assert (hushed a2) as (_ & _ & Hm2 & _ & Hrl2).
    { clear -Hh Hr2 MpscLaws0. induction Hr2; [done|]. eauto using hushed_step. }
    split; [unfold main_done; rewrite Hrl2; by rewrite andb_false_r|].
    unfold receive_turn. mred. rewrite recv_nothing by done. destruct a2 as [[]]. by mred.
Qed.
End ending.

(** *** Between the task loop and the user *)

Section flow.
Context {S C Ch : Type} {Q : Type → Type} `{!ValueDebug}.
Context `{!Env, !Signaling ChatTask S, !WsClient C, !WsSink C, !EventChannel Ch, !Mpsc Q}.
Context `{!ByteOrder, !ByteOrderLaws, !Sodium, !SodiumLaws, !Rmps, !RmpsLaws, !EnvLaws, !ChatEnv}.
Context (incoming sent : C → list OwnedMessage) (reported : Ch → list Event).
Context (queued : ∀ {A}, Q A → list A) (alive : ∀ {A}, Q A → bool).
Context `{!WsClientLaws C incoming sent, !WsSinkLaws C incoming sent}.
Context `{!EventChannelLaws Ch reported, !MpscLaws Q (@queued) (@alive)}.
Context (I : S → Prop) `{!SignalingSafe ChatTask S I, !SignalingActions ChatTask S I}.
Arguments queued {A} _.
Arguments alive {A} _.
Abbreviation loop_inv := (loop_inv incoming (@queued) (@alive) I).
Abbreviation arrived a := (arrived (@queued) (ch_state a)).
Abbreviation on_the_way a := (on_the_way (@queued) (ch_state a)).
Implicit Types a : Chat S C Ch Q.

(** The program when its loops start, in the task phase. *)
Definition chat_started a : Prop := ∃ client salty event_tx t l,
  task_loop client salty event_tx = Ok (t, l) ∧ in_task_phase I salty
  ∧ Forall wf_ws (incoming client) ∧ a = chat_app (chat_start l t mpsc_unbounded).

(** What a step hands to the task, and what it hands to the user. *)
Definition gained a a' : list TaskMessage := drop (length (arrived a)) (arrived a').
Definition taken a a' : list ChatMessage :=
  let before := queued (cs_messages (ch_state a)) in
  if bool_decide (length (queued (cs_messages (ch_state a'))) < length before)%nat then take 1 before else [].
Definition chat_event a (lab : list TaskMessage * list ChatMessage) a' : Prop :=
  program_step a a' ∧ lab = (gained a a', taken a a').

(** Where the messages handed to the task are. *)
Record tracked (labs : list (list TaskMessage * list ChatMessage)) a : Prop := {
  tr_loop : loop_inv (ch_loop a);
  tr_typed : Forall typed_message (arrived a);
  tr_listens : alive (cs_messages (ch_state a)) = ch_receive_loop a;
  tr_silent : ch_receive_loop a = false → queued (cs_messages (ch_state a)) = [];
  tr_lost : ∃ lost, concat labs.*2 ++ lost ≡ₚ omap chat_view (concat labs.*1)
    ∧ (ch_receive_loop a = true → lost = on_the_way a ++ omap chat_view (arrived a));
}.

Lemma chat_started_tracked a : chat_started a → tracked [] a.
Proof.
  intros (client & salty & ev & t & l & Hl & Hs & Hf & ->).
  pose proof (task_loop_inv incoming (@queued) (@alive) I _ _ _ _ _ Hs Hf Hl) as Hinv.
  destruct (mpsc_unbounded_spec TaskMessage) as [Hq1 _], (mpsc_unbounded_spec ChatMessage) as [Hq2 Ha2].
  assert (queued (tl_incoming l) = []) as Harr.
  { unfold task_loop in Hl. destruct (c_task _); [|done]. by injection Hl as _ <-. }
  split; simpl; try done; [by unfold ChatProps.arrived; simpl; rewrite Harr|].
  exists []. split; [done|]. intros _. unfold ChatProps.on_the_way, ChatProps.arrived. simpl.
  by rewrite Hq2, Harr.
Qed.

Lemma loop_inv_incoming q (l : TaskLoop S C Ch Q) : loop_inv l → loop_inv (tl_set_incoming q l).
Proof. intros [Hs Hf Hr Ho Hd Hw Hc Hwn]. by split. Qed.
Lemma task_calls_inv (l l' : TaskLoop S C Ch Q) : task_calls l l' → loop_inv l → loop_inv l'.
Proof.
  induction 1 as [l|l l1 l' [[m ->]|[r ->]] _ IH]; [done|..]; intros Hl; apply IH.
  - eapply loop_inv_send; [done|]. eapply (extended_send (@queued) (@alive) m []), extended_refl.
  - by apply (loop_step_inv incoming sent reported (@queued) (@alive) I l Internal), step_task_disconnect.
Qed.

(** A step that leaves the way to the user alone. *)
Definition passage a := (tl_incoming (ch_loop a), cs_messages (ch_state a), cs_spawned (ch_state a), ch_receive_loop a).
Lemma tracked_quiet labs a a' : tracked labs a → loop_inv (ch_loop a') → passage a' = passage a →
  tracked (labs ++ [(gained a a', taken a a')]) a'.
Proof.
  intros [Hl Ht Hal Hsi (lost & Hp & Hlost)] Hl' Heq. unfold passage, ch_loop in Heq. injection Heq as Hi Hm Hs Hr.
  assert (arrived a' = arrived a) as Harr by (unfold ChatProps.arrived; by rewrite Hi).
  assert (on_the_way a' = on_the_way a) as Hway by (unfold ChatProps.on_the_way; by rewrite Hm, Hs).
  assert (gained a a' = []) as Hg by (unfold gained; rewrite Harr; apply drop_all).
  assert (taken a a' = []) as Hk by (unfold taken; rewrite Hm; by case_bool_decide; [lia|]).
  split; [done|by rewrite Harr|by rewrite Hm, Hr|by rewrite Hm, Hr|].
  exists lost. rewrite Hg, Hk, !fmap_app, !concat_app. simpl. by rewrite !app_nil_r, Hr, Harr, Hway.
Qed.

Lemma tracked_reader labs a l' ms : tracked labs a → loop_inv l' →
  queued (tl_incoming l') = arrived a ++ ms → Forall typed_message ms →
  let a' := ch_set_loop l' a in tracked (labs ++ [(gained a a', taken a a')]) a'.
Proof.
  intros [Hl Ht Hal Hsi (lost & Hp & Hlost)] Hl' Hq Hms a'.
  assert (arrived a' = arrived a ++ ms) as Harr by done.
  assert (gained a a' = ms) as Hg by (unfold gained; rewrite Harr; apply drop_app_length).
  assert (taken a a' = []) as Hk by (unfold taken; simpl; by case_bool_decide; [lia|]).
  split; [done|rewrite Harr; by apply Forall_app|done..|].
  exists (lost ++ omap chat_view ms). rewrite Hg, Hk, !fmap_app, !concat_app. simpl.
  rewrite !app_nil_r, omap_app, app_assoc. split; [by rewrite Hp|].
  intros Hr. by rewrite (Hlost Hr), <- app_assoc, <- omap_app, <- Harr.
Qed.

Lemma tracked_passed labs a c' : tracked labs a → passed_on (@queued) (@alive) (ch_state a) c' →
  let a' := ch_set_state c' a in tracked (labs ++ [(gained a a', taken a a')]) a'.
Proof.
  intros [Hl Ht Hal Hsi (lost & Hp & Hlost)] [[q Hq] Hsuf Hpre Ha Hd Hc] a'.
  pose proof (suffix_length _ _ Hsuf) as Hlen. pose proof (prefix_length _ _ Hpre) as Hlen'.
  assert (gained a a' = []) as Hg by (unfold gained; by apply drop_ge).
  assert (taken a a' = []) as Hk by (unfold taken; simpl; by case_bool_decide; [lia|]).
  split; simpl.
  - unfold ch_loop. simpl. rewrite Hq. by apply loop_inv_incoming.
  - destruct Hsuf as [k Hk']. rewrite Hk' in Ht. by apply Forall_app in Ht as [_ Ht].
  - congruence.
  - intros Hr. rewrite Hd by congruence. by apply Hsi.
  - rewrite Hg, Hk, !fmap_app, !concat_app. simpl. rewrite !app_nil_r.
    destruct (ch_receive_loop a) eqn:Hr; [|by exists lost].
    eexists. split; [|done]. rewrite Hlost in Hp by done. by rewrite Hc.
Qed.

(** The receive loop takes the next message, if there is one; after a
    disconnection it is over. *)
Lemma receive_turn_run a w a' w' : receive_turn a w = (Ok tt, a', w') →
  ch_loop a' = ch_loop a ∧ cs_spawned (ch_state a') = cs_spawned (ch_state a)
  ∧ match mpsc_recv (cs_messages (ch_state a)) with
    | (Some m, q) => ch_receive_loop a' = ch_receive_loop a ∧ cs_messages (ch_state a') = q
        ∨ ch_receive_loop a' = false ∧ cs_messages (ch_state a') = mpsc_drop_receiver q
    | (None, q) => ch_receive_loop a' = ch_receive_loop a ∧ cs_messages (ch_state a') = q
    end.
Proof.
  unfold receive_turn. mred. destruct (mpsc_recv (cs_messages (ch_state a))) as [[m|] q]; mred;
    [|intros [= <- <-]; by split_and!].
  unfold receive_message, log_line, tell_tui.
  destruct m as [text|nick|r]; mred; destruct (ch_tui a) eqn:Ht; mred; try done;
    [intros [= <- <-]; split_and!; by auto..|].
  rewrite Ht. mred. intros [= <- <-]. split_and!; by auto.
Qed.

Lemma tracked_received labs a w a' w' : tracked labs a → ch_receive_loop a = true →
  receive_turn a w = (Ok tt, a', w') → tracked (labs ++ [(gained a a', taken a a')]) a'.
Proof.
  intros Htr Hrl Hrun. destruct (receive_turn_run _ _ _ _ Hrun) as (Hloop & Hsp & Hm).
  pose proof (mpsc_recv_spec _ (cs_messages (ch_state a))) as Hrecv.
  destruct (mpsc_recv (cs_messages (ch_state a))) as [[m|] q].
  2: { destruct Hrecv as [Hq ->], Hm as [Hr Hm]. apply tracked_quiet; [done| |].
    - rewrite Hloop. apply Htr.
    - unfold passage. by rewrite Hloop, Hsp, Hr, Hm. }
  destruct Hrecv as [Hq Hqa], Htr as [Hl Ht Hal _ (lost & Hp & Hlost)].
  assert (arrived a' = arrived a) as Harr by (unfold ChatProps.arrived, ch_loop in *; by rewrite Hloop).
  assert (gained a a' = []) as Hg by (unfold gained; rewrite Harr; apply drop_all).
  destruct (mpsc_drop_spec _ q) as [Hdq Hda].
  assert (taken a a' = [m]) as Hk.
  { unfold taken. rewrite Hq. case_bool_decide as Hlt; [done|]. exfalso. apply Hlt.
    destruct Hm as [[_ ->]|[_ ->]]; rewrite ?Hdq; simpl; lia. }
  split; [by rewrite Hloop|by rewrite Harr| | |].
  - destruct Hm as [[-> ->]|[-> ->]]; congruence.
  - destruct Hm as [[-> ->]|[_ ->]]; congruence.
  - rewrite Hg, Hk, !fmap_app, !concat_app. simpl. rewrite !app_nil_r.
    exists (queued q ++ cs_spawned (ch_state a) ++ omap chat_view (arrived a)). split.
    + rewrite <- Hp, Hlost by done. unfold ChatProps.on_the_way. rewrite Hq, <- !app_assoc. done.
    + intros Hr. destruct Hm as [[_ Hm]|[? _]]; [|congruence].
      unfold ChatProps.on_the_way. by rewrite Hm, Hsp, Harr, <- app_assoc.
Qed.

Lemma tracked_talks labs a a' : tracked labs a → talks a a' →
  tracked (labs ++ [(gained a a', taken a a')]) a'.
Proof.
  intros Htr [Heq Hcalls]. apply tracked_quiet; [done|eapply task_calls_inv, Htr; exact Hcalls|].
  unfold chat_input, task_input, input in Heq. injection Heq as Hi _ Hm Hs Hr.
  unfold passage, ch_loop. by rewrite Hi, Hm, Hs, Hr.
Qed.
Lemma tracked_loop labs a lab l' : tracked labs a → loop_step (ch_loop a) lab l' →
  tl_incoming l' = tl_incoming (ch_loop a) →
  let a' := ch_set_loop l' a in tracked (labs ++ [(gained a a', taken a a')]) a'.
Proof.
  intros Htr Hstep Heq a'. apply tracked_quiet; [done| |].
  - apply (loop_step_inv incoming sent reported (@queued) (@alive) I _ lab _ (tr_loop _ _ Htr) Hstep).
  - unfold passage, a', ch_loop in *. simpl. by rewrite Heq.
Qed.

Lemma tracked_step labs a lab a' : tracked labs a → chat_event a lab a' → tracked (labs ++ [lab]) a'.
Proof.
  intros Htr [Hstep ->]. pose proof (tr_loop _ _ Htr) as Hl.
  destruct Hstep as [a' Happ|w l' w' Hrd Hrun|w l' w' Hrd Hrun|w l' w' Hr Hrun|w l' w' Hr Hrun].
  - destruct Happ as [s' Hc|line _|w a' w' _ Hrun|w a' w' Hr Hrun|e w a' w' _ Hrun|_].
    + apply tracked_passed; [done|]. by apply (chat_step_passes (@queued) (@alive)), Hc; apply Htr.
    + by apply tracked_talks.
    + apply tracked_talks; [done|]. pose proof (send_turn_keeps a w) as Hk. by rewrite Hrun in Hk.
    + by eapply tracked_received.
    + apply tracked_talks; [done|]. pose proof (event_turn_keeps e a w) as Hk. by rewrite Hrun in Hk.
    + by apply tracked_talks.
  - destruct (reader_turn_adds incoming sent reported (@queued) (@alive) I _ _ _ _ Hl Hrd Hrun)
      as (ms & Hq & Hms & Hl'). by eapply tracked_reader.
  - eapply tracked_loop; [done|by eapply step_disconnect|]. revert Hrun. unfold disconnect_turn. mred.
    destruct (tl_disconnect (ch_loop a)); [|destruct (mpsc_send _ _)|..]; mred; by intros [= <- <-].
  - eapply tracked_loop; [done|by eapply step_transformer|].
    pose proof (transformer_keeps (ch_loop a) w) as Hk. rewrite Hrun in Hk. by injection Hk.
  - eapply tracked_loop; [done|by eapply step_writer|].
    pose proof (writer_keeps (ch_loop a) w) as Hk. rewrite Hrun in Hk. by injection Hk.
Qed.

(** C26: nothing the peer sends gets lost on its way to the user as long as the
    user interface listens, and nothing is ever made up. From the start of the
    loops, in every interleaving of the task loop, the handler, the spawned
    sends, the three loops of the program and the user: what the receive loop
    has taken, together with what is lost, is what the messages handed to the
    task mean to the user, up to the order; and until a disconnection ends the
    receive loop, what looks lost is only under way, in the channel to the
    interface, in a spawned send or still to be handled. Moreover the handler
    never panics and never fails, whatever values the peer has sent and whether
    or not anyone listens. *)
Theorem chat_messages_conserved a0 labs a : chat_started a0 → traces chat_event a0 labs a →
  (∀ w, ∃ c', chat_turn (ch_state a) w = (Ok tt, c', w))
  ∧ ∃ lost, concat labs.*2 ++ lost ≡ₚ omap chat_view (concat labs.*1)
    ∧ (ch_receive_loop a = true → lost = on_the_way a ++ omap chat_view (arrived a)).
Proof.
  intros Hst Htr. assert (tracked labs a) as Hk.
  { induction Htr as [a|a labs b lab c _ IH Hs]; [by apply chat_started_tracked|].
    eapply tracked_step; [by apply IH|done]. }
  split; [|apply Hk]. intros w.
  destruct (chat_turn_run (@queued) (@alive) (ch_state a) w (tr_typed _ _ Hk)) as (c' & Hrun & _). by exists c'.
Qed.
End flow.

(** ** The invitation *)

Lemma hex_lower_ascii s : hex_lower s = true → is_ascii s = true ∧ ascii_lowercase s = s.
Proof.
  induction s as [|c s IH]; simpl; [done|]. intros [Hc Hs]%andb_true_iff. destruct (IH Hs) as [Ha Hl].
  rewrite Ha, Hl. unfold hex_digit_lower in Hc. unfold ascii_lower.
  destruct ((65 <=? char_code c) && (char_code c <=? 90)) eqn:Hu; [lia|]. split; [|done]. lia.
Qed.

Section invitation.
Context `{!Env, !Sodium, !SodiumLaws, !EnvLaws, !HexCodec, !HexCodecLaws, !ValueDebug, !ChatEnv, !ChatEnvLaws}.
Context {St : Type}.

Lemma wp_built {E A} msg (m : M env St BuilderError A) s (R : outcome E A → St → Prop) :
  wp m s (λ o s', match o with
    | Ok a => R (Ok a) s'
    | Err _ => False
    | Panic p => R (Panic p) s'
    end) → wp (built msg m) s R.
Proof.
  intros Hm w. specialize (Hm w). unfold built, mtry, mbind, M_bind, out, post in *.
  by destruct (m s w) as [[[a|e|p] s'] w'].
Qed.

(** What the initiator shows is the hexadecimal form of the token it holds. *)
Lemma chat_initiator_token args kp ping (s : St) :
  wp (chat_initiator (E := SaltyError) args kp ping false) s (λ o _, match o with
    | Ok (si, hex) => ∃ t, auth_token si = Some t ∧ hex = Some (hex_encode (secret_key_bytes t))
        ∧ wf_array 32 (secret_key_bytes t) ∧ c_permanent_keypair (is_common si) = kp
    | _ => True
    end).
Proof.
  unfold chat_initiator. wp_step. apply wp_built. unfold build_initiator. wp_step. wp_step. simpl.
  unfold initiator_signaling_new, auth_token_new. repeat (wp_step || (apply wp_init; [|done])).
  apply wp_server_context_new; [|done]. intros c _. repeat wp_step.
  eexists. split_and!; [done..| |done]. exact (secretbox_gen_key_wf w).
Qed.

(** The responder made for a key and a token. *)
Lemma chat_responder_made args kp path ping pk t (s : St) :
  public_key_from_hex_str path = Ok pk → (hex ← args "authtoken"; Some (auth_token_from_hex_str hex)) = Some (Ok t) →
  wp (chat_responder (E := SaltyError) args kp path ping false) s (λ o _, constructed (λ r,
    ini_permanent_key (rs_initiator r.1) = pk ∧ auth_token r.1 = Some t
    ∧ c_permanent_keypair (rs_common r.1) = kp) o).
Proof.
  intros Hpk Ht. destruct (args "authtoken") as [hex|] eqn:Hh; [|done]. injection Ht as Ht.
  unfold chat_responder. wp_step. wp_step. rewrite Hpk. simpl. wp_step. wp_step. rewrite Hh. simpl.
  wp_step. wp_step. rewrite Ht. simpl. wp_step. apply wp_built. unfold build_responder. wp_step. wp_step. simpl.
  unfold responder_signaling_new. wp_step. apply wp_server_context_new; [|done]. intros c _.
  wp_step. wp_step. apply wp_initiator_context_new; [|done]. intros i Hi. repeat wp_step.
  split_and!; [|done..]. apply Hi.
Qed.

(** The invitation an initiator shows fits. A responder that is started with
    the path and the token an initiator has shown holds the initiator's public
    key and the initiator's token, and asks any server for the same URL; its
    setup fails only if libsodium does. *)
Theorem invitation_accepted args args' kp rkp ping ping' (s s' : St) w w' si hex s1 w1 :
  wf_array PUBLICKEYBYTES (pk_bytes (public_key kp)) →
  chat_initiator (E := SaltyError) args kp ping false s w = (Ok (si, hex), s1, w1) →
  args' "path" = Some (public_key_hex kp) → args' "authtoken" = hex →
  constructed (λ r, ini_permanent_key (rs_initiator r.1) = public_key kp
      ∧ auth_token r.1 = auth_token si ∧ is_Some (auth_token si)
      ∧ ∀ host port, connect_url host port r.1 = connect_url host port si)
    (out ((path ← chat_path (E := SaltyError) args' Role.Responder rkp;
      chat_responder args' rkp path ping' false) s' w')).
Proof.
  intros Hk Hrun Hpath Htok. pose proof (chat_initiator_token args kp ping s w) as Hi. rewrite Hrun in Hi.
  destruct Hi as (t & Ht & -> & Hwt & Hkp). rewrite Ht.
  destruct (hex_lower_ascii (public_key_hex kp)) as [Ha Hl]; [apply hex_encode_lower, Hk|].
  pose proof (public_key_hex_decode _ Hk) as Hpk. fold (public_key_hex kp) in Hpk.
  rewrite <- Hl, <- (to_lowercase_ascii _ Ha) in Hpk.
  pose proof (chat_responder_made args' rkp _ ping' _ t s' Hpk) as Hr.
  rewrite Htok in Hr. simpl in Hr. rewrite auth_token_hex_decode in Hr by done.
  specialize (Hr eq_refl w'). unfold chat_path. mred. rewrite Hpath. mred.
  destruct (chat_responder _ _ _ _ _ _ _) as [[[r|e|p] s2] w2]; [|done..]. simpl in *.
  destruct Hr as (Hr1 & Hr2 & _). split_and!; [done..|by exists t|].
  intros host port. unfold connect_url. simpl. by rewrite Hr1, Hkp.
Qed.
End invitation.

(** ** Witnesses *)

Module ChatWitnesses.
Import Reference ReferenceCodec Handshake ProtocolWitnesses ClientWitnesses LoopWitnesses.
#[export] Instance value_shown : ValueDebug := {| value_debug v := "a value" |}.
#[export] Instance chat_environment : ChatEnv := {|
  to_lowercase := ascii_lowercase;
  salty_error_debug e := "an error";
  cb_send_error_debug := "SendError(..)";
|}.
#[export] Instance chat_environment_laws : ChatEnvLaws.
Proof. by split. Qed.

(** *** Two chat clients, up to the peer handshake *)

Definition ti : ChatTask := chat_task_new "initiat0r".
Definition tr : ChatTask := chat_task_new "r3spond3r".
Definition ci_run := initiator_signaling_new (S := unit) (E := SignalingError)
  initiator_keys (mkTasks [ti]) None None None tt 0.
Definition cr_run := responder_signaling_new (S := unit) (E := SignalingError)
  responder_keys (public_key initiator_keys) (Some token) None (mkTasks [tr]) None tt 100.
Definition ci0 : outcome SignalingError (InitiatorSignaling ChatTask) * env := (out ci_run, world_of ci_run).
Definition ci1 := deliver (clear_box server_hello 0 1) ci0.
Definition ci2 := deliver (sealed_box (Message.ServerAuth (mkServerAuth
  (our_server_cookie (state_of ci1)) None (Some []) None)) 1 2 initiator_keys) (state_of ci1).
Definition ci3 := deliver (sealed_box (Message.NewResponder (mkNewResponder (mkAddress 2))) 1 3
  initiator_keys) (state_of ci2).
Definition cr0 : outcome SignalingError (ResponderSignaling ChatTask) * env := (out cr_run, world_of cr_run).
Definition cr1 := deliver (clear_box server_hello 0 1) cr0.
Definition cr2 := deliver (sealed_box (Message.ServerAuth (mkServerAuth
  (our_server_cookie (state_of cr1)) None None (Some true))) 2 2 responder_keys) (state_of cr1).

Lemma good_ci3 : good initiator_reachable (state_of ci3).
Proof.
  do 3 (apply deliver_good; [apply initiator_reachable_step|by_compute|]).
  unfold good, ci0. cbn [fst]. destruct (out ci_run) as [s|e|m] eqn:Hr; [|done..].
  exists s. split; [|done]. unfold ci_run in Hr. do 6 eexists. exact Hr.
Qed.
Lemma good_cr2 : good responder_reachable (state_of cr2).
Proof.
  do 2 (apply deliver_good; [apply responder_reachable_step|by_compute|]).
  unfold good, cr0. cbn [fst]. destruct (out cr_run) as [s|e|m] eqn:Hr; [|done..].
  exists s. split; [|done]. unfold cr_run in Hr. do 7 eexists. exact Hr.
Qed.

Definition awaiting : InitiatorSignaling ChatTask := get_initiator (state_of ci3).
Definition offering : ResponderSignaling ChatTask := get_responder (state_of cr2).
Definition offers : list ByteBox := replies (actions_of cr2).
Definition known : ResponderContext :=
  default SessionWitnesses.no_context (is_responders awaiting !! mkAddress 2).

Lemma chat_awaiting_inv : initiator_inv awaiting.
Proof. apply get_initiator_inv; [by_compute|apply good_ci3]. Qed.
Lemma chat_offering_inv : responder_state_inv offering.
Proof. apply get_responder_inv; [by_compute|apply good_cr2]. Qed.
Lemma chat_offering_offered : offered (mkAddress 2) (Some token) offers offering.
Proof.
  split; [exact chat_offering_inv|done|by split; vm_compute|by vm_compute..|].
  exists (get_box (reply 1 cr2)). split; [vm_compute; reflexivity|].
  exists (csn_of_snapshot (nonce_csn (bbox_nonce (get_box (reply 0 cr2))))), (get_box (reply 0 cr2)).
  split_and!; by vm_compute.
Qed.
Lemma chat_awaiting_awaits :
  awaits (mkAddress 2) (Some token) (public_key (c_permanent_keypair (rs_common offering))) known awaiting.
Proof. split; [exact chat_awaiting_inv|by split; vm_compute|by vm_compute..|by split; vm_compute]. Qed.
Lemma chat_secrets_distinct : distinct_secrets known awaiting offering.
Proof.
  split; [by_keypair..|by vm_compute| | |]; apply (bool_decide_eq_true_1 (¬ _)); by vm_compute.
Qed.
Lemma chat_initiator_tasks : c_tasks (is_common awaiting) = Some (mkTasks [ti]).
Proof. vm_compute. reflexivity. Qed.
Lemma chat_responder_tasks : c_tasks (rs_common offering) = Some (mkTasks [tr]).
Proof. vm_compute. reflexivity. Qed.

Lemma chat_nicknames_witness : ∃ si2 sr2,
  exchange offers awaiting offering world world world world si2 sr2
  ∧ c_task (is_common si2) = Some (set_peer_name "r3spond3r" ti)
  ∧ c_task (rs_common sr2) = Some (set_peer_name "initiat0r" tr).
Proof.
  refine (chat_nicknames_exchanged (mkAddress 2) (Some token) offers offering known awaiting ti tr
    world world world world _ _ _ _ _ _ _).
  - exact chat_offering_offered.
  - exact chat_awaiting_awaits.
  - exact chat_secrets_distinct.
  - by_compute.
  - by_compute.
  - exact chat_initiator_tasks.
  - exact chat_responder_tasks.
Defined.

(** *** A running chat *)

Definition loop_of (incoming : list TaskMessage) : TaskLoop unit unit unit queue :=
  mkTaskLoop tt tt tt (Some []) (Some []) (Some incoming) Waiting true true true true.
Definition chat_of (incoming : list TaskMessage) : ChatState unit unit unit queue :=
  chat_start (loop_of incoming) (set_peer_name "r3spond3r" ti) (Some []).
Definition app_of (incoming : list TaskMessage) (messages : list ChatMessage) (lines : list string)
    : Chat unit unit unit queue :=
  ch_set_lines (Some lines) (chat_app (cs_set_messages (Some messages) (chat_of incoming))).
Definition hello : TaskMessage := TaskMessage.Value (text_map "hello").

(** The two clients in the task phase; the responder sends a text, which is
    read, handled, sent on and shown. *)
Definition ci4 := deliver (reply 0 cr2) (state_of ci3).
Definition ci5 := deliver (reply 1 cr2) (state_of ci4).
Definition cr3 := deliver (reply 0 ci5) (state_of cr2).
Definition ci6 := deliver (reply 0 cr3) (state_of ci5).
Definition cr4 := deliver (reply 0 ci6) (state_of cr3).
Definition chatting : InitiatorSignaling ChatTask := get_initiator (state_of ci6).
Lemma good_ci6 : good initiator_reachable (state_of ci6).
Proof. do 3 (apply deliver_good; [apply initiator_reachable_step|by_compute|]). apply good_ci3. Qed.
Lemma chatting_in_task_phase : in_task_phase initiator_inv chatting.
Proof. split; [apply get_initiator_inv; [by_compute|apply good_ci6]|vm_compute; reflexivity]. Qed.

Definition hello_value : Value := Value.Map
  [(Value.from_string "type", Value.from_string "msg"); (Value.from_string "text", Value.from_string "hello")].
Definition hello_frame : OwnedMessage := OwnedMessage.Binary (wire (out (encode_task_message hello_value
  (get_responder (state_of cr4)) world))).
Abbreviation app := (Chat (InitiatorSignaling ChatTask) script (list Event) queue).
Definition chatting_loop : ChatTask * TaskLoop (InitiatorSignaling ChatTask) script (list Event) queue :=
  match task_loop ([hello_frame], []) chatting [] with
  | Ok tl => tl
  | _ => (ti, mkTaskLoop chatting ([], []) [] None None None Waiting false false false false)
  end.
Definition app0 : app := chat_app (chat_start chatting_loop.2 chatting_loop.1 mpsc_unbounded).
Definition app1 : app := ch_set_loop (post (reader_turn (ch_loop app0) world)) app0.
Definition app2 : app := ch_set_state (post (chat_turn (ch_state app1) world)) app1.
Definition app3 : app := ch_set_state
  (post (spawned_turn [] [] (ChatMessage.Msg "hello") (ch_state app2) world)) app2.
Definition app4 : app := post (receive_turn app3 world).
Definition chat_labels : list (list TaskMessage * list ChatMessage) :=
  [([hello], []); ([], []); ([], []); ([], [ChatMessage.Msg "hello"])].
Lemma app_started : chat_started fst initiator_inv app0.
Proof.
  exists ([hello_frame], []), chatting, [], chatting_loop.1, chatting_loop.2.
  split_and!; [vm_compute; reflexivity|exact chatting_in_task_phase|by_compute|reflexivity].
Qed.
Lemma app_runs : traces (chat_event items) app0 chat_labels app4.
Proof.
  change chat_labels with (((([] ++ [([hello], [])]) ++ [([], [])]) ++ [([], [])]) ++ [([], [ChatMessage.Msg "hello"])]).
  apply (traces_snoc _ _ _ app3); [apply (traces_snoc _ _ _ app2); [apply (traces_snoc _ _ _ app1);
    [apply (traces_snoc _ _ _ app0); [constructor|]|]|]|]; (split; [|vm_compute; reflexivity]).
  - apply (program_reader _ world _ world); vm_compute; reflexivity.
  - apply program_app, app_task, (chat_step_handler _ world _ world); vm_compute; reflexivity.
  - apply program_app, app_task, (chat_step_spawned _ [] (ChatMessage.Msg "hello") [] world _ world);
      vm_compute; reflexivity.
  - apply program_app, (app_receives _ world _ world); vm_compute; reflexivity.
Qed.

Lemma chat_messages_witness : ch_screen app4 = ["r3spond3r> hello"]
  ∧ (∀ w, ∃ c', chat_turn (ch_state app4) w = (Ok tt, c', w))
  ∧ ∃ lost, [ChatMessage.Msg "hello"] ++ lost ≡ₚ [ChatMessage.Msg "hello"]
    ∧ (ch_receive_loop app4 = true → lost = on_the_way items (ch_state app4)
        ++ omap chat_view (arrived items (ch_state app4))).
Proof.
  split; [vm_compute; reflexivity|].
  exact (chat_messages_conserved fst snd id items open initiator_inv app0 chat_labels app4 app_started app_runs).
Defined.

Lemma typed_text_witness : ∃ m a',
  send_line "hello" (app_of [] [] []) world = (Ok Continue, a', world)
  ∧ ch_screen a' = [] ++ ["initiat0r> hello"]
  ∧ items _ (tl_outgoing (cs_loop (ch_state a'))) = [] ++ [m]
  ∧ sendable (Some chat_supported_types) m ∧ chat_view m = Some (ChatMessage.Msg "hello").
Proof. refine (typed_text_sent items open "hello" (app_of [] [] []) world _ _ _ _ _); [reflexivity..|by_compute]. Defined.

Lemma send_line_witness : is_panic (out (send_line "/nick" (app_of [] [] []) world)) = false.
Proof. refine (send_line_total items open "/nick" (app_of [] [] []) world _ _); reflexivity. Defined.

Definition closed_behind : Chat unit unit unit queue :=
  app_of [hello; TaskMessage.Close CloseCode.WsGoingAway] [] [].
Lemma disconnect_overtakes_witness : ∃ a', rtc app_step closed_behind a' ∧ ch_receive_loop a' = false
  ∧ cs_spawned (ch_state a') = [ChatMessage.Msg "hello"]
  ∧ open _ (cs_messages (ch_state a')) = false
  ∧ ch_screen a' = ch_screen closed_behind
    ++ ["*** Connection with peer closed, reason: " +:+ CloseCode.to_string CloseCode.WsGoingAway;
        "*** Use Ctrl+C to exit"].
Proof.
  refine (disconnect_overtakes_text items open "hello" CloseCode.WsGoingAway closed_behind world
    _ _ _ _ _ _ _); reflexivity.
Defined.

Definition quitting : Chat unit unit unit queue := app_of [] [ChatMessage.Msg "late"] ["/quit"].
Lemma message_after_quit_witness : ∃ a', rtc app_step quitting a'
  ∧ ch_receive_loop a' = true ∧ ch_tui a' = false
  ∧ out (receive_turn a' world)
    = Panic ("called `Result::unwrap()` on an `Err` value: " +:+ cb_send_error_debug).
Proof.
  refine (message_after_quit_panics items open [] (ChatMessage.Msg "late") [] quitting world
    _ _ _ _ _); reflexivity.
Defined.

Definition leaving : Chat (InitiatorSignaling ChatTask) script (list Event) queue :=
  ch_set_lines (Some ["/quit"]) (chat_app (chat_start (mkTaskLoop awaiting ([], []) [] (Some []) (Some [])
    (Some []) Waiting true true true true) ti (Some []))).
Lemma quit_never_ends_witness : ∃ a1, rtc program_step leaving a1 ∧ ch_send_loop a1 = false
  ∧ ch_quit a1 = true ∧ tl_reader (ch_loop a1) = false
  ∧ ∀ a2, rtc program_step a1 a2 → main_done a2 = false ∧ receive_turn a2 world = (Ok tt, a2, world).
Proof. refine (quit_never_ends items open [] leaving world _ _ _ _ _ _ _ _ _ _); reflexivity. Defined.

(** *** An invitation *)

Definition second : Duration := mkDuration 1 0.
Definition inviting_run := chat_initiator (St := unit) (E := SaltyError) (λ _, None) initiator_keys second
  false tt world.
Definition inviting : InitiatorSignaling ChatTask :=
  match out inviting_run with Ok (s, _) => s | _ => awaiting end.
Definition shown : option string := match out inviting_run with Ok (_, t) => t | _ => None end.
Definition arguments (name : string) : option string :=
  if bool_decide (name = "path") then Some (public_key_hex initiator_keys)
  else if bool_decide (name = "authtoken") then shown else None.
Definition after_inviting : env := world_of inviting_run.
Lemma invitation_made : chat_initiator (E := SaltyError) (λ _, None) initiator_keys second false tt world
  = (Ok (inviting, shown), tt, after_inviting).
Proof. vm_compute. reflexivity. Qed.

Lemma invitation_witness :
  constructed (λ r, ini_permanent_key (rs_initiator r.1) = public_key initiator_keys
      ∧ auth_token r.1 = auth_token inviting ∧ is_Some (auth_token inviting)
      ∧ ∀ host port, connect_url host port r.1 = connect_url host port inviting)
    (out ((path ← chat_path (E := SaltyError) arguments Role.Responder responder_keys;
      chat_responder arguments responder_keys path second false) tt after_inviting)).
Proof.
  refine (invitation_accepted (λ _, None) arguments initiator_keys responder_keys second second tt tt
    world after_inviting inviting shown tt after_inviting _ _ _ _).
  - apply (bool_decide_eq_true_1 (wf_array _ _)); vm_compute; reflexivity.
  - exact invitation_made.
  - reflexivity.
  - reflexivity.
Defined.
End ChatWitnesses.
