(* ===== verification/ChatMain.v ===== *)
(** * The main function of the chat example

    From the words of the command line to the start of the user interface: the
    declaration of the command line, the setup of the client, what is printed
    about it, and the connection with the two handshakes (examples/chat/main.rs).

    Parameters: the command line parser (crate clap), the preparation of logging,
    reactor and TLS, and what Chat.v and Transport.v leave open.  The standard
    output is a list of the lines printed; the error of a step is the exit code
    with which it ends the process. *)

From Stdlib Require Import Ascii.
From S2P Require Import Prelude Text External Errors Types Csn Cookie Nonce Crypto Tasks Messages.
From S2P Require Import Boxes Context Signaling SignalingSpec SignalingSafe Runs Initiator.
From S2P Require Import InitiatorSafe Responder ResponderSafe Typing Client ClientProps Transport.
From S2P Require Import ReferenceCodec Actions Handshake TaskLoop TaskLoopProps.
From S2P Require Import ChatTask Chat ChatProps.

(** ** The command line *)

(** What the program declares of an argument, of a subcommand and of itself. *)
Record Arg := mkArg {
  arg_name : string;
  arg_short : option string;
  arg_long : option string;
  arg_aliases : list string;
  arg_takes_value : bool;
  arg_value_name : string;
  arg_required : bool;
  arg_default : option string;
  arg_help : string;
}.
Record SubCommand := mkSubCommand { sub_name : string; sub_about : string; sub_args : list Arg }.
Record CliApp := mkCliApp {
  cli_name : string;
  cli_author : string;
  cli_about : string;
  cli_subcommands : list SubCommand;
}.

#[global] Instance Arg_eq_dec : EqDecision Arg.
Proof. solve_decision. Defined.
#[global] Instance SubCommand_eq_dec : EqDecision SubCommand.
Proof. solve_decision. Defined.

Definition ARG_PATH : string := "path".
Definition ARG_RESPONDER_KEY : string := "responder_key".
Definition ARG_PRIVATE_KEY : string := "private_key".
Definition ARG_AUTHTOKEN : string := "authtoken".
Definition ARG_PING_INTERVAL : string := "ping_interval".

Definition arg_ping_interval : Arg :=
  mkArg ARG_PING_INTERVAL (Some "i") None [] true "SECONDS" false (Some "60")
    "The WebSocket ping interval (set to 0 to disable pings)".
Definition arg_private_key : Arg :=
  mkArg ARG_PRIVATE_KEY None (Some "private-key") [] true "PRIVATE_KEY" true None
    "The own private key (hex encoded)".
Definition arg_responder_key : Arg :=
  mkArg ARG_RESPONDER_KEY None (Some "responder-key") [] true "RESPONDER_KEY" true None
    "The trusted responder public key (hex encoded)".
Definition arg_path : Arg :=
  mkArg ARG_PATH None (Some "path") [] true "PATH" true None
    "The websocket path (hex encoded public key of the initiator)".
Definition arg_authtoken : Arg :=
  mkArg ARG_AUTHTOKEN None (Some "auth-token") ["token"; "authtoken"] true "AUTHTOKEN" true None
    "The auth token (hex encoded)".

Definition sub_initiator : SubCommand :=
  mkSubCommand "initiator" "Start chat as initiator" [arg_ping_interval].
Definition sub_initiator_trusted : SubCommand :=
  mkSubCommand "initiator_trusted" "Start chat as initiator with a trusted responder key"
    [arg_private_key; arg_responder_key; arg_ping_interval].
Definition sub_responder : SubCommand :=
  mkSubCommand "responder" "Start chat as responder" [arg_path; arg_authtoken; arg_ping_interval].
Definition sub_responder_trusted : SubCommand :=
  mkSubCommand "responder_trusted" "Start chat as responder with a trusted initiator key"
    [arg_path; arg_private_key; arg_ping_interval].

Definition chat_cli : CliApp :=
  mkCliApp "SaltyRTC Test Client" "Danilo Bargen <mail@dbrgn.ch>" "Test client for SaltyRTC."
    [sub_initiator; sub_initiator_trusted; sub_responder; sub_responder_trusted].

(** The parser: the subcommand given, if any, with the value of each of its
    arguments; or the end of the process, on a usage error or a request for help. *)
Inductive Parsed :=
  | Matched (subcommand : option (string * (string → option string)))
  | Exits (code : Z).
Class Clap := { get_matches : CliApp → list string → Parsed }.

(** A word that is taken as the value of an option. *)
Definition plain_value (v : string) : bool :=
  match v with EmptyString => false | String c _ => negb (char_code c =? 45) end.

(** The command line [--long value ..] for arguments with their values. *)
Definition long_option (a : Arg) : string := "--" +:+ default "" (arg_long a).
Definition option_words (given : list (Arg * string)) : list string :=
  concat ((λ '(a, v), [long_option a; v]) <$> given).
(** The value of an argument: the one given or the default one. *)
Definition value_given (given : list (Arg * string)) (a : Arg) : option string :=
  match list_find (λ g, g.1 = a) given with Some (_, g) => Some g.2 | None => arg_default a end.

(** Names and long options, aliases included, are not shared. *)
Definition arg_longs (a : Arg) : list string := option_list (arg_long a) ++ arg_aliases a.
Definition wf_cli (app : CliApp) : Prop :=
  NoDup (sub_name <$> cli_subcommands app)
  ∧ Forall (λ s, NoDup (arg_name <$> sub_args s) ∧ NoDup (concat (arg_longs <$> sub_args s))
      ∧ Forall (λ l, l ∉ ["help"; "version"]) (concat (arg_longs <$> sub_args s)))
    (cli_subcommands app).
#[export] Instance wf_cli_dec app : Decision (wf_cli app).
Proof. unfold wf_cli. apply _. Defined.

(** What clap documents: a subcommand reported is a declared one, and its
    arguments that are required or have a default have a value; and options
    written as [--long value], each at most once and none that is required
    missing, have the values given. *)
Class ClapLaws `{!Clap} : Prop := {
  matched_declared app words name v : wf_cli app → get_matches app words = Matched (Some (name, v)) →
    ∃ sub, sub ∈ cli_subcommands app ∧ sub_name sub = name ∧ ∀ a, a ∈ sub_args sub →
      arg_takes_value a = true → arg_required a = true ∨ is_Some (arg_default a) →
      is_Some (v (arg_name a));
  matched_options app sub given : wf_cli app → sub ∈ cli_subcommands app →
    NoDup given.*1 →
    Forall (λ g, g.1 ∈ sub_args sub ∧ is_Some (arg_long g.1) ∧ arg_takes_value g.1 = true
      ∧ plain_value g.2 = true) given →
    Forall (λ a, arg_required a = true → a ∈ given.*1) (sub_args sub) →
    ∃ v, get_matches app (sub_name sub :: option_words given) = Matched (Some (sub_name sub, v))
      ∧ ∀ a, a ∈ sub_args sub → arg_takes_value a = true → v (arg_name a) = value_given given a;
}.

(** ** Logging and TLS *)

Inductive LevelFilter := Info | Trace.
(** An appender by its name, with the pattern of its lines, the least level it
    lets through and the file it writes to, if it is one. *)
Record Appender := mkAppender {
  appender_name : string;
  appender_pattern : string;
  appender_threshold : option LevelFilter;
  appender_file : option string;
}.
(** A configuration: the appenders, the levels of the two loggers, and the
    appenders and the level of the root logger. *)
Record LogConfig := mkLogConfig {
  log_appenders : list Appender;
  log_loggers : list (string * LevelFilter);
  log_root_appenders : list string;
  log_root_level : LevelFilter;
}.

Inductive TlsProtocol := Tlsv10.
Record TlsConfig (Certificate : Type) := mkTlsConfig {
  tls_min_version : option TlsProtocol;
  tls_max_version : option TlsProtocol;
  tls_root_certificate : Certificate;
}.
Arguments mkTlsConfig {Certificate}.

(** What the process takes from its surroundings (crates log4rs, tokio-core and
    native-tls and the file system): a log file opened for writing, a
    configuration put to use for the first time or in place of the last one, the
    reactor, the content of a file, a certificate and a TLS connector.  A failure is given by its text. *)
Class ChatHost `{!Env} := {
  Certificate : Type;
  open_log : string → env → (unit + string) * env;
  build_config : LogConfig → unit + string;
  init_config : LogConfig → env → (unit + string) * env;
  core_new : env → (unit + string) * env;
  file_open : string → env → (unit + string) * env;
  read_to_end : string → env → (bytes + string) * env;
  certificate_from_pem : bytes → Certificate + string;
  tls_connector : TlsConfig Certificate → unit + string;
}.

(** ** The setup *)

(** The client of either role. *)
Inductive ChatClient :=
  | AsInitiator (s : InitiatorSignaling ChatTask)
  | AsResponder (s : ResponderSignaling ChatTask).

(** What [main] holds when it connects. *)
Record Setup := mkSetup {
  su_role : Role;
  su_trusted : bool;
  su_keypair : KeyPair;
  su_path : string;
  su_token : option string;
  su_salty : ChatClient;
}.

Section setup.
Context `{!Env, !Sodium, !HexCodec, !ValueDebug, !ChatEnv, !Clap, !ChatHost}.
Abbreviation PM := (M env (list string) Z).

Definition println (line : string) : PM unit := mmodify (λ printed, printed ++ [line]).
Definition exit {A} (code : Z) : PM A := throw code.

Definition chat_subcommand (words : list string) : PM (string * (string → option string)) :=
  match get_matches chat_cli words with
  | Exits code => exit code
  | Matched (Some m) => mret m
  | Matched None =>
      _ ← println "Missing subcommand.";
      _ ← println "Use -h or --help to see usage.";
      exit 1
  end.

Definition chat_known_role (name : string) : PM (Role * bool) :=
  match chat_role name with
  | Some r => mret r
  | None => _ ← println ("Invalid subcommand: " +:+ name); exit 1
  end.

(** [unwrap], [expect] and [unwrap_or_else] with a panic, by the prefix of the
    message. *)
Definition or_panic {A} (prefix : string) (r : A + string) : PM A :=
  match r with inl a => mret a | inr e => panic (prefix +:+ e) end.
Definition unwrap_err_prefix : string := "called `Result::unwrap()` on an `Err` value: ".

Definition log_file (role : Role) : string :=
  match role with Role.Initiator => "chat.initiator.log" | Role.Responder => "chat.responder.log" end.
Definition log_config (role : Role) (log_to_stdout : bool) : LogConfig :=
  let format := "{d(%Y-%m-%dT%H:%M:%S%.3f)} [{l:<5}] {m} (({f}:{L})){n}" in
  mkLogConfig
    [mkAppender "stdout" format (Some Info) None;
     mkAppender "file" format None (Some (log_file role))]
    [("saltyrtc_client", Trace); ("chat", Trace)]
    (if log_to_stdout then ["stdout"; "file"] else ["file"]) Info.
Definition setup_logging (role : Role) (log_to_stdout : bool) : PM LogConfig :=
  file ← mworld (open_log (log_file role));
  _ ← or_panic unwrap_err_prefix file;
  let config := log_config role log_to_stdout in
  _ ← or_panic unwrap_err_prefix (build_config config);
  mret config.

(** The server's certificate, and the connector that trusts it. *)
Definition chat_tls : PM unit :=
  opened ← mworld (file_open "saltyrtc.crt");
  _ ← or_panic "Could not open saltyrtc.crt: " opened;
  content ← mworld (read_to_end "saltyrtc.crt");
  server_cert_bytes ← or_panic "Could not read saltyrtc.crt: " content;
  server_cert ← or_panic "Problem with CA cert: " (certificate_from_pem server_cert_bytes);
  or_panic "Could not initialize TlsConnector: "
    (tls_connector (mkTlsConfig (Some Tlsv10) None server_cert)).

Definition chat_prepare (role : Role) : PM unit :=
  config ← setup_logging role true;
  r ← mworld (init_config config);
  _ ← or_panic unwrap_err_prefix r;
  r ← mworld core_new;
  _ ← or_panic unwrap_err_prefix r;
  chat_tls.

(** The client and the token to show, by the role. *)
Definition chat_client (value_of : string → option string) (role : Role) (is_trusted : bool)
    (keypair : KeyPair) (path : string) (ping_interval : Duration) : PM (ChatClient * option string) :=
  match role with
  | Role.Initiator =>
      '(salty, auth_token_hex) ← chat_initiator value_of keypair ping_interval is_trusted;
      mret (AsInitiator salty, auth_token_hex)
  | Role.Responder =>
      '(salty, auth_token_hex) ← chat_responder value_of keypair path ping_interval is_trusted;
      mret (AsResponder salty, auth_token_hex)
  end.

(** From the values of the arguments to the client. *)
Definition chat_configure (value_of : string → option string) (role : Role) (is_trusted : bool)
    : PM Setup :=
  keypair ← chat_keypair value_of is_trusted;
  path ← chat_path value_of role keypair;
  ping_interval ← chat_ping_interval value_of;
  '(salty, auth_token_hex) ← chat_client value_of role is_trusted keypair path ping_interval;
  mret (mkSetup role is_trusted keypair path auth_token_hex salty).

Definition chat_setup (words : list string) : PM Setup :=
  '(name, value_of) ← chat_subcommand words;
  '(role, is_trusted) ← chat_known_role name;
  _ ← chat_prepare role;
  chat_configure value_of role is_trusted.

(** *** What is printed about it *)

Definition newline : string := String (ascii_of_nat 10) EmptyString.
Definition escape : string := String (ascii_of_nat 27) EmptyString.
Definition stars : string := "******************************".
(** A backslash at the end of a line, and the next line indented. *)
Definition continued : string := " \" +:+ newline +:+ "    ".

(** The command with which a peer connects. *)
Definition peer_command (su : Setup) : string :=
  match su_role su, su_token su with
  | Role.Initiator, Some ath => "cargo run --example chat -- responder" +:+ continued
      +:+ "--path " +:+ su_path su +:+ continued +:+ "--auth-token " +:+ ath
  | Role.Initiator, None => "cargo run --example chat -- responder_trusted" +:+ continued
      +:+ "--path " +:+ su_path su +:+ continued +:+ "--private-key XXX"
  | Role.Responder, Some _ => "cargo run --example chat -- initiator"
  | Role.Responder, None => "cargo run --example chat -- initiator_trusted" +:+ continued
      +:+ "--responder-key " +:+ public_key_hex (su_keypair su) +:+ continued +:+ "--private-key XXX"
  end.

Definition banner (su : Setup) : list string := [
  newline +:+ escape +:+ "[32m" +:+ stars;
  "Connecting as " +:+ Role.role_to_string (su_role su) +:+ " ("
    +:+ (if su_trusted su then "trusted" else "not trusted") +:+ ")";
  "";
  "   Own permanent public key: " +:+ public_key_hex (su_keypair su);
  "  Own permanent private key: " +:+ private_key_hex (su_keypair su);
  "             Signaling path: " +:+ su_path su;
  match su_token su with
  | Some auth_token => "                 Auth token: " +:+ auth_token
  | None => "Using trusted key"
  end;
  "";
  "To connect with a peer:";
  peer_command su;
  stars +:+ escape +:+ "[0m" +:+ newline
].

(** [main] up to the connection. *)
Definition chat_start_up (words : list string) : PM Setup :=
  su ← chat_setup words;
  _ ← mfor (λ _ line, println line) tt (banner su);
  mret su.
End setup.

(** ** The connection and the handshakes *)

Section session.
Context {S C Ch Url : Type} {Q : Type → Type} `{!Env, !Sodium, !HexCodec, !ValueDebug, !ChatEnv}.
Context `{!ByteOrder, !Rmps, !Signaling ChatTask S, !WsClient C, !EventChannel Ch, !Mpsc Q}.
Context `{!WebSocketBuilder C Url, !ChatHost}.
Abbreviation PM := (M env (list string) Z).



End session.

Section main.
Context {C Ch Url : Type} {Q : Type → Type} `{!Env, !Sodium, !HexCodec, !ValueDebug, !ChatEnv}.
Context `{!ByteOrder, !Rmps, !WsClient C, !EventChannel Ch, !Mpsc Q, !WebSocketBuilder C Url}.
Context `{!Clap, !ChatHost}.


(** The end of [main], once the main future has ended and the thread of the
    interface has; its error carries nothing, and a panic of the thread is
    unwrapped. *)
Definition chat_end (r : unit + unit) (tui_thread : unit + string) : M env (list string) Z unit :=
  _ ← match r with
    | inl _ => println "Success."
    | inr _ => _ ← println "Main loop exited with an error: ()"; exit 1
    end;
  or_panic unwrap_err_prefix tui_thread.

End main.

(** ** Properties of the setup *)

(** The text of a value, if there is one, is accepted. *)
Definition readable (v : string → option string) (name : string) (ok : string → bool) : bool :=
  match v name with Some x => ok x | None => true end.
(** The values given for the arguments the role uses can be read. *)
Definition values_valid `{!Sodium, !HexCodec, !ChatEnv} (v : string → option string) (role : Role)
    (is_trusted : bool) : bool :=
  readable v ARG_PING_INTERVAL (λ x, bool_decide (is_Some (parse_u64 x)))
  && (negb is_trusted || readable v ARG_PRIVATE_KEY (λ x, is_ok (private_key_from_hex_str x)))
  && match role with
     | Role.Initiator =>
         negb is_trusted || readable v ARG_RESPONDER_KEY (λ x, is_ok (public_key_from_hex_str x))
     | Role.Responder =>
         readable v ARG_PATH (λ x, is_ok (public_key_from_hex_str (to_lowercase x)))
         && (is_trusted || readable v ARG_AUTHTOKEN (λ x, is_ok (auth_token_from_hex_str x)))
     end.

(** A value for every argument the role uses. *)
Definition values_present (v : string → option string) (role : Role) (is_trusted : bool) : Prop :=
  is_Some (v ARG_PING_INTERVAL) ∧ (is_trusted = true → is_Some (v ARG_PRIVATE_KEY))
  ∧ match role with
    | Role.Initiator => is_trusted = true → is_Some (v ARG_RESPONDER_KEY)
    | Role.Responder => is_Some (v ARG_PATH) ∧ (is_trusted = false → is_Some (v ARG_AUTHTOKEN))
    end.

Lemma wf_chat_cli : wf_cli chat_cli.
Proof. apply (bool_decide_eq_true_1 (wf_cli chat_cli)). by vm_compute. Qed.

Section setup_props.
Context `{!Env, !Sodium, !SodiumLaws, !EnvLaws, !HexCodec, !HexCodecLaws, !ValueDebug, !ChatEnv}.
Context `{!ChatEnvLaws, !Clap, !ClapLaws, !ChatHost}.

(** The parser reports only subcommands [main] knows, with all they need. *)
Lemma matched_role words name v : get_matches chat_cli words = Matched (Some (name, v)) →
  ∃ role is_trusted, chat_role name = Some (role, is_trusted) ∧ values_present v role is_trusted.
Proof.
  intros Hm. destruct (matched_declared _ _ _ _ wf_chat_cli Hm) as (sub & Hs & <- & Hv).
  assert (∀ a, a ∈ sub_args sub → arg_takes_value a && (arg_required a || bool_decide (is_Some (arg_default a))) = true →
    is_Some (v (arg_name a))) as Hp.
  { intros a Ha [Ht Hr]%andb_true_iff. apply Hv; [done..|]. apply orb_true_iff in Hr as [Hr|Hr]; [by left|right].
    by apply bool_decide_eq_true_1 in Hr. }
  clear Hv. simpl in Hs.
  repeat (apply elem_of_cons in Hs as [->|Hs]); [..|by apply elem_of_nil in Hs];
    eexists _, _; (split; [reflexivity|]); unfold values_present; split_and!;
    try done; intros;
    first [apply (Hp arg_ping_interval)|apply (Hp arg_private_key)|apply (Hp arg_responder_key)
      |apply (Hp arg_path)|apply (Hp arg_authtoken)]; first [reflexivity|set_solver].
Qed.

(** The authentication of a new initiator. *)
Lemma initiator_new_auth {T S E} `{!Task T} kp (tasks : Tasks T) trusted server_key ping (s0 : S) :
  wp (E := E) (initiator_signaling_new kp tasks trusted server_key ping) s0 (λ o _, match o with
    | Ok s => match trusted with
      | Some key => auth_token s = None
      | None => ∃ t, auth_token s = Some t ∧ wf_array 32 (secret_key_bytes t)
      end
    | _ => True
    end).
Proof.
  unfold initiator_signaling_new. destruct trusted.
  - repeat wp_step. apply wp_server_context_new; [|done]. intros c _. by repeat wp_step.
  - unfold auth_token_new. repeat (wp_step || (apply wp_init; [|done])). apply wp_server_context_new; [|done].
    intros c _. repeat wp_step. eexists. split; [done|]. exact (secretbox_gen_key_wf w).
Qed.

(** What the setup must find unreadable to panic, apart from a failing libsodium. *)
Abbreviation PM := (M env (list string) Z).
Implicit Types v : string → option string.

Lemma unwrap_not_ok {E A} (o : outcome SaltyError A) (Q : outcome E A → Prop) :
  (∀ a, o = Ok a → Q (Ok a)) → (∀ m, is_ok o = false → Q (Panic m)) → Q (unwrap o).
Proof. intros Ho Hp. destruct o; simpl; [by apply Ho|by apply Hp..]. Qed.
Lemma expect_ok_not_ok {E A} (o : outcome SaltyError A) msg (Q : outcome E A → Prop) :
  (∀ a, o = Ok a → Q (Ok a)) → (∀ m, is_ok o = false → Q (Panic m)) → Q (expect_ok o msg).
Proof. intros Ho Hp. destruct o; simpl; [by apply Ho|by apply Hp..]. Qed.

Lemma chat_keypair_spec v is_trusted printed :
  (is_trusted = true → is_Some (v ARG_PRIVATE_KEY)) →
  wp (chat_keypair v is_trusted : PM _) printed (λ o _, match o with
    | Ok k => is_trusted = false → wf_keypair k
    | Err _ => False
    | Panic p => unlucky p ∨ is_trusted = true
        ∧ readable v ARG_PRIVATE_KEY (λ x, is_ok (private_key_from_hex_str x)) = false
    end).
Proof.
  intros Hv. unfold chat_keypair, readable. destruct is_trusted.
  - destruct (Hv eq_refl) as [x Hx]. unfold ARG_PRIVATE_KEY in *. rewrite Hx. wp_step. wp_step. simpl.
    wp_step. wp_step. apply unwrap_not_ok; intros; simpl; [by wp_step|by right].
  - apply wp_keypair_new; [done|by left].
Qed.

Lemma chat_ping_interval_spec v printed : is_Some (v ARG_PING_INTERVAL) →
  wp (chat_ping_interval v : PM _) printed (λ o _, match o with
    | Ok _ => True
    | Err _ => False
    | Panic _ => readable v ARG_PING_INTERVAL (λ x, bool_decide (is_Some (parse_u64 x))) = false
    end).
Proof.
  intros [x Hx]. unfold chat_ping_interval, readable. unfold ARG_PING_INTERVAL in *. rewrite Hx.
  wp_step. wp_step. simpl. by repeat wp_step.
Qed.

(** The client of an initiator. *)
Definition initiator_fits (is_trusted : bool) (kp : KeyPair) (r : InitiatorSignaling ChatTask * option string)
    : Prop :=
  initiator_inv r.1 ∧ c_permanent_keypair (is_common r.1) = kp
  ∧ r.2 = (λ t, hex_encode (secret_key_bytes t)) <$> auth_token r.1
  ∧ if is_trusted then auth_token r.1 = None
    else ∃ t, auth_token r.1 = Some t ∧ wf_array 32 (secret_key_bytes t).

Lemma chat_initiator_spec v kp ping is_trusted printed :
  (is_trusted = true → is_Some (v ARG_RESPONDER_KEY)) →
  wp (chat_initiator v kp ping is_trusted : PM _) printed (λ o _, match o with
    | Ok r => initiator_fits is_trusted kp r
    | Err _ => False
    | Panic p => unlucky p ∨ is_trusted = true
        ∧ readable v ARG_RESPONDER_KEY (λ x, is_ok (public_key_from_hex_str x)) = false
    end).
Proof.
  intros Hv. unfold chat_initiator. wp_step. apply wp_built.
  assert (∀ trusted, wp (E := BuilderError) (initiator_signaling_new kp (mkTasks [chat_task_new "initiat0r"])
    trusted None (Some ping)) printed (λ o _, match o with
    | Ok s => initiator_fits (bool_decide (is_Some trusted)) kp
        (s, (λ t, hex_encode (secret_key_bytes t)) <$> auth_token s)
    | Err _ => False
    | Panic p => unlucky p
    end)) as Hnew.
  { intros trusted. eapply wp_mono.
    - apply wp_and; [apply initiator_new_inv|apply (initiator_new_auth _ _ trusted)].
    - intros [s|e|p] s' [Hi Ha]; [|done..]. destruct Hi as (Hi & _ & _ & Hc). unfold initiator_fits.
      split_and!; [done|apply Hc|done|]. by destruct trusted. }
  destruct is_trusted.
  - destruct (Hv eq_refl) as [x Hx]. unfold readable, ARG_RESPONDER_KEY in *. rewrite Hx. wp_step. wp_step.
    simpl. wp_step. wp_step. apply unwrap_not_ok; intros; simpl; [|by right].
    unfold build_initiator_trusted. wp_step. wp_step. simpl. eapply wp_mono; [apply Hnew|].
    intros [s|e|p] s'; simpl; [intros Hs; by wp_step|done|by left].
  - unfold build_initiator. wp_step. wp_step. simpl. eapply wp_mono; [apply Hnew|].
    intros [s|e|p] s'; simpl; [intros Hs; by wp_step|done|by left].
Qed.

(** The authentication of a new responder. *)
Lemma responder_new_auth {T S E} `{!Task T} kp pk token server_key (tasks : Tasks T) ping (s0 : S) :
  wp (E := E) (responder_signaling_new kp pk token server_key tasks ping) s0 (λ o _, match o with
    | Ok s => auth_token s = token
    | _ => True
    end).
Proof.
  unfold responder_signaling_new. wp_step. apply wp_server_context_new; [|done]. intros c _.
  repeat wp_step. apply wp_initiator_context_new; [|done]. intros i _. repeat wp_step. by destruct token.
Qed.

(** The client of a responder. *)
Definition responder_fits v (is_trusted : bool) (kp : KeyPair) (path : string)
    (r : ResponderSignaling ChatTask * option string) : Prop :=
  responder_state_inv r.1 ∧ c_permanent_keypair (rs_common r.1) = kp
  ∧ public_key_from_hex_str path = Ok (ini_permanent_key (rs_initiator r.1))
  ∧ if is_trusted then r.2 = None ∧ auth_token r.1 = None
    else ∃ hex t, v ARG_AUTHTOKEN = Some hex ∧ r.2 = Some hex
      ∧ auth_token_from_hex_str hex = Ok t ∧ auth_token r.1 = Some t.

Lemma chat_responder_spec v kp path ping is_trusted printed :
  (is_trusted = false → is_Some (v ARG_AUTHTOKEN)) →
  wp (chat_responder v kp path ping is_trusted : PM _) printed (λ o _, match o with
    | Ok r => responder_fits v is_trusted kp path r
    | Err _ => False
    | Panic p => unlucky p ∨ is_ok (public_key_from_hex_str path) = false
        ∨ is_trusted = false ∧ readable v ARG_AUTHTOKEN (λ x, is_ok (auth_token_from_hex_str x)) = false
    end).
Proof.
  intros Hv. unfold chat_responder. wp_step. wp_step. apply unwrap_not_ok; intros pk Hpk; simpl; [|by right; left].
  assert (∀ token, wp (E := BuilderError) (responder_signaling_new kp pk token None
    (mkTasks [chat_task_new "r3spond3r"]) (Some ping)) printed (λ o _, match o with
    | Ok s => responder_state_inv s ∧ c_permanent_keypair (rs_common s) = kp
        ∧ ini_permanent_key (rs_initiator s) = pk ∧ auth_token s = token
    | Err _ => False
    | Panic p => unlucky p
    end)) as Hnew.
  { intros token. eapply wp_mono.
    - apply wp_and; [apply responder_new_inv|apply (responder_new_auth _ _ token)].
    - intros [s|e|p] s' [Hi Ha]; [|done..]. destruct Hi as (Hi & Hk & _ & Hc). by split_and!; [|apply Hc|..]. }
  unfold responder_fits. destruct is_trusted.
  - wp_step. apply wp_built. unfold build_responder_trusted. wp_step. wp_step. simpl.
    eapply wp_mono; [apply Hnew|]. intros [s|e|p] s'; simpl; [|done|by left].
    intros (? & ? & <- & ?). by wp_step.
  - destruct (Hv eq_refl) as [x Hx]. unfold readable, ARG_AUTHTOKEN in *. rewrite Hx. wp_step. wp_step. simpl.
    wp_step. wp_step. apply expect_ok_not_ok; intros t Ht; simpl; [|by right; right].
    wp_step. apply wp_built. unfold build_responder. wp_step. wp_step. simpl.
    eapply wp_mono; [apply Hnew|]. intros [s|e|p] s'; simpl; [|done|by left].
    intros (? & ? & <- & ?). wp_step. split_and!; [done..|]. by exists x, t.
Qed.

(** What [main] holds after the setup from the values given. *)
Definition setup_fits v (su : Setup) : Prop :=
  (su_trusted su = false → wf_keypair (su_keypair su))
  ∧ match su_salty su with
    | AsInitiator s => su_role su = Role.Initiator ∧ su_path su = public_key_hex (su_keypair su)
        ∧ initiator_fits (su_trusted su) (su_keypair su) (s, su_token su)
    | AsResponder s => su_role su = Role.Responder ∧ to_lowercase <$> v ARG_PATH = Some (su_path su)
        ∧ responder_fits v (su_trusted su) (su_keypair su) (su_path su) (s, su_token su)
    end.

(** The preparation of the process failed with this message. *)
Definition host_panics (p : string) : Prop :=
  ∃ role printed w, out (chat_prepare role printed w) = Panic p ∨ out (setup_logging role false printed w) = Panic p.

(** The preparation of the process ends well or with a panic. *)
Lemma wp_or_panic {A} prefix (r : A + string) printed (Q : outcome Z A → list string → Prop) :
  (∀ a, Q (Ok a) printed) → (∀ p, Q (Panic p) printed) → wp (or_panic prefix r : PM A) printed Q.
Proof. intros Ho Hp. unfold or_panic. by destruct r; wp_step. Qed.
Lemma wp_setup_logging role log_to_stdout printed (Q : outcome Z LogConfig → list string → Prop) :
  (∀ config, Q (Ok config) printed) → (∀ p, Q (Panic p) printed) →
  wp (setup_logging role log_to_stdout) printed Q.
Proof.
  intros Ho Hp. unfold setup_logging. by repeat (wp_step || apply wp_or_panic; intros).
Qed.
Lemma chat_prepare_spec role printed : wp (chat_prepare role) printed (λ o _,
  match o with Ok _ => True | Err _ => False | Panic p => host_panics p end).
Proof.
  assert (wp (chat_prepare role) printed (λ o _, ∀ code, o ≠ Err code)) as Hp.
  { unfold chat_prepare. wp_step. apply wp_setup_logging; intros; [|done].
    unfold chat_tls. by repeat (wp_step || apply wp_or_panic; intros). }
  intros w. specialize (Hp w). destruct (out _) as [[]|code|p] eqn:He; [done|by eapply Hp|].
  exists role, printed, w. by left.
Qed.

Lemma chat_configure_spec v role is_trusted printed : values_present v role is_trusted →
  wp (chat_configure v role is_trusted) printed (λ o _, match o with
    | Ok su => su_role su = role ∧ su_trusted su = is_trusted ∧ setup_fits v su
    | Err _ => False
    | Panic p => unlucky p ∨ values_valid v role is_trusted = false
    end).
Proof.
  intros (Hping & Hpriv & Hrest). unfold chat_configure. wp_step.
  eapply wp_mono; [by apply chat_keypair_spec|]. intros [kp|e|p] s1; simpl; [intros Hkp|done|];
    [|intros [Hp|[-> Hx]]; [by left|right]; unfold values_valid; rewrite Hx; by rewrite andb_false_r].
  destruct role; unfold chat_path, chat_client.
  - do 4 wp_step. eapply wp_mono; [by apply chat_ping_interval_spec|]. intros [ping|e|p] s2; simpl; [intros _|done|];
      [|intros Hx; right; unfold values_valid; by rewrite Hx].
    wp_step. wp_step. eapply wp_mono; [by apply chat_initiator_spec|].
    intros [[s tok]|e|p] s3; simpl; [intros Hs|done|]; [by repeat wp_step|].
    intros [Hp|[-> Hx]]; [by left|]. right. unfold values_valid. rewrite Hx. by rewrite andb_false_r.
  - destruct Hrest as [[path Hp] Htok]. unfold ARG_PATH in *. rewrite Hp. wp_step. wp_step. wp_step. simpl. wp_step. simpl.
    wp_step. eapply wp_mono; [by apply chat_ping_interval_spec|]. intros [ping|e|p] s2; simpl; [intros _|done|];
      [|intros Hx; right; unfold values_valid; by rewrite Hx].
    wp_step. wp_step. eapply wp_mono; [by apply chat_responder_spec|].
    intros [[s tok]|e|p] s3; simpl; [intros Hs|done|].
    + wp_step. simpl. wp_step. unfold setup_fits, ARG_PATH. simpl. by rewrite Hp.
    + unfold values_valid.
      assert (readable v ARG_PATH (λ x, is_ok (public_key_from_hex_str (to_lowercase x)))
        = is_ok (public_key_from_hex_str (to_lowercase path))) as -> by (unfold readable, ARG_PATH; by rewrite Hp).
      intros [Hu|[Hx|[-> Hx]]]; [by left|right; rewrite Hx; by rewrite andb_false_r|].
      right. rewrite Hx. simpl. by rewrite !andb_false_r.
Qed.

Lemma chat_setup_spec words printed : wp (chat_setup words) printed (λ o _, match o with
  | Ok su => ∃ name v, get_matches chat_cli words = Matched (Some (name, v))
      ∧ chat_role name = Some (su_role su, su_trusted su) ∧ setup_fits v su
  | Err code => get_matches chat_cli words = Exits code ∨ get_matches chat_cli words = Matched None ∧ code = 1
  | Panic p => unlucky p ∨ host_panics p ∨ ∃ name v role is_trusted,
      get_matches chat_cli words = Matched (Some (name, v)) ∧ chat_role name = Some (role, is_trusted)
      ∧ values_valid v role is_trusted = false
  end).
Proof.
  unfold chat_setup, chat_subcommand, exit, println. wp_step.
  destruct (get_matches chat_cli words) as [[[name v]|]|code] eqn:Hm;
    [|repeat wp_step; by right|wp_step; by left].
  destruct (matched_role _ _ _ Hm) as (role & is_trusted & Hr & Hv).
  wp_step. simpl. wp_step. unfold chat_known_role. rewrite Hr. wp_step. simpl. wp_step.
  eapply wp_mono; [apply chat_prepare_spec|]. intros [[]|e|p] s0 Hh; [|done|right; left; exact Hh].
  cbn [wp_then]. eapply wp_mono; [by apply chat_configure_spec|]. intros [su|e|p] s1; [|done|].
  - intros (<- & <- & Hf). by exists name, v.
  - intros [Hu|Hx]; [by left|]. right; right. by exists name, v, role, is_trusted.
Qed.
End setup_props.

(** ** The invitation *)

(** The words of a command as a shell reads it, if it has no quotes: a backslash
    at the end of a line joins it with the next one. *)
Fixpoint join_lines (s : string) : string :=
  match s with
  | EmptyString => EmptyString
  | String a s' =>
      match s' with
      | String b s'' =>
          if (char_code a =? 92) && (char_code b =? 10) then join_lines s'' else String a (join_lines s')
      | EmptyString => s
      end
  end.
Definition shell_words (s : string) : list string := split_whitespace (join_lines s).

Fixpoint no_backslash (s : string) : bool :=
  match s with EmptyString => true | String a s' => negb (char_code a =? 92) && no_backslash s' end.

Lemma join_lines_cons a s : (char_code a =? 92) = false → join_lines (String a s) = String a (join_lines s).
Proof. intros Ha. simpl. rewrite Ha. by destruct s. Qed.
Lemma join_lines_plain p s : no_backslash p = true → join_lines (p +:+ s) = p +:+ join_lines s.
Proof.
  induction p as [|a p IH]; [done|]. simpl no_backslash. intros [Ha%negb_true_iff Hp]%andb_true_iff.
  change (join_lines (String a (p +:+ s)) = String a (p +:+ join_lines s)). by rewrite join_lines_cons, (IH Hp).
Qed.
Lemma join_lines_continued s : join_lines (continued +:+ s) = "     " +:+ join_lines s.
Proof. by apply (join_lines_plain "     " s). Qed.

(** A hexadecimal number is one word. *)
Lemma hex_digit_whitespace c s : hex_digit_lower c = true → whitespace (String c s) = O.
Proof.
  unfold hex_digit_lower. intros Hc. unfold whitespace. destruct s as [|b [|d s]];
    repeat match goal with |- context [if ?b then _ else _] =>
      let Hb := fresh in destruct b eqn:Hb; [lia|] end; done.
Qed.
#[local] Arguments String.append : simpl nomatch.
Lemma string_app_assoc s1 s2 s3 : (s1 +:+ s2) +:+ s3 = s1 +:+ s2 +:+ s3.
Proof. induction s1 as [|a s1 IH]; [done|]. simpl. by rewrite IH. Qed.
Lemma string_app_nil s : s +:+ EmptyString = s.
Proof. induction s as [|a s IH]; [done|]. simpl. by rewrite IH. Qed.
Lemma split_hex h s cur : hex_lower h = true → split_words (h +:+ s) O cur = split_words s O (cur +:+ h).
Proof.
  revert cur. induction h as [|c h IH]; intros cur; simpl hex_lower; [by rewrite string_app_nil|].
  intros [Hc Hh]%andb_true_iff. change (split_words (String c (h +:+ s)) O cur = split_words s O (cur +:+ String c h)).
  cbn [split_words]. rewrite (hex_digit_whitespace _ _ Hc).
  by rewrite (IH _ Hh), string_app_assoc.
Qed.
Lemma hex_no_backslash h : hex_lower h = true → no_backslash h = true.
Proof.
  induction h as [|c h IH]; [done|]. simpl. unfold hex_digit_lower. intros [Hc Hh]%andb_true_iff.
  rewrite (IH Hh). lia.
Qed.
Lemma hex_word h : hex_lower h = true → h ≠ EmptyString → word h = [h] ∧ plain_value h = true.
Proof. destruct h as [|c h]; [done|]. simpl. unfold hex_digit_lower. intros Hh _. split; [done|]. lia. Qed.

Section invitation_props.
Context `{!Env, !Sodium, !SodiumLaws, !EnvLaws, !HexCodec, !HexCodecLaws, !ValueDebug, !ChatEnv}.
Context `{!ChatEnvLaws, !Clap, !ClapLaws, !ChatHost}.

(** The command an initiator shows, read by a shell. *)
Lemma peer_command_words su tok : su_role su = Role.Initiator → su_token su = Some tok →
  hex_lower (su_path su) = true → su_path su ≠ EmptyString → hex_lower tok = true → tok ≠ EmptyString →
  shell_words (peer_command su)
  = ["cargo"; "run"; "--example"; "chat"; "--"] ++ "responder"
    :: option_words [(arg_path, su_path su); (arg_authtoken, tok)].
Proof.
  intros Hr Ht Hp Hp0 Hh Hh0. unfold shell_words, peer_command. rewrite Hr, Ht.
  destruct (hex_word _ Hp Hp0) as [Hwp _], (hex_word _ Hh Hh0) as [Hwt _].
  rewrite join_lines_plain by done. rewrite join_lines_continued, join_lines_plain by done.
  rewrite join_lines_plain by (by apply hex_no_backslash). rewrite join_lines_continued, join_lines_plain by done.
  rewrite <- (string_app_nil tok) at 1. rewrite join_lines_plain by (by apply hex_no_backslash).
  unfold split_whitespace. simpl. rewrite (split_hex _ _ _ Hp). simpl. rewrite Hwp, (split_hex _ _ _ Hh). simpl.
  rewrite Hwt. by destruct (su_path su +:+ _), (tok +:+ "").
Qed.

(** Everything of the banner is printed. *)
Lemma banner_printed su printed w :
  mfor (λ _ line, println line) tt (banner su) printed w = (Ok tt, printed ++ banner su, w).
Proof.
  revert printed. induction (banner su) as [|line lines IH]; intros printed; simpl; [by rewrite app_nil_r|].
  mred. rewrite IH. by rewrite <- app_assoc.
Qed.
Lemma chat_start_up_run words printed w : chat_start_up words printed w
  = match chat_setup words printed w with
    | (Ok su, printed0, w0) => (Ok su, printed0 ++ banner su, w0)
    | (Err e, printed0, w0) => (Err e, printed0, w0)
    | (Panic p, printed0, w0) => (Panic p, printed0, w0)
    end.
Proof.
  unfold chat_start_up. destruct (chat_setup words printed w) as [[[su|e|p] printed0] w0] eqn:Hs.
  - rewrite (bind_run _ _ _ _ _ _ _ Hs). by rewrite (bind_run _ _ _ _ _ _ _ (banner_printed su printed0 w0)).
  - unfold mbind, M_bind. by rewrite Hs.
  - unfold mbind, M_bind. by rewrite Hs.
Qed.
Lemma wp_chat_start_up words printed (Q : outcome Z Setup → list string → Prop) :
  wp (chat_setup words) printed (λ o s', Q o (match o with Ok su => s' ++ banner su | _ => s' end)) →
  wp (chat_start_up words) printed Q.
Proof.
  intros Hs w. specialize (Hs w). rewrite chat_start_up_run. unfold out, post in *.
  by destruct (chat_setup words printed w) as [[[su|e|p] printed0] w0].
Qed.

(** The hexadecimal form of some bytes. *)
Lemma hex_text n bs : wf_array (Datatypes.S n) bs →
  hex_lower (hex_encode bs) = true ∧ hex_encode bs ≠ EmptyString.
Proof.
  intros [Hl Hw]. split; [by apply hex_encode_lower|]. intros He. apply (f_equal String.length) in He.
  by rewrite hex_encode_length, Hl in He.
Qed.

(** The values of the arguments the command gives. *)
Lemma invited_values pk t : wf_array PUBLICKEYBYTES (pk_bytes pk) → wf_array 32 (secret_key_bytes t) →
  let path := hex_encode (pk_bytes pk) in let tok := hex_encode (secret_key_bytes t) in
  ∃ v, get_matches chat_cli ("responder" :: option_words [(arg_path, path); (arg_authtoken, tok)])
      = Matched (Some ("responder", v))
    ∧ v ARG_PATH = Some path ∧ v ARG_AUTHTOKEN = Some tok ∧ to_lowercase path = path
    ∧ values_valid v Role.Responder false = true.
Proof.
  intros Hpk Ht path tok.
  destruct (hex_text _ _ Hpk) as [Hp Hp0], (hex_text _ _ Ht) as [Hh Hh0].
  destruct (matched_options chat_cli sub_responder [(arg_path, path); (arg_authtoken, tok)])
    as (v & Hm & Hv); [exact wf_chat_cli|simpl; set_solver|simpl..|].
  - apply NoDup_cons; split; [by intros ?%list_elem_of_singleton|apply NoDup_singleton].
  - repeat (apply Forall_cons; split); [..|done]; (split_and!; [simpl; set_solver|done..|by apply hex_word]).
  - repeat (apply Forall_cons; split); [..|done]; intros; simpl; try set_solver; done.
  - exists v. split; [exact Hm|].
    assert (v ARG_PATH = Some path) as Hvp by (by apply (Hv arg_path); [simpl; set_solver|]).
    assert (v ARG_AUTHTOKEN = Some tok) as Hvt by (by apply (Hv arg_authtoken); [simpl; set_solver|]).
    assert (v ARG_PING_INTERVAL = Some "60") as Hvi by (by apply (Hv arg_ping_interval); [simpl; set_solver|]).
    destruct (hex_lower_ascii path Hp) as [Ha Hl].
    assert (to_lowercase path = path) as Hlow by (by rewrite to_lowercase_ascii).
    split_and!; [done..|]. unfold values_valid, readable. rewrite Hvp, Hvt, Hvi, Hlow.
    unfold path, tok. by rewrite public_key_hex_decode, auth_token_hex_decode.
Qed.

(** C29: the invitation an initiator prints works.  The command shown to connect
    as a peer, read by a shell and parsed as the program declares its arguments,
    starts a responder that holds the initiator's public key and token and asks
    any server for the same URL; its setup fails only if libsodium does, by an
    initialisation that fails or by random bytes that are all zero, or if the
    process cannot be prepared. *)
Theorem invitation_works words printed w su printed1 w1 :
  chat_start_up words printed w = (Ok su, printed1, w1) →
  su_role su = Role.Initiator → su_trusted su = false →
  peer_command su ∈ printed1
  ∧ ∃ args, shell_words (peer_command su) = ["cargo"; "run"; "--example"; "chat"; "--"] ++ args
  ∧ ∀ printed' w', match out (chat_start_up args printed' w') with
    | Ok su' => ∃ si sr, su_salty su = AsInitiator si ∧ su_salty su' = AsResponder sr
        ∧ ini_permanent_key (rs_initiator sr) = public_key (su_keypair su)
        ∧ auth_token sr = auth_token si ∧ is_Some (auth_token si)
        ∧ ∀ host port, connect_url host port sr = connect_url host port si
    | Err _ => False
    | Panic p => unlucky p ∨ host_panics p
    end.
Proof.
  rewrite chat_start_up_run. destruct (chat_setup words printed w) as [[[su0|e|p] printed0] w0] eqn:Hs; [|done..].
  intros Heq Hr Ht. simplify_eq. split; [apply elem_of_app; right; simpl; set_solver|].
  pose proof (chat_setup_spec words printed w) as Hf. rewrite Hs in Hf.
  destruct Hf as (name & v & _ & _ & Hkp & Hf). specialize (Hkp Ht).
  destruct su as [role is_trusted kp path tok salty]. simpl in *. subst role is_trusted.
  destruct salty as [si|sr]; [|by destruct Hf].
  destruct Hf as (_ & -> & _ & Hkp' & Htok & t & Hat & Hwt). simpl in *. rewrite Hat in *. subst tok.
  apply wf_keypair_public in Hkp. destruct (hex_text _ _ Hkp) as [Hp Hp0], (hex_text _ _ Hwt) as [Hh Hh0].
  destruct (invited_values _ t Hkp Hwt) as (v' & Hm & Hvp & Hvt & Hlow & Hok).
  eexists ("responder" :: option_words [(arg_path, public_key_hex kp); (arg_authtoken, _)]).
  split; [by apply peer_command_words|]. intros printed'.
  apply (wp_chat_start_up _ _ (λ o _, match o with Ok _ => _ | Err _ => _ | Panic _ => _ end)).
  eapply wp_mono; [apply chat_setup_spec|]. unfold public_key_hex in *. rewrite Hm.
  intros [su|e|p] s'.
  - intros (name' & v2 & Heq & Hrole & _ & Hf). simplify_eq. destruct su as [role is_trusted kp2 path2 tok2 salty].
    simpl in *. injection Hrole as <- <-. destruct salty as [si'|sr]; [by destruct Hf|].
    destruct Hf as (_ & Hpath & _ & _ & Hpk & hex & t' & Hx & _ & Ht' & Hat'). simpl in *.
    rewrite Hvp in Hpath. rewrite Hvt in Hx. simplify_eq/=. rewrite Hlow, public_key_hex_decode in Hpk by done.
    rewrite auth_token_hex_decode in Ht' by done. simplify_eq. exists si, sr.
    split_and!; [congruence..|by eexists|]. intros host port. unfold connect_url. simpl. congruence.
  - intros [|[]]; done.
  - intros [Hu|[Hp'|(name' & v2 & role & tr & Heq & Hrole & Hbad)]]; [by left|by right|].
    simplify_eq. simpl in Hrole. injection Hrole as <- <-. by rewrite Hok in Hbad.
Qed.
End invitation_props.

(** ** The way to the user interface *)

Section connect_wp.
Context {T S C Url : Type} `{!Env, !Sodium, !EnvLaws, !HexCodec, !SignalingBase T S, !WebSocketBuilder C Url}.


End connect_wp.


Section session_props.
Context {S C Ch Url : Type} {Q : Type → Type} `{!Env, !Sodium, !SodiumLaws, !EnvLaws, !HexCodec}.
Context `{!ValueDebug, !ChatEnv, !ByteOrder, !ByteOrderLaws, !Rmps, !RmpsLaws}.
Context `{!Signaling ChatTask S, !WsClient C, !EventChannel Ch, !Mpsc Q, !WebSocketBuilder C Url}.
Context `{!ChatHost}.
Context (incoming sent : C → list OwnedMessage) (reported : Ch → list Event).
Context `{!WsClientLaws C incoming sent, !EventChannelLaws Ch reported}.
Context (I : S → Prop) `{!SignalingSafe ChatTask S I, !SignalingActions ChatTask S I}.





End session_props.

Section main_props.
Context {C Ch Url : Type} {Q : Type → Type} `{!Env, !Sodium, !SodiumLaws, !EnvLaws, !HexCodec}.
Context `{!HexCodecLaws, !ValueDebug, !ChatEnv, !ChatEnvLaws, !ByteOrder, !ByteOrderLaws, !Rmps, !RmpsLaws}.
Context `{!WsClient C, !EventChannel Ch, !Mpsc Q, !WebSocketBuilder C Url, !Clap, !ClapLaws, !ChatHost}.
Context (incoming sent : C → list OwnedMessage) (reported : Ch → list Event).
Context `{!WsClientLaws C incoming sent, !EventChannelLaws Ch reported}.



End main_props.

(** ** Witnesses *)

Module MainWitnesses.
Import Reference ReferenceCodec Handshake ClientWitnesses LoopWitnesses ChatWitnesses.

(** *** A command line parser *)

Definition takes (w : string) (a : Arg) : Prop :=
  arg_takes_value a = true ∧ w ∈ (λ l, "--" +:+ l) <$> arg_longs a.
#[export] Instance takes_dec w a : Decision (takes w a).
Proof. unfold takes. apply _. Defined.

Fixpoint parse_options (args : list Arg) (words : list string) : option (list (Arg * string)) :=
  match words with
  | [] => Some []
  | w :: rest =>
      match rest with
      | x :: rest' =>
          '(_, a) ← list_find (takes w) args;
          guard (plain_value x = true);;
          given ← parse_options args rest';
          Some ((a, x) :: given)
      | [] => None
      end
  end.
Definition find_value (sub : SubCommand) (given : list (Arg * string)) (name : string) : option string :=
  '(_, a) ← list_find (λ a, arg_name a = name) (sub_args sub); value_given given a.
Definition complete (sub : SubCommand) (given : list (Arg * string)) : Prop :=
  NoDup given.*1 ∧ Forall (λ a, arg_required a = true → a ∈ given.*1) (sub_args sub).
#[export] Instance complete_dec sub given : Decision (complete sub given).
Proof. unfold complete. apply _. Defined.

#[export] Instance parser : Clap := {|
  get_matches app words :=
    match words with
    | [] => Matched None
    | name :: rest =>
        match list_find (λ s, sub_name s = name) (cli_subcommands app) with
        | Some (_, sub) =>
            match parse_options (sub_args sub) rest with
            | Some given => if decide (complete sub given) then Matched (Some (name, find_value sub given)) else Exits 1
            | None => Exits 1
            end
        | None => Exits 1
        end
    end;
|}.

(** A field whose values are distinct along a list identifies its elements. *)
Lemma concat_unique {A B} (f : A → list B) l a b x :
  NoDup (concat (f <$> l)) → a ∈ l → b ∈ l → x ∈ f a → x ∈ f b → a = b.
Proof.
  intros Hl Ha Hb Hxa Hxb. induction l as [|c l IH]; [by apply elem_of_nil in Ha|].
  simpl in Hl. apply NoDup_app in Hl as (_ & Hd & Hl).
  assert (∀ d, d ∈ l → x ∈ f d → x ∉ f c) as Hc.
  { intros d Hd' Hx Hx'. apply (Hd _ Hx'). apply list_elem_of_In, in_concat. exists (f d).
    rewrite <- !list_elem_of_In. split; [by apply list_elem_of_fmap_2|done]. }
  apply elem_of_cons in Ha as [->|Ha], Hb as [->|Hb]; [done|..|by apply IH];
    exfalso; by eapply Hc.
Qed.
Lemma fmap_unique {A B} (f : A → B) l a b : NoDup (f <$> l) → a ∈ l → b ∈ l → f a = f b → a = b.
Proof.
  intros Hl [i Hi]%list_elem_of_lookup [j Hj]%list_elem_of_lookup Hf.
  assert (i = j) as <-; [|by simplify_eq].
  apply (NoDup_lookup _ i j (f a) Hl); rewrite list_lookup_fmap; [by rewrite Hi|by rewrite Hj, Hf].
Qed.
Lemma find_unique {A} (P : A → Prop) `{∀ a, Decision (P a)} l a :
  a ∈ l → P a → (∀ b, b ∈ l → P b → b = a) → ∃ i, list_find P l = Some (i, a).
Proof.
  intros Ha HP Hu. destruct (list_find_elem_of P l a Ha HP) as [[i b] Hf]. exists i. rewrite Hf.
  apply list_find_Some in Hf as (Hl & HPb & _). by rewrite (Hu b (list_elem_of_lookup_2 _ _ _ Hl) HPb).
Qed.

Lemma find_value_name sub given a : NoDup (arg_name <$> sub_args sub) → a ∈ sub_args sub →
  find_value sub given (arg_name a) = value_given given a.
Proof.
  intros Hn Ha. unfold find_value.
  destruct (find_unique (λ b, arg_name b = arg_name a) (sub_args sub) a Ha eq_refl) as [i ->]; [|done].
  intros b Hb Heq. by apply (fmap_unique arg_name (sub_args sub)).
Qed.
Lemma parse_written args given : NoDup (concat (arg_longs <$> args)) →
  Forall (λ g, g.1 ∈ args ∧ is_Some (arg_long g.1) ∧ arg_takes_value g.1 = true ∧ plain_value g.2 = true) given →
  parse_options args (option_words given) = Some given.
Proof.
  intros Hn. induction 1 as [|[a x] given (Ha & [l Hl] & Ht & Hx) _ IH]; [done|]. simpl in Ha, Hl, Ht, Hx.
  change (option_words ((a, x) :: given)) with (long_option a :: x :: option_words given). cbn [parse_options].
  assert (l ∈ arg_longs a) as Hla by (unfold arg_longs; rewrite Hl; simpl; set_solver).
  destruct (find_unique (takes (long_option a)) args a Ha) as [i ->].
  - split; [done|]. unfold long_option. rewrite Hl. by apply (list_elem_of_fmap_2 (λ l, "--" +:+ l)).
  - intros b Hb [_ Hw]. unfold long_option in Hw. rewrite Hl in Hw. simpl in Hw.
    apply list_elem_of_fmap in Hw as (l' & Heq & Hl'). apply (inj (String.append "--")) in Heq as <-.
    by apply (concat_unique arg_longs args b a l).
  - simpl. rewrite option_guard_True by done. by rewrite IH.
Qed.

#[export] Instance parser_laws : ClapLaws.
Proof.
  split.
  - intros app [|name' words] name v [_ Hwf]; [done|]. simpl.
    destruct (list_find _ _) as [[i sub]|] eqn:Hf; [|done]. apply list_find_Some in Hf as (Hi & <- & _).
    apply list_elem_of_lookup_2 in Hi. destruct (parse_options _ _) as [given|]; [|done].
    destruct (decide (complete sub given)) as [[_ Hreq]|]; [|done]. intros [= <- <-]. exists sub.
    split_and!; [done..|]. intros a Ha Ht Hor. rewrite Forall_forall in Hwf. rewrite Forall_forall in Hreq.
    rewrite find_value_name by (done || by apply Hwf). unfold value_given.
    destruct (list_find _ given) as [[]|] eqn:Hg; [by eexists|]. destruct Hor as [Hr|]; [|done].
    apply list_find_None in Hg. rewrite Forall_forall in Hg. exfalso.
    destruct (proj1 (list_elem_of_fmap _ _ _) (Hreq _ Ha Hr)) as (g & -> & Hin). by apply (Hg g).
  - intros app sub given [Hns Hwf] Hs Hn Hg Hr. rewrite Forall_forall in Hwf. destruct (Hwf _ Hs) as (Hna & Hnl & _).
    exists (find_value sub given). split; [|intros a Ha _; by apply find_value_name]. simpl.
    destruct (find_unique (λ s, sub_name s = sub_name sub) (cli_subcommands app) sub Hs eq_refl) as [i ->].
    { intros b Hb Heq. by apply (fmap_unique sub_name (cli_subcommands app)). }
    rewrite (parse_written _ _ Hnl Hg). by rewrite decide_True.
Qed.

(** *** A program run *)

(** A process that is always prepared. *)
#[export] Instance host : ChatHost := {|
  Certificate := bytes;
  open_log _ w := (inl tt, w);
  build_config _ := inl tt;
  init_config _ w := (inl tt, w);
  core_new w := (inl tt, w);
  file_open _ w := (inl tt, w);
  read_to_end _ w := (inl [1; 2; 3], w);
  certificate_from_pem bs := inl bs;
  tls_connector _ := inl tt;
|}.
Definition begin : env := 5.
Definition initiating := chat_start_up ["initiator"] [] begin.
Definition initiating_setup : Setup :=
  match out initiating with
  | Ok su => su
  | _ => mkSetup Role.Initiator false initiator_keys "" None (AsInitiator inviting)
  end.
Definition on_screen : list string := post initiating.
Definition then_on : env := world_of initiating.

Lemma invitation_works_witness :
  peer_command initiating_setup ∈ on_screen
  ∧ ∃ args, shell_words (peer_command initiating_setup) = ["cargo"; "run"; "--example"; "chat"; "--"] ++ args
  ∧ ∀ printed' w', match out (chat_start_up args printed' w') with
    | Ok su' => ∃ si sr, su_salty initiating_setup = AsInitiator si ∧ su_salty su' = AsResponder sr
        ∧ ini_permanent_key (rs_initiator sr) = public_key (su_keypair initiating_setup)
        ∧ auth_token sr = auth_token si ∧ is_Some (auth_token si)
        ∧ ∀ host port, connect_url host port sr = connect_url host port si
    | Err _ => False
    | Panic p => unlucky p ∨ host_panics p
    end.
Proof.
  refine (invitation_works ["initiator"] [] begin initiating_setup on_screen then_on _ _ _);
    vm_compute; reflexivity.
Defined.


(** The invited responder, and a server that brings the two together: the
    messages each client gets, one after the other. *)
Definition invited := chat_start_up (drop 5 (shell_words (peer_command initiating_setup))) [] 100.
Definition initiator_keypair : KeyPair := su_keypair initiating_setup.
Definition responder_keypair : KeyPair :=
  match out invited with Ok su => su_keypair su | _ => responder_keys end.
Definition mi0 : outcome SignalingError (InitiatorSignaling ChatTask) * env :=
  (Ok (match su_salty initiating_setup with AsInitiator s => s | _ => inviting end), then_on).
Definition mr0 : outcome SignalingError (ResponderSignaling ChatTask) * env :=
  (Ok (match out invited with Ok (mkSetup _ _ _ _ _ (AsResponder s)) => s | _ => offering end),
   world_of invited).
Definition greeting := clear_box server_hello 0 1.
Definition mi1 := deliver greeting mi0.
Definition welcome := sealed_box (Message.ServerAuth (mkServerAuth
  (our_server_cookie (state_of mi1)) None (Some []) None)) 1 2 initiator_keypair.
Definition mi2 := deliver welcome (state_of mi1).
Definition arrival := sealed_box (Message.NewResponder (mkNewResponder (mkAddress 2))) 1 3 initiator_keypair.
Definition mi3 := deliver arrival (state_of mi2).
Definition mr1 := deliver greeting mr0.
Definition mr2 := deliver (sealed_box (Message.ServerAuth (mkServerAuth
  (our_server_cookie (state_of mr1)) None None (Some true))) 2 2 responder_keypair) (state_of mr1).
Definition mi4 := deliver (reply 0 mr2) (state_of mi3).
Definition mi5 := deliver (reply 1 mr2) (state_of mi4).
Definition mr3 := deliver (reply 0 mi5) (state_of mr2).
Definition meeting : list OwnedMessage :=
  frame <$> [greeting; welcome; arrival; reply 0 mr2; reply 1 mr2; reply 0 mr3].

#[export] Instance server_script : WebSocketBuilder script string := {|
  url_parse s := inl s;
  async_connect_secure u protocols w := (inl ((meeting, []), Some protocols), w);
|}.

End MainWitnesses.
