(* ===== verification/Bindings.v ===== *)
(** * The C bindings

    ffi/src/lib.rs hands objects to C as opaque pointers: key pairs, event loops
    and remote handles of event loops.  The heap maps the address of an object
    that has been boxed and leaked to C to the object.  What a C caller does with
    a pointer is outside Rust's checks: taking back or reading an address that
    holds no object, or one of another type, is undefined behaviour, which is an
    outcome of its own here.

    The allocator, the reactor (crate tokio-core) and the entropy source are
    parameters.  The abstract view of the bindings is the table of the pointers
    the caller owns, which a caller can keep from the results it gets; the
    bindings refine it. *)

From S2P Require Import Prelude Text External Errors Types Csn Crypto SignalingSpec.

(** [Core] and [Remote], and the allocation of a box. *)
Class Reactor `{!Env} := {
  Core : Type;
  Remote : Type;
  core_new : env → (Core + string) * env;
  core_remote : Core → Remote;
}.
Class Allocator `{!Env} := { allocate : gset Z → env → Z * env }.
(** A fresh address, never the null pointer. *)
Class AllocatorLaws `{!Env, !Allocator} : Prop := {
  allocate_fresh X e : (allocate X e).1 ∉ X;
  allocate_non_null X e : (allocate X e).1 ≠ 0;
}.

(** The types behind the opaque ones. *)
Inductive Kind := KKeyPair | KEventLoop | KRemote.
#[export] Instance Kind_eq_dec : EqDecision Kind.
Proof. solve_decision. Defined.

Inductive Object `{!Env, !Reactor} :=
  | OKeyPair (k : KeyPair)
  | OEventLoop (c : Core)
  | ORemote (r : Remote).
Definition kind_of `{!Env, !Reactor} (o : Object) : Kind :=
  match o with OKeyPair _ => KKeyPair | OEventLoop _ => KEventLoop | ORemote _ => KRemote end.

Inductive Undefined := InvalidPointer.
Definition null : Z := 0.

Section bindings.
Context `{!Env, !Reactor, !Allocator}.
Abbreviation Heap := (gmap Z Object).
Abbreviation FM := (M env Heap Undefined).
Implicit Types h : Heap.

(** [Box::into_raw(Box::new(o))]. *)
Definition into_raw (o : Object) : FM Z :=
  h ← mget;
  p ← mworld (allocate (dom h));
  _ ← mput (<[p := o]> h);
  mret p.
(** Reading through a pointer, as an object of a type. *)
Definition deref (k : Kind) (ptr : Z) : FM Object :=
  h ← mget;
  match h !! ptr with
  | Some o => if bool_decide (kind_of o = k) then mret o else throw InvalidPointer
  | None => throw InvalidPointer
  end.
(** [Box::from_raw], the box being dropped at once. *)
Definition from_raw (k : Kind) (ptr : Z) : FM unit :=
  _ ← deref k ptr;
  mmodify (delete ptr).
(** The common body of the functions that free an object. *)
Definition free (k : Kind) (ptr : Z) : FM unit :=
  if bool_decide (ptr = null) then mret tt else from_raw k ptr.

Definition salty_keypair_new : FM Z := k ← keypair_new; into_raw (OKeyPair k).
Definition salty_keypair_free (ptr : Z) : FM unit := free KKeyPair ptr.
Definition salty_event_loop_new : FM Z :=
  r ← mworld core_new;
  match r with
  | inl reactor => into_raw (OEventLoop reactor)
  | inr _ => mret null
  end.
Definition salty_event_loop_get_remote (ptr : Z) : FM Z :=
  if bool_decide (ptr = null) then mret null
  else
    o ← deref KEventLoop ptr;
    match o with
    | OEventLoop core => into_raw (ORemote (core_remote core))
    | _ => throw InvalidPointer
    end.
Definition salty_event_loop_free_remote (ptr : Z) : FM unit := free KRemote ptr.
Definition salty_event_loop_free (ptr : Z) : FM unit := free KEventLoop ptr.

(** ** A caller *)

Inductive call :=
  | KeypairNew
  | KeypairFree (ptr : Z)
  | EventLoopNew
  | EventLoopGetRemote (ptr : Z)
  | EventLoopFreeRemote (ptr : Z)
  | EventLoopFree (ptr : Z).

(** A call and the pointer it returns, if it returns one. *)
Definition run_call (c : call) : FM (option Z) :=
  match c with
  | KeypairNew => p ← salty_keypair_new; mret (Some p)
  | KeypairFree ptr => _ ← salty_keypair_free ptr; mret None
  | EventLoopNew => p ← salty_event_loop_new; mret (Some p)
  | EventLoopGetRemote ptr => p ← salty_event_loop_get_remote ptr; mret (Some p)
  | EventLoopFreeRemote ptr => _ ← salty_event_loop_free_remote ptr; mret None
  | EventLoopFree ptr => _ ← salty_event_loop_free ptr; mret None
  end.
Fixpoint run_calls (cs : list call) : FM (list (option Z)) :=
  match cs with
  | [] => mret []
  | c :: cs' => r ← run_call c; rs ← run_calls cs'; mret (r :: rs)
  end.
End bindings.

(** ** What the caller owns *)

(** The pointer a call uses, and the type it must have. *)
Definition argument (c : call) : option (Z * Kind) :=
  match c with
  | KeypairNew | EventLoopNew => None
  | KeypairFree p => Some (p, KKeyPair)
  | EventLoopGetRemote p | EventLoopFree p => Some (p, KEventLoop)
  | EventLoopFreeRemote p => Some (p, KRemote)
  end.
(** A caller may pass the null pointer or a pointer it owns, of the type. *)
Definition permitted (owned : gmap Z Kind) (c : call) : bool :=
  match argument c with
  | Some (p, k) => bool_decide (p = null) || bool_decide (owned !! p = Some k)
  | None => true
  end.
(** What a call does to the table, given its result. *)
Definition account (owned : gmap Z Kind) (c : call) (r : option Z) : gmap Z Kind :=
  let gain p k := if bool_decide (p = null) then owned else <[p := k]> owned in
  match c, r with
  | KeypairNew, Some p => gain p KKeyPair
  | EventLoopNew, Some p => gain p KEventLoop
  | EventLoopGetRemote _, Some p => gain p KRemote
  | (KeypairFree p | EventLoopFreeRemote p | EventLoopFree p), _ => delete p owned
  | _, None => owned
  end.
(** A pointer that is returned is new to the caller. *)
Definition new_pointer (owned : gmap Z Kind) (r : option Z) : bool :=
  match r with Some p => bool_decide (p = null) || bool_decide (owned !! p = None) | None => true end.
(** The table after some calls, if all of them were permitted and no pointer was
    handed out twice. *)
Fixpoint owned_after (owned : gmap Z Kind) (cs : list call) (rs : list (option Z)) : option (gmap Z Kind) :=
  match cs, rs with
  | [], [] => Some owned
  | c :: cs', r :: rs' =>
      if permitted owned c && new_pointer owned r then owned_after (account owned c r) cs' rs' else None
  | _, _ => None
  end.

Section refinement.
Context `{!Env, !Sodium, !EnvLaws, !Reactor, !Allocator, !AllocatorLaws}.
Implicit Types h : gmap Z Object.

(** The heap seen by the caller; it holds nothing at the null pointer. *)
Definition kinds h : gmap Z Kind := kind_of <$> h.
Definition heap_wf h : Prop := h !! null = None.

(** What a call ends in: undefined behaviour exactly if it was not permitted;
    only a new key pair can panic. *)
Definition called h (c : call) (o : outcome Undefined (option Z)) h' : Prop :=
  match o with
  | Ok r => permitted (kinds h) c = true ∧ new_pointer (kinds h) r = true
      ∧ kinds h' = account (kinds h) c r ∧ heap_wf h'
  | Err _ => permitted (kinds h) c = false
  | Panic _ => c = KeypairNew
  end.

(** A new object gets a new pointer. *)
Lemma wp_into_raw c o h : heap_wf h → permitted (kinds h) c = true →
  (∀ p, p ≠ null → account (kinds h) c (Some p) = <[p := kind_of o]> (kinds h)) →
  wp (into_raw o) h (λ r h', ∃ p, r = Ok p ∧ called h c (Ok (Some p)) h').
Proof.
  intros Hwf Hc Ha. unfold into_raw. repeat wp_step.
  pose proof (allocate_non_null (dom h) w) as Hn. pose proof (allocate_fresh (dom h) w) as Hf.
  apply not_elem_of_dom in Hf. eexists. split; [done|]. split_and!; [done| | |].
  - simpl. apply orb_true_iff. right. apply bool_decide_eq_true. unfold kinds. by rewrite lookup_fmap, Hf.
  - unfold kinds. by rewrite fmap_insert, Ha.
  - unfold heap_wf. by rewrite lookup_insert_ne.
Qed.

(** An object is read at a pointer of its type only. *)
Lemma wp_deref k ptr h (Q : outcome Undefined Object → gmap Z Object → Prop) :
  (∀ o, h !! ptr = Some o → kind_of o = k → kinds h !! ptr = Some k → Q (Ok o) h) →
  (kinds h !! ptr ≠ Some k → Q (Err InvalidPointer) h) → wp (deref k ptr) h Q.
Proof.
  intros HQ HE. unfold deref. do 3 wp_step. unfold kinds in *. rewrite lookup_fmap in *.
  destruct (h !! ptr) as [o|] eqn:Ho; simpl in *; [|wp_step; by apply HE].
  case_bool_decide as Hk; wp_step; [apply HQ; by rewrite ?Hk|apply HE; congruence].
Qed.

Lemma wp_free c k ptr h : heap_wf h → argument c = Some (ptr, k) →
  (∀ r, account (kinds h) c r = delete ptr (kinds h)) →
  wp (_ ← free k ptr; mret None) h (called h c).
Proof.
  intros Hwf Hc Ha. unfold free, from_raw. wp_step. case_bool_decide as Hn; wp_step.
  - repeat wp_step. unfold called, permitted. rewrite Hc, Ha, bool_decide_eq_true_2 by done.
    split_and!; [done..| |done]. subst ptr. rewrite delete_id; [done|].
    unfold kinds. by rewrite lookup_fmap, Hwf.
  - apply wp_deref.
    + intros o Ho Hk Hkd. repeat wp_step. unfold called, permitted.
      rewrite Hc, Ha, (bool_decide_eq_true_2 (_ = Some k)) by done.
      split_and!; [by rewrite orb_true_r|done| |].
      * unfold kinds. by rewrite fmap_delete.
      * unfold heap_wf. by rewrite lookup_delete_ne.
    + intros Hkd. repeat wp_step. unfold called, permitted. rewrite Hc.
      by rewrite !bool_decide_eq_false_2.
Qed.

Lemma run_call_refines c h : heap_wf h → wp (run_call c) h (called h c).
Proof.
  intros Hwf. destruct c as [|p| |p|p|p]; simpl; try (by apply (wp_free _ _ p)); wp_step.
  - unfold salty_keypair_new. wp_step. apply wp_keypair_new; [|done]. intros k _. cbn [wp_then].
    eapply wp_mono; [apply (wp_into_raw KeypairNew)|]; try done.
    + intros p Hp. simpl. by rewrite bool_decide_eq_false_2.
    + intros o h' (p & -> & Hp). by wp_step; wp_step.
  - unfold salty_event_loop_new. do 3 wp_step. destruct ((core_new w).1) as [core|e].
    + eapply wp_mono; [apply (wp_into_raw EventLoopNew)|]; try done.
      * intros p Hp. simpl. by rewrite bool_decide_eq_false_2.
      * intros o h' (p & -> & Hp). by wp_step; wp_step.
    + repeat wp_step. by split_and!.
  - unfold salty_event_loop_get_remote. case_bool_decide as Hn.
    + repeat wp_step. subst p. by split_and!.
    + wp_step. apply wp_deref.
      * intros o Ho Hk Hkd. cbn [wp_then]. destruct o as [k|core|r]; try done.
        assert (permitted (kinds h) (EventLoopGetRemote p) = true) as Hperm.
        { unfold permitted. simpl. rewrite (bool_decide_eq_true_2 (_ = Some _)) by done. apply orb_true_r. }
        eapply wp_mono; [apply (wp_into_raw (EventLoopGetRemote p))|]; try done.
        -- intros q Hq. simpl. by rewrite bool_decide_eq_false_2.
        -- intros o h' (q & -> & Hq). by wp_step; wp_step.
      * intros Hkd. cbn [wp_then]. unfold called, permitted. simpl. by rewrite !bool_decide_eq_false_2.
Qed.

(** The panic of a new key pair: libsodium cannot be initialised. *)
Lemma keypair_panics h w m h' w' : run_call KeypairNew h w = (Panic m, h', w') →
  m = init_failed ∧ (sodium_init w).1 = false.
Proof.
  simpl. unfold salty_keypair_new, keypair_new, libsodium_init_or_panic, into_raw. mred.
  destruct (sodium_init w) as [[] w1]; mred; [|by intros [= <- _ _]].
  destruct (gen_keypair w1) as [[pk sk] w2]. mred. by destruct (allocate (dom h) w2).
Qed.

(** C25: the C bindings are memory safe for a caller that keeps to its pointers,
    and only for such a caller.  Run any sequence of calls from a heap the caller
    owns.  If it ends normally, every call was permitted by the table of owned
    pointers, which the caller can keep from the results alone, no pointer was
    handed out while it was owned, and the heap holds exactly the objects of that
    table, so that a caller that has freed all it got leaves an empty heap.  If it
    ends in undefined behaviour, then some call used a pointer the caller did not
    own, or one of another type.  If it panics, then the call was one for a new
    key pair, made where libsodium could not be initialised. *)
Theorem bindings_memory_safe cs h w : heap_wf h →
  match run_calls cs h w with
  | (Ok rs, h', _) => owned_after (kinds h) cs rs = Some (kinds h') ∧ heap_wf h'
  | (Err InvalidPointer, _, _) => ∃ before c after rs h1 w1, cs = before ++ c :: after
      ∧ run_calls before h w = (Ok rs, h1, w1) ∧ permitted (kinds h1) c = false
  | (Panic m, _, _) => m = init_failed ∧ ∃ before after rs h1 w1,
      cs = before ++ KeypairNew :: after ∧ run_calls before h w = (Ok rs, h1, w1)
      ∧ (sodium_init w1).1 = false
  end.
Proof.
  revert h w. induction cs as [|c cs IH]; intros h w Hwf; simpl; [done|]. mred.
  pose proof (run_call_refines c h Hwf w) as Hc. unfold out, post in Hc.
  destruct (run_call c h w) as [[[r|[]|m] h1] w1] eqn:Hrun; simpl in Hc; [|by exists [], c, cs, [], h, w|].
  - destruct Hc as (Hp & Hnew & Hk & Hwf1). specialize (IH h1 w1 Hwf1).
    mred. destruct (run_calls cs h1 w1) as [[[rs|[]|m] h2] w2] eqn:Hruns; mred.
    + rewrite Hp, Hnew, <- Hk. done.
    + destruct IH as (before & c' & after & rs & h3 & w3 & -> & Hb & Hn).
      exists (c :: before), c', after, (r :: rs), h3, w3. split_and!; [done| |done].
      simpl. mred. rewrite Hrun. mred. by rewrite Hb.
    + destruct IH as (-> & before & after & rs & h3 & w3 & -> & Hb & Hn). split; [done|].
      exists (c :: before), after, (r :: rs), h3, w3. split_and!; [done| |done].
      simpl. mred. rewrite Hrun. mred. by rewrite Hb.
  - subst c. apply keypair_panics in Hrun as [-> Hw]. split; [done|]. by exists [], cs, [], h, w.
Qed.
End refinement.

(** ** Witnesses *)

Module BindingsWitnesses.
Import Reference.
#[export] Instance reactor : Reactor := {|
  Core := unit; Remote := unit; core_new w := (inl tt, w); core_remote c := c;
|}.
#[export] Instance allocator : Allocator := {| allocate X w := (fresh (X ∪ {[null]}), w) |}.
#[export] Instance allocator_laws : AllocatorLaws.
Proof. split; intros X e; simpl; pose proof (is_fresh (X ∪ {[null]} : gset Z)); set_solver. Qed.

Definition now : env := 5.
(** An event loop with a remote handle, freed before the handle, which is freed
    twice. *)
Definition session : list call :=
  [EventLoopNew; EventLoopGetRemote 1; EventLoopFree 1; EventLoopFreeRemote 2; EventLoopFreeRemote 2].
Lemma session_run : out (run_calls (take 4 session) ∅ now) = Ok [Some 1; Some 2; None; None]
  ∧ out (run_calls session ∅ now) = Err InvalidPointer.
Proof. split; vm_compute; reflexivity. Qed.
Lemma bindings_memory_safe_witness :
  match run_calls session ∅ now with
  | (Ok rs, h', _) => owned_after (kinds ∅) session rs = Some (kinds h') ∧ heap_wf h'
  | (Err InvalidPointer, _, _) => ∃ before c after rs h1 w1, session = before ++ c :: after
      ∧ run_calls before ∅ now = (Ok rs, h1, w1) ∧ permitted (kinds h1) c = false
  | (Panic m, _, _) => m = init_failed ∧ ∃ before after rs h1 w1,
      session = before ++ KeypairNew :: after ∧ run_calls before ∅ now = (Ok rs, h1, w1)
      ∧ (sodium_init w1).1 = false
  end.
Proof. refine (bindings_memory_safe session ∅ now _). reflexivity. Defined.
End BindingsWitnesses.
