(* ===== verification/DataProps.v ===== *)
(** * Properties of the data model

    The codecs, the sequence numbers, the boxes and the builders: round trips
    in both directions, the exact domain on which each operation succeeds, and
    what it returns on the rest. *)

From S2P Require Import Prelude Text External Errors Types Csn Cookie Nonce Crypto Tasks Messages.
From S2P Require Import Serde ReferenceCodec Boxes Context Signaling SignalingSpec SignalingSafe.
From S2P Require Import Handshake.

(** ** Messages as MessagePack *)

Section messages.
Context `{!Rmp, !RmpLaws, !ByteOrder, !ByteOrderLaws}.

(** C33: what serde writes for a message is an internally tagged map that starts
    with the message's type; reading its bytes gives back every well-typed
    message of the thirteen types, and whatever else is read as a message has
    the types of its fields. *)
Theorem message_codec (m m' : Message) bs :
  (∃ entries, ser_message m
    = Value.Map ((Value.from_string "type", Value.from_string (Message.get_type m)) :: entries))
  ∧ (wf_message m → wire_message m →
     @rmps_message_from_slice serde_rmps (rmp_write (ser_message m)) = inl m)
  ∧ (@rmps_message_from_slice serde_rmps bs = inl m' → wf_message m').
Proof.
  split_and!.
  - eexists. unfold ser_message. rewrite variant_name_get_type. reflexivity.
  - intros Hw Hm. simpl. rewrite rmp_read_write by (by apply wf_ser_message).
    by rewrite de_ser_message.
  - apply (rmps_message_from_slice_wf (RmpsLaws := serde_rmps_laws)).
Qed.
End messages.

(** ** Sequence numbers *)

(** [n] draws from a combined sequence number give [n] distinct snapshots
    with consecutive numbers if they fit below the limit of 48 bits, and fail
    with an overflow error if they do not; a number is never reused. *)
Theorem increments_distinct n c : wf_csn c →
  if decide (csn_number c + Z.of_nat n < CSN_LIMIT) then
    ∃ snaps c', increments n c = (Ok snaps, c') ∧ length snaps = n
    ∧ map combined_sequence_number snaps = map (λ k, csn_number c + 1 + Z.of_nat k) (seq 0 n)
    ∧ NoDup snaps
  else (increments n c).1 = Err SignalingError.CsnOverflow.
Proof.
  intros Hc. case_decide as Hb; [|apply increments_overflow; [done|lia]].
  destruct (increments_succeed n c Hc Hb) as (snaps & c' & Hr).
  destruct (increments_numbers n c snaps c' Hc Hr) as [Hm Hf].
  exists snaps, c'. split_and!; [done| |done|].
  - by rewrite <- (length_map combined_sequence_number), Hm, length_map, length_seq.
  - eapply NoDup_fmap_1 with (f := combined_sequence_number).
    change (NoDup (map combined_sequence_number snaps)). rewrite Hm.
    apply NoDup_fmap_2_strong; [intros ? ? _ _ ?; lia|]. apply NoDup_ListNoDup, seq_NoDup.
Qed.

(** C36: the check of a sender's sequence number succeeds exactly if the number
    is above the last one recorded or, for a first message, its overflow number
    is zero; it then records the number, and otherwise refuses the nonce. *)
Theorem csn_check_exact id cur pair : wf_csn_pair pair → wf_snapshot cur →
  (fresh_csn (csn_theirs pair) cur
   ∧ check_csn id cur pair = Ok (mkCombinedSequencePair (csn_ours pair) (Some cur)))
  ∨ (¬ fresh_csn (csn_theirs pair) cur
     ∧ ∃ reason, check_csn id cur pair = Err (ValidationError.Fail reason)).
Proof.
  intros Hp Hc. destruct (check_csn id cur pair) as [pair'|e|m] eqn:Hk.
  - left. apply check_csn_Ok in Hk as (_ & Ho & Ht & Hf); [|done..]. split; [done|].
    destruct pair'; simpl in *. by subst.
  - right. unfold check_csn in Hk. unfold fresh_csn. destruct (csn_theirs pair) as [prev|].
    + split; [|repeat case_match; simplify_eq; eauto]. intros Hlt.
      unfold snapshot_lt, snapshot_cmp in Hk. rewrite (proj2 (Z.compare_gt_iff _ _)) in Hk by done.
      rewrite bool_decide_eq_false_2 in Hk by (intros ->; lia). done.
    + case_bool_decide; [|done]. simplify_eq. eauto.
  - by apply check_csn_not_panic in Hk.
Qed.

Section random_start.
Context `{!Env, !Sodium, !EnvLaws} {S E : Type}.

(** What [random] draws. *)
Lemma csn_random_run (s : S) (w : env) : (sodium_init w).1 = true → ∃ r0 r1 r2 r3 w1,
  (randombytes 4 (sodium_init w).2).1 = [r0; r1; r2; r3]
  ∧ Forall u8 [r0; r1; r2; r3]
  ∧ csn_random (E := E) s w
    = (Ok (mkCombinedSequence 0 (r0 * 2 ^ 24 + r1 * 2 ^ 16 + r2 * 2 ^ 8 + r3)), s, w1).
Proof.
  unfold csn_random, libsodium_init_or_panic. mred. intros Hi.
  destruct (sodium_init w) as [ok w1]. simpl in *. subst ok. mred.
  pose proof (randombytes_wf 4 w1) as [Hl Hb]. destruct (randombytes 4 w1) as [bs w2]. simpl in *.
  destruct bs as [|r0 [|r1 [|r2 [|r3 [|]]]]]; try done. exists r0, r1, r2, r3, w2. split_and!; [done..|].
  mred. rewrite !Z.shiftl_mul_pow2 by lia. unfold wf_bytes in Hb. rewrite !Forall_cons in Hb.
  unwidth. rewrite (wrap_id 32 (r0 * _)), (wrap_id 32 (r1 * _)), (wrap_id 32 (r2 * _)) by (unwidth; lia).
  rewrite (wrap_id 32 (r0 * _ + _)) by (unwidth; lia).
  rewrite (wrap_id 32 (r0 * _ + _ + _)) by (unwidth; lia). by rewrite wrap_id by (unwidth; lia).
Qed.

(** C37: the first message of a client is refused for one of the 2^32 numbers it
    can start from. A sequence number is drawn at random and incremented before
    it is used, so that a draw of all ones carries into the overflow number,
    which a receiver demands to be zero in the first message; for any other
    draw the receiver accepts the number. *)
Theorem first_message_refused id pair (s : S) w c w1 snap c' :
  csn_random (E := E) s w = (Ok c, s, w1) → increment c = (Ok snap, c') → csn_theirs pair = None →
  (∃ reason, check_csn id snap pair = Err (ValidationError.Fail reason))
  ↔ (randombytes 4 (sodium_init w).2).1 = [255; 255; 255; 255].
Proof.
  intros Hr Hi Hn. destruct (csn_random_run s w) as (r0 & r1 & r2 & r3 & w2 & -> & Hb & Hr').
  { unfold csn_random, libsodium_init_or_panic in Hr. mred. by destruct (sodium_init w) as [[] ?]. }
  rewrite Hr' in Hr. injection Hr as <- _. rewrite !Forall_cons in Hb. unwidth.
  unfold check_csn. rewrite Hn. unfold increment, checked_add in Hi. cbn [cs_sequence cs_overflow] in Hi.
  case_bool_decide as Hlt.
  - injection Hi as <- _. simpl. split; [by intros []|].
    intros [= -> -> -> ->]. lia.
  - rewrite bool_decide_eq_true_2 in Hi by lia. injection Hi as <- _. simpl.
    split; [intros _|by eauto]. repeat f_equal; lia.
Qed.
End random_start.

(** ** Codecs *)

(** C35: the 24 bytes of a nonce and its fields determine each other: parsing
    succeeds exactly on 24 bytes, and its result is the one well-formed nonce
    that is written as those bytes. *)
Theorem nonce_codec `{!ByteOrder, !ByteOrderLaws} (bs : bytes) : wf_bytes bs →
  (∀ n, nonce_from_bytes bs = Ok n ↔ wf_nonce n ∧ nonce_into_bytes n = bs)
  ∧ is_ok (nonce_from_bytes bs) = bool_decide (length bs = 24%nat).
Proof.
  intros Hbs. split.
  - intros n. split; [intros Hf; by apply nonce_into_from in Hf as [? ?]|].
    intros [Hn <-]. by apply nonce_from_into.
  - unfold nonce_from_bytes. do 2 case_bool_decide; done.
Qed.

(** The 8 bytes that identify a message in a send-error message and the
    fields they stand for determine each other: the visitor accepts exactly 8
    bytes, and its result is the one identifier that is written as those bytes. *)
Theorem send_error_id_codec `{!ByteOrder, !ByteOrderLaws} (bs : bytes) : wf_bytes bs →
  (∀ i, send_error_id_visit_bytes bs = Ok i ↔ wf_send_error_id i ∧ send_error_id_as_bytes i = bs)
  ∧ is_ok (send_error_id_visit_bytes bs) = bool_decide (length bs = 8%nat).
Proof.
  intros Hbs. unfold send_error_id_visit_bytes. split.
  - intros i. split.
    + case_bool_decide; [done|]. destruct (send_error_id_from_slice bs) as [i'|e|m] eqn:Hf; [|done..].
      intros [= ->]. by apply send_error_id_into_from in Hf as [? ?].
    + intros [Hi <-]. rewrite bool_decide_eq_false_2
        by (rewrite (proj1 (send_error_id_bytes_wf i Hi)); auto).
      by rewrite send_error_id_roundtrip.
  - unfold send_error_id_from_slice, SEND_ERROR_ID_BYTES. by do 2 case_bool_decide.
Qed.

(** A message on the wire is a box exactly if it is longer than a nonce;
    the box is the one whose bytes it is. *)
Theorem byte_box_codec `{!ByteOrder, !ByteOrderLaws} (bs : bytes) : wf_bytes bs →
  (∀ b, byte_box_from_slice bs = Ok b
    ↔ wf_nonce (bbox_nonce b) ∧ bbox_bytes b ≠ [] ∧ byte_box_into_bytes b = bs)
  ∧ is_ok (byte_box_from_slice bs) = bool_decide (24 < length bs)%nat.
Proof.
  intros Hbs. split.
  - intros b. split.
    + intros Hb. by apply byte_box_from_slice_Ok in Hb as (? & ? & ?).
    + intros (Hn & Hne & <-). by apply byte_box_roundtrip.
  - unfold byte_box_from_slice, nonce_from_bytes, NONCEBYTES. case_bool_decide as Hl.
    + by rewrite bool_decide_eq_false_2 by lia.
    + rewrite !bool_decide_eq_false_2 by (rewrite length_take; lia).
      by rewrite bool_decide_eq_true_2 by lia.
Qed.

(** Reading a close code and writing it are inverse: every number survives,
    and a code survives exactly if it does not use [Other] for a number that
    has a variant of its own. *)
Theorem close_code_codec code c :
  CloseCode.as_number (CloseCode.from_number code) = code
  ∧ (CloseCode.from_number (CloseCode.as_number c) = c ↔ CloseCode.canonical c = true).
Proof. split; [apply CloseCode.as_number_from_number|apply CloseCode.from_number_as_number]. Qed.

(** An address byte becomes an identity and back unchanged, and an identity
    has an address exactly if it is not a responder below 2, where the
    conversion panics. *)
Theorem identity_codec {E} a i : wf_address a →
  Identity.address_from_identity (E := E) (Identity.identity_from_address a) = Ok a
  ∧ match Identity.address_from_identity (E := E) i with
    | Ok b => (∀ z, i = Identity.Responder z → 2 ≤ z) ∧ Identity.identity_from_address b = i
    | Err _ => False
    | Panic _ => ∃ z, i = Identity.Responder z ∧ z ≤ 1
    end.
Proof.
  intros Ha. split; [by apply identity_roundtrip|].
  destruct i as [| |z]; simpl; [by split|by split|].
  case_bool_decide as Hz; [|exists z; split; [done|lia]].
  split; [intros ? [= <-]; lia|]. apply identity_from_responder. simpl. lia.
Qed.

(** ** Boxes *)

Section sealed.
Context `{!ByteOrder, !ByteOrderLaws, !Sodium, !SodiumLaws, !Rmps, !RmpsLaws}.

(** C34: a message sealed for a peer is opened by that peer, unchanged and with
    its nonce, after it has travelled as bytes. *)
Theorem sealed_message_survives_wire a b m n : wf_keypair a → wf_keypair b →
  peer_message m = true → wf_message m → wire_message m → wf_nonce n →
  ∃ bbox, obox_encrypt (E := SignalingError) (mkOpenBox m n) a (public_key b) = Ok bbox
    ∧ (bbox' ← byte_box_from_slice (byte_box_into_bytes bbox); obox_decrypt bbox' b (public_key a))
      = Ok (mkOpenBox m n).
Proof.
  intros Ha Hb Hm Hw Hwi Hn.
  destruct (obox_encrypt_decrypt (E := SignalingError) a b m n Ha Hb Hm Hw Hwi)
    as (bbox & He & Hbn & Hd).
  exists bbox. split; [done|].
  rewrite byte_box_roundtrip by (rewrite ?Hbn; eauto using obox_encrypt_payload). done.
Qed.

(** A message sealed with a token is opened with that token, unchanged and
    with its nonce, after it has travelled as bytes. *)
Theorem token_message_survives_wire t m n : peer_message m = true → wf_message m →
  wire_message m → wf_nonce n →
  ∃ bbox, obox_encrypt_token (E := SignalingError) (mkOpenBox m n) t = Ok bbox
    ∧ (bbox' ← byte_box_from_slice (byte_box_into_bytes bbox); obox_decrypt_token bbox' t)
      = Ok (mkOpenBox m n).
Proof.
  intros Hm Hw Hwi Hn.
  destruct (obox_encrypt_token_decrypt (E := SignalingError) t m n Hm Hw Hwi) as (bbox & He & Hbn & Hd).
  exists bbox. split; [done|].
  rewrite byte_box_roundtrip by (rewrite ?Hbn; eauto using obox_encrypt_token_payload). done.
Qed.

(** The assertion and the unwraps in the decryption of the signed keys
    cannot fail on keys the deserializer has accepted: the result is the two
    halves of the plaintext, or an error if the box does not open. *)
Theorem signed_keys_decrypt_exact v k kp pk n : wf_bytes v → signed_keys_visit_bytes v = Ok k →
  match box_open v (nonce_into_bytes n) (pk_bytes pk) (sk_bytes (private_key kp)) with
  | Some m => signed_keys_decrypt k kp pk n
      = Ok (mkUnsignedKeys (mkPublicKey (take 32 m)) (mkPublicKey (drop 32 m)))
  | None => signed_keys_decrypt k kp pk n
      = Err (SignalingError.Crypto "Could not decrypt signed keys")
  end.
Proof.
  intros Hw. unfold signed_keys_visit_bytes, SIGNED_KEYS_BYTES, MACBYTES, PUBLICKEYBYTES.
  case_bool_decide as Hl; [done|]. intros [= <-].
  assert (length v = 80%nat) as H80 by lia. clear Hl.
  assert (slice 0 80 v = v) as Hv by (unfold slice; rewrite drop_0, take_ge; [done|simpl; lia]).
  rewrite Hv. pose proof (signed_keys_decrypt_total (mkSignedKeys v) kp pk n) as Ht.
  specialize (Ht ltac:(done)). simpl in Ht.
  destruct (box_open _ _ _ _) as [m|] eqn:Ho; [|done]. rewrite Ht.
  apply box_open_length in Ho. unfold MACBYTES in Ho. unfold slice. rewrite drop_0.
  by rewrite (take_ge (drop 32 m)) by (rewrite length_drop; lia).
Qed.
End sealed.

(** ** Tasks and the auth message *)

Section tasks.
Context {T : Type} `{!Task T}.

(** The data of the tasks, entered under their names one after the other. *)
Lemma task_data_other (l : list T) : ∀ (d : gmap string (option (gmap string Value))) n, n ∉ (task_name <$> l) →
  foldl (λ d t, <[task_name t := task_data t]> d) d l !! n = d !! n.
Proof.
  induction l as [|t l IH]; intros d n Hn; [done|]. simpl in *.
  apply not_elem_of_cons in Hn as [Hn Hl]. by rewrite IH, lookup_insert_ne.
Qed.
Lemma task_data_lookup (l : list T) : ∀ (d : gmap string (option (gmap string Value))) t, NoDup (task_name <$> l) → t ∈ l →
  foldl (λ d t, <[task_name t := task_data t]> d) d l !! task_name t = Some (task_data t).
Proof.
  induction l as [|t' l IH]; intros d t Hnd Ht; [by apply not_elem_of_nil in Ht|].
  simpl in *. apply NoDup_cons in Hnd as [Hn Hnd]. apply elem_of_cons in Ht as [->|Ht].
  - by rewrite task_data_other, lookup_insert_eq.
  - by apply IH.
Qed.

(** The task chosen is the first of our tasks the peer proposes, whatever
    the order of the proposal; none is chosen only if none is shared. *)
Theorem first_shared_task_chosen (self : Tasks T) (proposed : list string) :
  match choose_shared_task self proposed with
  | Some t => ∃ before after, tasks_vec self = before ++ t :: after ∧ task_name t ∈ proposed
      ∧ Forall (λ t', task_name t' ∉ proposed) before
  | None => Forall (λ t', task_name t' ∉ proposed) (tasks_vec self)
  end.
Proof. apply choose_from_spec. Qed.

(** Adding a task keeps the names of a list of tasks distinct: it is
    appended exactly if its name is new. *)
Theorem add_task_exact task (self : Tasks T) : wf_tasks self →
  match add_task task self with
  | Ok ts => wf_tasks ts ∧ tasks_vec ts = tasks_vec self ++ [task]
      ∧ task_name task ∉ (task_name <$> tasks_vec self)
  | Err _ => task_name task ∈ (task_name <$> tasks_vec self)
  | Panic _ => False
  end.
Proof.
  intros Hw. pose proof (add_task_wf task self) as Ha. unfold add_task in *.
  destruct (existsb _ _) eqn:He.
  - apply existsb_exists in He as (t & Ht & Hn%bool_decide_eq_true).
    rewrite <- Hn. by apply list_elem_of_fmap_2, list_elem_of_In.
  - split_and!; [by apply Ha|done|]. simpl. specialize (Ha _ Hw eq_refl) as [_ Hnd]. simpl in Hnd.
    rewrite fmap_app in Hnd. apply NoDup_app in Hnd as (_ & Hd & _). intros Hin.
    by apply (Hd _ Hin), list_elem_of_singleton.
Qed.

(** The responder's auth message proposes its tasks by name, in order and
    with their data, and is built exactly if there is a task and no name is
    repeated: the check on the sorted and deduplicated names is exact. *)
Theorem responder_auth_exact c (ts : Tasks T) :
  match (b ← add_tasks ts (responder_auth_new c); responder_auth_build b) with
  | Ok a => wf_tasks ts ∧ auth_your_cookie a = c
      ∧ auth_tasks a = Some (task_name <$> tasks_vec ts) ∧ auth_task a = None
      ∧ ∀ t, t ∈ tasks_vec ts → auth_data a !! task_name t = Some (task_data t)
  | Err _ => ¬ wf_tasks ts
  | Panic _ => False
  end.
Proof.
  rewrite responder_auth_spec. unfold wf_tasks. case_decide as Hne; [by intros [? _]|].
  case_decide as Hnd; [|by intros [_ ?]]. split_and!; try done. simpl.
  intros t Ht. by apply task_data_lookup.
Qed.
End tasks.

(** ** Witnesses *)

Module DataWitnesses.
Import Reference ReferenceCodec Handshake.

(** An auth message with data, and the bytes of a server-hello message. *)
Definition codec_auth : Message := Message.Auth (mkAuth server_cookie None (Some "chat")
  {[ "chat" := Some {[ "nick" := Value.from_string "ada" ]} ]}).
Definition codec_hello : bytes := rmp_write (ser_message server_hello).
Lemma message_codec_witness :
  @rmps_message_from_slice serde_rmps (rmp_write (ser_message codec_auth)) = inl codec_auth
  ∧ wf_message server_hello.
Proof.
  split.
  - refine (proj1 (proj2 (message_codec codec_auth server_hello codec_hello)) _ _); by_compute.
  - refine (proj2 (proj2 (message_codec codec_auth server_hello codec_hello)) _). by vm_compute.
Defined.

(** Three draws across the carry into the overflow number. *)
Definition near_carry : CombinedSequence := mkCombinedSequence 0 (2 ^ 32 - 2).
Lemma increments_distinct_witness :
  if decide (csn_number near_carry + Z.of_nat 3 < CSN_LIMIT) then
    ∃ snaps c', increments 3 near_carry = (Ok snaps, c') ∧ length snaps = 3%nat
    ∧ map combined_sequence_number snaps
      = map (λ k, csn_number near_carry + 1 + Z.of_nat k) (seq 0 3)
    ∧ NoDup snaps
  else (increments 3 near_carry).1 = Err SignalingError.CsnOverflow.
Proof. refine (increments_distinct 3 near_carry _). by_compute. Defined.

Definition known_pair : CombinedSequencePair :=
  mkCombinedSequencePair near_carry (Some (mkCombinedSequenceSnapshot 0 5)).
Definition next_number : CombinedSequenceSnapshot := mkCombinedSequenceSnapshot 0 6.
Lemma csn_check_exact_witness :
  (fresh_csn (csn_theirs known_pair) next_number
   ∧ check_csn Identity.Server next_number known_pair
     = Ok (mkCombinedSequencePair (csn_ours known_pair) (Some next_number)))
  ∨ (¬ fresh_csn (csn_theirs known_pair) next_number
     ∧ ∃ reason, check_csn Identity.Server next_number known_pair
         = Err (ValidationError.Fail reason)).
Proof. refine (csn_check_exact Identity.Server next_number known_pair _ _); by_compute. Defined.

(** An entropy source that draws all ones. *)
Definition all_ones : env := 254.
Definition last_start : CombinedSequence := mkCombinedSequence 0 (2 ^ 32 - 1).
Definition carried : CombinedSequenceSnapshot := mkCombinedSequenceSnapshot 1 0.
Definition unheard_pair : CombinedSequencePair := mkCombinedSequencePair near_carry None.
Lemma first_message_witness :
  (∃ reason, check_csn Identity.Server carried unheard_pair = Err (ValidationError.Fail reason))
  ↔ (randombytes 4 (sodium_init all_ones).2).1 = [255; 255; 255; 255].
Proof.
  refine (first_message_refused (S := unit) (E := SignalingError) Identity.Server unheard_pair tt
    all_ones last_start 255 carried (mkCombinedSequence 1 0) _ _ _); vm_compute; reflexivity.
Defined.

(** The nonce of the unit tests. *)
Definition sample_nonce : Nonce :=
  mkNonce (mkCookie [1; 2; 3; 4; 5; 6; 7; 8; 9; 10; 11; 12; 13; 14; 15; 16])
    (mkAddress 17) (mkAddress 18) (mkCombinedSequenceSnapshot 258 50595078).
Definition sample_nonce_bytes : bytes :=
  [1; 2; 3; 4; 5; 6; 7; 8; 9; 10; 11; 12; 13; 14; 15; 16; 17; 18; 1; 2; 3; 4; 5; 6].
Lemma nonce_codec_witness : nonce_from_bytes sample_nonce_bytes = Ok sample_nonce.
Proof.
  refine (proj2 (proj1 (nonce_codec sample_nonce_bytes _) sample_nonce) _);
    [by_compute|split; [by_compute|reflexivity]].
Defined.

Definition sample_id_bytes : bytes := [2; 1; 0; 0; 0; 0; 0; 9].
Lemma send_error_id_codec_witness : is_ok (send_error_id_visit_bytes sample_id_bytes) = true.
Proof. refine (proj2 (send_error_id_codec sample_id_bytes _)). by_compute. Defined.

Lemma byte_box_codec_witness : is_ok (byte_box_from_slice (sample_nonce_bytes ++ [7; 8])) = true.
Proof. refine (proj2 (byte_box_codec (sample_nonce_bytes ++ [7; 8]) _)). by_compute. Defined.

(** The identity the conversion panics on, as in the unit test. *)
Lemma identity_codec_witness :
  Identity.address_from_identity (E := SignalingError)
    (Identity.identity_from_address (mkAddress 19)) = Ok (mkAddress 19)
  ∧ match Identity.address_from_identity (E := SignalingError) (Identity.Responder 1) with
    | Ok b => (∀ z, Identity.Responder 1 = Identity.Responder z → 2 ≤ z)
        ∧ Identity.identity_from_address b = Identity.Responder 1
    | Err _ => False
    | Panic _ => ∃ z, Identity.Responder 1 = Identity.Responder z ∧ z ≤ 1
    end.
Proof. refine (identity_codec (mkAddress 19) (Identity.Responder 1) _). by_compute. Defined.

Definition sample_message : Message := Message.Key (mkKey (public_key (key_pair 77))).
Lemma sealed_message_witness : ∃ bbox,
  obox_encrypt (E := SignalingError) (mkOpenBox sample_message sample_nonce) initiator_keys
    (public_key responder_keys) = Ok bbox
  ∧ (bbox' ← byte_box_from_slice (byte_box_into_bytes bbox);
     obox_decrypt bbox' responder_keys (public_key initiator_keys))
    = Ok (mkOpenBox sample_message sample_nonce).
Proof.
  refine (sealed_message_survives_wire initiator_keys responder_keys sample_message sample_nonce
    _ _ _ _ _ _); [by_keypair..|reflexivity|by_compute|exact I|by_compute].
Defined.

Definition sample_token_message : Message := Message.Token (mkToken (public_key (key_pair 77))).
Lemma token_message_witness : ∃ bbox,
  obox_encrypt_token (E := SignalingError) (mkOpenBox sample_token_message sample_nonce) token
    = Ok bbox
  ∧ (bbox' ← byte_box_from_slice (byte_box_into_bytes bbox); obox_decrypt_token bbox' token)
    = Ok (mkOpenBox sample_token_message sample_nonce).
Proof.
  refine (token_message_survives_wire token sample_token_message sample_nonce _ _ _ _);
    [reflexivity|by_compute|exact I|by_compute].
Defined.

Definition signed : bytes := box_seal (replicate 32 1 ++ replicate 32 2)
  (nonce_into_bytes sample_nonce) (pk_bytes (public_key initiator_keys))
  (sk_bytes (private_key server_keys)).
Lemma signed_keys_decrypt_witness :
  match box_open signed (nonce_into_bytes sample_nonce) (pk_bytes (public_key server_keys))
          (sk_bytes (private_key initiator_keys)) with
  | Some m => signed_keys_decrypt (mkSignedKeys signed) initiator_keys (public_key server_keys)
        sample_nonce
      = Ok (mkUnsignedKeys (mkPublicKey (take 32 m)) (mkPublicKey (drop 32 m)))
  | None => signed_keys_decrypt (mkSignedKeys signed) initiator_keys (public_key server_keys)
        sample_nonce
      = Err (SignalingError.Crypto "Could not decrypt signed keys")
  end.
Proof.
  refine (signed_keys_decrypt_exact signed (mkSignedKeys signed) initiator_keys
    (public_key server_keys) sample_nonce _ _); [by_compute|vm_compute; reflexivity].
Defined.

Definition one_task : Tasks string := mkTasks ["chat"].
Lemma add_task_exact_witness :
  match add_task "relay" one_task with
  | Ok ts => wf_tasks ts ∧ tasks_vec ts = tasks_vec one_task ++ ["relay"]
      ∧ task_name "relay" ∉ (task_name <$> tasks_vec one_task)
  | Err _ => task_name "relay" ∈ (task_name <$> tasks_vec one_task)
  | Panic _ => False
  end.
Proof.
  refine (add_task_exact "relay" one_task _). split; [done|apply NoDup_singleton].
Defined.
End DataWitnesses.
