(* ===== verification/Testing.v ===== *)
(** * The test harness

    What the unit tests of the repository are written in: assertions, the calls
    of a method on an object a test owns, the comparison of the values they
    compare, and the task of src/test_helpers.rs.  A test is a computation in the
    world; it passes if it ends without a panic. *)

From S2P Require Import Prelude Text External Errors Types Csn Cookie Nonce Crypto Tasks.
From S2P Require Import Messages ReferenceCodec Boxes.

(** ** Comparisons *)

Import ReferenceCodec.
#[export] Instance PrivateKey_eq_dec : EqDecision PrivateKey.
Proof. solve_decision. Defined.
#[export] Instance KeyPair_eq_dec : EqDecision KeyPair.
Proof. solve_decision. Defined.
#[export] Instance SecretKey_eq_dec : EqDecision SecretKey.
Proof. solve_decision. Defined.
#[export] Instance AuthToken_eq_dec : EqDecision AuthToken.
Proof. solve_decision. Defined.
#[export] Instance UnsignedKeys_eq_dec : EqDecision UnsignedKeys.
Proof. solve_decision. Defined.
(** [impl PartialEq for SignedKeys]: by their bytes. *)
#[export] Instance SignedKeys_eq_dec : EqDecision SignedKeys.
Proof. solve_decision. Defined.
#[export] Instance PeerSequenceNumbers_eq_dec : EqDecision PeerSequenceNumbers.
Proof. solve_decision. Defined.
#[export] Instance Auth_eq_dec : EqDecision Auth.
Proof. solve_decision. Defined.
#[export] Instance ClientHello_eq_dec : EqDecision ClientHello.
Proof. solve_decision. Defined.
#[export] Instance ServerHello_eq_dec : EqDecision ServerHello.
Proof. solve_decision. Defined.
#[export] Instance ClientAuth_eq_dec : EqDecision ClientAuth.
Proof. solve_decision. Defined.
#[export] Instance ServerAuth_eq_dec : EqDecision ServerAuth.
Proof. solve_decision. Defined.
#[export] Instance NewInitiator_eq_dec : EqDecision NewInitiator.
Proof. solve_decision. Defined.
#[export] Instance NewResponder_eq_dec : EqDecision NewResponder.
Proof. solve_decision. Defined.
#[export] Instance DropResponder_eq_dec : EqDecision DropResponder.
Proof. solve_decision. Defined.
#[export] Instance SendError_eq_dec : EqDecision SendError.
Proof. solve_decision. Defined.
#[export] Instance Disconnected_eq_dec : EqDecision Disconnected.
Proof. solve_decision. Defined.
#[export] Instance Token_eq_dec : EqDecision Token.
Proof. solve_decision. Defined.
#[export] Instance Key_eq_dec : EqDecision Key.
Proof. solve_decision. Defined.
#[export] Instance Close_eq_dec : EqDecision Close.
Proof. solve_decision. Defined.
#[export] Instance Message_eq_dec : EqDecision Message.
Proof. solve_decision. Defined.
#[export] Instance ByteBox_eq_dec : EqDecision ByteBox.
Proof. solve_decision. Defined.
#[export] Instance TaskMessage_eq_dec : EqDecision TaskMessage.
Proof. solve_decision. Defined.
#[export] Instance Event_eq_dec : EqDecision Event.
Proof. solve_decision. Defined.
#[export] Instance HandleAction_eq_dec : EqDecision HandleAction.
Proof. solve_decision. Defined.
#[export] Instance outcome_eq_dec {E A} `{!EqDecision E, !EqDecision A} : EqDecision (outcome E A).
Proof. solve_decision. Defined.

(** ** Tests *)

Section test.
Context `{!Env}.

Definition Test : Type → Type := M env unit string.

Definition assert (b : bool) : Test unit :=
  if b then mret tt else panic "assertion failed".
Definition assert_eq {A} `{!EqDecision A} (a b : A) : Test unit := assert (bool_decide (a = b)).
Definition assert_ne {A} `{!EqDecision A} (a b : A) : Test unit := assert (bool_decide (a ≠ b)).
(** [Result::unwrap] and [Result::unwrap_err]. *)
Definition unwrap {E A} (o : outcome E A) : Test A :=
  match o with
  | Ok a => mret a
  | Err _ => panic "called `Result::unwrap()` on an `Err` value"
  | Panic m => panic m
  end.
Definition unwrap_err {E A} (o : outcome E A) : Test E :=
  match o with
  | Ok _ => panic "called `Result::unwrap_err()` on an `Ok` value"
  | Err e => mret e
  | Panic m => panic m
  end.
(** A method called on an object of the test: its result, and the object. *)
Definition call {S E A} (m : M env S E A) (s : S) : Test (outcome E A * S) := λ u w,
  match m s w with
  | (Panic msg, _, w') => (Panic msg, u, w')
  | (o, s', w') => (Ok (o, s'), u, w')
  end.
(** The body of a [for] loop, [n] times. *)
Fixpoint times (n : nat) (t : Test unit) : Test unit :=
  match n with O => mret tt | Datatypes.S n' => _ ← t; times n' t end.
(** [#[should_panic(expected = ..)]]. *)
Definition should_panic {E A} (o : outcome E A) (expected : string) : Test unit :=
  assert (match o with Panic m => bool_decide (m = expected) | _ => false end).

Definition passes (w : env) (t : Test unit) : bool := is_ok (out (t tt w)).
End test.

(** ** The dummy task *)

Record DummyTask := mkDummyTask { dummy_id : Z; initialized : bool }.
Definition dummy_task_new (id : Z) : DummyTask := mkDummyTask id false.
Definition dummy_name_for (id : Z) : string := "dummy." +:+ fmt_dec id.
Definition dummy_init (data : option (gmap string Value)) (self : DummyTask)
    : (unit + string) * DummyTask :=
  (inl tt, mkDummyTask (dummy_id self) true).
#[export] Instance dummy_task : Task DummyTask := {|
  task_init := dummy_init;
  task_name self := dummy_name_for (dummy_id self);
  task_data self := None;
  task_supported_types self := ["dummy"];
|}.
