(* ===== verification/UnitTests.v ===== *)
(** * The unit tests of the data modules, executed

    The tests in the modules crypto_types, boxes, tasks, cookie, context, csn,
    messages, nonce, state and types of the repository, translated one by one and
    run on the definitions of the development, with the MessagePack codec and the
    reference instances of the other parameters.  They check that the model does
    what the authors of the program expect of the code, down to the bytes of the
    messages and the texts of the errors.

    Left out are the tests on values precomputed with libsodium and the test that
    looks at freed memory. *)

From S2P Require Import Prelude Text External Errors Types Csn Cookie Nonce Crypto Tasks.
From S2P Require Import Messages Serde ReferenceCodec Boxes Context Testing.
Import Reference ReferenceCodec.

(** ** crypto_types.rs *)

Module CryptoTypesTests.
Definition test_new : Test unit := times 255 (
  ks1 ← keypair_new;
  ks2 ← keypair_new;
  _ ← assert_ne (public_key ks1) (public_key ks2);
  _ ← assert_ne (private_key ks1) (private_key ks2);
  assert_ne ks1 ks2).

Definition test_from_private_key : Test unit := times 255 (
  ks1 ← keypair_new;
  let ks2 := from_private_key (private_key ks1) in
  assert_eq (public_key ks1) (public_key ks2)).

Definition test_from_keypair : Test unit := times 255 (
  ks1 ← keypair_new;
  ks2 ← keypair_new;
  let ks3 := from_keypair (public_key ks1) (private_key ks1) in
  _ ← assert_ne ks1 ks2;
  _ ← assert_ne ks2 ks3;
  assert_eq ks1 ks3).

Definition test_auth_token_from_hex_str : Test unit :=
  let res1 := auth_token_from_hex_str "foobar" in
  _ ← assert_eq res1
    (Err (SaltyError.Decode "Could not decode auth token hex string: invalid symbol at 1"));
  let res2 := auth_token_from_hex_str "012345ab" in
  _ ← assert_eq res2 (Err (SaltyError.Decode "Invalid auth token hex string"));
  let res3 := auth_token_from_hex_str
    "53459fb52fdeeb74103a2932a5eff8095ea1efbaf657f2181722c4e61e6f7e79" in
  _ ← unwrap res3; mret tt.

Definition test_auth_token_from_slice : Test unit :=
  let res1 := auth_token_from_slice (replicate 31 0) in
  _ ← assert_eq res1
    (Err (SaltyError.Decode "Invalid auth token bytes: Slice must be 32 bytes long"));
  let res2 := auth_token_from_slice (replicate 32 1) in
  _ ← unwrap res2; mret tt.

Definition hex_bytes (s : string) : Test bytes :=
  match hex_decode_permissive s with inl bs => mret bs | inr e => panic e end.

Definition test_unsigned_keys_sign_decrypt : Test unit :=
  kp_server ← keypair_new;
  kp_client ← keypair_new;
  nonce_bytes ← hex_bytes "fe381c4bdb8bfc2a27d2c9a6485113e7638613ffb02b3747";
  nonce ← unwrap (nonce_from_bytes nonce_bytes);
  let unsigned := unsigned_keys_new (public_key kp_server) (public_key kp_client) in
  signed ← unwrap (unsigned_keys_sign (E := string) unsigned kp_server (public_key kp_client)
    (nonce_clone nonce));
  decrypted ← unwrap (ok_or (box_open (signed_bytes signed) (nonce_into_sodium (nonce_clone nonce))
    (pk_bytes (public_key kp_server)) (sk_bytes (private_key kp_client))) tt);
  _ ← assert_eq (length decrypted) (2 * 32)%nat;
  _ ← assert_eq (slice 0 32 decrypted) (pk_bytes (public_key kp_server));
  _ ← assert_eq (slice 32 64 decrypted) (pk_bytes (public_key kp_client));
  unsigned2 ← unwrap (signed_keys_decrypt signed kp_client (public_key kp_server) nonce);
  assert_eq unsigned unsigned2.
End CryptoTypesTests.

(** ** boxes.rs *)

Module BoxesTests.
Definition create_test_nonce : Nonce :=
  nonce_new (cookie_new [1; 2; 3; 4; 5; 6; 7; 8; 9; 10; 11; 12; 13; 14; 15; 16])
    (mkAddress 17) (mkAddress 18) (snapshot_new 258 50595078).

(** The bytes of a server-hello message. *)
Definition create_test_msg_bytes : bytes := [
  0x82;
  0xa4; 0x74; 0x79; 0x70; 0x65;
  0xac; 0x73; 0x65; 0x72; 0x76; 0x65; 0x72; 0x2d; 0x68; 0x65; 0x6c; 0x6c; 0x6f;
  0xa3; 0x6b; 0x65; 0x79;
  0xc4; 0x20;
  0x01; 0x02; 0x03; 0x04; 0x05; 0x06; 0x07; 0x08; 0x09; 0x00;
  0x01; 0x02; 0x03; 0x04; 0x05; 0x06; 0x07; 0x08; 0x09; 0x00;
  0x01; 0x02; 0x03; 0x04; 0x05; 0x06; 0x07; 0x08; 0x09; 0x00;
  0x63; 0xff].

Definition test_byte_box_from_slice : Test unit :=
  bbox ← unwrap (byte_box_from_slice
    [1; 2; 3; 4; 5; 6; 7; 8; 8; 7; 6; 5; 4; 3; 2; 1; 1; 2; 3; 4; 5; 6; 7; 8; 9; 10]);
  _ ← assert_eq (overflow_number (nonce_csn (bbox_nonce bbox))) (Z.shiftl 3 8 + 4);
  _ ← assert_eq (sequence_number (nonce_csn (bbox_nonce bbox)))
    (Z.shiftl 5 24 + Z.shiftl 6 16 + Z.shiftl 7 8 + 8);
  assert_eq (bbox_bytes bbox) [9; 10].

Definition test_byte_box_from_slice_too_short : Test unit :=
  let bytes_only_nonce :=
    [1; 2; 3; 4; 5; 6; 7; 8; 8; 7; 6; 5; 4; 3; 2; 1; 1; 2; 3; 4; 5; 6; 7; 8] in
  let bytes_not_even_nonce := [1; 2; 3; 4; 5; 6; 7; 8] in
  err1 ← unwrap_err (byte_box_from_slice bytes_only_nonce);
  err2 ← unwrap_err (byte_box_from_slice bytes_not_even_nonce);
  _ ← assert_eq (SignalingError.signaling_error_to_string err1) "Decoding error: Message is too short";
  assert_eq (SignalingError.signaling_error_to_string err2) "Decoding error: Message is too short".

Definition test_byte_box_decode_message : Test unit :=
  let bbox := byte_box_new create_test_msg_bytes create_test_nonce in
  obox ← unwrap (obox_decode bbox);
  assert_eq (Message.get_type (obox_message obox)) "server-hello".

Definition test_byte_box_decrypt_message : Test unit :=
  let nonce := create_test_nonce in
  keypair_tx ← keypair_new;
  keypair_rx ← keypair_new;
  let encrypted := keypair_encrypt keypair_tx create_test_msg_bytes (nonce_clone nonce)
    (public_key keypair_rx) in
  let bbox := byte_box_new encrypted nonce in
  obox ← unwrap (obox_decrypt bbox keypair_rx (public_key keypair_tx));
  assert_eq (Message.get_type (obox_message obox)) "server-hello".

Definition test_byte_box_decrypt_token_message : Test unit :=
  let nonce := create_test_nonce in
  auth_token ← auth_token_new;
  let encrypted := auth_token_encrypt auth_token create_test_msg_bytes (nonce_clone nonce) in
  let bbox := byte_box_new encrypted nonce in
  obox ← unwrap (obox_decrypt_token bbox auth_token);
  assert_eq (Message.get_type (obox_message obox)) "server-hello".

Definition test_byte_box_decrypt_value : Test unit :=
  let nonce := create_test_nonce in
  let value := Value.Map [(Value.from_string "type", Value.from_string "taskmsg");
                          (Value.from_string "number", Value.Integer 42)] in
  bs ← unwrap (ok_or (rmps_value_to_vec value) tt);
  keypair_tx ← keypair_new;
  keypair_rx ← keypair_new;
  let encrypted := keypair_encrypt keypair_tx bs (nonce_clone nonce) (public_key keypair_rx) in
  let bbox := byte_box_new encrypted (nonce_clone nonce) in
  _ ← unwrap_err (obox_decrypt bbox keypair_rx (public_key keypair_tx));
  let bbox := byte_box_new encrypted nonce in
  obox ← unwrap (value_decrypt bbox keypair_rx (public_key keypair_tx));
  match obox_message obox with
  | Value.Map values => assert_eq values
      [(Value.from_string "type", Value.from_string "taskmsg");
       (Value.from_string "number", Value.Integer 42)]
  | _ => panic "Expected map"
  end.
End BoxesTests.

(** ** tasks.rs *)

Module TasksTests.
Definition test_create_tasks : Test unit :=
  let t1 := dummy_task_new 1 in
  let t2 := dummy_task_new 2 in
  let t3 := dummy_task_new 3 in
  let tasks := tasks_new t1 in
  _ ← assert_eq (tasks_len tasks) 1%nat;
  tasks ← unwrap (add_task t2 tasks);
  tasks ← unwrap (add_task t3 tasks);
  _ ← assert_eq (tasks_len tasks) 3%nat;
  err ← unwrap_err (add_task t3 tasks);
  _ ← assert_eq err ("Task with name " +:+ dquote +:+ "dummy.3" +:+ dquote +:+ " cannot be added twice");
  assert_eq (tasks_len tasks) 3%nat.

Definition make_tasks : Test (Tasks DummyTask) :=
  unwrap (tasks_from_vec [dummy_task_new 1; dummy_task_new 2]).

Definition test_choose_shared_task : Test unit :=
  tasks ← make_tasks;
  _ ← assert_eq (task_name <$> choose_shared_task tasks ["dummy.1"; "dummy.3"]) (Some "dummy.1");
  tasks ← make_tasks;
  _ ← assert_eq (task_name <$> choose_shared_task tasks ["dummy.2"]) (Some "dummy.2");
  tasks ← make_tasks;
  _ ← assert_eq (task_name <$> choose_shared_task tasks ["dummy.3"]) None;
  tasks ← make_tasks;
  assert_eq (task_name <$> choose_shared_task tasks ["dummy.2"; "dummy.1"]) (Some "dummy.1").
End TasksTests.

(** [n] values drawn one after the other. *)
Fixpoint draw {A} (n : nat) (t : Test A) : Test (list A) :=
  match n with
  | O => mret []
  | Datatypes.S n' => a ← t; l ← draw n' t; mret (a :: l)
  end.

(** ** cookie.rs *)

Module CookieTests.
Definition test_random_distinct : Test unit :=
  cookies ← draw 100 cookie_random;
  assert_eq (length (remove_dups cookies)) 100%nat.

Definition test_cookie : Cookie := cookie_new [1; 2; 3; 4; 5; 6; 7; 8; 1; 2; 3; 4; 5; 6; 7; 8].
Definition test_cookie_bytes : bytes :=
  [0xc4; 16; 1; 2; 3; 4; 5; 6; 7; 8; 1; 2; 3; 4; 5; 6; 7; 8].

Definition test_cookie_serialize : Test unit :=
  assert_eq (rmp_write (ser_cookie test_cookie)) test_cookie_bytes.

Definition test_cookie_deserialize : Test unit :=
  match rmp_read test_cookie_bytes with
  | inl v => assert_eq (de_bytes cookie_visit_bytes v) (Some test_cookie)
  | inr e => panic e
  end.
End CookieTests.

(** ** context.rs *)

Module ContextTests.
Definition test_server_context_new : Test unit :=
  ctx ← server_context_new;
  _ ← assert_eq (pc_identity ctx) Identity.Server;
  _ ← assert_eq (pc_permanent_key ctx) None;
  assert_eq (pc_session_key ctx) None.
End ContextTests.

(** ** csn.rs *)

Module CsnTests.
Definition test_random_distinct : Test unit :=
  numbers ← draw 100 csn_random;
  assert_eq (length (remove_dups numbers)) 100%nat.

Definition test_combined_value_range : Test unit := times 100 (
  csn ← csn_random;
  assert (csn_number csn <? Z.shiftl 1 48)).

(** The loop that draws until the sequence number will not overflow; [fuel]
    bounds the draws. *)
Fixpoint draw_below_max (fuel : nat) (old : CombinedSequence) : Test CombinedSequence :=
  if cs_sequence old =? (2 ^ 32 - 1) then
    match fuel with
    | O => panic "out of fuel"
    | Datatypes.S fuel' => old ← csn_random; draw_below_max fuel' old
    end
  else mret old.

Definition test_increment_without_overflow : Test unit :=
  old ← csn_random;
  old ← draw_below_max 10 old;
  new ← unwrap (increment old).1;
  _ ← assert_eq (cs_sequence old + 1) (sequence_number new);
  _ ← assert_eq (cs_overflow old) (overflow_number new);
  assert_eq (csn_number old + 1) (combined_sequence_number new).

Definition test_increment_with_sequence_overflow : Test unit :=
  new ← unwrap (increment (csn_new 0 (2 ^ 32 - 1))).1;
  _ ← assert_eq (sequence_number new) 0;
  _ ← assert_eq (overflow_number new) 1;
  assert_eq (combined_sequence_number new) ((2 ^ 32 - 1) + 1).

Definition test_increment_with_overflow_overflow : Test unit :=
  err ← unwrap_err (increment (csn_new (2 ^ 16 - 1) (2 ^ 32 - 1))).1;
  assert_eq err SignalingError.CsnOverflow.
End CsnTests.

(** ** messages.rs *)

Module MessagesTests.
Definition test_key_bytes : bytes :=
  [1; 2; 3; 4; 5; 6; 7; 8; 9; 0; 1; 2; 3; 4; 5; 6; 7; 8; 9; 0;
   1; 2; 3; 4; 5; 6; 7; 8; 9; 0; 99; 255].

Definition test_encode_message : Test unit :=
  key ← unwrap (ok_or (mkPublicKey <$> key_from_slice 32 test_key_bytes) tt);
  let msg := Message.ServerHello (mkServerHello key) in
  bs ← unwrap (ok_or (rmps_message_to_vec msg) tt);
  assert_eq bs BoxesTests.create_test_msg_bytes.

Definition test_decode_message : Test unit :=
  key ← unwrap (ok_or (mkPublicKey <$> key_from_slice 32 test_key_bytes) tt);
  match rmps_message_from_slice BoxesTests.create_test_msg_bytes with
  | inl (Message.ServerHello sh) => assert_eq sh (mkServerHello key)
  | inl _ => panic "Wrong message type: Should be ServerHello"
  | inr e => panic e
  end.

(** The macro [roundtrip!]. *)
Definition roundtrip {A} `{!IntoMessage A} (msg_inner : Test A) : Test unit :=
  inner ← msg_inner;
  let msg := into_message inner in
  bs ← unwrap (to_msgpack (E := string) msg);
  decoded ← unwrap (from_msgpack bs);
  assert_eq msg decoded.

Definition test_roundtrip_client_hello : Test unit := roundtrip client_hello_random.
Definition test_roundtrip_server_hello : Test unit := roundtrip server_hello_random.
Definition test_roundtrip_drop_responder : Test unit := roundtrip (mret
  (drop_responder_with_reason (Address.address_from_u8 4) DropReason.DroppedByInitiator)).
Definition test_roundtrip_token : Test unit := roundtrip token_random.
Definition test_roundtrip_key : Test unit := roundtrip key_random.
Definition test_roundtrip_auth_responder : Test unit := roundtrip (
  cookie ← cookie_random;
  unwrap (initiator_auth_build (set_task "foo.bar.baz" None (initiator_auth_new cookie)))).
Definition test_roundtrip_auth_initiator : Test unit := roundtrip (
  cookie ← cookie_random;
  builder ← unwrap (add_named_task "foo.bar.baz" None (responder_auth_new cookie));
  unwrap (responder_auth_build builder)).
Definition test_roundtrip_close : Test unit := roundtrip (mret (close_new 3003)).

Definition test_initiator_auth_builder_incomplete : Test unit :=
  cookie ← cookie_random;
  _ ← unwrap_err (initiator_auth_build (initiator_auth_new cookie)); mret tt.

Definition test_initiator_auth_builder : Test unit :=
  cookie ← cookie_random;
  auth ← unwrap (initiator_auth_build (set_task "data.none" None (initiator_auth_new cookie)));
  _ ← assert_eq (auth_your_cookie auth) cookie;
  _ ← assert_eq (auth_tasks auth) None;
  _ ← assert_eq (auth_task auth) (Some "data.none");
  _ ← assert_eq (size (auth_data auth)) 1%nat;
  assert (bool_decide (is_Some (auth_data auth !! "data.none"))).

Definition test_responder_auth_builder_incomplete : Test unit :=
  cookie ← cookie_random;
  _ ← unwrap_err (responder_auth_build (responder_auth_new cookie)); mret tt.

Definition test_responder_auth_builder : Test unit :=
  let data : gmap string Value := {[ "foo" := Value.Boolean true ]} in
  cookie ← cookie_random;
  builder ← unwrap (add_named_task "data.none" None (responder_auth_new cookie));
  builder ← unwrap (add_named_task "data.some" (Some data) builder);
  auth ← unwrap (responder_auth_build builder);
  _ ← assert_eq (auth_your_cookie auth) cookie;
  _ ← assert_eq (auth_task auth) None;
  _ ← assert_eq (length <$> auth_tasks auth) (Some 2%nat);
  assert_eq (size (auth_data auth)) 2%nat.

Definition test_send_error_decode : Test unit :=
  let bs := [0x82; 0xa4; 0x74; 0x79; 0x70; 0x65;
    0xaa; 0x73; 0x65; 0x6e; 0x64; 0x2d; 0x65; 0x72; 0x72; 0x6f; 0x72;
    0xa2; 0x69; 0x64; 0xc4; 0x08; 0x02; 0x01; 0x00; 0x00; 0x8a; 0xe3; 0xbe; 0xb5] in
  match rmps_message_from_slice bs with
  | inl (Message.SendError se) =>
      _ ← assert_eq (se_source (send_error_id se)) (mkAddress 2);
      _ ← assert_eq (se_destination (send_error_id se)) (mkAddress 1);
      _ ← assert_eq (overflow_number (se_csn (send_error_id se))) 0;
      assert_eq (sequence_number (se_csn (send_error_id se)))
        (Z.shiftl 0x8a 24 + Z.shiftl 0xe3 16 + Z.shiftl 0xbe 8 + 0xb5)
  | inl _ => panic "Wrong message type: Should be SendError"
  | inr e => panic e
  end.
End MessagesTests.

(** ** nonce.rs *)

Module NonceTests.
Definition create_test_nonce : Nonce :=
  mkNonce (cookie_new [1; 2; 3; 4; 5; 6; 7; 8; 9; 10; 11; 12; 13; 14; 15; 16])
    (mkAddress 17) (mkAddress 18) (snapshot_new 258 50595078).
Definition create_test_nonce_bytes : bytes :=
  [1; 2; 3; 4; 5; 6; 7; 8; 9; 10; 11; 12; 13; 14; 15; 16; 17; 18; 1; 2; 3; 4; 5; 6].

Definition test_parse_nonce : Test unit :=
  nonce ← unwrap (nonce_from_bytes create_test_nonce_bytes);
  assert_eq nonce create_test_nonce.

Definition test_nonce_methods : Test unit :=
  let nonce := create_test_nonce in
  _ ← assert_eq (nonce_cookie nonce)
    (cookie_new [1; 2; 3; 4; 5; 6; 7; 8; 9; 10; 11; 12; 13; 14; 15; 16]);
  _ ← assert_eq (nonce_source nonce) (mkAddress 17);
  _ ← assert_eq (nonce_destination nonce) (mkAddress 18);
  _ ← assert_eq (overflow_number (nonce_csn nonce)) 258;
  assert_eq (sequence_number (nonce_csn nonce)) 50595078.

Definition test_serialize_nonce : Test unit :=
  assert_eq (nonce_into_bytes create_test_nonce) create_test_nonce_bytes.

Definition test_nonce_into_nonce : Test unit :=
  assert_eq (nonce_into_sodium create_test_nonce) create_test_nonce_bytes.
End NonceTests.

(** ** state.rs *)

Module StateTests.
Definition test_signaling_handshake_validate_transitions : Test unit :=
  let s := SignalingState.ServerHandshake in
  let p := SignalingState.PeerHandshake in
  let t := SignalingState.Task in
  let may := SignalingState.may_transition_to in
  _ ← assert (negb (may s s));
  _ ← assert (may s p);
  _ ← assert (negb (may s t));
  _ ← assert (negb (may p s));
  _ ← assert (negb (may p p));
  _ ← assert (may p t);
  _ ← assert (negb (may t s));
  _ ← assert (negb (may t p));
  assert (negb (may t t)).
End StateTests.

(** ** types.rs *)

Module TypesTests.
Definition test_client_identity_into_address : Test unit :=
  let into i := ClientIdentity.address_from_client_identity (E := string) i in
  _ ← assert_eq (into ClientIdentity.Unknown) (Ok (mkAddress 0x00));
  _ ← assert_eq (into ClientIdentity.Initiator) (Ok (mkAddress 0x01));
  assert_eq (into (ClientIdentity.Responder 0x13)) (Ok (mkAddress 0x13)).

Definition test_client_identity_invalid_responder_into_address : Test unit :=
  should_panic (ClientIdentity.address_from_client_identity (E := string) (ClientIdentity.Responder 0x01))
    "address <= 0x01".

Definition test_address_display : Test unit :=
  _ ← assert_eq (Address.address_to_string (mkAddress 0)) "0x00";
  _ ← assert_eq (Address.address_to_string (mkAddress 3)) "0x03";
  assert_eq (Address.address_to_string (mkAddress 255)) "0xff".

Definition test_client_identity_display : Test unit :=
  let display := ClientIdentity.client_identity_to_string in
  _ ← assert_eq (display ClientIdentity.Unknown) "unknown";
  _ ← assert_eq (display ClientIdentity.Initiator) "initiator";
  assert_eq (display (ClientIdentity.Responder 10)) "responder 0x0a".
End TypesTests.

(** ** All of them *)

Definition unit_tests : list (Test unit) := [
  CryptoTypesTests.test_new; CryptoTypesTests.test_from_private_key;
  CryptoTypesTests.test_from_keypair; CryptoTypesTests.test_auth_token_from_hex_str;
  CryptoTypesTests.test_auth_token_from_slice; CryptoTypesTests.test_unsigned_keys_sign_decrypt;
  BoxesTests.test_byte_box_from_slice; BoxesTests.test_byte_box_from_slice_too_short;
  BoxesTests.test_byte_box_decode_message; BoxesTests.test_byte_box_decrypt_message;
  BoxesTests.test_byte_box_decrypt_token_message; BoxesTests.test_byte_box_decrypt_value;
  TasksTests.test_create_tasks; TasksTests.test_choose_shared_task;
  CookieTests.test_random_distinct; CookieTests.test_cookie_serialize;
  CookieTests.test_cookie_deserialize; ContextTests.test_server_context_new;
  CsnTests.test_random_distinct; CsnTests.test_combined_value_range;
  CsnTests.test_increment_without_overflow; CsnTests.test_increment_with_sequence_overflow;
  CsnTests.test_increment_with_overflow_overflow; MessagesTests.test_encode_message;
  MessagesTests.test_decode_message; MessagesTests.test_roundtrip_client_hello;
  MessagesTests.test_roundtrip_server_hello; MessagesTests.test_roundtrip_drop_responder;
  MessagesTests.test_roundtrip_token; MessagesTests.test_roundtrip_key;
  MessagesTests.test_roundtrip_auth_responder; MessagesTests.test_roundtrip_auth_initiator;
  MessagesTests.test_roundtrip_close; MessagesTests.test_initiator_auth_builder_incomplete;
  MessagesTests.test_initiator_auth_builder; MessagesTests.test_responder_auth_builder_incomplete;
  MessagesTests.test_responder_auth_builder; MessagesTests.test_send_error_decode;
  NonceTests.test_parse_nonce; NonceTests.test_nonce_methods; NonceTests.test_serialize_nonce;
  NonceTests.test_nonce_into_nonce; StateTests.test_signaling_handshake_validate_transitions;
  TypesTests.test_client_identity_into_address;
  TypesTests.test_client_identity_invalid_responder_into_address;
  TypesTests.test_address_display; TypesTests.test_client_identity_display].

(** Every one of these tests passes on the model, at four starting points of the
    entropy source. *)
Theorem unit_tests_pass :
  forallb (λ w, forallb (passes w) unit_tests) [0; 1; 100; 200] = true.
Proof. by vm_compute. Qed.
