(* ===== verification/ProtocolTests.v ===== *)
(** * The tests of the protocol, executed

    The tests of src/protocol/tests (mod.rs, validate_nonce.rs and
    signaling_messages.rs), translated one by one and run on the model of the two
    roles: nonce validation, the messages of the server and of the peer, the
    texts of the errors, path cleaning and the regressions.  Left out are the
    known result of libsodium and the empty [token_initiator_cannot_decrypt]. *)

From S2P Require Import Prelude Text External Errors Types Csn Cookie Nonce Crypto Tasks.
From S2P Require Import Messages ReferenceCodec Boxes Context Signaling Initiator Responder Testing.
Import Reference ReferenceCodec.

(** ** Test objects *)

Abbreviation TestInitiator := (InitiatorSignaling DummyTask).
Abbreviation TestResponder := (ResponderSignaling DummyTask).

(** A [Box<dyn PeerContext>]. *)
Inductive BoxedPeer : Type := Boxed (P : Type) (inst : PeerContext P) (peer : P).
Arguments Boxed {P inst} peer.

Record MockSignaling := mkMockSignaling {
  mock_common : Common DummyTask;
  mock_peer : option BoxedPeer;
  mock_initiator_pubkey : PublicKey;
}.

Definition mock_signaling_new (role : Role) (identity : ClientIdentity)
    (signaling_state : SignalingState) : Test MockSignaling :=
  permanent_keypair ← keypair_new;
  server ← server_context_new;
  initiator_pubkey ← public_key_random;
  mret (mkMockSignaling
    (mkCommon signaling_state permanent_keypair None role identity server None None None None)
    None initiator_pubkey).

Definition set_peer `{!PeerContext P} (peer : P) (self : MockSignaling) : MockSignaling :=
  mkMockSignaling (mock_common self) (Some (Boxed peer)) (mock_initiator_pubkey self).

Definition mock_get_peer (self : MockSignaling) : option (DynPeer MockSignaling) :=
  match mock_peer self with
  | Some (@Boxed P inst peer) => Some (MkDynPeer peer (λ peer', set_peer peer' self))
  | None => None
  end.

#[export] Instance mock_base : SignalingBase DummyTask MockSignaling := {|
  common := mock_common;
  set_common c s := mkMockSignaling c (mock_peer s) (mock_initiator_pubkey s);
  get_peer := mock_get_peer;
  get_peer_with_address_mut E _ _ := Ok None;
  initiator_pubkey := mock_initiator_pubkey;
|}.

Definition not_implemented : SignalingError := SignalingError.Crash "Not implemented in mock".
#[export] Instance mock_signaling : Signaling DummyTask MockSignaling := {|
  validate_nonce_destination _ := mret tt;
  validate_nonce_source _ := mret tt;
  decode_peer_message _ _ := Err not_implemented;
  handle_peer_message _ := throw not_implemented;
  handle_server_auth_impl _ := throw not_implemented;
  handle_new_initiator _ := throw not_implemented;
  handle_new_responder _ := throw not_implemented;
  handle_disconnected _ := throw not_implemented;
|}.

(** [s.handle_message(bbox)] on an object of the test. *)
Definition handle {S} `{!Signaling DummyTask S} (bbox : ByteBox) (s : S)
    : Test (outcome SignalingError (list HandleAction) * S) :=
  call (handle_message (T := DummyTask) bbox) s.
Definition assert_server_state {S} `{!SignalingBase DummyTask S} (s : S)
    (st : ServerHandshakeState) : Test unit :=
  assert_eq (server_handshake_state (T := DummyTask) s) st.

Definition encode (msg : Message) (nonce : Nonce) : Test ByteBox :=
  unwrap (obox_encode (E := string) (open_box_new msg nonce)).

(** ** tests/mod.rs *)

Module ModTests.
Definition test_responder_counter : Test unit :=
  let rc := responder_counter_new in
  _ ← assert_eq (counter_value rc) 0;
  let '(r, rc) := responder_counter_increment rc in
  _ ← assert_eq r (Ok 0);
  assert_eq (counter_value rc) 1.

Definition test_responder_counter_overflow : Test unit :=
  let rc := mkResponderCounter (2 ^ 32 - 1) in
  let '(r, rc) := responder_counter_increment rc in
  _ ← assert_eq r (Err (SignalingError.Crash "Overflow when incrementing responder counter"));
  assert_eq (counter_value rc) (2 ^ 32 - 1).

Definition new_initiator : Test TestInitiator :=
  kp ← keypair_new;
  initiator_signaling_new kp (tasks_new (dummy_task_new 42)) None None None.

Definition test_peer_sequence_number_no_peer : Test unit :=
  signaling ← new_initiator;
  assert_eq (current_peer_sequence_numbers (T := DummyTask) signaling) None.

Definition test_peer_sequence_number_with_peer : Test unit :=
  signaling ← mock_signaling_new Role.Responder (ClientIdentity.Responder 3) SignalingState.Task;
  pk ← public_key_random;
  initiator ← initiator_context_new pk;
  let pair := pc_csn_pair initiator in
  let our_csn := csn_number (csn_ours pair) in
  let initiator := pc_set_csn_pair
    (mkCombinedSequencePair (csn_ours pair) (Some (snapshot_new 3 1234))) initiator in
  let signaling := set_peer initiator signaling in
  assert_eq (current_peer_sequence_numbers (T := DummyTask) signaling)
    (Some (mkPeerSequenceNumbers (Z.lor (Z.shiftl 3 32) 1234) our_csn)).

(** [box_::gen_nonce]. *)
Definition gen_nonce : Test bytes := mworld (randombytes 24).

Definition test_encrypt_decrypt_raw_with_session_keys_no_peer : Test unit :=
  signaling ← new_initiator;
  nonce ← gen_nonce;
  _ ← assert_eq (encrypt_raw_with_session_keys (T := DummyTask) [1; 2; 3] nonce signaling)
    (Err SignalingError.NoPeer);
  assert_eq (decrypt_raw_with_session_keys (T := DummyTask) [1; 2; 3] nonce signaling)
    (Err SignalingError.NoPeer).

(** A mock in the task phase whose peer has a session key. *)
Definition mock_with_keys (peer_kp our_kp : KeyPair) : Test MockSignaling :=
  signaling ← mock_signaling_new Role.Responder (ClientIdentity.Responder 3) SignalingState.Task;
  pk ← public_key_random;
  initiator ← initiator_context_new pk;
  let initiator := mkInitiatorContext (ini_handshake_state initiator) (ini_permanent_key initiator)
    (Some (public_key peer_kp)) our_kp (ini_csn_pair initiator) (ini_cookie_pair initiator) in
  mret (set_peer initiator signaling).

Definition test_encrypt_raw_with_session_keys_with_peer : Test unit :=
  peer_kp ← keypair_new;
  our_kp ← keypair_new;
  nonce ← gen_nonce;
  signaling ← mock_with_keys peer_kp our_kp;
  let data := [2; 3; 4; 5] in
  ciphertext ← unwrap (encrypt_raw_with_session_keys (T := DummyTask) data nonce signaling);
  _ ← assert_ne data ciphertext;
  assert_eq (box_open ciphertext nonce (pk_bytes (public_key peer_kp))
    (sk_bytes (private_key our_kp))) (Some [2; 3; 4; 5]).

Definition test_decrypt_raw_with_session_keys_with_peer : Test unit :=
  peer_kp ← keypair_new;
  our_kp ← keypair_new;
  nonce ← gen_nonce;
  let ciphertext := box_seal [1; 2; 3; 4] nonce (pk_bytes (public_key peer_kp))
    (sk_bytes (private_key our_kp)) in
  signaling ← mock_with_keys peer_kp our_kp;
  wrong ← gen_nonce;
  _ ← assert_eq (decrypt_raw_with_session_keys (T := DummyTask) ciphertext wrong signaling)
    (Err (SignalingError.Crypto "Could not decrypt bytes"));
  assert_eq (decrypt_raw_with_session_keys (T := DummyTask) ciphertext nonce signaling)
    (Ok [1; 2; 3; 4]).
End ModTests.

(** ** tests/validate_nonce.rs *)

Module ValidateNonceTests.
Definition new_initiator : Test TestInitiator :=
  ks ← keypair_new; initiator_signaling_new ks (mkTasks []) None None None.

Definition bad_nonce (reason : string) : outcome SignalingError (list HandleAction) :=
  Err (SignalingError.InvalidNonce reason).

(** A server-hello message with the given addresses and sequence number. *)
Definition hello (src dest : Z) (cs : CombinedSequenceSnapshot) : Test ByteBox :=
  msg ← server_hello_random;
  cookie ← cookie_random;
  encode (into_message msg) (nonce_new cookie (mkAddress src) (mkAddress dest) cs).
Definition make_msg (src dest : Z) : Test ByteBox := cs ← snapshot_random; hello src dest cs.

Definition test_first_message_wrong_destination : Test unit :=
  s ← new_initiator;
  bbox ← make_msg 0 1;
  _ ← assert_server_state s ServerHandshakeState.New;
  '(r, _) ← handle bbox s;
  assert_eq r (bad_nonce "Bad destination: 0x01 (our identity is unknown)").

(** A message that is ignored, before the server handshake. *)
Definition ignored {S} `{!Signaling DummyTask S} (src : Z) (s : S) : Test S :=
  _ ← assert_server_state s ServerHandshakeState.New;
  bbox ← make_msg src 0x00;
  '(r, s) ← handle bbox s;
  actions ← unwrap r;
  _ ← assert_server_state s ServerHandshakeState.New;
  _ ← assert_eq actions [];
  mret s.
(** The message of the server, answered by [n] messages. *)
Definition answered {S} `{!Signaling DummyTask S} (n : nat) (s : S) : Test unit :=
  _ ← assert_server_state s ServerHandshakeState.New;
  bbox ← make_msg 0x00 0x00;
  '(r, s) ← handle bbox s;
  actions ← unwrap r;
  _ ← assert_server_state s ServerHandshakeState.ClientInfoSent;
  assert_eq (length actions) n.

Definition test_wrong_source_initiator : Test unit :=
  s ← new_initiator;
  s ← ignored 0x01 s;
  s ← ignored 0xff s;
  answered 1 s.

Definition test_wrong_source_responder : Test unit :=
  ks ← keypair_new;
  s ← responder_signaling_new ks (mkPublicKey (replicate 32 0)) None None
    (mkTasks (T := DummyTask) []) None;
  s ← ignored 0x03 s;
  s ← ignored 0x01 s;
  answered 2 s.

Definition test_first_message_bad_overflow_number : Test unit :=
  s ← new_initiator;
  bbox ← hello 0 0 (snapshot_new 1 1234);
  _ ← assert_server_state s ServerHandshakeState.New;
  '(r, _) ← handle bbox s;
  assert_eq r (bad_nonce "First message from server must have set the overflow number to 0").

Definition _test_sequence_number (first second : CombinedSequenceSnapshot)
    : Test (outcome SignalingError (list HandleAction)) :=
  s ← new_initiator;
  bbox ← hello 0 0 first;
  _ ← assert_server_state s ServerHandshakeState.New;
  '(r, s) ← handle bbox s;
  _ ← assert (is_ok r);
  let msg := into_message (server_auth_for_initiator
    (cookie_ours (srv_cookie_pair (server (T := DummyTask) s))) None []) in
  cookie ← cookie_random;
  bbox ← encode msg (nonce_new cookie (mkAddress 0) (mkAddress 0) second);
  _ ← assert_server_state s ServerHandshakeState.ClientInfoSent;
  '(r, _) ← handle bbox s;
  mret r.

Definition test_sequence_number_not_incremented : Test unit :=
  r ← _test_sequence_number (snapshot_new 0 1234) (snapshot_new 0 1234);
  assert_eq r (bad_nonce "The server CSN hasn't been incremented").
Definition test_sequence_number_decremented : Test unit :=
  r ← _test_sequence_number (snapshot_new 0 1234) (snapshot_new 0 1233);
  assert_eq r (bad_nonce "The server CSN is lower than last time").
Definition test_sequence_number_reset : Test unit :=
  r ← _test_sequence_number (snapshot_new 0 1234) (snapshot_new 0 0);
  assert_eq r (bad_nonce "The server CSN is lower than last time").

Definition test_cookie_differs_from_own : Test unit :=
  s ← new_initiator;
  msg ← server_hello_random;
  let cookie := cookie_ours (srv_cookie_pair (server (T := DummyTask) s)) in
  cs ← snapshot_random;
  bbox ← encode (into_message msg) (nonce_new cookie (mkAddress 0) (mkAddress 0) cs);
  _ ← assert_server_state s ServerHandshakeState.New;
  '(r, _) ← handle bbox s;
  assert_eq r (bad_nonce "Cookie from server is identical to our own cookie").

Definition test_cookie_did_not_change : Test unit :=
  s ← new_initiator;
  bbox ← hello 0 0 (snapshot_new 0 123);
  _ ← assert_server_state s ServerHandshakeState.New;
  '(r, s) ← handle bbox s;
  _ ← assert (is_ok r);
  _ ← assert_server_state s ServerHandshakeState.ClientInfoSent;
  let srv := server (T := DummyTask) s in
  let msg := into_message (server_auth_for_initiator (cookie_ours (srv_cookie_pair srv)) None []) in
  cookie ← cookie_random;
  session_key ← unwrap (ok_or (srv_session_key srv) tt);
  bbox ← unwrap (obox_encrypt (E := string)
    (open_box_new msg (nonce_new cookie (mkAddress 0) (mkAddress 1) (snapshot_new 0 124)))
    (c_permanent_keypair (common (T := DummyTask) s)) session_key);
  '(r, _) ← handle bbox s;
  assert_eq r (bad_nonce "Cookie from server has changed").
End ValidateNonceTests.

(** ** tests/signaling_messages.rs *)

Record TestContext (S : Type) := mkTestContext {
  tc_our_ks : KeyPair;
  tc_server_ks : KeyPair;
  tc_our_cookie : Cookie;
  tc_server_cookie : Cookie;
  tc_signaling : S;
}.
Arguments mkTestContext {S}.
Arguments tc_our_ks {S}.
Arguments tc_server_ks {S}.
Arguments tc_our_cookie {S}.
Arguments tc_server_cookie {S}.
Arguments tc_signaling {S}.

(** What both constructors do to the object [new] gives. *)
Definition prepare {S} `{!SignalingBase DummyTask S} (id : ClientIdentity) (st : SignalingState)
    (hs : ServerHandshakeState) (our_cookie server_cookie : Cookie) (server_ks : KeyPair)
    (s : S) : Test S :=
  let c := with_identity id (common s) in
  let srv := srv_set_handshake_state hs (c_server c) in
  let srv := pc_set_cookie_pair (mkCookiePair our_cookie (Some server_cookie)) srv in
  let srv := srv_set_session_key (Some (public_key server_ks)) srv in
  let '(r, c) := set_signaling_state_forced st (with_server srv c) in
  _ ← unwrap r;
  mret (set_common c s).

Definition test_context_initiator (id : ClientIdentity) (peer_trusted_pubkey : option PublicKey)
    (st : SignalingState) (hs : ServerHandshakeState) : Test (TestContext TestInitiator) :=
  our_ks ← keypair_new;
  server_ks ← keypair_new;
  our_cookie ← cookie_random;
  server_cookie ← cookie_random;
  let ks := from_private_key (private_key our_ks) in
  let tasks := tasks_new (dummy_task_new 42) in
  signaling ← initiator_signaling_new ks tasks peer_trusted_pubkey None None;
  signaling ← prepare id st hs our_cookie server_cookie server_ks signaling;
  mret (mkTestContext our_ks server_ks our_cookie server_cookie signaling).

Definition test_context_responder (id : ClientIdentity) (st : SignalingState)
    (hs : ServerHandshakeState) (initiator_pubkey : option PublicKey)
    (auth_token : option AuthToken) : Test (TestContext TestResponder) :=
  our_ks ← keypair_new;
  server_ks ← keypair_new;
  our_cookie ← cookie_random;
  server_cookie ← cookie_random;
  let pk := match initiator_pubkey with Some pk => pk | None => mkPublicKey (replicate 32 0) end in
  let ks := from_private_key (private_key our_ks) in
  tasks ← unwrap (add_task (dummy_task_new 42) (tasks_new (dummy_task_new 23)));
  signaling ← responder_signaling_new ks pk auth_token None tasks None;
  signaling ← prepare id st hs our_cookie server_cookie server_ks signaling;
  mret (mkTestContext our_ks server_ks our_cookie server_cookie signaling).

Record TestMsgBuilder := mkTestMsgBuilder {
  tb_msg : Message;
  tb_src : option Address;
  tb_dest : option Address;
}.
Definition test_msg_new (msg : Message) : TestMsgBuilder := mkTestMsgBuilder msg None None.
Definition msg_from (a : Z) (b : TestMsgBuilder) : TestMsgBuilder :=
  mkTestMsgBuilder (tb_msg b) (Some (mkAddress a)) (tb_dest b).
Definition msg_to (a : Z) (b : TestMsgBuilder) : TestMsgBuilder :=
  mkTestMsgBuilder (tb_msg b) (tb_src b) (Some (mkAddress a)).

Definition build_with_csn (cookie : Cookie) (kp : KeyPair) (pubkey : PublicKey)
    (csn : CombinedSequenceSnapshot) (b : TestMsgBuilder) : Test ByteBox :=
  src ← unwrap (expect (E := string) (tb_src b) "Source not set");
  dest ← unwrap (expect (E := string) (tb_dest b) "Destination not set");
  unwrap (obox_encrypt (E := string) (open_box_new (tb_msg b) (nonce_new cookie src dest csn))
    kp pubkey).
Definition build (cookie : Cookie) (kp : KeyPair) (pubkey : PublicKey) (b : TestMsgBuilder)
    : Test ByteBox :=
  csn ← snapshot_random; build_with_csn cookie kp pubkey csn b.
Definition build_from_server {S} (ctx : TestContext S) (b : TestMsgBuilder) : Test ByteBox :=
  build (tc_server_cookie ctx) (tc_server_ks ctx) (public_key (tc_our_ks ctx)) b.
(** [TestMsgBuilder::new(msg).from(src).to(dest)]. *)
Definition message_between (msg : Message) (src dest : Z) : TestMsgBuilder :=
  msg_to dest (msg_from src (test_msg_new msg)).

Module ServerAuthTests.
Definition sent_initiator : Test (TestContext TestInitiator) :=
  test_context_initiator ClientIdentity.Initiator None SignalingState.ServerHandshake
    ServerHandshakeState.ClientInfoSent.
Definition sent_responder (id : ClientIdentity) (token : option AuthToken)
    : Test (TestContext TestResponder) :=
  test_context_responder id SignalingState.ServerHandshake ServerHandshakeState.ClientInfoSent
    None token.

Definition assert_client_info_sent_fail {S} `{!Signaling DummyTask S} (ctx : TestContext S)
    (bbox : ByteBox) (error : SignalingError) : Test unit :=
  _ ← assert_server_state (tc_signaling ctx) ServerHandshakeState.ClientInfoSent;
  '(r, _) ← handle bbox (tc_signaling ctx);
  assert_eq r (Err error).

Definition test_no_identity : Test unit :=
  ctx ← sent_responder ClientIdentity.Unknown None;
  let msg := into_message (server_auth_for_responder (tc_our_cookie ctx) None false) in
  bbox ← build_from_server ctx (message_between msg 0 13);
  let s := tc_signaling ctx in
  _ ← assert_server_state s ServerHandshakeState.ClientInfoSent;
  '(r, s) ← handle bbox s;
  _ ← unwrap r;
  assert_eq (identity (T := DummyTask) s) (ClientIdentity.Responder 13).

(** The initiator refuses the server-auth message [msg], given our cookie. *)
Definition initiator_refuses (msg : Cookie → Test ServerAuth) (error : SignalingError)
    : Test unit :=
  ctx ← sent_initiator;
  msg ← msg (tc_our_cookie ctx);
  bbox ← build_from_server ctx (message_between (into_message msg) 0 1);
  assert_client_info_sent_fail ctx bbox error.

Definition test_your_cookie : Test unit :=
  initiator_refuses (λ _, cookie ← cookie_random; mret (server_auth_for_initiator cookie None []))
    (SignalingError.Protocol
      "Repeated cookie in auth message from server does not match our cookie").

Definition test_initiator_wrong_fields : Test unit :=
  initiator_refuses (λ our_cookie, mret (server_auth_for_responder our_cookie None true))
    (SignalingError.InvalidMessage
      "We're the initiator, but the `initiator_connected` field in the server-auth message is set").

Definition test_initiator_missing_fields : Test unit :=
  initiator_refuses (λ our_cookie, mret (mkServerAuth our_cookie None None None))
    (SignalingError.InvalidMessage "`responders` field in server-auth message not set").

Definition test_initiator_duplicate_fields : Test unit :=
  initiator_refuses (λ our_cookie, mret (server_auth_for_initiator our_cookie None
      [mkAddress 2; mkAddress 3; mkAddress 3]))
    (SignalingError.InvalidMessage
      "`responders` field in server-auth message may not contain duplicates").

Definition test_initiator_invalid_fields : Test unit :=
  initiator_refuses (λ our_cookie, mret (server_auth_for_initiator our_cookie None
      [mkAddress 1; mkAddress 2; mkAddress 3]))
    (SignalingError.InvalidMessage
      "`responders` field in server-auth message may not contain addresses <0x02").

Definition test_initiator_stored_responder : Test unit :=
  ctx ← sent_initiator;
  let msg := into_message (server_auth_for_initiator (tc_our_cookie ctx) None
    [mkAddress 2; mkAddress 3]) in
  bbox ← build_from_server ctx (message_between msg 0 1);
  let s := tc_signaling ctx in
  _ ← assert_server_state s ServerHandshakeState.ClientInfoSent;
  _ ← assert_eq (size (is_responders s)) 0%nat;
  '(r, s) ← handle bbox s;
  _ ← unwrap r;
  _ ← assert_server_state s ServerHandshakeState.Done;
  assert_eq (size (is_responders s)) 2%nat.

Definition test_responder_validate_initiator_connected : Test unit :=
  ctx ← sent_responder (ClientIdentity.Responder 4) None;
  let msg := into_message (mkServerAuth (tc_our_cookie ctx) None None None) in
  bbox ← build_from_server ctx (message_between msg 0 4);
  assert_client_info_sent_fail ctx bbox (SignalingError.InvalidMessage ("We're a responder, but "
    +:+ "the `initiator_connected` field in the server-auth message is not set")).

Definition _server_auth_respond (ctx : TestContext TestResponder) : Test (list HandleAction) :=
  let msg := into_message (mkServerAuth (tc_our_cookie ctx) None None (Some true)) in
  bbox ← build_from_server ctx (message_between msg 0 7);
  let s := tc_signaling ctx in
  _ ← assert_server_state s ServerHandshakeState.ClientInfoSent;
  _ ← assert_eq (ini_handshake_state (rs_initiator s)) InitiatorHandshakeState.New;
  '(r, s) ← handle bbox s;
  actions ← unwrap r;
  _ ← assert_server_state s ServerHandshakeState.Done;
  _ ← assert_eq (ini_handshake_state (rs_initiator s)) InitiatorHandshakeState.KeySent;
  mret actions.

Definition test_respond_initiator_with_token : Test unit :=
  token ← auth_token_new;
  ctx ← sent_responder (ClientIdentity.Responder 7) (Some token);
  actions ← _server_auth_respond ctx;
  _ ← assert_eq (length actions) 3%nat;
  assert_eq (actions !! 2%nat) (Some (HandleAction.Event (Event.ServerHandshakeDone true))).

Definition test_respond_initiator_without_token : Test unit :=
  ctx ← sent_responder (ClientIdentity.Responder 7) None;
  actions ← _server_auth_respond ctx;
  _ ← assert_eq (length actions) 2%nat;
  assert_eq (actions !! 1%nat) (Some (HandleAction.Event (Event.ServerHandshakeDone true))).

Definition test_signaling_state_transition : Test unit :=
  ctx ← sent_responder (ClientIdentity.Responder 7) None;
  let msg := into_message (mkServerAuth (tc_our_cookie ctx) None None (Some false)) in
  bbox ← build_from_server ctx (message_between msg 0 7);
  let s := tc_signaling ctx in
  _ ← assert_server_state s ServerHandshakeState.ClientInfoSent;
  _ ← assert_eq (c_signaling_state (rs_common s)) SignalingState.ServerHandshake;
  '(r, s) ← handle bbox s;
  actions ← unwrap r;
  _ ← assert_server_state s ServerHandshakeState.Done;
  _ ← assert_eq (c_signaling_state (rs_common s)) SignalingState.PeerHandshake;
  assert_eq actions [HandleAction.Event (Event.ServerHandshakeDone false)].

(** [ctx.signaling.server_mut().permanent_key = Some(key)]. *)
Definition set_server_key (key : PublicKey) (ctx : TestContext TestInitiator)
    : TestContext TestInitiator :=
  let s := tc_signaling ctx in
  mkTestContext (tc_our_ks ctx) (tc_server_ks ctx) (tc_our_cookie ctx) (tc_server_cookie ctx)
    (set_server (T := DummyTask)
      (srv_set_permanent_key (Some key) (server (T := DummyTask) s)) s).

Definition _server_public_permanent_key_validate (correct_content : bool)
    : Test (TestContext TestInitiator * ByteBox) :=
  server_permanent_ks1 ← keypair_new;
  ctx ← sent_initiator;
  let ctx := set_server_key (public_key server_permanent_ks1) ctx in
  cs ← snapshot_random;
  let nonce := nonce_new (tc_server_cookie ctx) (mkAddress 0) (mkAddress 1) cs in
  session_key ← unwrap (ok_or (srv_session_key (server (T := DummyTask) (tc_signaling ctx))) tt);
  let unsigned_keys := unsigned_keys_new session_key
    (if correct_content then public_key (tc_our_ks ctx) else mkPublicKey (replicate 32 1)) in
  signed_keys ← unwrap (unsigned_keys_sign (E := string) unsigned_keys server_permanent_ks1
    (public_key (tc_our_ks ctx)) (nonce_clone nonce));
  let msg := into_message (server_auth_for_initiator (tc_our_cookie ctx) (Some signed_keys) []) in
  msg_bytes ← unwrap (to_msgpack (E := string) msg);
  let encrypted := keypair_encrypt (tc_our_ks ctx) msg_bytes (nonce_clone nonce)
    (public_key (tc_server_ks ctx)) in
  mret (ctx, byte_box_new encrypted nonce).

Definition test_server_public_permanent_key_decrypt_failed : Test unit :=
  '(ctx, bbox) ← _server_public_permanent_key_validate true;
  server_permanent_ks2 ← keypair_new;
  let s := tc_signaling (set_server_key (public_key server_permanent_ks2) ctx) in
  _ ← assert_server_state s ServerHandshakeState.ClientInfoSent;
  '(r, s) ← handle bbox s;
  _ ← assert_eq r (Err (SignalingError.Crypto "Could not decrypt signed keys"));
  assert_server_state s ServerHandshakeState.ClientInfoSent.

Definition test_server_public_permanent_key_compare_failed : Test unit :=
  '(ctx, bbox) ← _server_public_permanent_key_validate false;
  let s := tc_signaling ctx in
  _ ← assert_server_state s ServerHandshakeState.ClientInfoSent;
  '(r, s) ← handle bbox s;
  _ ← assert_eq r (Err (SignalingError.Protocol
    "Our public permanent key sent in `signed_keys` is not valid"));
  assert_server_state s ServerHandshakeState.ClientInfoSent.

Definition test_server_public_permanent_key_compare_success : Test unit :=
  '(ctx, bbox) ← _server_public_permanent_key_validate true;
  let s := tc_signaling ctx in
  _ ← assert_server_state s ServerHandshakeState.ClientInfoSent;
  '(r, s) ← handle bbox s;
  _ ← assert (is_ok r);
  assert_server_state s ServerHandshakeState.Done.
End ServerAuthTests.

Module ClientAuthTests.
Definition _test_ping_interval (interval : option Duration) : Test ClientAuth :=
  kp ← keypair_new;
  s ← initiator_signaling_new kp (tasks_new (dummy_task_new 123)) None None interval;
  server_pubkey ← public_key_random;
  cs ← snapshot_random;
  cookie ← cookie_random;
  bbox ← encode (into_message (server_hello_new server_pubkey))
    (nonce_new cookie (mkAddress 0) (mkAddress 0) cs);
  _ ← assert_server_state s ServerHandshakeState.New;
  '(r, s) ← handle bbox s;
  actions ← unwrap r;
  _ ← assert_server_state s ServerHandshakeState.ClientInfoSent;
  match actions with
  | [HandleAction.Reply bs] =>
      decrypted ← unwrap (obox_decrypt bs (c_permanent_keypair (is_common s)) server_pubkey);
      match obox_message decrypted with
      | Message.ClientAuth client_auth => mret client_auth
      | _ => panic "Expected ClientAuth"
      end
  | _ => panic "Unexpected actions"
  end.

Definition test_ping_interval_none : Test unit :=
  client_auth ← _test_ping_interval None;
  assert_eq (ca_ping_interval client_auth) 0.
Definition test_ping_interval_zero : Test unit :=
  client_auth ← _test_ping_interval (Some (mkDuration 0 0));
  assert_eq (ca_ping_interval client_auth) 0.
Definition test_ping_interval_12345 : Test unit :=
  client_auth ← _test_ping_interval (Some (mkDuration 12345 0));
  assert_eq (ca_ping_interval client_auth) 12345.
Definition test_ping_interval_nanos : Test unit :=
  client_auth ← _test_ping_interval (Some (mkDuration 123 45));
  assert_eq (ca_ping_interval client_auth) 123.
End ClientAuthTests.

(** The contexts of the tests of the peer handshake. *)
Definition peer_initiator (trusted : option PublicKey) : Test (TestContext TestInitiator) :=
  test_context_initiator ClientIdentity.Initiator trusted SignalingState.PeerHandshake
    ServerHandshakeState.Done.
Definition peer_responder (id : Z) (pk : option PublicKey) (token : option AuthToken)
    : Test (TestContext TestResponder) :=
  test_context_responder (ClientIdentity.Responder id) SignalingState.PeerHandshake
    ServerHandshakeState.Done pk token.

(** [signaling.responders.insert(addr, responder)], and a lookup. *)
Definition insert_responder (a : Z) (r : ResponderContext) (s : TestInitiator) : TestInitiator :=
  is_set_responders (<[mkAddress a := r]> (is_responders s)) s.
Definition get_responder (a : Z) (s : TestInitiator) : Test ResponderContext :=
  unwrap (ok_or (is_responders s !! mkAddress a) tt).

Module TokenTests.
(** The context with a new responder at address 3, and the box of a message of
    theirs encrypted with the token. *)
Definition token_message (msg_bytes : bytes) : Test (TestInitiator * ByteBox) :=
  ctx ← peer_initiator None;
  responder ← responder_context_new (mkAddress 3) 0;
  let s := insert_responder 3 responder (tc_signaling ctx) in
  cookie ← cookie_random;
  cs ← snapshot_random;
  let nonce := nonce_new cookie (mkAddress 3) (mkAddress 1) cs in
  token ← unwrap (expect (E := string) (auth_token (T := DummyTask) s) "Could not get auth token");
  let encrypted := auth_token_encrypt token msg_bytes (nonce_clone nonce) in
  mret (s, byte_box_new encrypted nonce).

Definition test_token_initiator_validate_public_key : Test unit :=
  '(s, bbox) ← token_message [0x82; 0xa4; 0x74; 0x79; 0x70; 0x65;
    0xa5; 0x74; 0x6f; 0x6b; 0x65; 0x6e; 0xa3; 0x6b; 0x65; 0x79; 0xc4; 0x03; 0x00; 0x01; 0x02];
  '(r, _) ← handle bbox s;
  assert_eq r (Err (SignalingError.Decode ("Cannot decode message payload: "
    +:+ "Decoding error: Could not decode msgpack data: error while decoding value"))).

Definition test_token_initiator_set_public_key : Test unit :=
  pk ← public_key_random;
  msg_bytes ← unwrap (to_msgpack (E := string) (into_message (mkToken pk)));
  '(s, bbox) ← token_message msg_bytes;
  responder ← get_responder 3 s;
  _ ← assert_eq (rsp_handshake_state responder) ResponderHandshakeState.New;
  _ ← assert_eq (rsp_permanent_key responder) None;
  '(r, s) ← handle bbox s;
  actions ← unwrap r;
  responder ← get_responder 3 s;
  _ ← assert_eq (rsp_handshake_state responder) ResponderHandshakeState.TokenReceived;
  _ ← assert_eq (rsp_permanent_key responder) (Some pk);
  assert_eq actions [].
End TokenTests.

Module KeyTests.
Definition test_key_initiator_success : Test unit :=
  ctx ← peer_initiator None;
  peer_permanent_pk ← public_key_random;
  peer_session_pk ← public_key_random;
  cookie ← cookie_random;
  responder ← responder_context_new (mkAddress 3) 0;
  let responder := rsp_set_permanent_key (Some peer_permanent_pk)
    (rsp_set_handshake_state ResponderHandshakeState.TokenReceived responder) in
  bbox ← build cookie (tc_our_ks ctx) peer_permanent_pk
    (message_between (into_message (mkKey peer_session_pk)) 3 1);
  let s := insert_responder 3 responder (tc_signaling ctx) in
  responder ← get_responder 3 s;
  _ ← assert_eq (rsp_handshake_state responder) ResponderHandshakeState.TokenReceived;
  _ ← assert_eq (rsp_session_key responder) None;
  '(r, s) ← handle bbox s;
  actions ← unwrap r;
  responder ← get_responder 3 s;
  _ ← assert_eq (rsp_handshake_state responder) ResponderHandshakeState.KeySent;
  _ ← assert_eq (rsp_session_key responder) (Some peer_session_pk);
  assert_eq (length actions) 1%nat.

Definition test_key_responder_success : Test unit :=
  peer_permanent_pk ← public_key_random;
  peer_session_pk ← public_key_random;
  cookie ← cookie_random;
  ctx ← peer_responder 6 (Some peer_permanent_pk) None;
  let s := tc_signaling ctx in
  _ ← assert_eq (ini_permanent_key (rs_initiator s)) peer_permanent_pk;
  let s := rs_set_initiator
    (ini_set_handshake_state InitiatorHandshakeState.KeySent (rs_initiator s)) s in
  bbox ← build cookie (tc_our_ks ctx) peer_permanent_pk
    (message_between (into_message (mkKey peer_session_pk)) 1 6);
  _ ← assert_eq (ini_handshake_state (rs_initiator s)) InitiatorHandshakeState.KeySent;
  _ ← assert_eq (ini_session_key (rs_initiator s)) None;
  '(r, s) ← handle bbox s;
  actions ← unwrap r;
  _ ← assert_eq (ini_handshake_state (rs_initiator s)) InitiatorHandshakeState.AuthSent;
  _ ← assert_eq (ini_session_key (rs_initiator s)) (Some peer_session_pk);
  assert_eq (length actions) 1%nat.
End KeyTests.

Module AuthTests.
Definition make_responder (a : Z) (state : ResponderHandshakeState) : Test ResponderContext :=
  r ← responder_context_new (mkAddress a) 0;
  pk ← public_key_random;
  mret (rsp_set_session_key (Some pk) (rsp_set_handshake_state state r)).

Definition _auth_msg_prepare_initiator : Test (TestInitiator * ResponderContext) :=
  ctx ← peer_initiator None;
  responder ← make_responder 3 ResponderHandshakeState.KeySent;
  r4 ← make_responder 4 ResponderHandshakeState.New;
  r7 ← make_responder 7 ResponderHandshakeState.KeySent;
  mret (insert_responder 7 r7 (insert_responder 4 r4 (tc_signaling ctx)), responder).

Definition _auth_msg_prepare_responder : Test TestResponder :=
  pk ← public_key_random;
  token ← auth_token_new;
  ctx ← peer_responder 3 (Some pk) (Some token);
  session_key ← public_key_random;
  let s := tc_signaling ctx in
  mret (rs_set_initiator (ini_set_session_key (Some session_key)
    (ini_set_handshake_state InitiatorHandshakeState.AuthSent (rs_initiator s))) s).

Definition _auth_msg_handle_initiator (msg : Auth) (s : TestInitiator)
    (responder : ResponderContext)
    : Test (outcome SignalingError (list HandleAction) * TestInitiator) :=
  cookie ← cookie_random;
  session_key ← unwrap (ok_or (rsp_session_key responder) tt);
  bbox ← build cookie (rsp_keypair responder) session_key (message_between (into_message msg) 3 1);
  handle bbox (is_set_responders (<[rsp_address responder := responder]> (is_responders s)) s).

Definition _auth_msg_handle_responder (msg : Auth) (s : TestResponder)
    : Test (outcome SignalingError (list HandleAction) * TestResponder) :=
  cookie ← cookie_random;
  session_key ← unwrap (ok_or (ini_session_key (rs_initiator s)) tt);
  bbox ← build cookie (ini_keypair (rs_initiator s)) session_key
    (message_between (into_message msg) 1 3);
  handle bbox s.

(** An auth message with a cookie that is not ours. *)
Definition foreign_auth : Test Auth :=
  cookie ← cookie_random;
  builder ← unwrap (add_named_task "dummy" None (responder_auth_new cookie));
  unwrap (responder_auth_build builder).

Definition test_initiator_validate_repeated_cookie : Test unit :=
  '(s, responder) ← _auth_msg_prepare_initiator;
  msg ← foreign_auth;
  '(r, _) ← _auth_msg_handle_initiator msg s responder;
  assert_eq r (Err (SignalingError.Protocol
    "Repeated cookie in auth message from responder 0x03 does not match our cookie")).

Definition test_responder_validate_repeated_cookie : Test unit :=
  s ← _auth_msg_prepare_responder;
  msg ← foreign_auth;
  '(r, _) ← _auth_msg_handle_responder msg s;
  assert_eq r (Err (SignalingError.Protocol
    "Repeated cookie in auth message from initiator does not match our cookie")).

(** The data of tasks that have none. *)
Definition no_data (names : list string) : gmap string (option (gmap string Value)) :=
  list_to_map ((λ name, (name, None)) <$> names).

(** The auth message with the fields given is refused by an initiator, and by a
    responder. *)
Definition initiator_refuses_auth (tasks : option (list string)) (task : option string)
    (names : list string) (error : SignalingError) : Test unit :=
  '(s, responder) ← _auth_msg_prepare_initiator;
  let msg := mkAuth (cookie_ours (rsp_cookie_pair responder)) tasks task (no_data names) in
  '(r, _) ← _auth_msg_handle_initiator msg s responder;
  assert_eq r (Err error).
Definition responder_refuses_auth (tasks : option (list string)) (task : option string)
    (names : list string) (error : SignalingError) : Test unit :=
  s ← _auth_msg_prepare_responder;
  let msg := mkAuth (cookie_ours (ini_cookie_pair (rs_initiator s))) tasks task (no_data names) in
  '(r, _) ← _auth_msg_handle_responder msg s;
  assert_eq r (Err error).

Definition test_initiator_task_field : Test unit :=
  initiator_refuses_auth None (Some "foo") [] (SignalingError.InvalidMessage
    "We're an initiator, but the `task` field in the auth message is set").
Definition test_initiator_tasks_field_missing : Test unit :=
  initiator_refuses_auth None None []
    (SignalingError.InvalidMessage "The `tasks` field in the auth message is not set").
Definition test_initiator_tasks_field_empty : Test unit :=
  initiator_refuses_auth (Some []) None []
    (SignalingError.InvalidMessage "The `tasks` field in the auth message is empty").
Definition test_responder_tasks_field : Test unit :=
  responder_refuses_auth (Some ["asjk"]) None [] (SignalingError.InvalidMessage
    "We're a responder, but the `tasks` field in the auth message is set").
Definition test_responder_task_field_missing : Test unit :=
  responder_refuses_auth None None []
    (SignalingError.InvalidMessage "The `task` field in the auth message is not set").
Definition test_responder_task_field_unknown : Test unit :=
  responder_refuses_auth None (Some "unknown") []
    (SignalingError.Protocol "The `task` field in the auth message contains an unknown task").
Definition test_initiator_data_field_length_mismatch : Test unit :=
  initiator_refuses_auth (Some ["a"; "b"]) None ["a"] (SignalingError.InvalidMessage
    "The `tasks` and `data` fields in the auth message have a different number of entries").
Definition test_responder_data_field_empty : Test unit :=
  responder_refuses_auth None (Some "dummy.42") []
    (SignalingError.Protocol "The `data` field in the auth message is empty").
Definition test_responder_data_field_multiple : Test unit :=
  responder_refuses_auth None (Some "dummy.42") ["a"; "b"]
    (SignalingError.Protocol "The `data` field in the auth message contains more than one entry").
Definition test_initiator_data_field_key_mismatch : Test unit :=
  initiator_refuses_auth (Some ["a"; "b"]) None ["a"; "c"] (SignalingError.InvalidMessage
    ("The task " +:+ dquote +:+ "b" +:+ dquote
     +:+ " in the auth message does not have a corresponding data entry")).
Definition test_responder_data_key_not_found : Test unit :=
  responder_refuses_auth None (Some (dummy_name_for 42)) ["a"] (SignalingError.Protocol
    "The task in the auth message does not have a corresponding data entry").

(** The name of the task and whether the list of tasks is left, of an object. *)
Definition task_chosen {S} `{!SignalingBase DummyTask S} (s : S) : option string * option nat :=
  (task_name <$> c_task (common s), tasks_len <$> c_tasks (common s)).
Definition peer_identity_of {S} `{!SignalingBase DummyTask S} (s : S) : option Identity :=
  match get_peer (T := DummyTask) s with
  | Some (@MkDynPeer _ _ _ peer _) => Some (pc_identity peer)
  | None => None
  end.

Definition test_initiator_choose_task : Test unit :=
  '(s, responder) ← _auth_msg_prepare_initiator;
  let msg := mkAuth (cookie_ours (rsp_cookie_pair responder))
    (Some ["a"; dummy_name_for 42]) None (no_data ["a"; dummy_name_for 42]) in
  _ ← assert_eq (task_chosen s) (None, Some 1%nat);
  _ ← assert_eq (c_signaling_state (is_common s)) SignalingState.PeerHandshake;
  '(r, s) ← _auth_msg_handle_initiator msg s responder;
  actions ← unwrap r;
  _ ← assert_eq (task_chosen s) (Some (dummy_name_for 42), None);
  _ ← assert_eq (size (is_responders s)) 0%nat;
  responder ← unwrap (ok_or (is_responder s) tt);
  _ ← assert_eq (peer_identity_of s) (Some (pc_identity responder));
  _ ← assert_eq (length actions) 4%nat;
  _ ← assert_eq (c_signaling_state (is_common s)) SignalingState.Task;
  assert_eq (rsp_handshake_state responder) ResponderHandshakeState.AuthSent.

Definition test_responder_choose_task : Test unit :=
  s ← _auth_msg_prepare_responder;
  let msg := mkAuth (cookie_ours (ini_cookie_pair (rs_initiator s))) None
    (Some (dummy_name_for 42)) (no_data [dummy_name_for 42]) in
  _ ← assert_eq (task_chosen s) (None, Some 2%nat);
  _ ← assert_eq (c_signaling_state (rs_common s)) SignalingState.PeerHandshake;
  '(r, s) ← _auth_msg_handle_responder msg s;
  actions ← unwrap r;
  _ ← assert_eq (task_chosen s) (Some (dummy_name_for 42), None);
  _ ← assert_eq (peer_identity_of s) (Some (pc_identity (rs_initiator s)));
  _ ← assert_eq actions [HandleAction.HandshakeDone];
  _ ← assert_eq (c_signaling_state (rs_common s)) SignalingState.Task;
  assert_eq (ini_handshake_state (rs_initiator s)) InitiatorHandshakeState.AuthReceived.

(** The builder with the tasks given one after the other. *)
Fixpoint add_named_tasks (tasks : list (string * option (gmap string Value)))
    (builder : ResponderAuthBuilder) : Test ResponderAuthBuilder :=
  match tasks with
  | [] => mret builder
  | (name, data) :: tasks' =>
      builder ← unwrap (add_named_task name data builder); add_named_tasks tasks' builder
  end.
Definition refused_duplicates (tasks : list (string * option (gmap string Value))) : Test unit :=
  cookie ← cookie_random;
  builder ← add_named_tasks tasks (responder_auth_new cookie);
  assert_eq (responder_auth_build builder)
    (Err (SignalingError.InvalidMessage "An `Auth` message may not contain duplicate tasks")).

Definition test_responder_auth_tasks_no_duplicates_simple : Test unit :=
  _ ← refused_duplicates [("dummy1", None); ("dummy1", None)];
  _ ← refused_duplicates [("dummy1", None); ("dummy2", None); ("dummy1", None)];
  refused_duplicates [("dummy1", None); ("dummy1", Some {[ "a" := Value.Integer 1 ]})].
End AuthTests.

(** A message of the server, handled by a client with the given address. *)
Definition handle_from_server {S} `{!Signaling DummyTask S} (ctx : TestContext S) (msg : Message)
    (dest : Z) (s : S) : Test (outcome SignalingError (list HandleAction) * S) :=
  bbox ← build (tc_server_cookie ctx) (tc_server_ks ctx) (public_key (tc_our_ks ctx))
    (message_between msg 0 dest);
  handle bbox s.

Module NewInitiatorTests.
Definition test_handle_as_initiator : Test unit :=
  ctx ← peer_initiator None;
  '(r, _) ← handle_from_server ctx (Message.NewInitiator mkNewInitiator) 1 (tc_signaling ctx);
  assert_eq r (Err (SignalingError.Protocol "Received 'new-responder' message as initiator")).

Definition test_handle_as_responder : Test unit :=
  ctx ← peer_responder 7 None None;
  let s := tc_signaling ctx in
  let old_cookie_pair := ini_cookie_pair (rs_initiator s) in
  let pair := ini_csn_pair (rs_initiator s) in
  _ ← assert_eq (csn_theirs pair) None;
  let s := rs_set_initiator (ini_set_handshake_state InitiatorHandshakeState.AuthSent
    (pc_set_csn_pair (mkCombinedSequencePair (csn_ours pair) (Some (snapshot_new 0 0)))
      (rs_initiator s))) s in
  '(r, s) ← handle_from_server ctx (Message.NewInitiator mkNewInitiator) 7 s;
  actions ← unwrap r;
  _ ← assert_ne old_cookie_pair (ini_cookie_pair (rs_initiator s));
  _ ← assert_eq (csn_theirs (ini_csn_pair (rs_initiator s))) None;
  _ ← assert_ne (ini_handshake_state (rs_initiator s)) InitiatorHandshakeState.AuthSent;
  _ ← assert_eq (length actions) 1%nat;
  assert_eq (ini_handshake_state (rs_initiator s)) InitiatorHandshakeState.KeySent.
End NewInitiatorTests.

Module NewResponderTests.
Definition test_expect_no_token : Test unit :=
  peer_trusted_pk ← public_key_random;
  ctx ← peer_initiator (Some peer_trusted_pk);
  let msg := Message.NewResponder (mkNewResponder (Address.address_from_u8 7)) in
  '(r, s) ← handle_from_server ctx msg 1 (tc_signaling ctx);
  _ ← unwrap r;
  _ ← assert (bool_decide (is_responder s = None));
  responder_cookie ← cookie_random;
  responder ← get_responder 7 s;
  let pair := rsp_cookie_pair responder in
  let responder :=
    pc_set_cookie_pair (mkCookiePair (cookie_ours pair) (Some responder_cookie)) responder in
  let s := insert_responder 7 responder s in
  keypair ← unwrap (expect (E := string) (pc_keypair responder) "No responder keypair");
  bbox ← build responder_cookie keypair (public_key (tc_our_ks ctx))
    (message_between (Message.Token (mkToken peer_trusted_pk)) 7 1);
  '(r, _) ← handle bbox s;
  actions ← unwrap r;
  assert_eq (length actions) 1%nat.

(** The responders [i], [i + 1], ... announce themselves, [n] of them; the
    [expected] number of answers to each of them. *)
Fixpoint announce (ctx : TestContext TestInitiator) (n expected : nat) (i : Z)
    (csn : CombinedSequence) (s : TestInitiator) : Test (CombinedSequence * TestInitiator) :=
  match n with
  | O => mret (csn, s)
  | Datatypes.S n' =>
      let '(r, csn) := increment csn in
      css ← unwrap r;
      bbox ← build_with_csn (tc_server_cookie ctx) (tc_server_ks ctx)
        (public_key (tc_our_ks ctx)) css
        (message_between (Message.NewResponder (mkNewResponder (Address.address_from_u8 i))) 0 1);
      '(r, s) ← handle bbox s;
      actions ← unwrap r;
      _ ← assert_eq (length actions) expected;
      announce ctx n' expected (i + 1) csn s
  end.

Definition test_path_cleaning : Test unit :=
  ctx ← peer_initiator None;
  csn ← csn_random;
  '(csn, s) ← announce ctx 252 0 2 csn (tc_signaling ctx);
  _ ← announce ctx 1 1 255 csn s;
  mret tt.
End NewResponderTests.

Module DisconnectedTests.
Definition disconnected (id : ClientIdentity) : Test Message :=
  a ← unwrap (ClientIdentity.address_from_client_identity (E := string) id);
  mret (Message.Disconnected (disconnected_new a)).

Definition test_disconnected_during_server_auth : Test unit :=
  ctx ← ServerAuthTests.sent_initiator;
  msg ← disconnected (ClientIdentity.Responder 3);
  '(r, _) ← handle_from_server ctx msg 1 (tc_signaling ctx);
  assert_eq r (Err (SignalingError.InvalidStateTransition
    "Got 'disconnected' message from server in ClientInfoSent state")).

Definition test_disconnected_initiator_invalid_id : Test unit :=
  ctx ← peer_initiator None;
  msg ← disconnected ClientIdentity.Initiator;
  '(r, _) ← handle_from_server ctx msg 1 (tc_signaling ctx);
  assert_eq r
    (Err (SignalingError.Protocol "Received 'disconnected' message with non-responder id")).

Definition test_disconnected_responder_invalid_id : Test unit :=
  ctx ← peer_responder 3 None None;
  msg ← disconnected (ClientIdentity.Responder 7);
  '(r, _) ← handle_from_server ctx msg 3 (tc_signaling ctx);
  assert_eq r
    (Err (SignalingError.Protocol "Received 'disconnected' message with non-initiator id")).

Definition notified (ctx : TestContext TestInitiator) : Test unit :=
  msg ← disconnected (ClientIdentity.Responder 7);
  '(r, _) ← handle_from_server ctx msg 1 (tc_signaling ctx);
  assert_eq r (Ok [HandleAction.Event (Event.Disconnected 7)]).

Definition test_disconnected_notify_user : Test unit := ctx ← peer_initiator None; notified ctx.

Definition test_disconnected_in_task_signaling_state : Test unit :=
  ctx ← test_context_initiator ClientIdentity.Initiator None SignalingState.Task
    ServerHandshakeState.Done;
  notified ctx.
End DisconnectedTests.

Module RegressionTests.
Definition test_ignore_in_flight_responder_message : Test unit :=
  ctx ← peer_initiator None;
  responder_ks ← keypair_new;
  cookie ← cookie_random;
  bbox ← build cookie responder_ks (public_key (tc_our_ks ctx))
    (message_between (Message.Close (close_from_close_code CloseCode.NoSharedTask)) 3 1);
  '(r, _) ← handle bbox (tc_signaling ctx);
  actions ← unwrap r;
  assert_eq (length actions) 0%nat.
End RegressionTests.

(** ** All of them *)

Definition protocol_tests : list (Test unit) := [
  ModTests.test_responder_counter; ModTests.test_responder_counter_overflow;
  ModTests.test_peer_sequence_number_no_peer; ModTests.test_peer_sequence_number_with_peer;
  ModTests.test_encrypt_decrypt_raw_with_session_keys_no_peer;
  ModTests.test_encrypt_raw_with_session_keys_with_peer;
  ModTests.test_decrypt_raw_with_session_keys_with_peer;
  ValidateNonceTests.test_first_message_wrong_destination;
  ValidateNonceTests.test_wrong_source_initiator; ValidateNonceTests.test_wrong_source_responder;
  ValidateNonceTests.test_first_message_bad_overflow_number;
  ValidateNonceTests.test_sequence_number_not_incremented;
  ValidateNonceTests.test_sequence_number_decremented;
  ValidateNonceTests.test_sequence_number_reset; ValidateNonceTests.test_cookie_differs_from_own;
  ValidateNonceTests.test_cookie_did_not_change;
  ServerAuthTests.test_no_identity; ServerAuthTests.test_your_cookie;
  ServerAuthTests.test_initiator_wrong_fields; ServerAuthTests.test_initiator_missing_fields;
  ServerAuthTests.test_initiator_duplicate_fields; ServerAuthTests.test_initiator_invalid_fields;
  ServerAuthTests.test_initiator_stored_responder;
  ServerAuthTests.test_responder_validate_initiator_connected;
  ServerAuthTests.test_respond_initiator_with_token;
  ServerAuthTests.test_respond_initiator_without_token;
  ServerAuthTests.test_signaling_state_transition;
  ServerAuthTests.test_server_public_permanent_key_decrypt_failed;
  ServerAuthTests.test_server_public_permanent_key_compare_failed;
  ServerAuthTests.test_server_public_permanent_key_compare_success;
  ClientAuthTests.test_ping_interval_none; ClientAuthTests.test_ping_interval_zero;
  ClientAuthTests.test_ping_interval_12345; ClientAuthTests.test_ping_interval_nanos;
  TokenTests.test_token_initiator_validate_public_key;
  TokenTests.test_token_initiator_set_public_key;
  KeyTests.test_key_initiator_success; KeyTests.test_key_responder_success;
  AuthTests.test_initiator_validate_repeated_cookie;
  AuthTests.test_responder_validate_repeated_cookie; AuthTests.test_initiator_task_field;
  AuthTests.test_initiator_tasks_field_missing; AuthTests.test_initiator_tasks_field_empty;
  AuthTests.test_responder_tasks_field; AuthTests.test_responder_task_field_missing;
  AuthTests.test_responder_task_field_unknown;
  AuthTests.test_initiator_data_field_length_mismatch; AuthTests.test_responder_data_field_empty;
  AuthTests.test_responder_data_field_multiple; AuthTests.test_initiator_data_field_key_mismatch;
  AuthTests.test_responder_data_key_not_found; AuthTests.test_initiator_choose_task;
  AuthTests.test_responder_choose_task; AuthTests.test_responder_auth_tasks_no_duplicates_simple;
  NewInitiatorTests.test_handle_as_initiator; NewInitiatorTests.test_handle_as_responder;
  NewResponderTests.test_expect_no_token; NewResponderTests.test_path_cleaning;
  DisconnectedTests.test_disconnected_during_server_auth;
  DisconnectedTests.test_disconnected_initiator_invalid_id;
  DisconnectedTests.test_disconnected_responder_invalid_id;
  DisconnectedTests.test_disconnected_notify_user;
  DisconnectedTests.test_disconnected_in_task_signaling_state;
  RegressionTests.test_ignore_in_flight_responder_message].

(** Every one of these tests passes on the model, at four starting points of the
    entropy source (at none of which it draws the key of the all-ones bytes that
    one test takes for a foreign key). *)
Theorem protocol_tests_pass :
  forallb (λ w, forallb (passes w) protocol_tests) [0; 1; 100; 200] = true.
Proof. by vm_compute. Qed.
